(* ===== verification/_CoqProject ===== *)
-Q . S2P
Prelude.v
Errors.v
Effects.v
Buf.v
Config.v
StreamType.v
Frames.v
FrameFacts.v
FrameSafety.v
FrameProps.v
Packet.v
PacketFacts.v
PacketNumber.v
HeaderProtection.v
Bitmap.v
ReplayWindow.v
AckTracker.v
Unacked.v
StreamBuffer.v
RangeFacts.v
BufferFacts.v
BufferProps.v
Cookie.v
KeyDerivation.v
CryptoContext.v
CryptoFacts.v
Float.v
FloatFacts.v
FloatRange.v
Termination.v
Congestion.v
CongestionFacts.v
Connection.v
AckHandling.v
AckFacts.v
Actor.v
ActFacts.v
StreamHandle.v
StreamWrites.v
StreamReads.v
StreamSends.v
PacketSender.v
Retransmit.v
Utf8.v
HandshakeHandler.v
ConnFrame.v
IncomingHandler.v
EventLoop.v
Engine.v
StreamView.v
Endpoint.v
ServerHandshake.v
Router.v
Sockets.v
ActorRun.v
EndpointProps.v
RetryOnce.v
Pipeline.v
HandshakeFacts.v
WireSafety.v
SoundState.v
SoundConn.v
SoundSends.v
HandshakeProps.v
Amplification.v
Reliability.v
LossRecovery.v
StreamDelivery.v
Resources.v
StreamReopen.v
SoundStreams.v
SoundFrames.v
SoundRun.v
SoundEndpoint.v
OwnStreams.v
EndToEnd.v
SocketProps.v
Loops.v
Testing.v
UnitTests.v
