(* ===== verification/Prelude.v ===== *)
(** * ZettaTransport: a verification development (root file)

    ZettaTransport is an encrypted, multiplexed transport over UDP.  An endpoint owns a socket;
    its routers pass each datagram to the task of a connection (an "actor"), or start a
    handshake with a new client.  The actor of a connection owns all its state and is driven by a
    loop over packets, requests of the application and timers.  The application
    holds handles of streams and connections, which talk to the actor over channels.

    ** How the code is modelled

    Integers are [Z] with their width written out ([wrap], [sat_add], [sat_sub], [checked_add];
    [usize] is 64 bits), bytes are lists of [Z], durations and instants are nanoseconds, [f64] is
    [SpecFloat].  A fallible function returns [res]: [Ok], [Err] with the error of the code, or
    [Panic].  A method of an object with state is a state transformer ([Effects.stm]); after
    an early return or an error the state keeps the changes made so far, as in the code.
    Loops are structural, or have fuel; an exhausted fuel is [Panic], and theorems exclude it.
    Third-party code is a parameter, a type class: the [bytes] crate ([Buf.BytesCrate]), HKDF,
    AEAD, ChaCha20, HMAC, SHA-256, Ed25519, X25519, and [powi]/[cbrt] ([Float.Libm]).  What
    proofs need of it is a second class of laws that state its documented behaviour, and each
    has a model that satisfies them, with which the examples are evaluated.  The clock, random numbers,
    the socket and the channels of the runtime are oracles indexed by the number of the question
    ([Actor.Env], [Endpoint.EndpointEnv], [StreamHandle.StreamEnv], [Sockets.SystemEnv]), over which theorems quantify.

    ** The parts

    Foundations.  [Prelude] (integers, byte strings, lists, record updates, tactics), [Errors]
    (error.rs), [Effects] (state transformers and their calculus: [preserves] for invariants,
    [leads] for changes of one, [survives] for what holds unless a panic occurs, [runs] for both an
    invariant and the absence of panics), [Buf] (buffers).

    Protocol (src/src/protocol).  [Frames] is frame.rs: every frame's encoder and decoder; [FrameFacts],
    [FrameSafety] and [FrameProps] show the round trip of frame lists, that the decoder never
    panics and always makes progress, and that valid configurations give parameters a peer accepts.
    [Packet] is packet.rs and routing.rs; [PacketFacts] shows the header round trip and that the router's shortcuts
    agree with the decoder.  [PacketNumber] is packet_number.rs.  [Config] is config.rs,
    [StreamType] the stream directions.

    Cryptography (src/src/crypto).  [KeyDerivation], [CryptoContext], [HeaderProtection], and the key
    pairs in [HandshakeHandler].  [CryptoFacts]: two ends of one key exchange understand
    each other across key updates, and nothing of a secret is left in a context that was dropped.
    [Engine] has the trait [CryptoEngine] as a class, its contract for two paired engines, the context as an
    instance, and a client verified against the contract: a receiver follows the rotations of the
    sender's keys by the phase bits of the packets that arrive.

    Connection state (src/src/transport).  [Bitmap] is the 2048-bit window of [ReplayWindow] and [AckTracker];
    [Unacked] the packets in flight, a deque that behaves as a map; [StreamBuffer] the ring buffer of a
    stream ([RangeFacts], [BufferFacts], [BufferProps]: in-order delivery, exact accounting).
    [Float], [FloatFacts], [Congestion], [CongestionFacts] are the congestion controllers and their bounds;
    [FloatRange] the ranges in which operations on doubles and durations do not fail.
    [Connection] is connection.rs and state/*.rs; [AckHandling] and [AckFacts] are [handle_ack]:
    an acknowledgement loses no reliable payload.  [Termination] is termination.rs,
    [Cookie] the retry cookies: exact acceptance, and the ambiguity between address families.

    The actor (src/src/transport/actor).  [Actor] is its state (mod.rs); [PacketSender] and [Retransmit] are
    packet_sender.rs, [IncomingHandler] and [Utf8] incoming_handler.rs, [HandshakeHandler]
    handshake_handler.rs, [EventLoop] event_loop.rs: [turn] handles one event, [round] a pass of the loop, [run] a list of
    events from the start of the task.  [ActFacts], [ConnFrame] and [StreamView] are the
    frame rules: what a method leaves alone.  Theorems over whole runs or single turns:
    [Pipeline] (a payload that is sent is handled by the peer's frame handler), [Amplification] (a server sends an
    unproven address at most three times what it received), [Reliability] and [LossRecovery] (a reliable
    payload stays queued or in flight until it is acknowledged), [StreamDelivery] (what
    the application gets of the streams that are watched is a prefix of what the peer sent on them), [StreamReopen] (a frame of
    a stream that was closed opens it again), [Resources] (memory and streams a peer
    can make a connection hold), [Loops] (the fuel of the pacing loop is enough).  [ActorRun] has the sample environment and actors of the examples.

    The endpoint (src/src/transport/endpoint.rs, handshake.rs, src/src/stream/connection_handle.rs).  [Endpoint] is its
    state: routing table, replay filter, accept queue, permits, the spawned tasks and the routers'
    caches.  [ServerHandshake] is handshake.rs, cut into the part before and the part after the
    claim of the cookie, since other tasks run in between; [Router] has the routers, the tasks and the calls of the
    application, and [serve], one step of any of them: a run is any interleaving of such steps.
    [Sockets] has the sockets [bind_with_zt_config] opens, call by call, and the loop in which a router receives;
    [SocketProps]: one router per core is started, and its loop is a run of the endpoint until its task returns.
    [EndpointProps]: packets reach only the connection they name, and how many connections
    and handshakes there can be.  [RetryOnce]: a cookie opens one connection.  [HandshakeFacts] and
    [HandshakeProps]: the whole handshake, from the client's first packet to keys both ends share.

    Type safety, of the actor and the endpoint together.  [SoundState] is the invariant [sound]: lengths of
    identifiers and keys, receive buffers in shape and within the configured window, payloads in flight that can be
    sent again, clocks and sizes in range.  [WireSafety]: packets are built, protected, opened and split without a panic.
    [SoundConn] (acknowledgements and losses), [SoundSends] (the senders), [SoundStreams] (stream data), [SoundFrames] (frames and
    packets), [SoundRun] (the event loop) and [SoundEndpoint] (routers, handshakes, tasks and calls) show that every
    operation keeps it.  The theorem: routers, handshakes and timers never panic, and a datagram makes a connection's task
    panic exactly when it is taken for a Retry packet by a server, which has no key to answer it with.  Left out is the wait of
    the pacing ([from_secs_f64]), which panics should the congestion window be 0.

    End to end.  [sound] has a ledger, [SoundState.Ledger]: a stream of the actor's own and the bytes its application has written
    to it, of which every payload of that stream, queued or in flight, is a piece at the offset it carries.  [OwnStreams]: ids are
    given to streams once, and a turn extends the ledger by the write it accepts.  [EndToEnd] is two actors and a network: the steps
    of [EndToEnd.step] are turns of either, and a delivery of anything the network has taken.  The theorem
    joins the ledger of the one and [StreamDelivery] of the other: what is given to one application is a prefix of what the
    other wrote.

    The application's side (src/src/stream).  [StreamHandle] is stream.rs: a handle and its write state machine.
    [StreamWrites], [StreamReads], [StreamSends]: accepted bytes are sent in order and once,
    delivered bytes are read in order, the credit is exact, and when a [Pending] is followed by a
    wake-up; the two cases in which the code loses data or a wake-up are theorems too.

    Tests (src/src/simulation.rs, lib.rs).  [Testing]: injected faults and the fuzzing entry point.  [UnitTests]: the test
    modules of the sources, run on the definitions; those of the cryptography with toy primitives.  The two
    fuzzing tests are proved to pass over all their rounds, the others are evaluated.

    ** Fuel

    Frame loops have one unit per byte of the payload ([FrameProps.decode_loop_total]: each frame
    takes a byte).  The delivery loop has one more than the number of received ranges, since each turn uses up one
    ([StreamDelivery.deliver_loop_spec]).  The pacing loop has the length of its queue ([Loops.pacing_fuel]).  The copy loops of the ring buffer
    have the length of the data ([BufferFacts.copy_loop_spec]).  The loops of the stream handle wait for
    the actor: their fuel is the number of answers, and [StreamSends.send_exact] shows that finitely many refusals
    are enough.

    ** Not modelled

    The scheduler of the runtime, except as an arbitrary choice of the next step; builds for other systems than
    Unix; logging and [Display]; the
    futures a waker is registered with, except that registration; the timer of a delayed packet in a simulated
    network; the integration tests, benchmarks and examples beside src/src, which use the crate from outside.  A poisoned lock, and numbers of questions beyond any bound, do not occur. *)

From stdpp Require Export prelude list list_numbers gmap.
From Stdlib Require Export ZArith Lia.

#[export] Set Default Goal Selector "!".
#[export] Set Warnings "-clear-no-such-hyp".

Open Scope Z_scope.

(** ** Bytes and machine integers

    A [u8]/[u16]/[u32]/[u64]/[usize] value is a [Z] in range; [usize] is 64 bits
    wide.  A byte string is a list of such [u8] values. *)

Abbreviation bytes := (list Z).

Definition byte_ok (b : Z) : Prop := 0 ≤ b < 256.
Abbreviation bytes_ok := (Forall byte_ok).

Definition u_max (w : Z) : Z := 2 ^ w - 1.
Definition u_ok (w x : Z) : Prop := 0 ≤ x < 2 ^ w.
Definition wrap (w x : Z) : Z := x mod 2 ^ w.
Definition sat_sub (x y : Z) : Z := Z.max 0 (x - y).
Definition sat_add (w x y : Z) : Z := Z.min (u_max w) (x + y).
Definition checked_add (w x y : Z) : option Z :=
  if x + y <? 2 ^ w then Some (x + y) else None.

(** The length of a list as the [usize] the code computes with. *)
Definition len {A} (l : list A) : Z := Z.of_nat (length l).
(** An array [[u8; n]]. *)
Definition array_ok (n : Z) (b : bytes) : Prop := bytes_ok b ∧ len b = n.

(** Big-endian encoding of an unsigned integer in [n] bytes, and back. *)
Fixpoint be_bytes (n : nat) (v : Z) : bytes :=
  match n with
  | O => []
  | S n' => (v / 256 ^ Z.of_nat n') mod 256 :: be_bytes n' v
  end.

Definition be_val (bs : bytes) : Z := foldl (λ acc b, 256 * acc + b) 0 bs.

(** ** Tactics *)

(** Case analysis on the boolean comparisons of the code. *)
Ltac case_bools :=
  repeat match goal with
  | |- context [if ?b then _ else _] => lazymatch b with
    | context [if _ then _ else _] => fail
    | context [match _ with _ => _ end] => fail
    | _ => let E := fresh "E" in destruct b eqn:E
    end
  | H : context [if ?b then _ else _] |- _ => lazymatch b with
    | context [if _ then _ else _] => fail
    | context [match _ with _ => _ end] => fail
    | _ => let E := fresh "E" in destruct b eqn:E
    end
  end.

(** Turn boolean comparison facts into the propositions they decide. *)
Ltac to_prop :=
  repeat match goal with
  | H : (_ && _)%bool = true |- _ => apply andb_true_iff in H; destruct H
  | H : (_ || _)%bool = false |- _ => apply orb_false_iff in H; destruct H
  | H : (_ || _)%bool = true |- _ => apply orb_true_iff in H
  | H : (_ && _)%bool = false |- _ => apply andb_false_iff in H
  | H : negb _ = true |- _ => apply negb_true_iff in H
  | H : negb _ = false |- _ => apply negb_false_iff in H
  | H : (_ <? _) = true |- _ => apply Z.ltb_lt in H
  | H : (_ <? _) = false |- _ => apply Z.ltb_ge in H
  | H : (_ <=? _) = true |- _ => apply Z.leb_le in H
  | H : (_ <=? _) = false |- _ => apply Z.leb_gt in H
  | H : (_ =? _) = true |- _ => apply Z.eqb_eq in H
  | H : (_ =? _) = false |- _ => apply Z.eqb_neq in H
  end.

(** Make sure the powers of two that bound the machine widths are numerals. *)
Ltac widths :=
  unfold u_ok, wrap, sat_sub, sat_add, checked_add, byte_ok in *; unfold u_max in *;
  change (2 ^ 8) with 256 in *;
  change (2 ^ 16) with 65536 in *;
  change (2 ^ 32) with 4294967296 in *;
  change (2 ^ 64) with 18446744073709551616 in *.

Ltac mlia := widths; lia.

(** Linear arithmetic with division and modulo by constants. *)
Ltac div_lia := Z.to_euclidean_division_equations; lia.

(** Closed facts about concrete data: conjunctions, [Forall] over a literal list and
    comparisons of numerals, under definitions that [hnf] unfolds. *)
Ltac closed :=
  lazymatch goal with
  | |- True => exact I
  | |- Forall _ [] => apply Forall_nil_2
  | |- Forall _ (_ :: _) => apply Forall_cons; split; closed
  | |- _ ∧ _ => split; closed
  | |- _ ≤ _ => by vm_compute
  | |- _ < _ => by vm_compute
  | |- _ = _ => by vm_compute
  | |- _ ≠ _ => by vm_compute
  | |- _ → _ => let H := fresh in intro H; first [discriminate H | closed]
  | |- ∀ _, _ => intros ?; closed
  | |- Forall ?P ?l => let l' := eval hnf in l in progress change (Forall P l'); closed
  | |- ?G => let G' := eval hnf in G in progress change G'; closed
  end.

(** ** Functional update of record fields

    [upd proj f r] is [r] with the field [proj] replaced by [f (proj r)].
    The instances are found by destructing the record once, with [derive_upd]. *)

Class Upd {R F : Type} (proj : R → F) := upd : (F → F) → R → R.
Arguments upd {R F} proj {_} _ _ /.

Definition upd_result {R : Type} (r : R) : Type := R.

Ltac derive_upd proj :=
  let f := fresh "f" in let r := fresh "r" in
  intros f r;
  change (upd_result r); destruct r;
  lazymatch goal with
  | |- upd_result ?T =>
      let x := eval cbn in (proj T) in
      let g := eval pattern x in T in
      lazymatch g with ?h _ => let t := eval cbv beta in (h (f x)) in exact t end
  end.

Declare Scope upd_scope.
Delimit Scope upd_scope with upd.
Open Scope upd_scope.
Notation "r <| p := v |>" := (upd p (λ _, v) r)
  (at level 1, left associativity, format "r  <| p  :=  v |>") : upd_scope.
Notation "r <| p ::= f |>" := (upd p f r)
  (at level 1, left associativity, format "r  <| p  ::=  f |>") : upd_scope.

(** ** Lengths *)

Lemma len_nonneg {A} (l : list A) : 0 ≤ len l.
Proof. unfold len; lia. Qed.
Lemma len_nil {A} : len (@nil A) = 0.
Proof. done. Qed.
Lemma len_cons {A} (x : A) l : len (x :: l) = 1 + len l.
Proof. unfold len; simpl; lia. Qed.
Lemma len_app {A} (l k : list A) : len (l ++ k) = len l + len k.
Proof. unfold len; rewrite length_app; lia. Qed.
Lemma len_replicate {A} n (x : A) : len (replicate n x) = Z.of_nat n.
Proof. unfold len; by rewrite length_replicate. Qed.
Lemma len_take {A} n (l : list A) : len (take n l) = Z.min (Z.of_nat n) (len l).
Proof. unfold len; rewrite length_take; lia. Qed.
Lemma len_drop {A} n (l : list A) : len (drop n l) = Z.max 0 (len l - Z.of_nat n).
Proof. unfold len; rewrite length_drop; lia. Qed.
Lemma len_insert {A} i (x : A) l : len (<[i:=x]> l) = len l.
Proof. unfold len; by rewrite length_insert. Qed.
Lemma len_fmap {A B} (f : A → B) l : len (f <$> l) = len l.
Proof. unfold len; by rewrite length_fmap. Qed.
Lemma len_0_nil {A} (l : list A) : len l = 0 → l = [].
Proof. destruct l; [done|]. rewrite len_cons. pose proof (len_nonneg l); lia. Qed.

Lemma len_be_bytes n v : len (be_bytes n v) = Z.of_nat n.
Proof. induction n; simpl; rewrite ?len_cons, ?len_nil; lia. Qed.

Create Rewrite HintDb len.
#[export] Hint Rewrite @len_nil @len_cons @len_app @len_replicate @len_take @len_drop
  @len_insert @len_fmap len_be_bytes : len.

Lemma filter_all {A} (P : A → Prop) `{∀ x, Decision (P x)} l : Forall P l → filter P l = l.
Proof. induction 1 as [|x l HP _ IH]; [done|]. by rewrite filter_cons_True, IH. Qed.
Lemma filter_none {A} (P : A → Prop) `{∀ x, Decision (P x)} l :
  Forall (λ x, ¬ P x) l → filter P l = [].
Proof. induction 1 as [|x l HP _ IH]; [done|]. by rewrite filter_cons_False. Qed.

(** Arithmetic on lengths: normalise them and call [lia]. *)
Ltac len_lia :=
  autorewrite with len in *;
  repeat match goal with
  | |- context [len ?l] => lazymatch goal with
    | _ : 0 ≤ len l |- _ => fail
    | _ => pose proof (len_nonneg l)
    end
  | H : context [len ?l] |- _ => lazymatch goal with
    | _ : 0 ≤ len l |- _ => fail
    | _ => pose proof (len_nonneg l)
    end
  end; lia.

(** Splitting a list that is long enough. *)
Lemma take_drop_len {A} (n : nat) (l : list A) :
  Z.of_nat n ≤ len l → ∃ k r, l = k ++ r ∧ length k = n ∧ take n l = k ∧ drop n l = r.
Proof.
  intros H. exists (take n l), (drop n l).
  rewrite take_drop, length_take. unfold len in H. repeat split; lia.
Qed.

(** ** Big-endian integers *)

Lemma pow256_pos n : 0 < 256 ^ Z.of_nat n.
Proof. apply Z.pow_pos_nonneg; lia. Qed.

Lemma foldl_be_bytes n acc v :
  foldl (λ a b, 256 * a + b) acc (be_bytes n v)
  = acc * 256 ^ Z.of_nat n + v mod 256 ^ Z.of_nat n.
Proof.
  revert acc. induction n as [|n IH]; intros acc; simpl be_bytes.
  { cbn [foldl]. change (256 ^ Z.of_nat 0) with 1. rewrite Z.mod_1_r. lia. }
  cbn [foldl]. rewrite IH. pose proof (pow256_pos n).
  replace (256 ^ Z.of_nat (S n)) with (256 ^ Z.of_nat n * 256)
    by (rewrite Nat2Z.inj_succ, Z.pow_succ_r by lia; lia).
  rewrite (Z.rem_mul_r v) by lia. nia.
Qed.

Lemma be_val_be_bytes n v : be_val (be_bytes n v) = v mod 256 ^ Z.of_nat n.
Proof. unfold be_val. rewrite foldl_be_bytes. lia. Qed.

Lemma length_be_bytes n v : length (be_bytes n v) = n.
Proof. pose proof (len_be_bytes n v). unfold len in *. lia. Qed.

Lemma be_val_be_bytes_id n v :
  0 ≤ v < 256 ^ Z.of_nat n → be_val (be_bytes n v) = v.
Proof. intros. rewrite be_val_be_bytes, Z.mod_small; lia. Qed.

Lemma foldl_be_acc acc bs :
  foldl (λ a b, 256 * a + b) acc bs
  = acc * 256 ^ len bs + foldl (λ a b, 256 * a + b) 0 bs.
Proof.
  revert acc. induction bs as [|b bs IH]; intros acc.
  { cbn [foldl]. rewrite len_nil. lia. }
  cbn [foldl]. rewrite (IH (256 * acc + b)), (IH (256 * 0 + b)), len_cons.
  rewrite Z.pow_add_r, Z.pow_1_r by (pose proof (len_nonneg bs); lia). nia.
Qed.

Lemma be_val_cons b bs : be_val (b :: bs) = b * 256 ^ len bs + be_val bs.
Proof. unfold be_val. cbn [foldl]. rewrite foldl_be_acc. lia. Qed.

Lemma be_val_app xs ys : be_val (xs ++ ys) = be_val xs * 256 ^ len ys + be_val ys.
Proof. unfold be_val. rewrite foldl_app. apply foldl_be_acc. Qed.

Lemma be_val_bound bs : bytes_ok bs → 0 ≤ be_val bs < 256 ^ len bs.
Proof.
  induction 1 as [|b bs Hb _ IH]; [done|].
  rewrite be_val_cons, len_cons, Z.pow_add_r, Z.pow_1_r by (pose proof (len_nonneg bs); lia).
  unfold byte_ok in Hb.
  assert (0 < 256 ^ len bs) by (apply Z.pow_pos_nonneg; [lia|apply len_nonneg]). nia.
Qed.

Lemma be_bytes_ok n v : bytes_ok (be_bytes n v).
Proof.
  induction n; simpl; constructor; [|done].
  unfold byte_ok. apply Z.mod_pos_bound. lia.
Qed.

Lemma be_bytes_mod n v : be_bytes n (v mod 256 ^ Z.of_nat n) = be_bytes n v.
Proof.
  cut (∀ m, (n ≤ m)%nat → be_bytes n (v mod 256 ^ Z.of_nat m) = be_bytes n v); [eauto|].
  induction n as [|n IH]; intros m Hm; [done|]. simpl. rewrite IH by lia. f_equal.
  pose proof (pow256_pos n). pose proof (pow256_pos (m - S n)).
  replace (Z.of_nat m) with (Z.of_nat n + (1 + Z.of_nat (m - S n))) by lia.
  rewrite !Z.pow_add_r, Z.pow_1_r by lia.
  rewrite (Z.rem_mul_r v) by lia.
  rewrite (Z.add_comm (v mod _)), (Z.mul_comm (256 ^ Z.of_nat n)), Z.div_add_l by lia.
  rewrite (Z.div_small (v mod _)) by (apply Z.mod_pos_bound; lia).
  rewrite Z.add_0_r, (Z.rem_mul_r _ 256) by lia.
  rewrite (Z.mul_comm 256 (_ mod _)), Z.mod_add by lia. apply Z.mod_mod; lia.
Qed.

Lemma be_bytes_be_val bs : bytes_ok bs → be_bytes (length bs) (be_val bs) = bs.
Proof.
  induction 1 as [|b bs Hb Hbs IH]; [done|]. simpl. unfold byte_ok in Hb.
  pose proof (be_val_bound bs Hbs) as Hv. unfold len in Hv.
  rewrite be_val_cons. unfold len. f_equal.
  - rewrite Z.div_add_l, (Z.div_small (be_val bs)), Z.add_0_r by lia.
    apply Z.mod_small; lia.
  - rewrite <- (be_bytes_mod (length bs)), Z.add_comm, Z.mod_add by lia.
    by rewrite be_bytes_mod.
Qed.

Lemma be_bytes_inj n x y :
  0 ≤ x < 256 ^ Z.of_nat n → 0 ≤ y < 256 ^ Z.of_nat n →
  be_bytes n x = be_bytes n y → x = y.
Proof.
  intros Hx Hy E. rewrite <- (be_val_be_bytes_id n x), <- (be_val_be_bytes_id n y), E; done.
Qed.

(** ** Bit masks *)

Lemma land_low_mask x k : 0 ≤ k → Z.land x (2 ^ k - 1) = x mod 2 ^ k.
Proof. intros. by rewrite <- Z.land_ones, Z.ones_equiv by lia. Qed.

Lemma lor_disjoint x k n :
  0 ≤ k → 0 ≤ n → 0 ≤ x < 2 ^ k → Z.lor x (n * 2 ^ k) = x + n * 2 ^ k.
Proof.
  intros Hk Hn Hx.
  assert (Z.land x (n * 2 ^ k) = 0) as L.
  { apply Z.bits_inj'. intros i Hi. rewrite Z.land_spec, Z.bits_0.
    destruct (decide (i < k)).
    - by rewrite Z.mul_pow2_bits_low, andb_false_r by lia.
    - destruct (Z.eq_dec x 0) as [->|]; [by rewrite Z.bits_0|].
      rewrite (Z.bits_above_log2 x i); [done|lia|].
      assert (Z.log2 x < k); [|lia]. apply Z.log2_lt_pow2; lia. }
  pose proof (Z.lor_ldiff_and x (n * 2 ^ k)).
  rewrite <- Z.lxor_lor by done. by rewrite <- Z.add_nocarry_lxor.
Qed.

(** A bit above the width of a number is clear. *)
Lemma testbit_above x k i : 0 ≤ x < 2 ^ k → k ≤ i → Z.testbit x i = false.
Proof.
  intros Hx Hi. destruct (Z.eq_dec x 0) as [->|]; [apply Z.bits_0|].
  destruct (decide (0 ≤ k)); [|rewrite Z.pow_neg_r in Hx; lia].
  apply Z.bits_above_log2; [lia|].
  enough (Z.log2 x < k) by lia. apply Z.log2_lt_pow2; lia.
Qed.

Lemma bounded_by_bits x k :
  0 ≤ k → 0 ≤ x → (∀ i, k ≤ i → Z.testbit x i = false) → x < 2 ^ k.
Proof.
  intros Hk Hx H. destruct (Z.eq_dec x 0) as [->|]; [apply Z.pow_pos_nonneg; lia|].
  apply Z.log2_lt_pow2; [lia|]. destruct (decide (Z.log2 x < k)); [done|].
  specialize (H (Z.log2 x)). rewrite Z.bit_log2 in H by lia. discriminate H; lia.
Qed.

Lemma land_bit_nonzero x k : 0 ≤ k → negb (Z.land x (Z.shiftl 1 k) =? 0) = Z.testbit x k.
Proof.
  intros Hk. rewrite Z.shiftl_mul_pow2, Z.mul_1_l by done.
  destruct (Z.testbit x k) eqn:T.
  - apply negb_true_iff, Z.eqb_neq. intros E.
    assert (Z.testbit (Z.land x (2 ^ k)) k = true) as B.
    { by rewrite Z.land_spec, T, Z.pow2_bits_true. }
    by rewrite E, Z.bits_0 in B.
  - apply negb_false_iff, Z.eqb_eq, Z.bits_inj'. intros i Hi. rewrite Z.land_spec, Z.bits_0.
    destruct (decide (i = k)) as [->|]; [by rewrite T|].
    by rewrite Z.pow2_bits_false, andb_false_r by lia.
Qed.
