(* ===== verification/Errors.v ===== *)
(** * Errors and results (src/src/error.rs)

    [ZtError] is the crate's error enumeration; [res] is what a call of a Rust
    function returns: a value, an error, or a panic.  Panics are kept apart from
    errors so that the absence of panics is a statement one can prove. *)

From stdpp Require Import strings.
From S2P Require Import Prelude.

(** The [std::io::ErrorKind]s the crate builds or tests for. *)
Inductive IoErrorKind :=
  | WouldBlock | ConnectionReset | PermissionDenied | ConnectionAborted | TimedOut | OtherKind.

(** error.rs, [ZtError].  A [std::time::Duration] is a number of nanoseconds. *)
Inductive ZtError :=
  | InvalidConfiguration (msg : string)
  | Io (kind : IoErrorKind) (msg : string)
  | Crypto (msg : string)
  | InvalidPacket (msg : string)
  | Timeout
  | Unauthorized
  | PacketNumberOverflow
  | ConnectionIdExhausted
  | ActorFailed
  | FlowControlBlocked
  | CongestionWindowFull
  | PacingBlocked (d : Z)
  | TooManyStreams (limit : Z)
  | StreamReset (stream_id error_code : Z)
  | ConnectionClosedByPeer (error_code : Z) (reason : bytes)
  | IdleTimeout.

#[export] Instance IoErrorKind_eq_dec : EqDecision IoErrorKind.
Proof. solve_decision. Defined.
#[export] Instance ZtError_eq_dec : EqDecision ZtError.
Proof. solve_decision. Defined.

(** ** Results *)

Inductive res (A : Type) :=
  | Ok (a : A)
  | Err (e : ZtError)
  | Panic.
Arguments Ok {A} _.
Arguments Err {A} _.
Arguments Panic {A}.

#[export] Instance res_ret : MRet res := @Ok.
#[export] Instance res_bind : MBind res := λ A B f m,
  match m with Ok a => f a | Err e => Err e | Panic => Panic end.

#[export] Instance res_fmap : FMap res := λ A B f m,
  match m with Ok a => Ok (f a) | Err e => Err e | Panic => Panic end.

#[export] Instance res_eq_dec `{EqDecision A} : EqDecision (res A).
Proof. solve_decision. Defined.

(** [Option::ok_or]. *)
Definition ok_or {A} (o : option A) (e : ZtError) : res A :=
  match o with Some a => Ok a | None => Err e end.

Definition is_ok {A} (r : res A) : bool := match r with Ok _ => true | _ => false end.

Lemma ok_or_Ok {A} (o : option A) e a : ok_or o e = Ok a ↔ o = Some a.
Proof. destruct o; simpl; naive_solver. Qed.
