(* ===== verification/Effects.v ===== *)
(** * Methods of objects with state

    A method of an object with mutable state is a function from the state to a result and
    the state afterwards ([stm]): what the method changed before it returned an error stays
    changed, as with Rust's [?].  The rest of the file is a calculus of predicates on the state:
    what a method preserves whatever it returns, and where a successful run ends. *)

From stdpp Require Import strings.
From S2P Require Import Prelude Errors.

Definition stm (S A : Type) : Type := S → res A * S.

#[export] Instance act_ret {S} : MRet (stm S) := λ A x a, (Ok x, a).
#[export] Instance act_bind {S} : MBind (stm S) := λ A B f m a,
  match m a with
  | (Ok x, a') => f x a'
  | (Err e, a') => (Err e, a')
  | (Panic, a') => (Panic, a')
  end.

(** [return Err(e)]. *)
Definition fail_with {S A} (e : ZtError) : stm S A := λ a, (Err e, a).
(** [r?] of a call that touches no state. *)
Definition lift {S A} (r : res A) : stm S A := λ a, (r, a).
(** The result of a call as a value: [let _ = f()], [if let Err(e) = f()]. *)
Definition attempt {S A} (m : stm S A) : stm S (res A) := λ a,
  match m a with
  | (Panic, a') => (Panic, a')
  | (r, a') => (Ok r, a')
  end.
Definition gets {S A} (f : S → A) : stm S A := λ a, (Ok (f a), a).
Definition modify {S} (f : S → S) : stm S unit := λ a, (Ok tt, f a).
Definition skip {S} : stm S unit := mret tt.
(** [if b { m }]. *)
Definition act_when {S} (b : bool) (m : stm S unit) : stm S unit := if b then m else skip.

(** ** Predicates on the state *)

(** Every run of [m] from a state in [I] ends in [I], also when it fails. *)
Definition preserves {S A} (I : S → Prop) (m : stm S A) : Prop := ∀ a, I a → I (m a).2.

(** Running a computation that succeeds. *)
Lemma act_bind_ok {S A B} (m : stm S A) (f : A → stm S B) a x a' : m a = (Ok x, a') → (m ≫= f) a = f x a'.
Proof. intros E. unfold mbind, act_bind. by rewrite E. Qed.
Lemma act_bind_err {S A B} (m : stm S A) (f : A → stm S B) a e a' : m a = (Err e, a') → (m ≫= f) a = (Err e, a').
Proof. intros H. unfold mbind, act_bind. by rewrite H. Qed.
Lemma act_bind_panic {S A B} (m : stm S A) (f : A → stm S B) a a' : m a = (Panic, a') → (m ≫= f) a = (Panic, a').
Proof. intros H. unfold mbind, act_bind. by rewrite H. Qed.

Lemma gets_ok {S A} (g : S → A) a x : g a = x → gets g a = (Ok x, a).
Proof. by intros <-. Qed.

(** A computation that succeeded ran both its halves. *)
Lemma bind_Ok_inv {S A B} (m : stm S A) (f : A → stm S B) a y a' :
  (m ≫= f) a = (Ok y, a') → ∃ x a1, m a = (Ok x, a1) ∧ f x a1 = (Ok y, a').
Proof. unfold mbind, act_bind. destruct (m a) as [[x|e|] a1]; [eauto|done..]. Qed.

Section rules.
Context {S : Type} (I : S → Prop).

Lemma preserves_ret {A} (x : A) : preserves I (mret x).
Proof. by intros a. Qed.
Lemma preserves_lift {A} (r : res A) : preserves I (lift r).
Proof. by intros a. Qed.
Lemma preserves_fail {A} e : preserves I (fail_with e : stm S A).
Proof. by intros a. Qed.
Lemma preserves_gets {A} (f : S → A) : preserves I (gets f).
Proof. by intros a. Qed.
Lemma preserves_skip : preserves I skip.
Proof. by intros a. Qed.

Lemma preserves_bind {A B} (m : stm S A) (f : A → stm S B) :
  preserves I m → (∀ x, preserves I (f x)) → preserves I (m ≫= f).
Proof.
  intros Hm Hf a Ia. specialize (Hm a Ia). unfold mbind, act_bind.
  destruct (m a) as [[x|e|] a']; simpl in *; [by apply Hf|done|done].
Qed.

(** A computation that reads a value first: the rest may use where it came from. *)
Lemma preserves_gets_bind {A B} (g : S → A) (f : A → stm S B) :
  (∀ a, I a → I (f (g a) a).2) → preserves I (gets g ≫= f).
Proof. intros H a Ia. by apply H. Qed.

Lemma preserves_attempt {A} (m : stm S A) : preserves I m → preserves I (attempt m).
Proof. intros H a Ia. specialize (H a Ia). unfold attempt. by destruct (m a) as [[] ?]. Qed.

Lemma preserves_modify f : (∀ a, I a → I (f a)) → preserves I (modify f).
Proof. intros H a Ia. by apply H. Qed.
Lemma preserves_when b m : (b = true → preserves I m) → preserves I (act_when b m).
Proof. destruct b; simpl; [by intros H; apply H|]. intros _. apply preserves_skip. Qed.
End rules.

(** From a state in [J], a run of [m] ends in [I]. *)
Definition leads {S A} (J I : S → Prop) (m : stm S A) : Prop := ∀ a, J a → I (m a).2.

Lemma leads_bind {S A B} (J K I : S → Prop) (m : stm S A) (f : A → stm S B) :
  (∀ a, K a → I a) → leads J K m → (∀ x, leads K I (f x)) → leads J I (m ≫= f).
Proof.
  intros KI Hm Hf a Ja. specialize (Hm a Ja). unfold mbind, act_bind.
  destruct (m a) as [[x|e|] a']; simpl in *; [by apply Hf|by apply KI|by apply KI].
Qed.

Lemma leads_bind_pre {S A B} (J I : S → Prop) (m : stm S A) (f : A → stm S B) :
  (∀ a, J a → I a) → preserves J m → (∀ x, leads J I (f x)) → leads J I (m ≫= f).
Proof. apply leads_bind. Qed.

Lemma leads_bind_post {S A B} (J I : S → Prop) (m : stm S A) (f : A → stm S B) :
  leads J I m → (∀ x, preserves I (f x)) → leads J I (m ≫= f).
Proof. by apply leads_bind. Qed.

Lemma leads_preserves {S A} (J I : S → Prop) (m : stm S A) :
  (∀ a, J a → I a) → preserves I m → leads J I m.
Proof. intros JI H a Ja. by apply H, JI. Qed.

(** From a state in [J], a run of [m] that does not panic ends in [Q]. *)
Definition survives {S A} (J Q : S → Prop) (m : stm S A) : Prop :=
  ∀ a, J a → (m a).1 ≠ Panic → Q (m a).2.

Lemma survives_bind_pre {S A B} (J Q : S → Prop) (m : stm S A) (f : A → stm S B) :
  (∀ a, ∃ x a', m a = (Ok x, a')) → preserves J m → (∀ x, survives J Q (f x)) → survives J Q (m ≫= f).
Proof.
  intros T Hm Hf a Ja. specialize (Hm a Ja). destruct (T a) as (x & a' & E). rewrite (act_bind_ok _ _ _ _ _ E).
  rewrite E in Hm. by apply Hf.
Qed.

Lemma survives_bind_post {S A B} (J Q : S → Prop) (m : stm S A) (f : A → stm S B) :
  survives J Q m → (∀ x, preserves Q (f x)) → survives J Q (m ≫= f).
Proof.
  intros Hm Hf a Ja. specialize (Hm a Ja). unfold mbind, act_bind.
  destruct (m a) as [[x|e|] a']; cbn [fst snd] in *; intros N; [by apply Hf, Hm|by apply Hm|done].
Qed.

Lemma survives_preserves {S A} (J Q : S → Prop) (m : stm S A) :
  (∀ a, J a → Q a) → preserves Q m → survives J Q m.
Proof. intros JQ H a Ja _. by apply H, JQ. Qed.

(** From a state in [J], a run of [m] that succeeds ends in [Q]. *)
Definition reaches {S A} (J Q : S → Prop) (m : stm S A) : Prop :=
  ∀ a x a', J a → m a = (Ok x, a') → Q a'.

Lemma reaches_bind_pre {S A B} (J Q : S → Prop) (m : stm S A) (f : A → stm S B) :
  preserves J m → (∀ x, reaches J Q (f x)) → reaches J Q (m ≫= f).
Proof.
  intros Hm Hf a y a' Ja (x & a1 & E1 & E2)%bind_Ok_inv. specialize (Hm a Ja). rewrite E1 in Hm.
  exact (Hf x a1 y a' Hm E2).
Qed.

Lemma reaches_bind_post {S A B} (J Q : S → Prop) (m : stm S A) (f : A → stm S B) :
  reaches J Q m → (∀ x, preserves Q (f x)) → reaches J Q (m ≫= f).
Proof.
  intros Hm Hf a y a' Ja (x & a1 & E1 & E2)%bind_Ok_inv. specialize (Hf x a1 (Hm _ _ _ Ja E1)). by rewrite E2 in Hf.
Qed.

(** *** Panics

    A result is in [Q], or an error, or a panic if [P]: with [P] false, not a panic. *)
Definition yields {A} (P : Prop) (r : res A) (Q : A → Prop) : Prop :=
  match r with Ok x => Q x | Err _ => True | Panic => P end.

(** A run that ends in [I] with such a result. *)
Definition ends {S A} (P : Prop) (I : S → Prop) (Q : A → Prop) (x : res A * S) : Prop := I x.2 ∧ yields P x.1 Q.

(** From a state in [I], every run of [m] ends in [I], whatever it returns. *)
Definition runs {S A} (P : Prop) (I : S → Prop) (m : stm S A) (Q : A → Prop) : Prop := ∀ a, I a → ends P I Q (m a).

Section runs.
Context {S : Type} (P : Prop) (I : S → Prop).

Lemma runs_ret {A} (x : A) (Q : A → Prop) : Q x → runs P I (mret x) Q.
Proof. by intros H a. Qed.
Lemma runs_lift {A} (r : res A) Q : yields P r Q → runs P I (lift r) Q.
Proof. by intros H a. Qed.
Lemma runs_fail {A} e (Q : A → Prop) : runs P I (fail_with e) Q.
Proof. by intros a. Qed.
Lemma runs_skip : runs P I skip (λ _, True).
Proof. by intros a. Qed.
Lemma runs_modify f : (∀ a, I a → I (f a)) → runs P I (modify f) (λ _, True).
Proof. intros H a Ia. split; [by apply H|done]. Qed.

Lemma runs_mono {A} (m : stm S A) (Q Q' : A → Prop) : runs P I m Q → (∀ x, Q x → Q' x) → runs P I m Q'.
Proof. intros H HQ a Ia. destruct (H a Ia) as [Ia' Hr]. split; [done|]. destruct (m a) as [[]]; cbn in *; auto. Qed.
Lemma runs_any {A} (m : stm S A) (Q : A → Prop) : runs P I m Q → runs P I m (λ _, True).
Proof. intros H. by eapply runs_mono. Qed.

Lemma runs_bind {A B} (m : stm S A) (f : A → stm S B) Q R :
  runs P I m Q → (∀ x, Q x → runs P I (f x) R) → runs P I (m ≫= f) R.
Proof.
  intros Hm Hf a Ia. destruct (Hm a Ia) as [Ia' Hr]. unfold mbind, act_bind.
  destruct (m a) as [[x|e|] a']; cbn [fst snd] in *; [by apply Hf|done|done].
Qed.
(** The rest does not depend on what the value is known to be. *)
Lemma runs_then {A B} (m : stm S A) (f : A → stm S B) Q R :
  runs P I m Q → (∀ x, runs P I (f x) R) → runs P I (m ≫= f) R.
Proof. intros Hm Hf. by apply (runs_bind m f Q). Qed.

(** The same of a run from one state, which the rest may refer to. *)
Lemma ends_bind {A B} (m : stm S A) (f : A → stm S B) Q R a :
  ends P I Q (m a) → (∀ x a', m a = (Ok x, a') → I a' → Q x → ends P I R (f x a')) → ends P I R ((m ≫= f) a).
Proof.
  intros [Ia' Hr] Hf. unfold mbind, act_bind. destruct (m a) as [[x|e|] a']; cbn [fst snd yields] in *; [by apply Hf|done|done].
Qed.

(** A value read from the state was read from some state in [I]. *)
Lemma runs_gets {A B} (g : S → A) (f : A → stm S B) Q :
  (∀ a, I a → runs P I (f (g a)) Q) → runs P I (gets g ≫= f) Q.
Proof. intros H a Ia. by apply (H a Ia). Qed.

Lemma runs_attempt {A} (m : stm S A) (Q : A → Prop) : runs P I m Q → runs P I (attempt m) (λ r, yields False r Q).
Proof. intros H a Ia. destruct (H a Ia) as [Ia' Hr]. unfold attempt. by destruct (m a) as [[x|e|] a']. Qed.

Lemma runs_when (b : bool) (m : stm S unit) : (b = true → runs P I m (λ _, True)) → runs P I (act_when b m) (λ _, True).
Proof. destruct b; simpl; [by intros H; apply H|]. intros _. apply runs_skip. Qed.

Lemma runs_preserves {A} (m : stm S A) (Q : A → Prop) : runs P I m Q → preserves I m.
Proof. intros H a Ia. by destruct (H a Ia). Qed.
End runs.

Lemma preserves_runs {S A} (I : S → Prop) (m : stm S A) : preserves I m → runs True I m (λ _, True).
Proof. intros H a Ia. split; [by apply H|]. by destruct (m a) as [[]]. Qed.

Create HintDb preserves.
#[export] Hint Resolve preserves_ret preserves_lift preserves_fail preserves_gets preserves_skip : preserves.
