(* ===== verification/Buf.v ===== *)
(** * Byte buffers: the interface of the [bytes] crate

    The encoders and decoders of the crate read a [bytes::Bytes] through the
    [Buf] trait and write a [bytes::BytesMut] through [BufMut].  That crate is
    third-party code: its operations are a parameter ([BytesCrate]) and what its
    documentation promises about them is [BytesLaws].  A read returns the value
    and what is left of the buffer; it panics when the buffer is too short.

    The second half of the file is a small verification-condition calculus for
    computations that read a buffer ([rwp]), used to show that decoders never
    panic and always make progress. *)

From stdpp Require Import strings.
From S2P Require Import Prelude Errors.

(** ** Readers: state (the unread bytes), errors and panics *)

Definition reader (A : Type) : Type := bytes → res A * bytes.

#[export] Instance reader_ret : MRet reader := λ A a s, (Ok a, s).
#[export] Instance reader_bind : MBind reader := λ A B f m s,
  match m s with
  | (Ok a, s') => f a s'
  | (Err e, s') => (Err e, s')
  | (Panic, s') => (Panic, s')
  end.

(** [src.remaining()]. *)
Definition remaining : reader Z := λ s, (Ok (len s), s).

(** [return Err(e)]. *)
Definition throw {A} (e : ZtError) : reader A := λ s, (Err e, s).

(** [if src.remaining() < n { return Err(InvalidPacket(msg)) }]. *)
Definition require (n : Z) (msg : string) : reader unit := λ s,
  if len s <? n then (Err (InvalidPacket msg), s) else (Ok tt, s).

(** [src.chunk()[0]]: reads the first byte and leaves it in place. *)
Definition peek : reader Z := λ s,
  match s with b :: _ => (Ok b, s) | [] => (Panic, s) end.

(** ** Slices: indexing panics out of range *)

(** [data[i]]. *)
Definition at_index (data : bytes) (i : Z) : res Z :=
  if (0 <=? i) && (i <? len data) then Ok (nth (Z.to_nat i) data 0) else Panic.

(** [data[a..b]]. *)
Definition slice (data : bytes) (a b : Z) : res bytes :=
  if (0 <=? a) && (a <=? b) && (b <=? len data)
  then Ok (take (Z.to_nat (b - a)) (drop (Z.to_nat a) data)) else Panic.

(** [data[i] = v]. *)
Definition set_index (data : bytes) (i v : Z) : res bytes :=
  if (0 <=? i) && (i <? len data) then Ok (<[Z.to_nat i := v]> data) else Panic.

Class BytesCrate := {
  get_u8 : reader Z;
  get_u16 : reader Z;
  get_u32 : reader Z;
  get_u64 : reader Z;
  (** [copy_to_bytes(n)], and [copy_to_slice] into a slice of length [n]. *)
  copy_to_bytes : Z → reader bytes;
  advance : Z → reader unit;
  put_u8 : bytes → Z → bytes;
  put_u16 : bytes → Z → bytes;
  put_u32 : bytes → Z → bytes;
  put_u64 : bytes → Z → bytes;
  put_slice : bytes → bytes → bytes;
}.

(** What one read of [n] bytes is documented to do: the value is computed from
    the first [n] bytes, which are consumed; a shorter buffer panics. *)
Definition reads {A} (n : Z) (f : bytes → A) (m : reader A) : Prop :=
  (∀ s, n ≤ len s → m s = (Ok (f (take (Z.to_nat n) s)), drop (Z.to_nat n) s)) ∧
  (∀ s, len s < n → fst (m s) = Panic).

Class BytesLaws `{BytesCrate} : Prop := {
  get_u8_law : reads 1 be_val get_u8;
  get_u16_law : reads 2 be_val get_u16;
  get_u32_law : reads 4 be_val get_u32;
  get_u64_law : reads 8 be_val get_u64;
  copy_to_bytes_law n : 0 ≤ n → reads n id (copy_to_bytes n);
  advance_law n : 0 ≤ n → reads n (λ _, tt) (advance n);
  put_u8_law dst v : put_u8 dst v = dst ++ be_bytes 1 v;
  put_u16_law dst v : put_u16 dst v = dst ++ be_bytes 2 v;
  put_u32_law dst v : put_u32 dst v = dst ++ be_bytes 4 v;
  put_u64_law dst v : put_u64 dst v = dst ++ be_bytes 8 v;
  put_slice_law dst bs : put_slice dst bs = dst ++ bs;
}.

(** A concrete instance: the laws can be met, and closed terms compute. *)
Definition read_n {A} (n : Z) (f : bytes → A) : reader A := λ s,
  if len s <? n then (Panic, s) else (Ok (f (take (Z.to_nat n) s)), drop (Z.to_nat n) s).

Definition bytes_model : BytesCrate := {|
  get_u8 := read_n 1 be_val;
  get_u16 := read_n 2 be_val;
  get_u32 := read_n 4 be_val;
  get_u64 := read_n 8 be_val;
  copy_to_bytes n := read_n n id;
  advance n := read_n n (λ _, tt);
  put_u8 dst v := dst ++ be_bytes 1 v;
  put_u16 dst v := dst ++ be_bytes 2 v;
  put_u32 dst v := dst ++ be_bytes 4 v;
  put_u64 dst v := dst ++ be_bytes 8 v;
  put_slice dst bs := dst ++ bs;
|}.

Lemma read_n_reads {A} n (f : bytes → A) : reads n f (read_n n f).
Proof.
  split; intros s Hs; unfold read_n.
  - replace (len s <? n) with false by lia. done.
  - by replace (len s <? n) with true by lia.
Qed.

Lemma bytes_model_laws : @BytesLaws bytes_model.
Proof. split; intros; simpl; auto using read_n_reads. Qed.

Lemma at_index_app x b r i : i = len x → at_index (x ++ b :: r) i = Ok b.
Proof.
  intros ->. unfold at_index. replace ((0 <=? len x) && (len x <? len (x ++ b :: r))) with true by len_lia.
  unfold len. rewrite Nat2Z.id, app_nth2, Nat.sub_diag by lia. done.
Qed.

Lemma slice_app x y r a b : a = len x → b = len x + len y → slice (x ++ y ++ r) a b = Ok y.
Proof.
  intros -> ->. unfold slice.
  replace ((0 <=? len x) && (len x <=? len x + len y) && (len x + len y <=? len (x ++ y ++ r)))
    with true by len_lia.
  replace (len x + len y - len x) with (len y) by lia. unfold len.
  by rewrite !Nat2Z.id, drop_app_length, take_app_length.
Qed.

Create Rewrite HintDb put.
#[export] Hint Rewrite @put_u8_law @put_u16_law @put_u32_law @put_u64_law
  @put_slice_law using (typeclasses eauto) : put.

(** ** Reading back what was written *)

Lemma reads_app {A} n (f : bytes → A) m x r :
  reads n f m → len x = n → m (x ++ r) = (Ok (f x), r).
Proof.
  intros [Hm _] <-. rewrite Hm by len_lia. unfold len. rewrite Nat2Z.id.
  by rewrite take_app_length, drop_app_length.
Qed.

Section read_back.
Context `{BL : BytesLaws}.

Lemma reads_be n m v r :
  reads (Z.of_nat n) be_val m → 0 ≤ v < 256 ^ Z.of_nat n →
  m (be_bytes n v ++ r) = (Ok v, r).
Proof.
  intros Hm Hv. rewrite (reads_app _ _ _ _ _ Hm) by apply len_be_bytes.
  by rewrite be_val_be_bytes_id.
Qed.

Lemma get_u8_app v r : u_ok 8 v → get_u8 (be_bytes 1 v ++ r) = (Ok v, r).
Proof. intros. apply reads_be; [apply get_u8_law|done]. Qed.
Lemma get_u16_app v r : u_ok 16 v → get_u16 (be_bytes 2 v ++ r) = (Ok v, r).
Proof. intros. apply reads_be; [apply get_u16_law|done]. Qed.
Lemma get_u32_app v r : u_ok 32 v → get_u32 (be_bytes 4 v ++ r) = (Ok v, r).
Proof. intros. apply reads_be; [apply get_u32_law|done]. Qed.
Lemma get_u64_app v r : u_ok 64 v → get_u64 (be_bytes 8 v ++ r) = (Ok v, r).
Proof. intros. apply reads_be; [apply get_u64_law|done]. Qed.
Lemma copy_to_bytes_app n x r : len x = n → copy_to_bytes n (x ++ r) = (Ok x, r).
Proof.
  intros <-. apply (reads_app (len x) id); [apply copy_to_bytes_law, len_nonneg|done].
Qed.
End read_back.

Lemma require_ok n msg s : n ≤ len s → require n msg s = (Ok tt, s).
Proof. intros. unfold require. by replace (len s <? n) with false by lia. Qed.
Lemma require_err n msg s : len s < n → require n msg s = (Err (InvalidPacket msg), s).
Proof. intros. unfold require. by replace (len s <? n) with true by lia. Qed.

(** ** Verification conditions for readers

    [rwp m s Q E]: run on [s], the reader [m] does not panic; a value and the
    rest of the buffer satisfy [Q], an error and the rest satisfy [E]. *)
Definition rwp {A} (m : reader A) (s : bytes) (Q : A → bytes → Prop)
    (E : ZtError → bytes → Prop) : Prop :=
  match m s with
  | (Ok a, s') => Q a s'
  | (Err e, s') => E e s'
  | (Panic, _) => False
  end.

Lemma rwp_bind {A B} (m : reader A) (f : A → reader B) s Q E :
  rwp m s (λ a s', rwp (f a) s' Q E) E → rwp (m ≫= f) s Q E.
Proof.
  unfold rwp, mbind, reader_bind. by destruct (m s) as [[a|e|] s'].
Qed.

Lemma rwp_ret {A} (a : A) s (Q : A → bytes → Prop) E : Q a s → rwp (mret a) s Q E.
Proof. done. Qed.
Lemma rwp_throw {A} e s (Q : A → bytes → Prop) (E : ZtError → bytes → Prop) :
  E e s → rwp (throw e) s Q E.
Proof. done. Qed.

Lemma rwp_require n msg s Q (E : ZtError → bytes → Prop) :
  (len s < n → E (InvalidPacket msg) s) → (n ≤ len s → Q tt s) → rwp (require n msg) s Q E.
Proof. unfold rwp, require. intros. destruct (Z.ltb_spec (len s) n); auto with lia. Qed.

Lemma rwp_mono {A} (m : reader A) s Q Q' (E E' : ZtError → bytes → Prop) :
  rwp m s Q E → (∀ a s', Q a s' → Q' a s') → (∀ e s', E e s' → E' e s') → rwp m s Q' E'.
Proof. unfold rwp. destruct (m s) as [[a|e|] s']; auto. Qed.

(** What a successful read leaves: the buffer is the bytes read and the rest. *)
Lemma rwp_reads {A} n (f : bytes → A) m s Q E :
  reads n f m → 0 ≤ n → n ≤ len s → bytes_ok s →
  (∀ x s', s = x ++ s' → len x = n → bytes_ok x → bytes_ok s' → Q (f x) s') → rwp m s Q E.
Proof.
  intros [Hm _] Hn Hs Hb HQ. unfold rwp. rewrite Hm by done.
  apply HQ; auto using Forall_take, Forall_drop.
  - by rewrite take_drop.
  - len_lia.
Qed.

Section rwp_rules.
Context `{BL : BytesLaws}.
Implicit Types (Q : Z → bytes → Prop) (E : ZtError → bytes → Prop).

Lemma be_val_read x n : bytes_ok x → len x = Z.of_nat n → 0 ≤ be_val x < 256 ^ Z.of_nat n.
Proof. intros Hb <-. by apply be_val_bound. Qed.

Lemma rwp_get_uint n w m s Q E :
  reads (Z.of_nat n) be_val m → 256 ^ Z.of_nat n = 2 ^ w → Z.of_nat n ≤ len s → bytes_ok s →
  (∀ v s', len s = Z.of_nat n + len s' → bytes_ok s' → u_ok w v → Q v s') → rwp m s Q E.
Proof.
  intros Hm Hw Hs Hb HQ. eapply rwp_reads; [done|lia|done|done|].
  intros x s' -> Hx ??. apply HQ; [len_lia|done|].
  unfold u_ok. rewrite <- Hw. by apply be_val_read.
Qed.

(** The same, naming the bytes that were read. *)
Lemma rwp_split_uint n w m s Q E :
  reads (Z.of_nat n) be_val m → 256 ^ Z.of_nat n = 2 ^ w → Z.of_nat n ≤ len s → bytes_ok s →
  (∀ v s', s = be_bytes n v ++ s' → bytes_ok s' → u_ok w v → Q v s') → rwp m s Q E.
Proof.
  intros Hm Hw Hs Hb HQ. eapply rwp_reads; [done|lia|done|done|].
  intros x s' -> Hx ??. apply HQ; [|done|].
  - replace n with (length x) by (unfold len in Hx; lia). by rewrite be_bytes_be_val.
  - unfold u_ok. rewrite <- Hw. by apply be_val_read.
Qed.

Lemma rwp_split_bytes n s (Q : bytes → bytes → Prop) E : 0 ≤ n ≤ len s → bytes_ok s →
  (∀ x s', s = x ++ s' → len x = n → bytes_ok x → bytes_ok s' → Q x s') →
  rwp (copy_to_bytes n) s Q E.
Proof.
  intros Hn Hb HQ. eapply (rwp_reads n id); [apply copy_to_bytes_law; lia|lia|lia|done|].
  intros x s' -> Hx ??. by apply HQ.
Qed.

Lemma rwp_get_u8 s Q E : 1 ≤ len s → bytes_ok s →
  (∀ v s', len s = 1 + len s' → bytes_ok s' → u_ok 8 v → Q v s') → rwp get_u8 s Q E.
Proof. apply (rwp_get_uint 1 8 _ s Q E get_u8_law eq_refl). Qed.
Lemma rwp_get_u16 s Q E : 2 ≤ len s → bytes_ok s →
  (∀ v s', len s = 2 + len s' → bytes_ok s' → u_ok 16 v → Q v s') → rwp get_u16 s Q E.
Proof. apply (rwp_get_uint 2 16 _ s Q E get_u16_law eq_refl). Qed.
Lemma rwp_get_u32 s Q E : 4 ≤ len s → bytes_ok s →
  (∀ v s', len s = 4 + len s' → bytes_ok s' → u_ok 32 v → Q v s') → rwp get_u32 s Q E.
Proof. apply (rwp_get_uint 4 32 _ s Q E get_u32_law eq_refl). Qed.
Lemma rwp_get_u64 s Q E : 8 ≤ len s → bytes_ok s →
  (∀ v s', len s = 8 + len s' → bytes_ok s' → u_ok 64 v → Q v s') → rwp get_u64 s Q E.
Proof. apply (rwp_get_uint 8 64 _ s Q E get_u64_law eq_refl). Qed.
Lemma rwp_copy_to_bytes n s (Q : bytes → bytes → Prop) E : 0 ≤ n ≤ len s → bytes_ok s →
  (∀ x s', len s = n + len s' → bytes_ok s' → len x = n → bytes_ok x → Q x s') →
  rwp (copy_to_bytes n) s Q E.
Proof.
  intros Hn Hb HQ. eapply (rwp_reads n id); [apply copy_to_bytes_law; lia|lia|lia|done|].
  intros x s' -> Hx ??. apply HQ; auto. len_lia.
Qed.
End rwp_rules.
