(* ===== verification/Config.v ===== *)
(** * Endpoint configuration (src/src/config.rs)

    [ZtConfig], its default and [validate].  Durations are nanoseconds. *)

From stdpp Require Import strings.
From S2P Require Import Prelude Errors.

(** congestion.rs, [CongestionControlAlgorithm]. *)
Inductive CongestionControlAlgorithm := Cubic | Reno.

Set Primitive Projections.
(** config.rs, [ZtConfig] (the [simulation] field exists only in test builds). *)
Record ZtConfig := mkZtConfig {
  connect_timeout : Z;
  cfg_idle_timeout : Z;
  max_concurrent_streams : Z;
  cfg_alpn : bytes;
  cfg_initial_stream_window : Z;
  max_stream_window : Z;
  cfg_initial_max_data : Z;
  max_connection_buffer : Z;
  cfg_mtu_min : Z;
  cfg_mtu_max : Z;
  mtu_probe_interval : Z;
  cookie_max_age_ms : Z;
  key_update_packet_interval : Z;
  cfg_psk : option bytes;
  max_path_validation_retries : Z;
  cc_algorithm : CongestionControlAlgorithm;
}.
Unset Primitive Projections.

(** [Duration::from_secs], [Duration::from_millis], [Duration::as_millis]. *)
Definition from_secs (s : Z) : Z := s * 1000000000.
Definition from_millis (ms : Z) : Z := ms * 1000000.
Definition as_millis (d : Z) : Z := d / 1000000.

(** The largest [Duration]: [u64::MAX] seconds and 999999999 nanoseconds. *)
Definition duration_ok (d : Z) : Prop := 0 ≤ d < 2 ^ 64 * 1000000000.

(** [impl Default for ZtConfig]. *)
Definition config_default : ZtConfig := {|
  connect_timeout := from_secs 5;
  cfg_idle_timeout := from_secs 60;
  max_concurrent_streams := 100;
  cfg_alpn := [122; 101; 116; 116; 97];  (* b"zetta" *)
  cfg_initial_stream_window := 1048576;
  max_stream_window := 16 * 1024 * 1024;
  cfg_initial_max_data := 1048576;
  max_connection_buffer := 64 * 1024 * 1024;
  cfg_mtu_min := 1200;
  cfg_mtu_max := 9000;
  mtu_probe_interval := from_secs 15;
  cookie_max_age_ms := 5000;
  key_update_packet_interval := Z.shiftl 1 20;
  cfg_psk := None;
  max_path_validation_retries := 3;
  cc_algorithm := Cubic;
|}.

(** [if cond { return Err(InvalidConfiguration(msg)) }]. *)
Definition reject_if (cond : bool) (msg : string) : res unit :=
  if cond then Err (InvalidConfiguration msg) else Ok tt.

(** [ZtConfig::validate]. *)
Definition config_validate (c : ZtConfig) : res unit :=
  reject_if (connect_timeout c =? 0) "connect_timeout must be greater than zero";;
  reject_if ((as_millis (cfg_idle_timeout c) =? 0)
             || (u_max 64 <? as_millis (cfg_idle_timeout c)))
    "idle_timeout must fit in a non-zero millisecond wire value";;
  reject_if ((max_concurrent_streams c =? 0)
             || (u_max 32 / 2 <? max_concurrent_streams c))
    "max_concurrent_streams must be in 1..=u32::MAX/2";;
  reject_if ((len (cfg_alpn c) =? 0) || (u_max 8 <? len (cfg_alpn c)))
    "alpn length must be in 1..=255 bytes";;
  reject_if ((cfg_initial_stream_window c =? 0)
             || (max_stream_window c <? cfg_initial_stream_window c))
    "initial_stream_window must be non-zero and no larger than max_stream_window";;
  reject_if ((max_connection_buffer c <? max_stream_window c)
             || (u_max 64 <? max_stream_window c))
    "max_stream_window must fit in usize and max_connection_buffer";;
  reject_if ((cfg_initial_max_data c =? 0) || (u_max 32 <? cfg_initial_max_data c))
    "initial_max_data must be in 1..=u32::MAX (ACK wire limit)";;
  reject_if (max_connection_buffer c =? 0) "max_connection_buffer must be greater than zero";;
  reject_if (max_connection_buffer c <? cfg_initial_max_data c)
    "initial_max_data must not exceed max_connection_buffer";;
  reject_if ((cfg_mtu_min c <? 1200) || (cfg_mtu_max c <? cfg_mtu_min c))
    "mtu_min must be at least 1200 and no larger than mtu_max";;
  reject_if (mtu_probe_interval c =? 0) "mtu_probe_interval must be greater than zero";;
  reject_if (65507 <? cfg_mtu_max c)
    "mtu_max must not exceed the UDP payload limit (65507)";;
  reject_if (cookie_max_age_ms c =? 0) "cookie_max_age_ms must be greater than zero";;
  reject_if (key_update_packet_interval c =? 0)
    "key_update_packet_interval must be greater than zero".

(** The Rust types of the fields. *)
Definition config_typed (c : ZtConfig) : Prop :=
  duration_ok (connect_timeout c) ∧ duration_ok (cfg_idle_timeout c) ∧
  u_ok 64 (max_concurrent_streams c) ∧ bytes_ok (cfg_alpn c) ∧
  u_ok 64 (cfg_initial_stream_window c) ∧ u_ok 64 (max_stream_window c) ∧
  u_ok 64 (cfg_initial_max_data c) ∧ u_ok 64 (max_connection_buffer c) ∧
  u_ok 64 (cfg_mtu_min c) ∧ u_ok 64 (cfg_mtu_max c) ∧ duration_ok (mtu_probe_interval c) ∧
  u_ok 64 (cookie_max_age_ms c) ∧ u_ok 64 (key_update_packet_interval c) ∧
  u_ok 32 (max_path_validation_retries c).

(** What the rest of the crate relies on once [validate] has accepted a value. *)
Record config_valid (c : ZtConfig) : Prop := {
  cv_idle : 1 ≤ as_millis (cfg_idle_timeout c) ≤ u_max 64;
  cv_streams : 1 ≤ max_concurrent_streams c ≤ u_max 32 / 2;
  cv_alpn : 1 ≤ len (cfg_alpn c) ≤ 255;
  cv_window : 1 ≤ cfg_initial_stream_window c ≤ max_stream_window c;
  cv_buffer : max_stream_window c ≤ max_connection_buffer c;
  cv_max_data : 1 ≤ cfg_initial_max_data c ≤ u_max 32;
  cv_max_data_buffer : cfg_initial_max_data c ≤ max_connection_buffer c;
  cv_mtu : 1200 ≤ cfg_mtu_min c ∧ cfg_mtu_min c ≤ cfg_mtu_max c ∧ cfg_mtu_max c ≤ 65507;
  cv_cookie : 1 ≤ cookie_max_age_ms c;
  cv_key_update : 1 ≤ key_update_packet_interval c;
}.

Lemma reject_if_Ok b msg (k : unit → res unit) :
  (reject_if b msg ≫= k) = Ok tt → b = false ∧ k tt = Ok tt.
Proof. by destruct b. Qed.

Lemma config_validate_sound c :
  config_typed c → config_validate c = Ok tt → config_valid c.
Proof.
  unfold config_typed, duration_ok. intros T H. destruct_and! T. unfold config_validate in H.
  repeat match type of H with
  | (reject_if ?b _ ≫= _) = _ => let E := fresh "E" in apply reject_if_Ok in H as [E H]
  | reject_if ?b _ = _ => destruct b eqn:?; [discriminate H|clear H]
  end.
  assert (0 ≤ as_millis (cfg_idle_timeout c)) by (apply Z.div_pos; lia).
  pose proof (len_nonneg (cfg_alpn c)).
  to_prop. widths. split; widths; lia.
Qed.

Lemma config_default_validates : config_validate config_default = Ok tt.
Proof. reflexivity. Qed.

Lemma config_default_valid : config_valid config_default.
Proof. split; by vm_compute. Qed.

#[export] Hint Resolve config_default_valid : core.
