(* ===== verification/StreamType.v ===== *)
(** * Stream directions (src/src/transport/state/stream_state.rs, [StreamType]) *)

From S2P Require Import Prelude.

Inductive StreamType := Bidirectional | UnidirectionalOut | UnidirectionalIn.

#[export] Instance StreamType_eq_dec : EqDecision StreamType.
Proof. solve_decision. Defined.

(** [StreamType::to_wire]. *)
Definition to_wire (t : StreamType) : Z :=
  match t with Bidirectional => 0 | UnidirectionalOut => 1 | UnidirectionalIn => 2 end.

(** [StreamType::from_wire]. *)
Definition from_wire (value : Z) : option StreamType :=
  if value =? 0 then Some Bidirectional
  else if value =? 1 then Some UnidirectionalOut
  else if value =? 2 then Some UnidirectionalIn
  else None.

(** [StreamType::for_peer]: how the receiver of a stream frame sees its direction. *)
Definition for_peer (t : StreamType) : option StreamType :=
  match t with
  | Bidirectional => Some Bidirectional
  | UnidirectionalOut => Some UnidirectionalIn
  | UnidirectionalIn => None
  end.

Lemma from_to_wire t : from_wire (to_wire t) = Some t.
Proof. by destruct t. Qed.
Lemma to_wire_ok t : u_ok 8 (to_wire t).
Proof. destruct t; vm_compute; split; congruence. Qed.
