(* ===== verification/Frames.v ===== *)
(** * The frame codec (src/src/protocol/frame.rs)

    Transport parameters, variable-length integers, the [Frame] enumeration,
    [Frame::encode] and [Frame::decode].  [decode] is split into one definition
    per frame type, in the order of the match arms. *)

From stdpp Require Import strings pretty.
From S2P Require Import Prelude Errors Buf Config StreamType.

Set Primitive Projections.
(** frame.rs, [TransportParameters]. *)
Record TransportParameters := mkTransportParameters {
  tp_max_streams : Z;
  tp_initial_stream_window : Z;
  tp_initial_max_data : Z;
  tp_max_datagram_size : Z;
  tp_idle_timeout_ms : Z;
}.
Unset Primitive Projections.

(** [TransportParameters::from_config]: the casts are [as u32] and [as u64]. *)
Definition from_config (c : ZtConfig) : TransportParameters := {|
  tp_max_streams := max_concurrent_streams c;
  tp_initial_stream_window := cfg_initial_stream_window c;
  tp_initial_max_data := cfg_initial_max_data c;
  tp_max_datagram_size := wrap 32 (sat_sub (cfg_mtu_max c) 64);
  tp_idle_timeout_ms := wrap 64 (as_millis (cfg_idle_timeout c));
|}.

(** [TransportParameters::validate]. *)
Definition params_validate (p : TransportParameters) : res TransportParameters :=
  if (tp_max_streams p =? 0)
     || (u_max 32 / 2 <? tp_max_streams p)
     || (tp_initial_stream_window p =? 0)
     || (tp_initial_max_data p =? 0)
     || (u_max 32 <? tp_initial_max_data p)
     || (tp_max_datagram_size p =? 0)
     || (tp_idle_timeout_ms p =? 0)
  then Err (InvalidPacket "invalid peer transport parameters")
  else Ok p.

(** [TransportParameters::transcript_bytes]: [to_be_bytes] of each field in turn. *)
Definition transcript_bytes (p : TransportParameters) : bytes :=
  be_bytes 8 (tp_max_streams p) ++ be_bytes 8 (tp_initial_stream_window p)
  ++ be_bytes 8 (tp_initial_max_data p) ++ be_bytes 4 (tp_max_datagram_size p)
  ++ be_bytes 8 (tp_idle_timeout_ms p).

(** [unreachable!()]. *)
Definition unreachable {A} : reader A := λ s, (Panic, s).

(** [src.chunk()[..n]]: copies the first [n] bytes and leaves them in place. *)
Definition chunk_prefix (n : Z) : reader bytes := λ s,
  if len s <? n then (Panic, s) else (Ok (take (Z.to_nat n) s), s).

Module Frame.

(** frame.rs, [enum Frame]. *)
Inductive t :=
  | Padding (n : Z)
  | Stream (id : Z) (stream_type : StreamType) (offset : Z) (data : bytes)
  | Ack (largest_acked window_size ack_delay : Z) (ack_ranges : list (Z * Z))
  | ConnectionClose
  | Handshake (public_key ed_public_key transcript_hash signature alpn : bytes)
  | Cookie (cookie : bytes)
  | StreamClose (id final_size : Z)
  | MaxStreamData (id max_data : Z)
  | MaxData (max_data : Z)
  | Datagram (data : bytes)
  | PathChallenge (data : bytes)
  | PathResponse (data : bytes)
  | Crypto (offset : Z) (data : bytes)
  | MaxStreams (max_streams : Z)
  | StreamsBlocked (max_streams : Z)
  | Ping
  | ResetStream (stream_id error_code final_size : Z)
  | StopSending (stream_id error_code : Z)
  | DataBlocked (max_data : Z)
  | StreamDataBlocked (stream_id max_data : Z)
  | ConnectionCloseV2 (error_code : Z) (reason : bytes)
  | TransportParameters (p : Frames.TransportParameters).

Section codec.
Context `{BC : BytesCrate}.

(** [put_varint]. *)
Definition put_varint (dst : bytes) (val : Z) : bytes :=
  if val <? 64 then put_u8 dst (wrap 8 val)
  else if val <? 16384 then put_u16 dst (Z.lor (wrap 16 val) 0x4000)
  else if val <? 1073741824 then put_u32 dst (Z.lor (wrap 32 val) 0x80000000)
  else put_u64 dst (Z.lor val 0xC000000000000000).

(** [get_varint]. *)
Definition get_varint : reader Z :=
  require 1 "Truncated varint";;
  first ← peek;
  let tag := Z.shiftr first 6 in
  if tag =? 0 then get_u8
  else if tag =? 1 then
    require 2 "Truncated varint 2";;
    v ← get_u16; mret (Z.land v 0x3FFF)
  else if tag =? 2 then
    require 4 "Truncated varint 4";;
    v ← get_u32; mret (Z.land v 0x3FFFFFFF)
  else if tag =? 3 then
    require 8 "Truncated varint 8";;
    v ← get_u64; mret (Z.land v 0x3FFFFFFFFFFFFFFF)
  else unreachable.

(** The [for (start, end) in ack_ranges.iter().take(range_len)] loop. *)
Definition put_ranges (dst : bytes) (ranges : list (Z * Z)) : bytes :=
  foldl (λ d '(lo, hi), put_u64 (put_u64 d lo) hi) dst ranges.

(** [Frame::encode]. *)
Definition encode (f : t) (dst : bytes) : bytes :=
  match f with
  | Padding n => Nat.iter (Z.to_nat n) (λ d, put_u8 d 0x00) dst
  | Stream id stream_type offset data =>
      let dst := put_u8 dst 0x01 in
      let dst := put_u32 dst id in
      let dst := put_u8 dst (to_wire stream_type) in
      let dst := put_u64 dst offset in
      let dst := put_varint dst (len data) in
      put_slice dst data
  | Ack largest_acked window_size ack_delay ack_ranges =>
      let dst := put_u8 dst 0x02 in
      let dst := put_u64 dst largest_acked in
      let dst := put_u32 dst window_size in
      let dst := put_varint dst ack_delay in
      let range_len := Z.min (len ack_ranges) 128 in
      let dst := put_u8 dst (wrap 8 range_len) in
      put_ranges dst (take (Z.to_nat range_len) ack_ranges)
  | ConnectionClose => put_u8 dst 0x03
  | Handshake public_key ed_public_key transcript_hash signature alpn =>
      let dst := put_u8 dst 0x04 in
      let dst := put_slice dst public_key in
      let dst := put_slice dst ed_public_key in
      let dst := put_u16 dst (wrap 16 (len transcript_hash)) in
      let dst := put_slice dst transcript_hash in
      let dst := put_slice dst signature in
      let dst := put_u8 dst (wrap 8 (len alpn)) in
      put_slice dst alpn
  | Cookie cookie =>
      let dst := put_u8 dst 0x05 in
      let dst := put_u16 dst (wrap 16 (len cookie)) in
      put_slice dst cookie
  | StreamClose id final_size =>
      let dst := put_u8 dst 0x06 in
      let dst := put_u32 dst id in
      put_u64 dst final_size
  | MaxStreamData id max_data =>
      let dst := put_u8 dst 0x07 in
      let dst := put_u32 dst id in
      put_u64 dst max_data
  | MaxData max_data =>
      let dst := put_u8 dst 0x08 in
      put_u64 dst max_data
  | Datagram data =>
      let dst := put_u8 dst 0x09 in
      let dst := put_varint dst (len data) in
      put_slice dst data
  | PathChallenge data => put_slice (put_u8 dst 0x0A) data
  | PathResponse data => put_slice (put_u8 dst 0x0B) data
  | Crypto offset data =>
      let dst := put_u8 dst 0x0C in
      let dst := put_u64 dst offset in
      let dst := put_varint dst (len data) in
      put_slice dst data
  | MaxStreams max_streams => put_u64 (put_u8 dst 0x12) max_streams
  | StreamsBlocked max_streams => put_u64 (put_u8 dst 0x13) max_streams
  | Ping => put_u8 dst 0x0D
  | ResetStream stream_id error_code final_size =>
      let dst := put_u8 dst 0x0E in
      let dst := put_u32 dst stream_id in
      let dst := put_varint dst error_code in
      put_varint dst final_size
  | StopSending stream_id error_code =>
      let dst := put_u8 dst 0x0F in
      let dst := put_u32 dst stream_id in
      put_varint dst error_code
  | DataBlocked max_data => put_varint (put_u8 dst 0x10) max_data
  | StreamDataBlocked stream_id max_data =>
      let dst := put_u8 dst 0x11 in
      let dst := put_u32 dst stream_id in
      put_varint dst max_data
  | ConnectionCloseV2 error_code reason =>
      let dst := put_u8 dst 0x14 in
      let dst := put_varint dst error_code in
      let dst := put_varint dst (len reason) in
      put_slice dst reason
  | TransportParameters p =>
      let dst := put_u8 dst 0x15 in
      put_slice dst (transcript_bytes p)
  end.

(** ** [Frame::decode], arm by arm *)

(** 0x00: the [while] loop that eats a run of zero bytes.  Every round consumes a
    byte, so one more round than there are bytes is enough. *)
Fixpoint skip_zeros (fuel : nat) (padding_len : Z) : reader Z := λ s,
  match fuel with
  | O => (Panic, s)
  | S fuel =>
      if (0 <? len s) && (default 1 (head s) =? 0x00)
      then (advance 1;; skip_zeros fuel (padding_len + 1)) s
      else (Ok padding_len, s)
  end.

Definition decode_padding : reader t := λ s,
  (padding_len ← skip_zeros (S (length s)) 1; mret (Padding padding_len)) s.

(** A length-prefixed payload: [if src.remaining() < len { Err } copy_to_bytes(len)]. *)
Definition take_bytes (n : Z) (msg : string) : reader bytes :=
  require n msg;; copy_to_bytes n.

Definition decode_stream : reader t :=
  require 14 "Stream frame too short";;
  id ← get_u32;
  ty ← get_u8;
  stream_type ← match from_wire ty with
                | Some st => mret st
                | None => throw (InvalidPacket "Invalid stream type")
                end;
  offset ← get_u64;
  n ← get_varint;
  data ← take_bytes n "Stream frame truncated";
  mret (Stream id stream_type offset data).

(** The [for _ in 0..range_count] loop. *)
Fixpoint get_ranges (n : nat) (acc : list (Z * Z)) : reader (list (Z * Z)) :=
  match n with
  | O => mret acc
  | S n =>
      lo ← get_u64;
      hi ← get_u64;
      if hi <? lo then throw (InvalidPacket "Ack range start > end")
      else get_ranges n (acc ++ [(lo, hi)])
  end.

Definition decode_ack : reader t :=
  require 13 "Ack frame too short";;
  largest_acked ← get_u64;
  window_size ← get_u32;
  ack_delay ← get_varint;
  require 1 "Ack frame range count missing";;
  range_count ← get_u8;
  (if 128 <? range_count then throw (InvalidPacket "Too many ACK ranges") else mret ());;
  require (range_count * 16) "Ack frame ranges truncated";;
  ack_ranges ← get_ranges (Z.to_nat range_count) [];
  mret (Ack largest_acked window_size ack_delay ack_ranges).

Definition decode_handshake : reader t :=
  require 130 "Handshake frame too short";;
  public_key ← chunk_prefix 32; advance 32;;
  ed_public_key ← chunk_prefix 32; advance 32;;
  th_len ← get_u16;
  require (th_len + 64) "Handshake frame truncated";;
  transcript_hash ← copy_to_bytes th_len;
  signature ← chunk_prefix 64; advance 64;;
  require 1 "Handshake frame ALPN length missing";;
  alpn_len ← get_u8;
  alpn ← take_bytes alpn_len "Handshake frame ALPN truncated";
  mret (Handshake public_key ed_public_key transcript_hash signature alpn).

Definition decode_cookie : reader t :=
  require 2 "Cookie frame too short";;
  n ← get_u16;
  cookie ← take_bytes n "Cookie frame truncated";
  mret (Cookie cookie).

Definition decode_stream_close : reader t :=
  require 12 "StreamClose frame too short";;
  id ← get_u32; final_size ← get_u64; mret (StreamClose id final_size).

Definition decode_max_stream_data : reader t :=
  require 12 "MaxStreamData frame too short";;
  id ← get_u32; max_data ← get_u64; mret (MaxStreamData id max_data).

Definition decode_max_data : reader t :=
  require 8 "MaxData frame too short";;
  max_data ← get_u64; mret (MaxData max_data).

Definition decode_datagram : reader t :=
  n ← get_varint;
  data ← take_bytes n "Datagram frame truncated";
  mret (Datagram data).

Definition decode_path_challenge : reader t :=
  data ← take_bytes 8 "PathChallenge frame too short"; mret (PathChallenge data).

Definition decode_path_response : reader t :=
  data ← take_bytes 8 "PathResponse frame too short"; mret (PathResponse data).

Definition decode_crypto : reader t :=
  require 9 "Crypto frame too short";;
  offset ← get_u64;
  n ← get_varint;
  data ← take_bytes n "Crypto frame truncated";
  mret (Crypto offset data).

Definition decode_max_streams : reader t :=
  require 8 "MaxStreams frame too short";;
  max_streams ← get_u64; mret (MaxStreams max_streams).

Definition decode_streams_blocked : reader t :=
  require 8 "StreamsBlocked frame too short";;
  max_streams ← get_u64; mret (StreamsBlocked max_streams).

Definition decode_reset_stream : reader t :=
  require 4 "ResetStream frame too short";;
  stream_id ← get_u32;
  error_code ← get_varint;
  final_size ← get_varint;
  mret (ResetStream stream_id error_code final_size).

Definition decode_stop_sending : reader t :=
  require 4 "StopSending frame too short";;
  stream_id ← get_u32;
  error_code ← get_varint;
  mret (StopSending stream_id error_code).

Definition decode_data_blocked : reader t :=
  max_data ← get_varint; mret (DataBlocked max_data).

Definition decode_stream_data_blocked : reader t :=
  require 4 "StreamDataBlocked frame too short";;
  stream_id ← get_u32;
  max_data ← get_varint;
  mret (StreamDataBlocked stream_id max_data).

Definition decode_connection_close_v2 : reader t :=
  error_code ← get_varint;
  reason_len ← get_varint;
  reason ← take_bytes reason_len "ConnectionCloseV2 reason truncated";
  mret (ConnectionCloseV2 error_code reason).

Definition decode_transport_parameters : reader t :=
  require 36 "TransportParameters frame too short";;
  max_streams ← get_u64;
  initial_stream_window ← get_u64;
  initial_max_data ← get_u64;
  max_datagram_size ← get_u32;
  idle_timeout_ms ← get_u64;
  mret (TransportParameters
          (mkTransportParameters max_streams initial_stream_window initial_max_data
             max_datagram_size idle_timeout_ms)).

(** The [match frame_type] of [decode]. *)
Definition decode_body (frame_type : Z) : reader t :=
  match frame_type with
  | 0x00 => decode_padding
  | 0x01 => decode_stream
  | 0x02 => decode_ack
  | 0x03 => mret ConnectionClose
  | 0x04 => decode_handshake
  | 0x05 => decode_cookie
  | 0x06 => decode_stream_close
  | 0x07 => decode_max_stream_data
  | 0x08 => decode_max_data
  | 0x09 => decode_datagram
  | 0x0A => decode_path_challenge
  | 0x0B => decode_path_response
  | 0x0C => decode_crypto
  | 0x12 => decode_max_streams
  | 0x13 => decode_streams_blocked
  | 0x0D => mret Ping
  | 0x0E => decode_reset_stream
  | 0x0F => decode_stop_sending
  | 0x10 => decode_data_blocked
  | 0x11 => decode_stream_data_blocked
  | 0x14 => decode_connection_close_v2
  | 0x15 => decode_transport_parameters
  | _ => throw (InvalidPacket ("Unknown frame type: " +:+ pretty frame_type))
  end.

(** [Frame::decode]. *)
Definition decode : reader t :=
  require 1 "Empty frame";;
  frame_type ← get_u8;
  decode_body frame_type.

(** [while payload.remaining() > 0 { decode(..) }], stopping at the first error: the
    receive loop of the connection actor and the fuzz entry point [decode_frames].
    The result is the frames decoded, and whether the loop stopped at an error. *)
Fixpoint decode_loop (fuel : nat) (s : bytes) : option (list t * bool) :=
  if len s =? 0 then Some ([], true)
  else match fuel with
  | O => None
  | S fuel =>
      match decode s with
      | (Ok f, s') =>
          match decode_loop fuel s' with
          | Some (fs, clean) => Some (f :: fs, clean)
          | None => None
          end
      | (Err _, _) => Some ([], false)
      | (Panic, _) => None
      end
  end.

End codec.
End Frame.
