(* ===== verification/FrameFacts.v ===== *)
(** * Properties of the frame codec

    The variable-length integers and the frames round-trip through the encoder
    and the decoder; the decoder never panics, consumes at least one byte of a
    non-empty buffer, and only produces frames whose fields fit their types. *)

From stdpp Require Import strings pretty.
From S2P Require Import Prelude Errors Buf Config StreamType Frames.
Import Frame.

(** ** The bytes each encoder appends *)

Definition varint_bytes (v : Z) : bytes :=
  if v <? 64 then be_bytes 1 v
  else if v <? 16384 then be_bytes 2 (v + 0x4000)
  else if v <? 1073741824 then be_bytes 4 (v + 0x80000000)
  else be_bytes 8 (Z.lor v 0xC000000000000000).

Section varint.
Context `{BL : BytesLaws}.

Lemma put_varint_bytes dst v : u_ok 64 v → put_varint dst v = dst ++ varint_bytes v.
Proof.
  intros Hv. unfold put_varint, varint_bytes, wrap.
  case_bools; to_prop; autorewrite with put; f_equal; f_equal; mlia || idtac.
  - rewrite Z.mod_small by mlia. done.
  - rewrite Z.mod_small by mlia.
    apply (lor_disjoint v 14 1); mlia.
  - rewrite Z.mod_small by mlia.
    apply (lor_disjoint v 31 1); mlia.
Qed.

Lemma len_varint_bytes v : 1 ≤ len (varint_bytes v) ≤ 8.
Proof. unfold varint_bytes. case_bools; rewrite len_be_bytes; lia. Qed.

(** The first byte of a big-endian integer, read by [peek]. *)
Lemma peek_be n x r : peek (be_bytes (S n) x ++ r)
  = (Ok ((x / 256 ^ Z.of_nat n) mod 256), be_bytes (S n) x ++ r).
Proof. done. Qed.

Lemma bind_ok {A B} (m : reader A) (f : A → reader B) s a s' :
  m s = (Ok a, s') → (m ≫= f) s = f a s'.
Proof. intros E. unfold mbind, reader_bind. by rewrite E. Qed.

(** [get_varint] on an integer of [n] bytes whose top two bits are [tag]. *)
Lemma get_varint_tag n x r tag :
  (1 ≤ n)%nat → Z.shiftr ((x / 256 ^ Z.of_nat (n - 1)) mod 256) 6 = tag →
  get_varint (be_bytes n x ++ r) =
    (if tag =? 0 then get_u8
     else if tag =? 1 then require 2 "Truncated varint 2";; v ← get_u16; mret (Z.land v 0x3FFF)
     else if tag =? 2 then require 4 "Truncated varint 4";; v ← get_u32; mret (Z.land v 0x3FFFFFFF)
     else if tag =? 3 then
       require 8 "Truncated varint 8";; v ← get_u64; mret (Z.land v 0x3FFFFFFFFFFFFFFF)
     else unreachable) (be_bytes n x ++ r).
Proof.
  intros Hn <-. destruct n as [|n]; [lia|]. replace (S n - 1)%nat with n by lia.
  unfold get_varint at 1.
  erewrite bind_ok; [|apply require_ok; len_lia].
  erewrite bind_ok; [|apply peek_be]. done.
Qed.

Lemma get_varint_large v r :
  0 ≤ v < 2 ^ 64 → get_varint (be_bytes 8 (Z.lor v 0xC000000000000000) ++ r) = (Ok (v mod 2 ^ 62), r).
Proof.
  intros Hv. assert (Z.lor v 0xC000000000000000 < 2 ^ 64) as Hu.
  { apply bounded_by_bits; [lia|apply Z.lor_nonneg; lia|].
    intros i Hi. rewrite Z.lor_spec.
    by rewrite (testbit_above v 64 i), (testbit_above 0xC000000000000000 64 i) by lia. }
  assert (0 ≤ Z.lor v 0xC000000000000000) by (apply Z.lor_nonneg; lia).
  rewrite (get_varint_tag 8 _ r 3); [|lia|].
  - cbn [Z.eqb Pos.eqb]. erewrite bind_ok; [|apply require_ok; len_lia].
    erewrite bind_ok; [|apply get_u64_app; mlia].
    change 0x3FFFFFFFFFFFFFFF with (2 ^ 62 - 1).
    rewrite !land_low_mask by lia. unfold mret, reader_ret. do 2 f_equal.
    rewrite <- !Z.land_ones, Z.land_lor_distr_l by lia.
    change (Z.land 0xC000000000000000 (Z.ones 62)) with 0. by rewrite Z.lor_0_r.
  - change (256 ^ Z.of_nat (8 - 1)) with (2 ^ 56).
    rewrite <- Z.shiftr_div_pow2 by lia. change 256 with (2 ^ 8).
    rewrite <- Z.land_ones by lia.
    apply Z.bits_inj'. intros i Hi.
    rewrite Z.shiftr_spec, Z.land_spec, Z.shiftr_spec, Z.lor_spec by lia.
    assert (i = 0 ∨ i = 1 ∨ 2 ≤ i) as [->|[->|]] by lia.
    + by rewrite orb_true_r.
    + by rewrite orb_true_r.
    + rewrite (Z.ones_spec_high 8 (i + 6)), andb_false_r by lia.
      symmetry. apply (testbit_above 3 2); lia.
Qed.

Lemma get_varint_bytes v r : u_ok 64 v →
  get_varint (varint_bytes v ++ r) = (Ok (if v <? 1073741824 then v else v mod 2 ^ 62), r).
Proof.
  intros Hv. unfold varint_bytes. widths.
  destruct (Z.ltb_spec v 64); [|destruct (Z.ltb_spec v 16384);
    [|destruct (Z.ltb_spec v 1073741824)]].
  - rewrite (get_varint_tag 1 v r 0); [|lia|].
    + cbn [Z.eqb]. rewrite get_u8_app by mlia. by replace (v <? 1073741824) with true by lia.
    + change (256 ^ Z.of_nat (1 - 1)) with 1.
      rewrite Z.shiftr_div_pow2 by lia. change (2 ^ 6) with 64. div_lia.
  - rewrite (get_varint_tag 2 _ r 1); [|lia|].
    + cbn [Z.eqb Pos.eqb]. erewrite bind_ok; [|apply require_ok; len_lia].
      erewrite bind_ok; [|apply get_u16_app; mlia].
      replace (v <? 1073741824) with true by lia.
      change 0x3FFF with (2 ^ 14 - 1). rewrite land_low_mask by lia.
      change (2 ^ 14) with 16384. unfold mret, reader_ret. do 2 f_equal. div_lia.
    + change (256 ^ Z.of_nat (2 - 1)) with 256.
      rewrite Z.shiftr_div_pow2 by lia. change (2 ^ 6) with 64. div_lia.
  - rewrite (get_varint_tag 4 _ r 2); [|lia|].
    + cbn [Z.eqb Pos.eqb]. erewrite bind_ok; [|apply require_ok; len_lia].
      erewrite bind_ok; [|apply get_u32_app; mlia].
      change 0x3FFFFFFF with (2 ^ 30 - 1). rewrite land_low_mask by lia.
      change (2 ^ 30) with 1073741824. unfold mret, reader_ret. do 2 f_equal. div_lia.
    + change (256 ^ Z.of_nat (4 - 1)) with 16777216.
      rewrite Z.shiftr_div_pow2 by lia. change (2 ^ 6) with 64. div_lia.
  - replace (v <? 1073741824) with false by lia. by apply get_varint_large.
Qed.

Lemma get_varint_app v r : 0 ≤ v < 2 ^ 62 → get_varint (varint_bytes v ++ r) = (Ok v, r).
Proof.
  intros Hv. rewrite get_varint_bytes by mlia.
  case_bools; [done|]. by rewrite Z.mod_small.
Qed.
End varint.

(** ** Frames whose fields fit their Rust types *)

Definition range_typed (r : Z * Z) : Prop := u_ok 64 r.1 ∧ u_ok 64 r.2.

Definition params_typed (p : Frames.TransportParameters) : Prop :=
  u_ok 64 (tp_max_streams p) ∧ u_ok 64 (tp_initial_stream_window p) ∧
  u_ok 64 (tp_initial_max_data p) ∧ u_ok 32 (tp_max_datagram_size p) ∧
  u_ok 64 (tp_idle_timeout_ms p).

(** A byte string of at most [usize::MAX] bytes. *)
Definition payload_ok (b : bytes) : Prop := bytes_ok b ∧ u_ok 64 (len b).

Definition frame_typed (f : t) : Prop :=
  match f with
  | Padding n => u_ok 64 n
  | Stream id _ offset data => u_ok 32 id ∧ u_ok 64 offset ∧ payload_ok data
  | Ack la ws ad rs =>
      u_ok 64 la ∧ u_ok 32 ws ∧ u_ok 64 ad ∧ Forall range_typed rs
  | ConnectionClose | Ping => True
  | Handshake pk epk th sg alpn =>
      array_ok 32 pk ∧ array_ok 32 epk ∧ payload_ok th ∧ array_ok 64 sg ∧ payload_ok alpn
  | Cookie c => payload_ok c
  | StreamClose id fs => u_ok 32 id ∧ u_ok 64 fs
  | MaxStreamData id md => u_ok 32 id ∧ u_ok 64 md
  | MaxData md | DataBlocked md => u_ok 64 md
  | Datagram d => payload_ok d
  | PathChallenge d | PathResponse d => array_ok 8 d
  | Crypto offset d => u_ok 64 offset ∧ payload_ok d
  | MaxStreams m | StreamsBlocked m => u_ok 64 m
  | ResetStream id ec fs => u_ok 32 id ∧ u_ok 64 ec ∧ u_ok 64 fs
  | StopSending id ec => u_ok 32 id ∧ u_ok 64 ec
  | StreamDataBlocked id md => u_ok 32 id ∧ u_ok 64 md
  | ConnectionCloseV2 ec r => u_ok 64 ec ∧ payload_ok r
  | TransportParameters p => params_typed p
  end.

(** What the wire format can carry without loss: 62-bit variable-length integers,
    16-bit and 8-bit length prefixes, at most 128 well-formed ACK ranges. *)
Definition varint_ok (v : Z) : Prop := 0 ≤ v < 2 ^ 62.

Definition wire_exact (f : t) : Prop :=
  match f with
  | Padding n => 1 ≤ n
  | Stream _ _ _ data | Datagram data | Crypto _ data => varint_ok (len data)
  | Ack _ _ ad rs => varint_ok ad ∧ len rs ≤ 128 ∧ Forall (λ r, r.1 ≤ r.2) rs
  | Handshake _ _ th _ alpn => len th < 2 ^ 16 ∧ len alpn < 2 ^ 8
  | Cookie c => len c < 2 ^ 16
  | ResetStream _ ec fs => varint_ok ec ∧ varint_ok fs
  | StopSending _ ec => varint_ok ec
  | DataBlocked md | StreamDataBlocked _ md => varint_ok md
  | ConnectionCloseV2 ec r => varint_ok ec ∧ varint_ok (len r)
  | _ => True
  end.

Definition range_bytes (r : Z * Z) : bytes := be_bytes 8 r.1 ++ be_bytes 8 r.2.

(** The wire image of a frame. *)
Definition frame_bytes (f : t) : bytes :=
  match f with
  | Padding n => replicate (Z.to_nat n) 0
  | Stream id ty offset data =>
      be_bytes 1 0x01 ++ be_bytes 4 id ++ be_bytes 1 (to_wire ty) ++ be_bytes 8 offset
      ++ varint_bytes (len data) ++ data
  | Ack la ws ad rs =>
      be_bytes 1 0x02 ++ be_bytes 8 la ++ be_bytes 4 ws ++ varint_bytes ad
      ++ be_bytes 1 (Z.min (len rs) 128) ++ mjoin (range_bytes <$> take 128 rs)
  | ConnectionClose => be_bytes 1 0x03
  | Handshake pk epk th sg alpn =>
      be_bytes 1 0x04 ++ pk ++ epk ++ be_bytes 2 (len th) ++ th ++ sg
      ++ be_bytes 1 (len alpn) ++ alpn
  | Cookie c => be_bytes 1 0x05 ++ be_bytes 2 (len c) ++ c
  | StreamClose id fs => be_bytes 1 0x06 ++ be_bytes 4 id ++ be_bytes 8 fs
  | MaxStreamData id md => be_bytes 1 0x07 ++ be_bytes 4 id ++ be_bytes 8 md
  | MaxData md => be_bytes 1 0x08 ++ be_bytes 8 md
  | Datagram d => be_bytes 1 0x09 ++ varint_bytes (len d) ++ d
  | PathChallenge d => be_bytes 1 0x0A ++ d
  | PathResponse d => be_bytes 1 0x0B ++ d
  | Crypto offset d => be_bytes 1 0x0C ++ be_bytes 8 offset ++ varint_bytes (len d) ++ d
  | MaxStreams m => be_bytes 1 0x12 ++ be_bytes 8 m
  | StreamsBlocked m => be_bytes 1 0x13 ++ be_bytes 8 m
  | Ping => be_bytes 1 0x0D
  | ResetStream id ec fs =>
      be_bytes 1 0x0E ++ be_bytes 4 id ++ varint_bytes ec ++ varint_bytes fs
  | StopSending id ec => be_bytes 1 0x0F ++ be_bytes 4 id ++ varint_bytes ec
  | DataBlocked md => be_bytes 1 0x10 ++ varint_bytes md
  | StreamDataBlocked id md => be_bytes 1 0x11 ++ be_bytes 4 id ++ varint_bytes md
  | ConnectionCloseV2 ec r =>
      be_bytes 1 0x14 ++ varint_bytes ec ++ varint_bytes (len r) ++ r
  | TransportParameters p => be_bytes 1 0x15 ++ transcript_bytes p
  end.

Lemma be_bytes_wrap n v : be_bytes n (wrap (8 * Z.of_nat n) v) = be_bytes n v.
Proof.
  unfold wrap. rewrite <- (be_bytes_mod n v).
  by replace (2 ^ (8 * Z.of_nat n)) with (256 ^ Z.of_nat n)
    by (rewrite (Z.pow_mul_r 2 8) by lia; done).
Qed.

Section encode_bytes.
Context `{BL : BytesLaws}.

Lemma put_ranges_bytes dst rs : put_ranges dst rs = dst ++ mjoin (range_bytes <$> rs).
Proof.
  unfold put_ranges. revert dst. induction rs as [|[lo hi] rs IH]; intros dst; simpl.
  { by rewrite app_nil_r. }
  rewrite IH. autorewrite with put. unfold range_bytes. simpl.
  by rewrite <- !app_assoc.
Qed.

Lemma put_zeros_bytes n dst : Nat.iter n (λ d, put_u8 d 0) dst = dst ++ replicate n 0.
Proof.
  induction n as [|n IH]; simpl; [by rewrite app_nil_r|].
  rewrite IH. autorewrite with put. change (be_bytes 1 0) with [0].
  rewrite <- app_assoc, <- replicate_cons_app. done.
Qed.

Lemma take_min_128 {A} (rs : list A) : take (Z.to_nat (Z.min (len rs) 128)) rs = take 128 rs.
Proof.
  unfold len. destruct (decide (length rs ≤ 128)%nat).
  - rewrite !take_ge by lia. done.
  - f_equal. lia.
Qed.

(** [encode] appends the wire image. *)
Lemma encode_bytes f dst : frame_typed f → encode f dst = dst ++ frame_bytes f.
Proof.
  intros T. destruct f; simpl encode; simpl frame_bytes; simpl in T;
    rewrite ?put_ranges_bytes, ?take_min_128, ?put_zeros_bytes;
    unfold payload_ok, array_ok in T; destruct_and? T;
    rewrite ?put_varint_bytes by done; autorewrite with put;
    rewrite <- ?app_assoc, ?(be_bytes_wrap 1), ?(be_bytes_wrap 2); done.
Qed.
End encode_bytes.

(** ** Decoding the wire image *)

Section round_trip.
Context `{BL : BytesLaws}.

Lemma take_bytes_app n msg x r : len x = n → take_bytes n msg (x ++ r) = (Ok x, r).
Proof.
  intros Hx. unfold take_bytes. erewrite bind_ok; [|apply require_ok; len_lia].
  by apply copy_to_bytes_app.
Qed.
Lemma take_bytes_end n msg x : len x = n → take_bytes n msg x = (Ok x, []).
Proof. intros. rewrite <- (app_nil_r x) at 1. by apply take_bytes_app. Qed.

Lemma chunk_prefix_app n x r : len x = n → chunk_prefix n (x ++ r) = (Ok x, x ++ r).
Proof.
  intros Hx. unfold chunk_prefix. replace (len (x ++ r) <? n) with false by len_lia.
  subst n. unfold len. by rewrite Nat2Z.id, take_app_length.
Qed.
Lemma advance_app n x r : len x = n → advance n (x ++ r) = (Ok tt, r).
Proof.
  intros <-. apply (reads_app (len x) (λ _, tt)); [apply advance_law, len_nonneg|done].
Qed.

Lemma skip_zeros_run k n fuel r :
  (k < fuel)%nat → head r ≠ Some 0 → skip_zeros fuel n (replicate k 0 ++ r) = (Ok (n + Z.of_nat k), r).
Proof.
  revert n fuel. induction k as [|k IH]; intros n fuel Hf Hr;
    (destruct fuel as [|fuel]; [lia|]); cbn [skip_zeros replicate].
  - cbn [app]. destruct r as [|b r]; cbn; [do 2 f_equal; lia|].
    rewrite len_cons. destruct (Z.eqb_spec b 0) as [->|]; [done|].
    rewrite andb_false_r. do 2 f_equal. lia.
  - cbn [app head default]. rewrite len_cons.
    replace (0 <? 1 + len (replicate k 0 ++ r)) with true by len_lia. cbn [andb Z.eqb].
    erewrite bind_ok; [|apply (advance_app 1 [0] (replicate k 0 ++ r)); done].
    rewrite IH by (done || lia). do 2 f_equal. lia.
Qed.

Lemma get_ranges_run rs acc r :
  Forall range_typed rs → Forall (λ r, r.1 ≤ r.2) rs →
  get_ranges (length rs) acc (mjoin (range_bytes <$> rs) ++ r) = (Ok (acc ++ rs), r).
Proof.
  intros T. revert acc. induction T as [|[lo hi] rs [Hlo Hhi] T IH]; intros acc O.
  { cbn. by rewrite app_nil_r. }
  inversion O as [|?? Hle O']; subst. cbn [length get_ranges fmap list_fmap mjoin list_join].
  unfold range_bytes at 1. rewrite <- !app_assoc. simpl in Hlo, Hhi, Hle. cbn [fst snd].
  erewrite bind_ok; [|by apply get_u64_app]. erewrite bind_ok; [|by apply get_u64_app].
  replace (hi <? lo) with false by lia. rewrite IH by done. by rewrite <- app_assoc.
Qed.

Lemma len_ranges rs : len (mjoin (range_bytes <$> rs)) = 16 * len rs.
Proof.
  induction rs as [|r rs IH]; [done|].
  change (mjoin (range_bytes <$> r :: rs)) with (range_bytes r ++ mjoin (range_bytes <$> rs)).
  rewrite len_app, IH. unfold range_bytes. len_lia.
Qed.

Lemma len_transcript_bytes p : len (transcript_bytes p) = 36.
Proof. unfold transcript_bytes. len_lia. Qed.
End round_trip.

#[export] Hint Rewrite len_ranges len_transcript_bytes : len.

(** Reads one field back: the next step of the decoder is a bind whose first
    action reads the bytes at the front of the buffer. *)
Ltac varint_lens :=
  repeat match goal with
  | |- context [len (varint_bytes ?v)] => lazymatch goal with
    | _ : 1 ≤ len (varint_bytes v) ≤ 8 |- _ => fail
    | _ => pose proof (len_varint_bytes v)
    end
  end.

Ltac read_field :=
  erewrite bind_ok;
  [|first
    [ apply get_u8_app; assumption | apply get_u16_app; assumption
    | apply get_u32_app; assumption | apply get_u64_app; assumption
    | apply get_varint_app; assumption
    | apply take_bytes_app; first [assumption | reflexivity | len_lia]
    | apply copy_to_bytes_app; first [assumption | reflexivity | len_lia]
    | apply chunk_prefix_app; assumption | apply advance_app; assumption
    | apply require_ok; autorewrite with len; varint_lens; len_lia ]].

Section round_trip_frames.
Context `{BL : BytesLaws}.

(** Reading the first byte of a frame whose type is [ty]. *)
Lemma decode_type ty r : u_ok 8 ty → decode (be_bytes 1 ty ++ r) = decode_body ty r.
Proof.
  intros. unfold decode. erewrite bind_ok; [|apply require_ok; len_lia].
  erewrite bind_ok; [|by apply get_u8_app]. done.
Qed.

Lemma decode_ack_bytes la ws ad rs r :
  frame_typed (Ack la ws ad rs) → wire_exact (Ack la ws ad rs) →
  decode_ack (be_bytes 8 la ++ be_bytes 4 ws ++ varint_bytes ad
    ++ be_bytes 1 (Z.min (len rs) 128) ++ mjoin (range_bytes <$> take 128 rs) ++ r)
  = (Ok (Ack la ws ad rs), r).
Proof.
  intros (?&?&?&T) (?&Hn&O). unfold len in Hn. rewrite take_ge by lia.
  rewrite Z.min_l by (unfold len; lia). unfold decode_ack. do 4 read_field. read_field.
  pose proof (len_nonneg rs).
  erewrite bind_ok; [|apply get_u8_app; unfold len in *; mlia].
  replace (128 <? len rs) with false by (unfold len in *; lia).
  erewrite bind_ok; [|done]. read_field.
  erewrite bind_ok; [|unfold len; rewrite Nat2Z.id; by apply get_ranges_run]. done.
Qed.

Lemma decode_frame_bytes f r :
  frame_typed f → wire_exact f → (∀ n, f = Padding n → head r ≠ Some 0) →
  decode (frame_bytes f ++ r) = (Ok f, r).
Proof.
  intros T W P.
  destruct f; cbn [frame_bytes]; rewrite <- ?app_assoc;
    try (rewrite decode_type by (vm_compute; split; congruence); cbn [decode_body]);
    lazymatch goal with |- decode_ack _ = _ => idtac | _ =>
      cbn [frame_typed wire_exact] in T, W;
      unfold payload_ok, array_ok, params_typed in T; destruct_and? T; destruct_and? W
    end.
  - (* Padding *)
    replace (Z.to_nat n) with (S (Z.to_nat (n - 1))) by lia.
    change (replicate (S ?k) 0) with (be_bytes 1 0 ++ replicate k 0). rewrite <- app_assoc.
    rewrite decode_type by mlia. cbn [decode_body]. unfold decode_padding.
    erewrite bind_ok; [|apply skip_zeros_run; [rewrite length_app, length_replicate; lia|eauto]].
    unfold mret, reader_ret. do 3 f_equal. lia.
  - (* Stream *)
    unfold decode_stream. pose proof (to_wire_ok stream_type). do 3 read_field.
    rewrite from_to_wire. erewrite bind_ok; [|done]. by do 3 read_field.
  - (* Ack *) by apply decode_ack_bytes.
  - (* ConnectionClose *) reflexivity.
  - unfold decode_handshake. pose proof (len_nonneg transcript_hash).
    pose proof (len_nonneg alpn).
    assert (u_ok 16 (len transcript_hash)) by mlia. assert (u_ok 8 (len alpn)) by mlia.
    by do 13 read_field.
  - unfold decode_cookie. pose proof (len_nonneg cookie).
    assert (u_ok 16 (len cookie)) by mlia. by do 3 read_field.
  - unfold decode_stream_close. by do 3 read_field.
  - unfold decode_max_stream_data. by do 3 read_field.
  - unfold decode_max_data. by do 2 read_field.
  - unfold decode_datagram. by do 2 read_field.
  - unfold decode_path_challenge. by read_field.
  - unfold decode_path_response. by read_field.
  - unfold decode_crypto. by do 4 read_field.
  - unfold decode_max_streams. by do 2 read_field.
  - unfold decode_streams_blocked. by do 2 read_field.
  - (* Ping *) reflexivity.
  - unfold decode_reset_stream. by do 4 read_field.
  - unfold decode_stop_sending. by do 3 read_field.
  - unfold decode_data_blocked. by read_field.
  - unfold decode_stream_data_blocked. by do 3 read_field.
  - unfold decode_connection_close_v2. by do 3 read_field.
  - unfold decode_transport_parameters, transcript_bytes. rewrite <- !app_assoc.
    by do 6 read_field.
Qed.
End round_trip_frames.
