(* ===== verification/FrameProps.v ===== *)
(** * The frame codec: theorems

    The statements about [Frame::encode] and [Frame::decode] that the rest of the
    transport relies on, from the lemmas of [FrameFacts] and [FrameSafety]. *)

From stdpp Require Import strings pretty.
From S2P Require Import Prelude Errors Buf Config StreamType Frames FrameFacts FrameSafety.
Import Frame.

(** ** Sequences of frames *)

(** The payload the packet sender builds: each frame appended in turn. *)
Definition encode_all `{BytesCrate} (fs : list t) (dst : bytes) : bytes :=
  foldl (λ d f, encode f d) dst fs.

Definition is_padding (f : t) : bool := match f with Padding _ => true | _ => false end.

(** Two adjacent runs of padding are one run on the wire. *)
Fixpoint no_adjacent_padding (fs : list t) : Prop :=
  match fs with
  | f :: ((g :: _) as fs') =>
      (is_padding f = true → is_padding g = false) ∧ no_adjacent_padding fs'
  | _ => True
  end.

(** What the loop delivers for a payload. *)
Definition delivered (s : bytes) (r : option (list t * bool)) : Prop :=
  match r with
  | Some (fs, _) => Forall (λ f, frame_typed f ∧ wire_exact f) fs ∧ len fs ≤ len s
  | None => False
  end.

Section sequences.
Context `{BL : BytesLaws}.

Lemma encode_all_bytes fs dst :
  Forall frame_typed fs → encode_all fs dst = dst ++ mjoin (frame_bytes <$> fs).
Proof.
  intros T. revert dst. induction T as [|f fs Hf T IH]; intros dst.
  { by rewrite app_nil_r. }
  change (encode_all (f :: fs) dst) with (encode_all fs (encode f dst)).
  rewrite IH, encode_bytes by done. by rewrite <- app_assoc.
Qed.

(** Only padding starts with a zero byte. *)
Lemma head_frame_bytes f r :
  wire_exact f → head (frame_bytes f ++ r) = Some 0 → is_padding f = true.
Proof.
  intros W. destruct f; try done; cbn [frame_bytes]; rewrite <- ?app_assoc; cbn; congruence.
Qed.

Lemma frame_bytes_nonempty f : wire_exact f → 1 ≤ len (frame_bytes f).
Proof.
  intros W. destruct f; cbn [frame_bytes]; rewrite ?len_app, ?len_be_bytes;
    try (change (Z.of_nat 1) with 1); try (simpl in W; len_lia); len_lia.
Qed.

(** The decoder reads the first frame of a sequence. *)
Lemma decode_next f fs :
  frame_typed f → wire_exact f → Forall wire_exact fs → no_adjacent_padding (f :: fs) →
  decode (frame_bytes f ++ mjoin (frame_bytes <$> fs)) = (Ok f, mjoin (frame_bytes <$> fs)).
Proof.
  intros T W Ws N. apply decode_frame_bytes; [done|done|]. intros n ->. destruct fs as [|g fs]; [done|]. destruct N as [N _].
  change (mjoin (frame_bytes <$> g :: fs)) with (frame_bytes g ++ mjoin (frame_bytes <$> fs)).
  intros E. apply head_frame_bytes in E; [|by inversion Ws]. by rewrite N in E.
Qed.

(** A loop over the frames of a payload: [step] is its body. *)
Lemma loop_frames {S} (loop : nat → S → bytes → res S) (step : S → t → res S) fs :
  (∀ fuel st, loop fuel st [] = Ok st) →
  (∀ fuel st s f s', len s ≠ 0 → decode s = (Ok f, s') → loop (Datatypes.S fuel) st s = (st' ← step st f; loop fuel st' s')) →
  Forall frame_typed fs → Forall wire_exact fs → no_adjacent_padding fs →
  ∀ fuel st, (length (mjoin (frame_bytes <$> fs)) ≤ fuel)%nat →
  loop fuel st (mjoin (frame_bytes <$> fs)) = foldl (λ r f, r ≫= λ st, step st f) (Ok st) fs.
Proof.
  intros H0 H1. induction fs as [|f fs IH]; intros T W N fuel st Hl; [apply H0|].
  inversion T as [|?? Tf Ts]; inversion W as [|?? Wf Ws]; subst.
  change (mjoin (frame_bytes <$> f :: fs)) with (frame_bytes f ++ mjoin (frame_bytes <$> fs)) in *.
  pose proof (frame_bytes_nonempty f Wf) as L. rewrite length_app in Hl. destruct fuel as [|fuel]; [unfold len in L; lia|].
  rewrite (H1 fuel st _ f (mjoin (frame_bytes <$> fs))); [|pose proof (len_nonneg (mjoin (frame_bytes <$> fs))); rewrite len_app; lia|by apply decode_next].
  cbn [foldl mbind res_bind]. destruct (step st f) as [st'|e|].
  - apply IH; [done|done|by destruct fs; [|destruct N]|unfold len in L; lia].
  - clear. induction fs; [done|]. by cbn [foldl].
  - clear. induction fs; [done|]. by cbn [foldl].
Qed.

Lemma decode_loop_frames fs fuel :
  Forall frame_typed fs → Forall wire_exact fs → no_adjacent_padding fs →
  (length fs ≤ fuel)%nat → decode_loop fuel (mjoin (frame_bytes <$> fs)) = Some (fs, true).
Proof.
  intros T. revert fuel. induction T as [|f fs Hf T IH]; intros fuel W N Hl.
  { by destruct fuel. }
  inversion W as [|?? Wf Ws]; subst. destruct fuel as [|fuel]; [simpl in Hl; lia|].
  change (mjoin (frame_bytes <$> f :: fs)) with (frame_bytes f ++ mjoin (frame_bytes <$> fs)).
  cbn [decode_loop]. pose proof (frame_bytes_nonempty f Wf).
  replace (len (frame_bytes f ++ mjoin (frame_bytes <$> fs)) =? 0) with false by len_lia.
  rewrite decode_next by done. rewrite IH; [done|done| |simpl in Hl; lia]. by destruct fs; [|destruct N].
Qed.

(** Frames are bytes. *)
Lemma varint_bytes_ok v : bytes_ok (varint_bytes v).
Proof. unfold varint_bytes. repeat case_match; apply be_bytes_ok. Qed.

Lemma frame_bytes_ok f : frame_typed f → bytes_ok (frame_bytes f).
Proof.
  destruct f; cbn [frame_bytes frame_typed]; unfold payload_ok, array_ok, transcript_bytes; intros T; destruct_and? T;
    repeat (apply Forall_app; split); try done; try apply be_bytes_ok; try apply varint_bytes_ok.
  - apply Forall_replicate. done.
  - apply Forall_join, Forall_fmap, Forall_true. intros r. apply Forall_app; split; apply be_bytes_ok.
Qed.

Lemma len_frames_le fs :
  Forall wire_exact fs → len fs ≤ len (mjoin (frame_bytes <$> fs)).
Proof.
  induction 1 as [|f fs W _ IH]; [done|].
  change (mjoin (frame_bytes <$> f :: fs)) with (frame_bytes f ++ mjoin (frame_bytes <$> fs)).
  pose proof (frame_bytes_nonempty f W). len_lia.
Qed.

Lemma decode_step s :
  bytes_ok s → u_ok 63 (len s) →
  rspec decode s (λ f s', frame_typed f ∧ wire_exact f ∧ bytes_ok s' ∧ len s' < len s).
Proof.
  intros Hb Hl. unfold decode. rstep. rstep.
  eapply rwp_mono; [apply decode_body_safe; unfold u_ok in *; try done; lia| |done].
  intros f s1 (?&?&?&?). repeat split; try done; lia.
Qed.

Lemma decode_loop_delivered fuel s :
  bytes_ok s → u_ok 63 (len s) → (length s ≤ fuel)%nat →
  delivered s (decode_loop fuel s).
Proof.
  revert s. induction fuel as [|fuel IH]; intros s Hb Hl Hf; cbn [decode_loop].
  { by destruct s; [|simpl in Hf; lia]. }
  destruct (len s =? 0) eqn:E; [to_prop; split; [done|rewrite len_nil; lia]|].
  pose proof (decode_step s Hb Hl) as D. unfold rwp in D.
  destruct (decode s) as [[f| |] s']; [|split; [done|apply len_nonneg]|done].
  destruct D as (?&?&?&?). assert (delivered s' (decode_loop fuel s')) as D'.
  { apply IH; [done|unfold u_ok in *; pose proof (len_nonneg s'); lia|unfold len in *; lia]. }
  destruct (decode_loop fuel s') as [[fs c]|]; [|done]. destruct D' as [? ?].
  split; [by constructor|len_lia].
Qed.
End sequences.

(** ** The theorems *)

(** C28: A packet payload built by encoding frames one after another is decoded by
    the receive loop into the same frames, in order, and the loop stops cleanly at
    the end of the payload.  The frames have fields that fit their Rust types and
    that the wire format can carry (62-bit variable-length integers, 8- and 16-bit
    length prefixes, at most 128 ACK ranges), and two padding runs are not adjacent. *)
Theorem decode_encode_frames `{BL : BytesLaws} (fs : list t) :
  Forall frame_typed fs → Forall wire_exact fs → no_adjacent_padding fs →
  decode_loop (length (encode_all fs [])) (encode_all fs []) = Some (fs, true).
Proof.
  intros T W N. rewrite encode_all_bytes by done. apply decode_loop_frames; try done.
  pose proof (len_frames_le fs W) as L. unfold len in L. cbn [app]. lia.
Qed.

Lemma decode_encode_frames_witness :
  let fs := [ Ack 7 65536 25 [(5, 7); (0, 2)]; Stream 4 Bidirectional 70000 [1; 2; 3];
              ConnectionCloseV2 4611686018427387903 [104; 105]; Padding 3 ] in
  @decode_loop bytes_model (length (@encode_all bytes_model fs []))
    (@encode_all bytes_model fs []) = Some (fs, true).
Proof.
  apply (@decode_encode_frames bytes_model bytes_model_laws).
  - closed.
  - closed.
  - closed.
Defined.

(** Whatever bytes it is given, [Frame::decode] does not panic; it either reports
    [InvalidPacket], or returns a frame whose fields fit their Rust types and the wire
    format (at most 128 ACK ranges, each with start at most its end) and has consumed at
    least one byte. *)
Theorem decode_total `{BL : BytesLaws} (s : bytes) :
  bytes_ok s → u_ok 63 (len s) →
  match decode s with
  | (Ok f, s') => frame_typed f ∧ wire_exact f ∧ bytes_ok s' ∧ len s' < len s
  | (Err e, _) => ∃ msg, e = InvalidPacket msg
  | (Panic, _) => False
  end.
Proof. apply decode_step. Qed.

Lemma decode_total_witness :
  match @decode bytes_model [0x0E; 0; 0; 0; 1; 0x40] with
  | (Ok f, s') => frame_typed f ∧ wire_exact f ∧ bytes_ok s'
                  ∧ len s' < len [0x0E; 0; 0; 0; 1; 0x40]
  | (Err e, _) => ∃ msg, e = InvalidPacket msg
  | (Panic, _) => False
  end.
Proof.
  apply (@decode_total bytes_model bytes_model_laws).
  - closed.
  - closed.
Defined.

(** C32: The receive loop terminates on every payload, within one round per byte, and every
    frame it hands on is well formed, even when it stops at a malformed frame. *)
Theorem decode_loop_total `{BL : BytesLaws} (s : bytes) :
  bytes_ok s → u_ok 63 (len s) →
  ∃ fs clean, decode_loop (length s) s = Some (fs, clean)
    ∧ Forall (λ f, frame_typed f ∧ wire_exact f) fs ∧ len fs ≤ len s.
Proof.
  intros Hb Hl. pose proof (decode_loop_delivered (length s) s Hb Hl (le_n _)) as D.
  destruct (decode_loop (length s) s) as [[fs c]|]; [|done]. destruct D. by exists fs, c.
Qed.

Lemma decode_loop_total_witness :
  ∃ fs clean, @decode_loop bytes_model 3 [0x0D; 0x03; 0x77] = Some (fs, clean)
    ∧ Forall (λ f, frame_typed f ∧ wire_exact f) fs ∧ len fs ≤ 3.
Proof.
  apply (@decode_loop_total bytes_model bytes_model_laws [0x0D; 0x03; 0x77]).
  - closed.
  - closed.
Defined.

(** C40: A variable-length integer comes back unchanged exactly when it is below 2^62; a
    larger [u64] loses its two top bits without any error being reported. *)
Theorem varint_round_trip `{BL : BytesLaws} (v : Z) (r : bytes) :
  u_ok 64 v →
  get_varint (put_varint [] v ++ r) = (Ok (v mod 2 ^ 62), r)
  ∧ (v mod 2 ^ 62 = v ↔ v < 2 ^ 62).
Proof.
  intros Hv. rewrite put_varint_bytes by done. cbn [app]. split.
  - rewrite get_varint_bytes by done. case_bools; [|done].
    to_prop. rewrite Z.mod_small by (unfold u_ok in Hv; lia). done.
  - unfold u_ok in Hv. pose proof (Z.mod_pos_bound v (2 ^ 62)).
    split; intros; [lia|]. apply Z.mod_small; lia.
Qed.

Lemma varint_round_trip_witness :
  @get_varint bytes_model (@put_varint bytes_model [] (2 ^ 62 + 5) ++ [9]) = (Ok 5, [9])
  ∧ ((2 ^ 62 + 5) mod 2 ^ 62 = 2 ^ 62 + 5 ↔ 2 ^ 62 + 5 < 2 ^ 62).
Proof. apply (@varint_round_trip bytes_model bytes_model_laws). closed. Defined.

(** What a valid configuration announces is well-formed and accepted. *)
Lemma valid_params c :
  config_typed c → config_validate c = Ok tt →
  params_typed (from_config c) ∧ params_validate (from_config c) = Ok (from_config c).
Proof.
  intros T V. pose proof (config_validate_sound c T V) as [].
  unfold config_typed in T. destruct_and! T. split.
  - unfold params_typed; simpl; unfold wrap, sat_sub. repeat split; first [mlia | by apply Z.mod_pos_bound].
  - unfold params_validate. case_bools; [|done].
    exfalso. cbn [from_config tp_max_streams tp_initial_stream_window tp_initial_max_data
      tp_max_datagram_size tp_idle_timeout_ms] in E.
    unfold wrap, sat_sub in E. rewrite !Z.mod_small in E by mlia.
    widths. change (4294967295 / 2) with 2147483647 in *. lia.
Qed.

(** The transport parameters an endpoint derives from a configuration that passed
    [ZtConfig::validate] are accepted by the peer's [TransportParameters::validate], and
    they survive the wire. *)
Theorem valid_config_params_accepted `{BL : BytesLaws} (c : ZtConfig) (r : bytes) :
  config_typed c → config_validate c = Ok tt →
  params_validate (from_config c) = Ok (from_config c)
  ∧ decode (encode (TransportParameters (from_config c)) [] ++ r)
    = (Ok (TransportParameters (from_config c)), r).
Proof.
  intros T V. destruct (valid_params c T V) as [P A]. split; [done|].
  rewrite encode_bytes by exact P. cbn [app]. apply decode_frame_bytes; [exact P|exact I|discriminate].
Qed.

Lemma valid_config_params_accepted_witness :
  params_validate (from_config config_default) = Ok (from_config config_default)
  ∧ @decode bytes_model (@encode bytes_model (TransportParameters (from_config config_default)) []
      ++ [0x0D])
    = (Ok (TransportParameters (from_config config_default)), [0x0D]).
Proof.
  apply (@valid_config_params_accepted bytes_model bytes_model_laws).
  - closed.
  - reflexivity.
Defined.
