(* ===== verification/Packet.v ===== *)
(** * Packet headers (src/src/protocol/packet.rs and routing.rs)

    The wire form of a packet header, where its packet number sits
    ([get_pn_offset]), and the router's shortcut to the destination connection id
    ([extract_dcid_fast]). *)

From stdpp Require Import strings.
From S2P Require Import Prelude Errors Buf.

(** [PROTOCOL_VERSION]. *)
Definition PROTOCOL_VERSION : Z := 2.

Module PacketType.
(** packet.rs, [enum PacketType]. *)
Inductive t := Initial | Handshake | Data | Close | MtuProbe | Retry.

(** [p_type as u8]. *)
Definition as_u8 (p : t) : Z :=
  match p with
  | Initial => 0x00 | Handshake => 0x01 | Data => 0x02
  | Close => 0x0A | MtuProbe => 0x0B | Retry => 0x0C
  end.

#[export] Instance eq_dec : EqDecision t.
Proof. solve_decision. Defined.
End PacketType.

Module PacketHeader.
Import PacketType.

Set Primitive Projections.
(** packet.rs, [struct PacketHeader]. *)
Record t := mk {
  p_type : PacketType.t;
  is_long : bool;
  version : Z;
  dcid : bytes;
  scid : bytes;
  packet_number : Z;
  key_phase : bool;
  pn_len : Z;
}.
Unset Primitive Projections.

#[export] Instance upd_packet_number : Upd packet_number.
Proof. derive_upd packet_number. Defined.

(** [PacketHeader::get_pn_offset]. *)
Definition get_pn_offset (data : bytes) : res (option Z) :=
  if len data =? 0 then Ok None
  else
    first ← at_index data 0;
    if negb (Z.land first 0x80 =? 0) then
      let offset := 6 in
      if len data <? offset then Ok None
      else
        dcid_len ← at_index data 5;
        let offset := offset + dcid_len in
        if len data <? offset + 1 then Ok None
        else
          scid_len ← at_index data offset;
          let offset := offset + (1 + scid_len) in
          Ok (Some offset)
    else
      let offset := 2 in
      if len data <? offset then Ok None
      else
        dcid_len ← at_index data 1;
        let offset := offset + dcid_len in
        Ok (Some offset).

Section codec.
Context `{BC : BytesCrate}.

(** The mask of the bytes of the packet number that travel. *)
Definition pn_mask (pn_len : Z) : Z :=
  match pn_len with
  | 1 => 0xFF
  | 2 => 0xFFFF
  | 3 => 0xFFFFFF
  | 4 => 0xFFFFFFFF
  | _ => 0xFFFFFFFF
  end.

(** The [match pn_len] that writes the packet number, with its [unreachable!()]. *)
Definition put_pn (dst : bytes) (pn_len truncated_pn : Z) : res bytes :=
  match pn_len with
  | 1 => Ok (put_u8 dst (wrap 8 truncated_pn))
  | 2 => Ok (put_u16 dst (wrap 16 truncated_pn))
  | 3 => Ok (put_slice dst (drop 1 (be_bytes 4 truncated_pn)))
  | 4 => Ok (put_u32 dst truncated_pn)
  | _ => Panic
  end.

(** [PacketHeader::encode]. *)
Definition encode (h : t) (dst : bytes) : res bytes :=
  let pn_len := Z.max 1 (Z.min 4 (pn_len h)) in
  let len_bits := wrap 8 (pn_len - 1) in
  let truncated_pn := wrap 32 (Z.land (packet_number h) (pn_mask pn_len)) in
  let dst :=
    if is_long h then
      let first_byte :=
        Z.lor (Z.lor 0x80 (Z.shiftl (Z.land (as_u8 (p_type h)) 0x0F) 2)) len_bits in
      let dst := put_u8 dst first_byte in
      let dst := put_u32 dst (version h) in
      let dst := put_u8 dst (wrap 8 (len (dcid h))) in
      let dst := put_slice dst (dcid h) in
      let dst := put_u8 dst (wrap 8 (len (scid h))) in
      put_slice dst (scid h)
    else
      let first_byte := Z.lor (Z.shiftl (Z.land (as_u8 (p_type h)) 0x0F) 2) len_bits in
      let first_byte := if key_phase h then Z.lor first_byte 0x40 else first_byte in
      let dst := put_u8 dst first_byte in
      let dst := put_u8 dst (wrap 8 (len (dcid h))) in
      put_slice dst (dcid h) in
  put_pn dst pn_len truncated_pn.

(** The [match pn_len] that reads the packet number. *)
Definition get_pn (pn_len : Z) : reader Z :=
  match pn_len with
  | 1 => get_u8
  | 2 => get_u16
  | 3 => b ← copy_to_bytes 3; mret (be_val (0 :: b))
  | 4 => get_u32
  | _ => λ s, (Panic, s)
  end.

(** [match p_type_val] of a long header. *)
Definition long_type (v : Z) : option PacketType.t :=
  match v with
  | 0x00 => Some Initial
  | 0x01 => Some Handshake
  | 0x0C => Some Retry
  | _ => None
  end.

(** [match p_type_val] of a short header. *)
Definition short_type (v : Z) : option PacketType.t :=
  match v with
  | 0x02 => Some Data
  | 0x0A => Some Close
  | 0x0B => Some MtuProbe
  | _ => None
  end.

(** The long-header half of [PacketHeader::decode], after the first byte. *)
Definition decode_long (pn_len p_type_val : Z) : reader t :=
  match long_type p_type_val with
  | None => throw (InvalidPacket "Invalid long packet type")
  | Some p_type =>
      require (5 + pn_len) "Short";;
      version ← get_u32;
      dcid_len ← get_u8;
      require dcid_len "Truncated DCID";;
      dcid ← copy_to_bytes dcid_len;
      require 1 "Missing SCID len";;
      scid_len ← get_u8;
      require (scid_len + pn_len) "Truncated";;
      scid ← copy_to_bytes scid_len;
      truncated_pn ← get_pn pn_len;
      mret (mk p_type true version dcid scid truncated_pn false pn_len)
  end.

(** The short-header half. *)
Definition decode_short (pn_len p_type_val : Z) (key_phase : bool) : reader t :=
  match short_type p_type_val with
  | None => throw (InvalidPacket "Invalid short packet type")
  | Some p_type =>
      require (1 + pn_len) "Short";;
      dcid_len ← get_u8;
      require (dcid_len + pn_len) "Truncated";;
      dcid ← copy_to_bytes dcid_len;
      truncated_pn ← get_pn pn_len;
      mret (mk p_type false 0 dcid [] truncated_pn key_phase pn_len)
  end.

(** [PacketHeader::decode]. *)
Definition decode : reader t :=
  require 1 "Empty buffer";;
  first_byte ← get_u8;
  let is_long := negb (Z.land first_byte 0x80 =? 0) in
  let pn_len := Z.land first_byte 0x03 + 1 in
  let p_type_val := Z.land (Z.shiftr first_byte 2) 0x0F in
  if is_long then decode_long pn_len p_type_val
  else
    let key_phase := negb (Z.land first_byte 0x40 =? 0) in
    decode_short pn_len p_type_val key_phase.

End codec.
End PacketHeader.

(** routing.rs, [extract_dcid_fast]. *)
Definition extract_dcid_fast (data : bytes) : res (option bytes) :=
  if len data =? 0 then Ok None
  else
    first ← at_index data 0;
    if negb (Z.land first 0x80 =? 0) then
      if len data <? 6 then Ok None
      else
        dcid_len ← at_index data 5;
        if len data <? 6 + dcid_len then Ok None
        else Some <$> slice data 6 (6 + dcid_len)
    else
      if len data <? 2 then Ok None
      else
        dcid_len ← at_index data 1;
        if len data <? 2 + dcid_len then Ok None
        else Some <$> slice data 2 (2 + dcid_len).
