(* ===== verification/PacketFacts.v ===== *)
(** * Packet headers: lemmas and theorems

    Encoding and decoding are inverse; the router's shortcut and the packet number
    offset agree with the full decoder on every input. *)

From stdpp Require Import strings.
From S2P Require Import Prelude Errors Buf Frames FrameFacts FrameSafety Packet.
Import PacketType PacketHeader.

(** Headers the sender builds: the form follows the type, and each field fits. *)
Definition long_form (p : PacketType.t) : bool :=
  match p with Initial | Handshake | Retry => true | Data | Close | MtuProbe => false end.

Definition cid_ok (c : bytes) : Prop := bytes_ok c ∧ len c < 256.

Record header_ok (h : PacketHeader.t) : Prop := {
  ho_form : is_long h = long_form (p_type h);
  ho_pn_len : 1 ≤ pn_len h ≤ 4;
  ho_pn : u_ok 64 (packet_number h);
  ho_dcid : cid_ok (dcid h);
  ho_scid : cid_ok (scid h);
  ho_version : u_ok 32 (version h);
  ho_long : is_long h = true → key_phase h = false;
  ho_short : is_long h = false → version h = 0 ∧ scid h = [];
}.

(** ** The wire image *)

Definition first_byte (h : PacketHeader.t) : Z :=
  let len_bits := pn_len h - 1 in
  if is_long h then Z.lor (Z.lor 0x80 (Z.shiftl (as_u8 (p_type h)) 2)) len_bits
  else let b := Z.lor (Z.shiftl (as_u8 (p_type h)) 2) len_bits in
       if key_phase h then Z.lor b 0x40 else b.

(** Everything between the first byte and the packet number. *)
Definition header_mid (h : PacketHeader.t) : bytes :=
  if is_long h then
    be_bytes 4 (version h) ++ be_bytes 1 (len (dcid h)) ++ dcid h
    ++ be_bytes 1 (len (scid h)) ++ scid h
  else be_bytes 1 (len (dcid h)) ++ dcid h.

Definition pn_bytes (h : PacketHeader.t) : bytes :=
  be_bytes (Z.to_nat (pn_len h)) (packet_number h).

Definition header_bytes (h : PacketHeader.t) : bytes :=
  [first_byte h] ++ header_mid h ++ pn_bytes h.

(** What [decode] reads off the first byte. *)
Definition first_byte_fields (b : Z) (h : PacketHeader.t) : Prop :=
  u_ok 8 b
  ∧ negb (Z.land b 0x80 =? 0) = is_long h
  ∧ Z.land b 0x03 + 1 = pn_len h
  ∧ Z.land (Z.shiftr b 2) 0x0F = as_u8 (p_type h)
  ∧ (is_long h = false → negb (Z.land b 0x40 =? 0) = key_phase h).

Lemma first_byte_ok h : header_ok h → first_byte_fields (first_byte h) h.
Proof.
  intros [F P _ _ _ _ _ _]. unfold first_byte_fields, first_byte. rewrite F.
  assert (pn_len h = 1 ∨ pn_len h = 2 ∨ pn_len h = 3 ∨ pn_len h = 4) as Hp by lia.
  destruct Hp as [->|[->|[->| ->]]]; destruct (p_type h), (key_phase h);
    vm_compute; repeat split; congruence.
Qed.

Lemma pn_mask_mod n : 1 ≤ n ≤ 4 → ∀ x, Z.land x (pn_mask n) = x mod 256 ^ n.
Proof.
  intros Hn x. replace (256 ^ n) with (2 ^ (8 * n)) by (rewrite (Z.pow_mul_r 2 8); [done|lia..]).
  rewrite <- land_low_mask by lia.
  assert (n = 1 ∨ n = 2 ∨ n = 3 ∨ n = 4) as [->|[->|[->| ->]]] by lia; done.
Qed.

Section header.
Context `{BL : BytesLaws}.

Lemma put_pn_bytes dst n x :
  1 ≤ n ≤ 4 → put_pn dst n (wrap 32 (Z.land x (pn_mask n))) = Ok (dst ++ be_bytes (Z.to_nat n) x).
Proof.
  intros Hn. rewrite pn_mask_mod by done. unfold wrap.
  assert (x mod 256 ^ n mod 2 ^ 32 = x mod 256 ^ n) as ->.
  { apply Z.mod_small. pose proof (Z.mod_pos_bound x (256 ^ n)).
    pose proof (Z.pow_pos_nonneg 256 n). pose proof (Z.pow_le_mono_r 256 n 4).
    change (2 ^ 32) with (256 ^ 4). lia. }
  assert (∀ k : nat, Z.of_nat k = n → be_bytes k (x mod 256 ^ n) = be_bytes k x) as B.
  { intros k <-. apply be_bytes_mod. }
  assert (n = 1 ∨ n = 2 ∨ n = 3 ∨ n = 4) as [->|[->|[->| ->]]] by lia;
    cbn [put_pn]; rewrite ?put_u8_law, ?put_u16_law, ?put_u32_law, ?put_slice_law; do 2 f_equal.
  - by rewrite (be_bytes_wrap 1), B.
  - by rewrite (be_bytes_wrap 2), B.
  - change (drop 1 (be_bytes 4 ?y)) with (be_bytes 3 y). by apply B.
  - by apply B.
Qed.

(** [encode] appends the wire image. *)
Lemma encode_header_bytes h dst : header_ok h → PacketHeader.encode h dst = Ok (dst ++ header_bytes h).
Proof.
  intros [F P _ _ _ _ _ _]. unfold PacketHeader.encode.
  replace (Z.max 1 (Z.min 4 (pn_len h))) with (pn_len h) by lia.
  rewrite put_pn_bytes by done. f_equal. unfold header_bytes, header_mid, pn_bytes, first_byte.
  assert (Z.land (as_u8 (p_type h)) 0x0F = as_u8 (p_type h)) as -> by (by destruct (p_type h)).
  replace (wrap 8 (pn_len h - 1)) with (pn_len h - 1)
    by (unfold wrap; symmetry; apply Z.mod_small; mlia).
  assert (∀ b, b = Z.lor (Z.lor 0x80 (Z.shiftl (as_u8 (p_type h)) 2)) (pn_len h - 1)
    ∨ b = Z.lor (Z.shiftl (as_u8 (p_type h)) 2) (pn_len h - 1)
    ∨ b = Z.lor (Z.lor (Z.shiftl (as_u8 (p_type h)) 2) (pn_len h - 1)) 0x40 →
    be_bytes 1 b = [b]) as B.
  { assert (pn_len h = 1 ∨ pn_len h = 2 ∨ pn_len h = 3 ∨ pn_len h = 4) as Hp by lia.
    intros b Hb. destruct Hp as [E|[E|[E|E]]]; rewrite E in Hb;
      destruct (p_type h), Hb as [->|[->| ->]]; reflexivity. }
  destruct (is_long h), (key_phase h); autorewrite with put;
    rewrite B by eauto; rewrite ?(be_bytes_wrap 1), <- !app_assoc; done.
Qed.

Lemma get_pn_bytes n x r :
  1 ≤ n ≤ 4 → get_pn n (be_bytes (Z.to_nat n) x ++ r) = (Ok (x mod 256 ^ n), r).
Proof.
  intros Hn. assert (0 < 256 ^ n) by (apply Z.pow_pos_nonneg; lia).
  pose proof (Z.mod_pos_bound x (256 ^ n)) as Hm.
  assert (∀ k : nat, Z.of_nat k = n → be_bytes k x = be_bytes k (x mod 256 ^ n)) as B.
  { intros k <-. symmetry. apply be_bytes_mod. }
  assert (n = 1 ∨ n = 2 ∨ n = 3 ∨ n = 4) as [->|[->|[->| ->]]] by lia; cbn [get_pn].
  - change (Z.to_nat 1) with 1%nat. rewrite (B 1%nat) by done. apply get_u8_app. unfold u_ok. change (2 ^ 8) with (256 ^ 1). lia.
  - change (Z.to_nat 2) with 2%nat. rewrite (B 2%nat) by done. apply get_u16_app. unfold u_ok. change (2 ^ 16) with (256 ^ 2). lia.
  - erewrite bind_ok; [|apply copy_to_bytes_app; apply len_be_bytes].
    unfold mret, reader_ret. rewrite be_val_cons, be_val_be_bytes. do 2 f_equal.
  - change (Z.to_nat 4) with 4%nat. rewrite (B 4%nat) by done. apply get_u32_app. unfold u_ok. change (2 ^ 32) with (256 ^ 4). lia.
Qed.

(** ** Decoding the wire image *)

Lemma long_type_as_u8 p : long_form p = true → long_type (as_u8 p) = Some p.
Proof. by destruct p. Qed.
Lemma short_type_as_u8 p : long_form p = false → short_type (as_u8 p) = Some p.
Proof. by destruct p. Qed.
Lemma long_type_Some v p : long_type v = Some p → long_form p = true ∧ v = as_u8 p.
Proof. unfold long_type. repeat case_match; naive_solver. Qed.
Lemma short_type_Some v p : short_type v = Some p → long_form p = false ∧ v = as_u8 p.
Proof. unfold short_type. repeat case_match; naive_solver. Qed.

Lemma decode_header_bytes h b r :
  header_ok h → first_byte_fields b h →
  PacketHeader.decode ([b] ++ header_mid h ++ pn_bytes h ++ r)
  = (Ok (h <| packet_number ::= λ pn, pn mod 256 ^ pn_len h |>), r).
Proof.
  intros [F P _ [_ Hd] [_ Hs] V L S] (B8&Bl&Bp&Bt&Bk). unfold PacketHeader.decode.
  pose proof (len_nonneg (dcid h)). pose proof (len_nonneg (scid h)).
  assert (u_ok 8 (len (dcid h))) by mlia. assert (u_ok 8 (len (scid h))) by mlia.
  assert (len (pn_bytes h) = pn_len h) by (unfold pn_bytes; rewrite len_be_bytes; lia).
  replace [b] with (be_bytes 1 b)
    by (cbn; rewrite Z.div_1_r, Z.mod_small; [done|unfold u_ok in B8; lia]).
  do 2 read_field. rewrite Bl, Bp, Bt. unfold header_mid. destruct (is_long h) eqn:E.
  - unfold decode_long. rewrite long_type_as_u8 by done. rewrite <- !app_assoc.
    do 9 read_field. erewrite bind_ok; [|by apply get_pn_bytes].
    unfold mret, reader_ret. do 2 f_equal.
    destruct h; simpl in *. by rewrite E, L.
  - unfold decode_short. rewrite short_type_as_u8 by done. rewrite <- !app_assoc.
    do 4 read_field. erewrite bind_ok; [|by apply get_pn_bytes].
    unfold mret, reader_ret. do 2 f_equal. rewrite Bk by done.
    destruct (S eq_refl), h; simpl in *. by subst.
Qed.

(** ** What [decode] accepts *)

(** The header it returns, and how the input splits. *)
Definition header_read (s : bytes) (h : PacketHeader.t) (s' : bytes) : Prop :=
  header_ok h ∧ packet_number h < 256 ^ pn_len h ∧ bytes_ok s'
  ∧ ∃ b, first_byte_fields b h ∧ s = [b] ++ header_mid h ++ pn_bytes h ++ s'.

Lemma get_pn_split n s (Q : Z → bytes → Prop) :
  1 ≤ n ≤ 4 → n ≤ len s → bytes_ok s →
  (∀ v s', s = be_bytes (Z.to_nat n) v ++ s' → bytes_ok s' → 0 ≤ v < 256 ^ n → Q v s') →
  rspec (get_pn n) s Q.
Proof.
  intros Hn Hl Hb HQ.
  assert (n = 1 ∨ n = 2 ∨ n = 3 ∨ n = 4) as [->|[->|[->| ->]]] by lia; cbn [get_pn].
  - by apply (rwp_split_uint 1 8 _ s _ _ get_u8_law eq_refl).
  - by apply (rwp_split_uint 2 16 _ s _ _ get_u16_law eq_refl).
  - apply rwp_bind, rwp_split_bytes; [lia|done|]. intros x s' -> Hx Hbx ?. apply rwp_ret.
    rewrite be_val_cons. pose proof (be_val_bound x Hbx) as B. rewrite Hx in B.
    apply HQ; [|done|lia]. rewrite Z.mul_0_l, Z.add_0_l. f_equal.
    change (Z.to_nat 3) with 3%nat. replace 3%nat with (length x) by (unfold len in Hx; lia).
    by rewrite be_bytes_be_val.
  - by apply (rwp_split_uint 4 32 _ s _ _ get_u32_law eq_refl).
Qed.

Lemma pn_bound n v : 1 ≤ n ≤ 4 → 0 ≤ v < 256 ^ n → u_ok 64 v.
Proof.
  intros. unfold u_ok. change (2 ^ 64) with (256 ^ 8).
  pose proof (Z.pow_le_mono_r 256 n 8). lia.
Qed.

Lemma decode_long_split pn ty s :
  1 ≤ pn ≤ 4 → bytes_ok s →
  rspec (decode_long pn ty) s (λ h s', header_ok h ∧ packet_number h < 256 ^ pn ∧ bytes_ok s'
    ∧ is_long h = true ∧ pn_len h = pn ∧ as_u8 (p_type h) = ty
    ∧ s = header_mid h ++ pn_bytes h ++ s').
Proof.
  intros Hp Hb. unfold decode_long.
  destruct (long_type ty) as [p|] eqn:E; [|apply rspec_throw].
  apply long_type_Some in E as [Hf ->]. rstep.
  apply rwp_bind, (rwp_split_uint 4 32 _ s _ _ get_u32_law eq_refl); [lia|done|].
  intros v s1 -> ? Hv. rewrite len_app, len_be_bytes in *.
  apply rwp_bind, (rwp_split_uint 1 8 _ s1 _ _ get_u8_law eq_refl); [lia|done|].
  intros dl s2 -> ? Hdl. unfold u_ok in Hdl. rstep.
  apply rwp_bind, rwp_split_bytes; [lia|done|]. intros dc s3 -> <- ? ?. rstep.
  apply rwp_bind, (rwp_split_uint 1 8 _ s3 _ _ get_u8_law eq_refl); [lia|done|].
  intros sl s4 -> ? Hsl. unfold u_ok in Hsl. rstep.
  apply rwp_bind, rwp_split_bytes; [lia|done|]. intros sc s5 -> <- ? ?.
  apply rwp_bind, get_pn_split; [done|len_lia|done|]. intros x s6 -> ? Hx. apply rwp_ret.
  split; [|repeat split; try done; [simpl; lia|unfold header_mid, pn_bytes; simpl]].
  - split; simpl; try done; [by apply (pn_bound pn)|split; [done|lia]..].
  - by rewrite <- !app_assoc.
Qed.

Lemma decode_short_split pn ty k s :
  1 ≤ pn ≤ 4 → bytes_ok s →
  rspec (decode_short pn ty k) s (λ h s', header_ok h ∧ packet_number h < 256 ^ pn ∧ bytes_ok s'
    ∧ is_long h = false ∧ pn_len h = pn ∧ as_u8 (p_type h) = ty ∧ key_phase h = k
    ∧ s = header_mid h ++ pn_bytes h ++ s').
Proof.
  intros Hp Hb. unfold decode_short.
  destruct (short_type ty) as [p|] eqn:E; [|apply rspec_throw].
  apply short_type_Some in E as [Hf ->]. rstep.
  apply rwp_bind, (rwp_split_uint 1 8 _ s _ _ get_u8_law eq_refl); [lia|done|].
  intros dl s2 -> ? Hdl. unfold u_ok in Hdl. rstep.
  apply rwp_bind, rwp_split_bytes; [lia|done|]. intros dc s3 -> <- ? ?.
  apply rwp_bind, get_pn_split; [done|len_lia|done|]. intros x s6 -> ? Hx. apply rwp_ret.
  split; [|repeat split; try done; simpl; lia].
  split; simpl; try done; [by apply (pn_bound pn)|split; [done|lia]].
Qed.

Lemma decode_header_split s : bytes_ok s → rspec PacketHeader.decode s (header_read s).
Proof.
  intros Hb. unfold PacketHeader.decode. rstep.
  apply rwp_bind, (rwp_split_uint 1 8 _ s _ _ get_u8_law eq_refl); [lia|done|].
  intros b s1 -> ? Hb8. unfold header_read.
  assert (be_bytes 1 b = [b]) as ->
    by (cbn; rewrite Z.div_1_r, Z.mod_small; [done|unfold u_ok in Hb8; lia]).
  assert (1 ≤ Z.land b 3 + 1 ≤ 4) as Hp.
  { change (Z.land b 3) with (Z.land b (2 ^ 2 - 1)). rewrite land_low_mask by done.
    pose proof (Z.mod_pos_bound b (2 ^ 2)). lia. }
  destruct (negb (Z.land b 128 =? 0)) eqn:L.
  - eapply rwp_mono; [by apply decode_long_split| |done]. simpl.
    intros h s' (?&?&?&Hl&Hpn&Ht&->). rewrite Hpn. split_and!; try done.
    exists b. split; [|done]. unfold first_byte_fields. rewrite Hl, L. split_and!; done || congruence.
  - eapply rwp_mono; [by apply decode_short_split| |done]. simpl.
    intros h s' (?&?&?&Hl&Hpn&Ht&Hk&->). rewrite Hpn. split_and!; try done.
    exists b. split; [|done]. unfold first_byte_fields. rewrite Hl, L, Hk. split_and!; done || congruence.
Qed.

End header.

(** ** The shortcuts *)

Lemma header_mid_long h : is_long h = true →
  header_mid h = (be_bytes 4 (version h)) ++ [len (dcid h) mod 256] ++ dcid h
                 ++ [len (scid h) mod 256] ++ scid h.
Proof. intros E. unfold header_mid. rewrite E. cbn. by rewrite !Z.div_1_r. Qed.
Lemma header_mid_short h : is_long h = false →
  header_mid h = [len (dcid h) mod 256] ++ dcid h.
Proof. intros E. unfold header_mid. rewrite E. cbn. by rewrite !Z.div_1_r. Qed.

Lemma shortcuts_agree h b r :
  header_ok h → negb (Z.land b 0x80 =? 0) = is_long h →
  extract_dcid_fast ([b] ++ header_mid h ++ r) = Ok (Some (dcid h))
  ∧ get_pn_offset ([b] ++ header_mid h ++ r) = Ok (Some (1 + len (header_mid h))).
Proof.
  intros [_ _ _ [_ Hd] [_ Hs] _ _ _] Bl.
  pose proof (len_nonneg (dcid h)). pose proof (len_nonneg (scid h)).
  unfold extract_dcid_fast, get_pn_offset.
  assert (∀ l, (len ([b] ++ l) =? 0) = false) as -> by (intros; len_lia).
  assert (∀ l, at_index ([b] ++ l) 0 = Ok b) as -> by (intros; by apply (at_index_app [])).
  cbn [mbind res_bind]. rewrite Bl.
  destruct (is_long h) eqn:E; [rewrite (header_mid_long h E)|rewrite (header_mid_short h E)];
    rewrite !(Z.mod_small (len _)) by lia; rewrite <- !app_assoc;
    match goal with |- context [len ?l <? 2] => set (d := l) | |- context [len ?l <? 6] => set (d := l) end.
  - assert (6 + len (dcid h) + 1 + len (scid h) ≤ len d) as Hl by (subst d; len_lia).
    assert (at_index d 5 = Ok (len (dcid h))) as ->.
    { apply (at_index_app ([b] ++ be_bytes 4 (version h))). by rewrite len_app, len_be_bytes. }
    assert (at_index d (6 + len (dcid h)) = Ok (len (scid h))) as Hsc.
    { subst d. rewrite !app_assoc. rewrite <- (app_assoc _ [len (scid h)]), <- !app_assoc.
      rewrite 3!app_assoc. apply at_index_app. len_lia. }
    assert (slice d 6 (6 + len (dcid h)) = Ok (dcid h)) as Hsl.
    { subst d. rewrite 2!app_assoc. apply slice_app; len_lia. }
    replace (len d <? 6) with false by lia. cbn [mbind res_bind].
    replace (len d <? 6 + len (dcid h)) with false by lia.
    replace (len d <? 6 + len (dcid h) + 1) with false by lia.
    rewrite Hsl, Hsc. split; [done|]. cbn [mbind res_bind]. do 2 f_equal. len_lia.
  - assert (2 + len (dcid h) ≤ len d) as Hl by (subst d; len_lia).
    assert (at_index d 1 = Ok (len (dcid h))) as -> by by apply (at_index_app [b]).
    assert (slice d 2 (2 + len (dcid h)) = Ok (dcid h)) as Hsl.
    { subst d. rewrite app_assoc. apply slice_app; len_lia. }
    replace (len d <? 2) with false by lia. cbn [mbind res_bind].
    replace (len d <? 2 + len (dcid h)) with false by lia.
    rewrite Hsl. split; [done|]. do 2 f_equal. len_lia.
Qed.

Lemma at_index_in d i : 0 ≤ i < len d → bytes_ok d → ∃ b, at_index d i = Ok b ∧ 0 ≤ b < 256.
Proof.
  intros Hi Hb. unfold at_index. replace ((0 <=? i) && (i <? len d)) with true by lia.
  eexists; split; [done|]. eapply Forall_nth in Hb; [apply Hb|]. unfold len in Hi. lia.
Qed.

Lemma slice_in d a b : 0 ≤ a ≤ b → b ≤ len d → ∃ x, slice d a b = Ok x.
Proof.
  intros. unfold slice. replace ((0 <=? a) && (a <=? b) && (b <=? len d)) with true by lia. eauto.
Qed.

(** Indexing with a guarded index does not panic. *)
Ltac in_range :=
  match goal with
  | |- context [at_index ?d ?i] =>
      let b := fresh "b" in let E := fresh "E" in
      destruct (at_index_in d i) as (b & E & ?); [lia|assumption|rewrite E; cbn [mbind res_bind]]
  | |- context [slice ?d ?a ?b] =>
      let E := fresh "E" in destruct (slice_in d a b) as [? E]; [lia|lia|rewrite E]
  end.

Lemma shortcuts_no_panic s :
  bytes_ok s → extract_dcid_fast s ≠ Panic ∧ get_pn_offset s ≠ Panic.
Proof.
  intros Hb. pose proof (len_nonneg s). unfold extract_dcid_fast, get_pn_offset.
  split; repeat first
    [ done | progress to_prop | in_range
    | match goal with |- context [if ?b then _ else _] => destruct b eqn:? end ].
Qed.

(** ** The theorems *)

(** C33: A packet header the sender builds is decoded from the front of the packet as the
    same header, with the packet number reduced to the bytes that travel; what follows is
    left untouched, and [get_pn_offset] points at the packet number field. *)
Theorem header_round_trip `{BL : BytesLaws} (h : PacketHeader.t) (payload : bytes) :
  header_ok h →
  ∃ w, PacketHeader.encode h [] = Ok w
    ∧ PacketHeader.decode (w ++ payload)
      = (Ok (h <| packet_number ::= λ pn, pn mod 256 ^ pn_len h |>), payload)
    ∧ get_pn_offset (w ++ payload) = Ok (Some (len w - pn_len h)).
Proof.
  intros HO. pose proof (first_byte_ok h HO) as FB. exists (header_bytes h).
  unfold header_bytes. rewrite encode_header_bytes by done. split; [done|].
  rewrite <- !app_assoc. split; [by apply decode_header_bytes|].
  destruct (shortcuts_agree h (first_byte h) (pn_bytes h ++ payload) HO (proj1 (proj2 FB))) as [_ ->].
  do 2 f_equal. unfold pn_bytes. pose proof (ho_pn_len h HO). len_lia.
Qed.

Lemma header_round_trip_witness :
  let h := PacketHeader.mk Data false 0 [1; 2; 3; 4; 5; 6; 7; 8] [] 70000 true 2 in
  ∃ w, @PacketHeader.encode bytes_model h [] = Ok w
    ∧ @PacketHeader.decode bytes_model (w ++ [9; 9])
      = (Ok (h <| packet_number := 70000 mod 256 ^ 2 |>), [9; 9])
    ∧ get_pn_offset (w ++ [9; 9]) = Ok (Some (len w - 2)).
Proof.
  apply (@header_round_trip bytes_model bytes_model_laws
    (PacketHeader.mk Data false 0 [1; 2; 3; 4; 5; 6; 7; 8] [] 70000 true 2)).
  split; cbn; closed.
Defined.

(** C34: On every datagram, the header decoder and the router's shortcuts are safe (none
    panics) and agree: whenever the header decodes, [extract_dcid_fast] returns its
    destination connection id and [get_pn_offset] the position of its packet number, whose
    value fits the bytes that travelled. *)
Theorem routing_agrees `{BL : BytesLaws} (s : bytes) :
  bytes_ok s →
  extract_dcid_fast s ≠ Panic ∧ get_pn_offset s ≠ Panic ∧
  match PacketHeader.decode s with
  | (Ok h, r) =>
      extract_dcid_fast s = Ok (Some (dcid h))
      ∧ get_pn_offset s = Ok (Some (len s - len r - pn_len h))
      ∧ 1 ≤ pn_len h ≤ 4 ∧ packet_number h < 256 ^ pn_len h
  | (Err e, _) => ∃ msg, e = InvalidPacket msg
  | (Panic, _) => False
  end.
Proof.
  intros Hb. destruct (shortcuts_no_panic s Hb). split_and!; [done..|].
  pose proof (decode_header_split s Hb) as D. unfold rwp in D.
  destruct (PacketHeader.decode s) as [[h|e|] r]; [|done..].
  destruct D as (HO&Hpn&_&b&FB&->). pose proof (ho_pn_len h HO).
  destruct (shortcuts_agree h b (pn_bytes h ++ r) HO (proj1 (proj2 FB))) as [-> ->].
  split_and!; try done; [|lia..]. do 2 f_equal. unfold pn_bytes. len_lia.
Qed.

Lemma routing_agrees_witness :
  let s := [0xC1; 0; 0; 0; 2; 1; 0xAA; 2; 0xBB; 0xCC; 0; 7; 5; 5] in
  extract_dcid_fast s ≠ Panic ∧ get_pn_offset s ≠ Panic ∧
  match @PacketHeader.decode bytes_model s with
  | (Ok h, r) =>
      extract_dcid_fast s = Ok (Some (dcid h))
      ∧ get_pn_offset s = Ok (Some (len s - len r - pn_len h))
      ∧ 1 ≤ pn_len h ≤ 4 ∧ packet_number h < 256 ^ pn_len h
  | (Err e, _) => ∃ msg, e = InvalidPacket msg
  | (Panic, _) => False
  end.
Proof. apply (@routing_agrees bytes_model bytes_model_laws). closed. Defined.
