(* ===== verification/PacketNumber.v ===== *)
(** * Packet number truncation (src/src/protocol/packet_number.rs)

    A packet carries only the low bytes of its number; the receiver rebuilds the
    rest from the largest number it has processed. *)

From S2P Require Import Prelude Errors Packet.

(** [u64::leading_zeros]. *)
Definition leading_zeros (x : Z) : Z := if x =? 0 then 64 else 63 - Z.log2 x.

(** [usize::div_ceil]. *)
Definition div_ceil (x y : Z) : Z := (x + y - 1) / y.

(** [truncate_pn].  [unacked * 2] wraps, as it does in a release build. *)
Definition truncate_pn (pn largest_acked : Z) : Z * Z :=
  let unacked := sat_sub pn largest_acked in
  let num_bits := 64 - leading_zeros (wrap 64 (unacked * 2)) in
  let pn_len := div_ceil num_bits 8 in
  let pn_len := if pn_len =? 0 then 1 else pn_len in
  let pn_len := if 4 <? pn_len then 4 else pn_len in
  let mask := PacketHeader.pn_mask pn_len in
  (wrap 32 (Z.land pn mask), pn_len).

(** [expand_pn]. *)
Definition expand_pn (pn_truncated pn_len largest_pn : Z) : Z :=
  let pn_nbits := pn_len * 8 in
  let expected_pn := sat_add 64 largest_pn 1 in
  let pn_win := Z.shiftl 1 pn_nbits in
  let pn_hwin := pn_win / 2 in
  let pn_mask := pn_win - 1 in
  let candidate_pn := Z.lor (Z.ldiff expected_pn pn_mask) pn_truncated in
  if (pn_hwin <=? expected_pn) && (candidate_pn <=? expected_pn - pn_hwin)
  then sat_add 64 candidate_pn pn_win
  else if match checked_add 64 expected_pn pn_hwin with
          | Some limit => limit <? candidate_pn
          | None => false
          end && (pn_win <=? candidate_pn)
  then sat_sub candidate_pn pn_win
  else candidate_pn.

(** ** Rebuilding a number *)

(** The candidate: the high bits of the expected number over the low bits received. *)
Lemma candidate_spec e t k :
  0 ≤ k → 0 ≤ e → 0 ≤ t < 2 ^ k →
  Z.lor (Z.ldiff e (Z.shiftl 1 k - 1)) t = e - e mod 2 ^ k + t.
Proof.
  intros Hk He Ht. rewrite Z.shiftl_mul_pow2, Z.mul_1_l by done.
  replace (2 ^ k - 1) with (Z.ones k) by (rewrite Z.ones_equiv; lia).
  rewrite Z.ldiff_ones_r, Z.shiftr_div_pow2, Z.shiftl_mul_pow2, Z.lor_comm by lia.
  pose proof (Z.pow_pos_nonneg 2 k). rewrite lor_disjoint by (try apply Z.div_pos; lia).
  pose proof (Z.div_mod e (2 ^ k)). lia.
Qed.

(** The candidate is again a [u64]. *)
Lemma candidate_u64 e t k :
  0 ≤ k ≤ 64 → u_ok 64 e → 0 ≤ t < 2 ^ k → e - e mod 2 ^ k + t < 2 ^ 64.
Proof.
  unfold u_ok. intros Hk He Ht. pose proof (Z.div_mod e (2 ^ k)).
  replace (2 ^ 64) with (2 ^ k * 2 ^ (64 - k)) in * by (rewrite <- Z.pow_add_r by lia; f_equal; lia).
  assert (e / 2 ^ k < 2 ^ (64 - k)) by (apply Z.div_lt_upper_bound; lia). nia.
Qed.

(** The number in the window around [e] with the given low bits is the candidate or one
    of its neighbours. *)
Lemma window_unique e pn W :
  0 < W → e - W / 2 < pn ≤ e + W / 2 → W mod 2 = 0 →
  let c := e - e mod W + pn mod W in
  (c ≤ e - W / 2 → pn = c + W) ∧ (e + W / 2 < c → pn = c - W) ∧
  (e - W / 2 < c ≤ e + W / 2 → pn = c).
Proof.
  intros HW Hp H2 c. subst c.
  assert (W = 2 * (W / 2)) as HWe by (pose proof (Z.div_mod W 2); lia).
  set (h := W / 2) in *. clearbody h. subst W.
  pose proof (Z.div_mod e (2 * h)). pose proof (Z.div_mod pn (2 * h)).
  pose proof (Z.mod_pos_bound e (2 * h)). pose proof (Z.mod_pos_bound pn (2 * h)).
  set (qe := e / (2 * h)) in *. set (qp := pn / (2 * h)) in *.
  set (re := e mod (2 * h)) in *. set (rp := pn mod (2 * h)) in *.
  clearbody qe qp re rp. assert (qp = qe ∨ qp = qe + 1 ∨ qp = qe - 1) as Hq by nia.
  destruct Hq as [->|[->| ->]]; repeat split; intros; nia.
Qed.

(** The window the receiver resolves correctly: half a window on either side of the
    number it expects next. *)
Definition in_window (pn n largest : Z) : Prop :=
  let expected := sat_add 64 largest 1 in
  expected - 256 ^ n / 2 < pn ≤ expected + 256 ^ n / 2.

Lemma window_even n : 1 ≤ n → 2 ^ (n * 8) mod 2 = 0.
Proof.
  intros. replace (n * 8) with (1 + (n * 8 - 1)) by lia. rewrite Z.pow_add_r by lia.
  rewrite Z.mul_comm. apply Z.mod_mul. lia.
Qed.

Lemma expand_pn_spec pn n largest :
  1 ≤ n ≤ 4 → u_ok 64 pn → u_ok 64 largest → in_window pn n largest →
  expand_pn (pn mod 256 ^ n) n largest = pn.
Proof.
  unfold in_window, expand_pn. intros Hn Hp Hl Hw.
  assert (256 ^ n = 2 ^ (n * 8)) as E by (rewrite Z.mul_comm, Z.pow_mul_r by lia; done).
  rewrite E in *. set (e := sat_add 64 largest 1) in *.
  assert (0 ≤ e < 2 ^ 64) as He by (unfold e; mlia).
  pose proof (Z.pow_pos_nonneg 2 (n * 8)) as HW.
  pose proof (Z.mod_pos_bound pn (2 ^ (n * 8))).
  rewrite candidate_spec by lia. rewrite Z.shiftl_mul_pow2, Z.mul_1_l by lia.
  pose proof (window_even n (proj1 Hn)) as H2.
  destruct (window_unique e pn (2 ^ (n * 8))) as (U1&U2&U3); [lia|lia|done|].
  pose proof (candidate_u64 e (pn mod 2 ^ (n * 8)) (n * 8)) as Hc.
  set (W := 2 ^ (n * 8)) in *. set (c := e - e mod W + pn mod W) in *.
  specialize (Hc ltac:(lia) He ltac:(lia)). assert (0 ≤ c) by (pose proof (Z.mod_le e W); unfold c; lia).
  clearbody c W e. unfold sat_add, sat_sub, checked_add, u_max, u_ok in *.
  change (2 ^ 64) with 18446744073709551616 in *.
  assert (0 ≤ W / 2) by (apply Z.div_pos; lia).
  case_bools; to_prop; lia.
Qed.

(** ** Truncating it *)

(** The bytes kept by [truncate_pn] cover twice the distance to [largest_acked]. *)
Lemma truncate_pn_spec pn la t n :
  u_ok 64 pn → 0 ≤ la → pn - la < 2 ^ 31 → truncate_pn pn la = (t, n) →
  1 ≤ n ≤ 4 ∧ t = pn mod 256 ^ n ∧ 2 * (pn - la) < 256 ^ n.
Proof.
  intros Hp Hla Hd. unfold truncate_pn. set (u := sat_sub pn la).
  assert (0 ≤ u < 2 ^ 31) as Hu by (unfold u, sat_sub; lia).
  replace (wrap 64 (u * 2)) with (u * 2) by (unfold wrap; symmetry; apply Z.mod_small; lia).
  set (k := 64 - leading_zeros (u * 2)).
  assert (0 ≤ k ≤ 32 ∧ u * 2 < 2 ^ k) as [Hk Hk2].
  { unfold k, leading_zeros. destruct (Z.eqb_spec (u * 2) 0) as [->|]; [done|].
    pose proof (Z.log2_spec (u * 2)) as [_ L]; [lia|].
    pose proof (Z.log2_lt_pow2 (u * 2) 32) as [L2 _]; [lia|]. pose proof (Z.log2_nonneg (u * 2)).
    replace (64 - (63 - Z.log2 (u * 2))) with (Z.succ (Z.log2 (u * 2))) by lia.
    split; [|done]. specialize (L2 ltac:(lia)). lia. }
  set (m := if div_ceil k 8 =? 0 then 1 else div_ceil k 8).
  assert (1 ≤ m ≤ 4 ∧ k ≤ 8 * m) as [Hm Hkm].
  { unfold m, div_ceil. case_bools; to_prop; div_lia. }
  replace (4 <? m) with false by lia. intros [= <- <-]. split; [done|].
  assert (256 ^ m = 2 ^ (8 * m)) as E by (rewrite Z.pow_mul_r by lia; done).
  split.
  - assert (Z.land pn (PacketHeader.pn_mask m) = pn mod 256 ^ m) as ->.
    { rewrite E, <- land_low_mask by lia. clearbody m.
      assert (m = 1 ∨ m = 2 ∨ m = 3 ∨ m = 4) as [->|[->|[->| ->]]] by lia; done. }
    apply Z.mod_small. pose proof (Z.mod_pos_bound pn (256 ^ m)).
    pose proof (Z.pow_pos_nonneg 256 m). pose proof (Z.pow_le_mono_r 256 m 4).
    change (2 ^ 32) with (256 ^ 4). lia.
  - rewrite E. pose proof (Z.pow_le_mono_r 2 k (8 * m)). unfold u, sat_sub in *. lia.
Qed.

(** ** The theorems *)

(** C36: A number the sender truncates is rebuilt exactly by the receiver, when the receiver
    has processed at least what the sender takes as acknowledged, and is not ahead of the
    packet by more than half of the window of the bytes sent; fewer than 2^31 numbers are
    outstanding. *)
Theorem truncate_expand (pn largest_acked largest_pn : Z) :
  u_ok 64 pn → u_ok 64 largest_pn → 0 ≤ largest_acked ≤ largest_pn →
  pn - largest_acked < 2 ^ 31 →
  let '(t, n) := truncate_pn pn largest_acked in
  largest_pn + 1 < pn + 256 ^ n / 2 → expand_pn t n largest_pn = pn.
Proof.
  intros Hp Hl Hla Hd. destruct (truncate_pn pn largest_acked) as [t n] eqn:E.
  intros Hahead. destruct (truncate_pn_spec _ _ _ _ Hp (proj1 Hla) Hd E) as (Hn&->&H2).
  apply expand_pn_spec; [done..|]. unfold in_window, sat_add, u_max.
  set (W := 256 ^ n) in *. clearbody W. unfold u_ok in *.
  pose proof (Z.div_mod W 2). pose proof (Z.mod_pos_bound W 2). lia.
Qed.

Lemma truncate_expand_witness :
  truncate_pn 100300 100000 = (100300 mod 65536, 2) ∧ expand_pn (100300 mod 65536) 2 100299 = 100300.
Proof.
  split; [reflexivity|].
  apply (truncate_expand 100300 100000 100299); closed.
Defined.

(** C37: Outside that window the rebuilt number is wrong, not rejected: a receiver whose
    largest processed number is more than half a window behind rebuilds a different
    number (for numbers past the first window). *)
Theorem expand_pn_behind (pn n largest_pn : Z) :
  1 ≤ n ≤ 4 → u_ok 64 pn → u_ok 64 largest_pn →
  256 ^ n ≤ pn → largest_pn + 1 + 256 ^ n / 2 < pn →
  expand_pn (pn mod 256 ^ n) n largest_pn ≠ pn.
Proof.
  intros Hn Hp Hl Hw Hb. unfold expand_pn.
  assert (256 ^ n = 2 ^ (n * 8)) as E by (rewrite Z.mul_comm, Z.pow_mul_r by lia; done).
  rewrite E in *. pose proof (Z.pow_pos_nonneg 2 (n * 8)) as HW.
  assert (sat_add 64 largest_pn 1 = largest_pn + 1) as ->.
  { unfold sat_add. pose proof (Z.div_pos (2 ^ (n * 8)) 2). mlia. }
  pose proof (Z.mod_pos_bound pn (2 ^ (n * 8))). unfold u_ok in *.
  rewrite candidate_spec by lia. rewrite Z.shiftl_mul_pow2, Z.mul_1_l by lia.
  set (e := largest_pn + 1) in *. set (W := 2 ^ (n * 8)) in *.
  pose proof (window_even n (proj1 Hn)) as H2. fold W in H2.
  pose proof (Z.mod_pos_bound e W). pose proof (Z.mod_le e W).
  set (re := e mod W) in *. set (rp := pn mod W) in *. clearbody re rp e W.
  unfold sat_add, sat_sub, checked_add.
  assert (0 ≤ W / 2 ∧ W = 2 * (W / 2)) as [? ?] by div_lia.
  case_bools; to_prop; mlia.
Qed.

Lemma expand_pn_behind_witness : expand_pn (300 mod 256 ^ 1) 1 100 ≠ 300.
Proof. apply (expand_pn_behind 300 1 100); closed. Defined.
