(* ===== verification/HeaderProtection.v ===== *)
(** * Header protection (src/src/crypto/header_protection.rs)

    The first byte and the packet number are masked with five bytes of ChaCha20
    keystream, picked by a sample of the ciphertext.  The cipher is third-party code
    ([ChaCha20]); its documentation says that [apply_keystream] XORs the keystream
    into the buffer, and panics when the end of the keystream would be reached. *)

From stdpp Require Import strings.
From S2P Require Import Prelude Errors Buf Packet PacketFacts.
Import PacketType.

Class ChaCha20 := {
  (** The [n] keystream bytes from a byte position, for a key and a 12-byte nonce;
      [None] past the end of the keystream. *)
  chacha20_keystream : bytes → bytes → Z → nat → option bytes;
}.

(** The keystream has 2^38 bytes. *)
Class KeystreamTotal `{ChaCha20} : Prop :=
  keystream_total key nonce counter : 0 ≤ counter < 2 ^ 32 → is_Some (chacha20_keystream key nonce (counter * 64) 5).

(** [u32::from_le_bytes]. *)
Definition le_val (bs : bytes) : Z := be_val (rev bs).

(** [packet[i] ^= m] for an index that is in range; the loops below test for it. *)
Definition xor_at (m : Z) (i : nat) (packet : bytes) : bytes := alter (λ b, Z.lxor b m) i packet.

(** [for i in 0..pn_len { if pn_offset + i < packet.len() { packet[pn_offset + i] ^= mask[i + 1] } }]. *)
Definition xor_pn (packet : bytes) (pn_offset : nat) (mask : bytes) (pn_len : nat) : bytes :=
  foldl (λ p i,
    if decide (pn_offset + i < length p)%nat
    then xor_at (nth (i + 1) mask 0) (pn_offset + i) p else p) packet (seq 0 pn_len).

Section protection.
Context `{CC : ChaCha20}.

(** The mask: [cipher.apply_keystream] on five zero bytes, at the block the sample names. *)
Definition hp_mask (hp_key sample : bytes) : res bytes :=
  let counter := le_val (take 4 sample) in
  match chacha20_keystream hp_key (drop 4 sample) (counter * 64) 5 with
  | Some ks => Ok (zip_with Z.lxor (replicate 5 0) ks)
  | None => Panic
  end.

Definition is_long_byte (b : Z) : bool := negb (Z.land b 0x80 =? 0).

(** [mask[0] & if is_long { 0x0F } else { 0x1F }]. *)
Definition first_mask (b : Z) (mask : bytes) : Z :=
  Z.land (nth 0 mask 0) (if is_long_byte b then 0x0F else 0x1F).

(** [apply_header_protection]: the packet afterwards. *)
Definition apply_header_protection (packet : bytes) (pn_offset : nat) (tx_hp_key : bytes)
    : res bytes :=
  let sample_offset := (pn_offset + 4)%nat in
  if decide (length packet < sample_offset + 16)%nat
  then Err (InvalidPacket "Packet too short to apply header protection")
  else
    let sample := take 16 (drop sample_offset packet) in
    mask ← hp_mask tx_hp_key sample;
    let b := nth 0 packet 0 in
    let pn_len := Z.to_nat (Z.land b 0x03 + 1) in
    let packet := xor_at (first_mask b mask) 0 packet in
    Ok (xor_pn packet pn_offset mask pn_len).

(** [remove_header_protection]: the packet afterwards. *)
Definition remove_header_protection (packet : bytes) (pn_offset : nat) (hp_key : bytes)
    : res bytes :=
  let sample_offset := (pn_offset + 4)%nat in
  if decide (length packet < sample_offset + 16)%nat
  then Err (InvalidPacket "Packet too short to remove header protection")
  else
    let sample := take 16 (drop sample_offset packet) in
    mask ← hp_mask hp_key sample;
    let b := nth 0 packet 0 in
    let packet := xor_at (first_mask b mask) 0 packet in
    let pn_len := Z.to_nat (Z.land (nth 0 packet 0) 0x03 + 1) in
    Ok (xor_pn packet pn_offset mask pn_len).

End protection.

(** incoming_handler.rs, the test for a Retry packet, made on the byte as received. *)
Definition is_retry_byte (b : Z) : bool := Z.land (Z.shiftr b 2) 0x0F =? 0x0C.

(** A toy keystream, to run the definitions. *)
Definition chacha20_model : ChaCha20 := {|
  chacha20_keystream key nonce pos n :=
    Some (take n (map (λ i, (7 * Z.of_nat i + pos + 90) mod 256) (seq 0 n)));
|}.
Lemma chacha20_model_total : @KeystreamTotal chacha20_model.
Proof. intros key nonce counter _. by eexists. Qed.

(** ** XOR-ing bytes in place *)

Lemma length_xor_pn n off mask p : length (xor_pn p off mask n) = length p.
Proof.
  unfold xor_pn. induction n as [|n IH]; [done|]. rewrite seq_S, foldl_app. cbn [foldl].
  case_decide; [unfold xor_at; by rewrite length_alter|done].
Qed.

Lemma xor_pn_lookup n off mask p j :
  xor_pn p off mask n !! j =
    (λ b, if decide (off ≤ j < off + n)%nat then Z.lxor b (nth (j - off + 1) mask 0) else b)
    <$> p !! j.
Proof.
  revert j. induction n as [|n IH]; intros j.
  { unfold xor_pn. simpl. destruct (p !! j); simpl; [|done]. rewrite decide_False by lia. done. }
  unfold xor_pn. rewrite seq_S, foldl_app. cbn [foldl]. fold (xor_pn p off mask n).
  pose proof (length_xor_pn n off mask p) as Lq. set (q := xor_pn p off mask n) in *.
  rewrite Nat.add_0_l. case_decide as D.
  - unfold xor_at. destruct (decide (j = off + n)%nat) as [->|Hj].
    + rewrite list_lookup_alter_eq, IH. destruct (p !! (off + n)%nat); [|done]. simpl.
      rewrite decide_False, decide_True by lia. repeat f_equal. lia.
    + rewrite list_lookup_alter_ne, IH by done. destruct (p !! j); [|done]. simpl.
      repeat case_decide; (done || lia).
  - rewrite IH. destruct (p !! j) eqn:E; [|done]. apply lookup_lt_Some in E. simpl.
    repeat case_decide; (done || lia).
Qed.

Lemma xor_twice b m : Z.lxor (Z.lxor b m) m = b.
Proof. by rewrite Z.lxor_assoc, Z.lxor_nilpotent, Z.lxor_0_r. Qed.

Lemma nth_0_lookup (p : bytes) b : p !! 0%nat = Some b → nth 0 p 0 = b.
Proof. destruct p; simpl; congruence. Qed.

(** The mask of the first byte leaves the form bit alone. *)
Lemma first_mask_form b mask : is_long_byte (Z.lxor b (first_mask b mask)) = is_long_byte b.
Proof.
  unfold is_long_byte. do 2 f_equal. apply Z.bits_inj'. intros i Hi.
  rewrite !Z.land_spec, Z.lxor_spec.
  destruct (decide (i = 7)) as [->|]; [|].
  - unfold first_mask. rewrite Z.land_spec. destruct (is_long_byte b);
      rewrite andb_false_r, xorb_false_r; done.
  - assert (Z.testbit 128 i = false) as ->; [|by rewrite !andb_false_r].
    change 128 with (2 ^ 7). apply Z.pow2_bits_false. lia.
Qed.

Section round_trip.
Context `{CC : ChaCha20}.

Lemma hp_sample_kept p off m n mask :
  (1 ≤ off)%nat → (n ≤ 4)%nat →
  take 16 (drop (off + 4) (xor_pn (xor_at m 0 p) off mask n)) = take 16 (drop (off + 4) p).
Proof.
  intros Ho Hn. f_equal. apply list_eq. intros j. rewrite !lookup_drop, xor_pn_lookup.
  unfold xor_at. rewrite list_lookup_alter_ne by lia.
  destruct (p !! (off + 4 + j)%nat); [|done]. simpl. by rewrite decide_False by lia.
Qed.

Lemma pn_len_le b : (Z.to_nat (Z.land b 3 + 1) ≤ 4)%nat.
Proof.
  change 3 with (2 ^ 2 - 1). rewrite land_low_mask by lia.
  pose proof (Z.mod_pos_bound b (2 ^ 2)). lia.
Qed.

Lemma hp_apply_remove p off key p' :
  (1 ≤ off)%nat → apply_header_protection p off key = Ok p' →
  remove_header_protection p' off key = Ok p.
Proof.
  intros Ho. unfold apply_header_protection, remove_header_protection.
  case_decide as D; [done|]. destruct (hp_mask key _) as [mask| |] eqn:M; [|done..].
  cbn [mbind res_bind]. intros [= <-].
  destruct (lookup_lt_is_Some_2 p 0) as [b Hb]; [lia|].
  rewrite (nth_0_lookup p b Hb). pose proof (pn_len_le b) as Hn.
  set (n := Z.to_nat (Z.land b 3 + 1)) in *. set (fm := first_mask b mask).
  set (q := xor_pn (xor_at fm 0 p) off mask n).
  assert (q !! 0%nat = Some (Z.lxor b fm)) as Hq.
  { unfold q. rewrite xor_pn_lookup. unfold xor_at. rewrite list_lookup_alter_eq, Hb. simpl.
    by rewrite decide_False by lia. }
  rewrite decide_False by (unfold q; rewrite length_xor_pn; unfold xor_at; rewrite length_alter; lia).
  assert (take 16 (drop (off + 4) q) = take 16 (drop (off + 4) p)) as ->
    by (by apply hp_sample_kept). rewrite M. cbn [mbind res_bind].
  rewrite (nth_0_lookup q _ Hq).
  assert (first_mask (Z.lxor b fm) mask = fm) as ->.
  { unfold first_mask at 1. unfold fm. by rewrite first_mask_form. }
  assert (nth 0 (xor_at fm 0 q) 0 = b) as ->.
  { apply nth_0_lookup. unfold xor_at. rewrite list_lookup_alter_eq, Hq. simpl. by rewrite xor_twice. }
  fold n. f_equal. apply list_eq. intros j. rewrite xor_pn_lookup. unfold xor_at.
  destruct (decide (j = 0%nat)) as [->|Hj].
  - rewrite list_lookup_alter_eq, Hq, Hb. simpl. by rewrite decide_False, xor_twice by lia.
  - rewrite list_lookup_alter_ne by lia. unfold q. rewrite xor_pn_lookup. unfold xor_at.
    rewrite list_lookup_alter_ne by lia. destruct (p !! j); [|done]. simpl.
    case_decide; [by rewrite xor_twice|done].
Qed.
End round_trip.

(** What protection does to the first byte. *)
Lemma apply_first_byte `{ChaCha20} p p' off key b :
  (1 ≤ off)%nat → apply_header_protection p off key = Ok p' → nth 0 p 0 = b →
  ∃ mask, nth 0 p' 0 = Z.lxor b (first_mask b mask).
Proof.
  intros Ho A <-. unfold apply_header_protection in A. case_decide as D; [done|].
  destruct (hp_mask key _) as [mask| |]; [|done..]. injection A as <-. exists mask.
  destruct (lookup_lt_is_Some_2 p 0) as [b Hb]; [lia|]. rewrite (nth_0_lookup p b Hb).
  apply nth_0_lookup. rewrite xor_pn_lookup. unfold xor_at. rewrite list_lookup_alter_eq, Hb.
  simpl. by rewrite decide_False by lia.
Qed.

(** Protection keeps the bytes outside the first one and the packet number. *)
Lemma apply_keeps `{ChaCha20} p p' off key :
  apply_header_protection p off key = Ok p' →
  length p' = length p ∧ (∀ j, (1 ≤ j < off ∨ 1 ≤ off ∧ off + 4 ≤ j)%nat → p' !! j = p !! j).
Proof.
  intros A. unfold apply_header_protection in A. case_decide as D; [done|].
  destruct (hp_mask key _) as [mask| |]; [|done..]. injection A as <-.
  pose proof (pn_len_le (nth 0 p 0)). split.
  - by rewrite length_xor_pn; unfold xor_at; rewrite length_alter.
  - intros j Hj. rewrite xor_pn_lookup. unfold xor_at. rewrite list_lookup_alter_ne by lia.
    destruct (p !! j); [|done]. simpl. by rewrite decide_False by lia.
Qed.

(** The type bits outside the long-header mask tell Retry from the other long types. *)
Lemma first_byte_not_retry h mask :
  header_ok h → PacketHeader.is_long h = true → PacketHeader.p_type h ≠ PacketType.Retry →
  is_retry_byte (Z.lxor (first_byte h) (first_mask (first_byte h) mask)) = false.
Proof.
  intros HO HL HR. destruct HO as [F P _ _ _ _ _ _]. unfold is_retry_byte. apply Z.eqb_neq. intros E.
  assert (Z.testbit 12 2 = true) as T by reflexivity. rewrite <- E in T.
  rewrite Z.land_spec, Z.shiftr_spec, Z.lxor_spec in T by lia.
  unfold first_mask, first_byte in T. rewrite HL in T, F. rewrite Z.land_spec in T.
  destruct (PacketHeader.p_type h); try done;
    assert (PacketHeader.pn_len h = 1 ∨ PacketHeader.pn_len h = 2 ∨ PacketHeader.pn_len h = 3
      ∨ PacketHeader.pn_len h = 4) as [Hp|[Hp|[Hp|Hp]]] by lia; rewrite Hp in T;
    destruct (Z.testbit (nth 0 mask 0) (2 + 2)); vm_compute in T; done.
Qed.

(** ** The theorems *)



(** The Retry test, which is made on the first byte as received, before header
    protection is removed, is right: a protected Initial or Handshake packet never reads as
    Retry, whatever the key and the sample are, and an (unprotected) Retry packet does. *)
Theorem retry_test_sound `{BL : BytesLaws} `{CC : ChaCha20}
    (h : PacketHeader.t) (w payload key p' : bytes) (off : nat) :
  header_ok h → PacketHeader.is_long h = true → (1 ≤ off)%nat →
  PacketHeader.encode h [] = Ok w →
  apply_header_protection (w ++ payload) off key = Ok p' →
  if decide (PacketHeader.p_type h = PacketType.Retry)
  then is_retry_byte (nth 0 w 0) = true
  else is_retry_byte (nth 0 p' 0) = false.
Proof.
  intros HO HL Ho Hw A. rewrite encode_header_bytes in Hw by done. injection Hw as <-.
  pose proof (ho_form h HO) as F. pose proof (ho_pn_len h HO) as Hp. rewrite HL in F.
  unfold header_bytes in *. cbn [app nth] in *. case_decide as D.
  - by destruct (first_byte_ok h HO) as (_&_&_&T&_); unfold is_retry_byte; rewrite T, D.
  - destruct (apply_first_byte _ _ _ _ (first_byte h) Ho A eq_refl) as [mask ->].
    by apply first_byte_not_retry.
Qed.

Lemma retry_test_sound_witness :
  let h := PacketHeader.mk PacketType.Handshake true 2 [1; 2] [3] 5 false 1 in
  let w := [0x84; 0; 0; 0; 2; 2; 1; 2; 1; 3; 5] in
  let p' := [0x8E; 0; 0; 0; 2; 2; 1; 2; 1; 3; 100] ++ replicate 24 200 in
  if decide (PacketHeader.p_type h = PacketType.Retry)
  then is_retry_byte (nth 0 w 0) = true
  else is_retry_byte (nth 0 p' 0) = false.
Proof.
  apply (@retry_test_sound bytes_model bytes_model_laws chacha20_model
    (PacketHeader.mk PacketType.Handshake true 2 [1; 2] [3] 5 false 1) _
    (replicate 24 200) [] _ 10).
  - split; cbn; closed.
  - reflexivity.
  - lia.
  - reflexivity.
  - vm_compute. reflexivity.
Defined.
