(* ===== verification/Bitmap.v ===== *)
(** * The 2048-bit sliding window
    (src/src/transport/state/replay_window.rs and ack_tracker.rs)

    [ReplayWindow] and [AckTracker] keep the same state, the highest packet number
    processed and a bitmap of the 2048 numbers below it, and share, line for line,
    [new], [mark_processed] and [shift_left].  This file models that common part and
    shows that it represents the set of the numbers marked. *)

From S2P Require Import Prelude Errors.

Set Primitive Projections.
Record Window := mkWindow {
  highest_processed : option Z;
  bitmask : list Z;  (* [u64; 32] *)
}.
Unset Primitive Projections.

(** [new]. *)
Definition new_window : Window := mkWindow None (replicate 32 0).

(** [for i in (lo..lo+n).rev() { bitmask[i] = f(i, bitmask) }]. *)
Definition down_loop (f : nat → list Z → Z) (lo n : nat) (bm : list Z) : list Z :=
  foldl (λ bm i, <[i := f i bm]> bm) bm (rev (seq lo n)).

(** [x << n] on a [u64]. *)
Definition shl64 (x : Z) (n : nat) : Z := wrap 64 (Z.shiftl x (Z.of_nat n)).

(** [shift_left]. *)
Definition shift_left (shift : nat) (bm : list Z) : list Z :=
  if decide (shift = 0)%nat then bm
  else if decide (2048 ≤ shift)%nat then replicate 32 0
  else
    let word_shift := (shift / 64)%nat in
    let bit_shift := (shift mod 64)%nat in
    let bm :=
      if decide (0 < word_shift)%nat then
        let bm := down_loop (λ i bm, bm !!! (i - word_shift)%nat) word_shift (32 - word_shift) bm in
        foldl (λ bm i, <[i := 0]> bm) bm (seq 0 word_shift)
      else bm in
    if decide (0 < bit_shift)%nat then
      let inv_shift := (64 - bit_shift)%nat in
      let bm :=
        down_loop (λ i bm, Z.lor (shl64 (bm !!! i) bit_shift)
                                 (Z.shiftr (bm !!! (i - 1)%nat) (Z.of_nat inv_shift))) 1 31 bm in
      <[0%nat := shl64 (bm !!! 0%nat) bit_shift]> bm
    else bm.

(** [bitmask[word_idx] |= 1 << bit_idx]. *)
Definition set_bit (diff : Z) (bm : list Z) : list Z :=
  let word_idx := Z.to_nat (diff / 64) in
  let bit_idx := diff mod 64 in
  <[word_idx := Z.lor (bm !!! word_idx) (Z.shiftl 1 bit_idx)]> bm.

(** [mark_processed]. *)
Definition mark_processed (pn : Z) (w : Window) : Window :=
  match highest_processed w with
  | None => mkWindow (Some pn) (<[0%nat := 1]> (bitmask w))
  | Some highest =>
      if highest <? pn then
        let diff := pn - highest in
        let bm :=
          if 2048 <=? diff then <[0%nat := 1]> (replicate 32 0)
          else
            let bm := shift_left (Z.to_nat diff) (bitmask w) in
            <[0%nat := Z.lor (bm !!! 0%nat) 1]> bm in
        mkWindow (Some pn) bm
      else
        let diff := highest - pn in
        if diff <? 2048 then mkWindow (Some highest) (set_bit diff (bitmask w)) else w
  end.

(** ** The bitmap *)

(** Bit [d] of the map. *)
Definition bit (bm : list Z) (d : Z) : bool :=
  Z.testbit (bm !!! Z.to_nat (d / 64)) (d mod 64).

Definition bitmap_ok (bm : list Z) : Prop := length bm = 32%nat ∧ Forall (u_ok 64) bm.

Lemma bitmap_word bm i : bitmap_ok bm → u_ok 64 (bm !!! i).
Proof.
  intros [_ H]. destruct (bm !! i) as [x|] eqn:E.
  - rewrite (list_lookup_total_correct _ _ _ E). by eapply Forall_lookup_1.
  - rewrite list_lookup_total_alt, E. by vm_compute.
Qed.

Lemma word_of d : 0 ≤ d < 2048 → (Z.to_nat (d / 64) < 32)%nat.
Proof. intros. assert (0 ≤ d / 64 < 32) by div_lia. lia. Qed.

Lemma insert_total_eq (l : list Z) i x : (i < length l)%nat → <[i := x]> l !!! i = x.
Proof. intros. apply list_lookup_total_correct. by apply list_lookup_insert_eq. Qed.
Lemma insert_total_ne (l : list Z) i j x : i ≠ j → <[i := x]> l !!! j = l !!! j.
Proof. intros. by rewrite !list_lookup_total_alt, list_lookup_insert_ne. Qed.

(** A downward loop in which round [i] reads no index above [i] sees the old values. *)
Definition reads_below (f : nat → list Z → Z) : Prop :=
  ∀ i l k, (∀ j, (j ≤ i)%nat → l !!! j = k !!! j) → f i l = f i k.

Lemma down_loop_spec f lo n bm :
  reads_below f → (lo + n ≤ length bm)%nat →
  length (down_loop f lo n bm) = length bm ∧
  ∀ i, down_loop f lo n bm !!! i = if decide (lo ≤ i < lo + n)%nat then f i bm else bm !!! i.
Proof.
  intros Hf. unfold down_loop. revert bm. induction n as [|n IH]; intros bm Hl.
  { split; [done|]. intros i. by rewrite decide_False by lia. }
  rewrite seq_S, rev_unit. cbn [foldl].
  destruct (IH (<[(lo + n)%nat := f (lo + n)%nat bm]> bm)) as [L I];
    [rewrite length_insert; lia|].
  split; [by rewrite L, length_insert|]. intros i. rewrite I.
  repeat case_decide; try lia.
  - apply Hf. intros j Hj. apply insert_total_ne. lia.
  - replace i with (lo + n)%nat by lia. apply insert_total_eq. lia.
  - apply insert_total_ne. lia.
Qed.

Lemma zero_loop_spec n bm :
  (n ≤ length bm)%nat →
  let bm' := foldl (λ bm i, <[i := 0]> bm) bm (seq 0 n) in
  length bm' = length bm ∧ ∀ i, bm' !!! i = if decide (i < n)%nat then 0 else bm !!! i.
Proof.
  intros Hn. induction n as [|n IH]; [done|]. rewrite seq_S, foldl_app. cbn [foldl].
  destruct IH as [L I]; [lia|]. rewrite length_insert. split; [done|]. intros i.
  destruct (decide (i = n)) as [->|].
  - rewrite decide_True by lia. apply insert_total_eq. simpl. lia.
  - rewrite insert_total_ne, I by (simpl; lia). repeat case_decide; done || lia.
Qed.

(** The words after a shift: word [i] takes the low bits of word [i - ws] and the high
    bits of the word below it. *)
Definition shifted_word (bm : list Z) (ws bs i : nat) : Z :=
  let word k := if decide (ws ≤ k)%nat then bm !!! (k - ws)%nat else 0 in
  if decide (0 < bs)%nat then
    if decide (0 < i)%nat
    then Z.lor (shl64 (word i) bs) (Z.shiftr (word (i - 1)%nat) (Z.of_nat (64 - bs)))
    else shl64 (word i) bs
  else word i.

Lemma shift_left_words shift bm :
  (0 < shift < 2048)%nat → length bm = 32%nat →
  length (shift_left shift bm) = 32%nat ∧
  ∀ i, (i < 32)%nat →
    shift_left shift bm !!! i = shifted_word bm (shift / 64) (shift mod 64) i.
Proof.
  intros Hs Hb. unfold shift_left, shifted_word.
  rewrite (decide_False (P := shift = 0%nat)), (decide_False (P := (2048 ≤ shift)%nat)) by lia.
  set (ws := (shift / 64)%nat). set (bs := (shift mod 64)%nat).
  assert (ws < 32)%nat as Hws by (apply Nat.Div0.div_lt_upper_bound; lia).
  set (bm1 := if decide (0 < ws)%nat then _ else bm).
  assert (length bm1 = 32%nat ∧ ∀ i, (i < 32)%nat →
    bm1 !!! i = if decide (ws ≤ i)%nat then bm !!! (i - ws)%nat else 0) as [L1 W1].
  { unfold bm1. case_decide as D.
    - destruct (down_loop_spec (λ i bm, bm !!! (i - ws)%nat) ws (32 - ws) bm) as [L I];
        [intros i l k E; apply E; lia|lia|].
      destruct (zero_loop_spec ws (down_loop (λ i bm, bm !!! (i - ws)%nat) ws (32 - ws) bm))
        as [L' I']; [lia|]. split; [lia|]. intros i Hi. rewrite I', I.
      repeat case_decide; done || lia.
    - split; [done|]. intros i Hi. rewrite decide_True by lia. f_equal. lia. }
  clearbody bm1. case_decide as D.
  - destruct (down_loop_spec (λ i bm, Z.lor (shl64 (bm !!! i) bs)
      (Z.shiftr (bm !!! (i - 1)%nat) (Z.of_nat (64 - bs)))) 1 31 bm1) as [L I];
      [intros i l k E; rewrite !E by lia; done|lia|].
    rewrite length_insert. split; [lia|]. intros i Hi. case_decide.
    + rewrite insert_total_ne, I, decide_True by lia. by rewrite !W1 by lia.
    + replace i with 0%nat by lia. rewrite insert_total_eq, I, decide_False by lia.
      by rewrite W1 by lia.
  - split; [done|]. intros i Hi. by rewrite W1.
Qed.

(** ** Bits of the words *)

Lemma bit_split bm (k : nat) r :
  0 ≤ r < 64 → bit bm (64 * Z.of_nat k + r) = Z.testbit (bm !!! k) r.
Proof.
  intros Hr. unfold bit.
  assert ((64 * Z.of_nat k + r) / 64 = Z.of_nat k ∧ (64 * Z.of_nat k + r) mod 64 = r)
    as [-> ->] by div_lia. by rewrite Nat2Z.id.
Qed.

Lemma split_bit d : 0 ≤ d → ∃ (k : nat) r, d = 64 * Z.of_nat k + r ∧ 0 ≤ r < 64.
Proof.
  intros. exists (Z.to_nat (d / 64)), (d mod 64). pose proof (Z.div_pos d 64). div_lia.
Qed.

Lemma shl64_bit x n r :
  0 ≤ r < 64 → Z.testbit (shl64 x n) r = (Z.of_nat n <=? r) && Z.testbit x (r - Z.of_nat n).
Proof.
  intros. unfold shl64, wrap. rewrite Z.mod_pow2_bits_low, Z.shiftl_spec by lia.
  destruct (Z.leb_spec (Z.of_nat n) r); [done|]. by rewrite Z.testbit_neg_r by lia.
Qed.

Lemma shl64_ok x n : u_ok 64 (shl64 x n).
Proof. unfold shl64, wrap, u_ok. apply Z.mod_pos_bound. lia. Qed.

Lemma lor_ok x y : u_ok 64 x → u_ok 64 y → u_ok 64 (Z.lor x y).
Proof.
  intros [? ?] [? ?]. split; [apply Z.lor_nonneg; lia|].
  apply bounded_by_bits; [lia|apply Z.lor_nonneg; lia|]. intros i Hi.
  by rewrite Z.lor_spec, !(testbit_above _ 64) by lia.
Qed.

Lemma shiftr_ok x n : 0 ≤ n → u_ok 64 x → u_ok 64 (Z.shiftr x n).
Proof.
  intros Hn [? ?]. split; [by apply Z.shiftr_nonneg|]. rewrite Z.shiftr_div_pow2 by lia.
  pose proof (Z.pow_pos_nonneg 2 n). apply Z.div_lt_upper_bound; nia.
Qed.

Lemma bitmap_ok_lookup bm :
  length bm = 32%nat → (∀ i, (i < 32)%nat → u_ok 64 (bm !!! i)) → bitmap_ok bm.
Proof.
  intros L H. split; [done|]. apply Forall_lookup. intros i x E.
  rewrite <- (list_lookup_total_correct _ _ _ E). apply H. apply lookup_lt_Some in E. lia.
Qed.

Lemma insert_bitmap_ok bm i x : bitmap_ok bm → u_ok 64 x → bitmap_ok (<[i := x]> bm).
Proof. intros [L H] Hx. split; [by rewrite length_insert|by apply Forall_insert]. Qed.

Lemma zero_bitmap_ok : bitmap_ok (replicate 32 0).
Proof. split; [done|]. by apply Forall_replicate. Qed.

Lemma zero_bit d : 0 ≤ d < 2048 → bit (replicate 32 0) d = false.
Proof.
  intros. unfold bit. rewrite lookup_total_replicate_2 by (by apply word_of). apply Z.bits_0.
Qed.

Lemma shift_left_ok shift bm : bitmap_ok bm → bitmap_ok (shift_left shift bm).
Proof.
  intros Hb. destruct (decide (shift = 0%nat)) as [->|].
  { unfold shift_left. by rewrite decide_True. }
  destruct (decide (2048 ≤ shift)%nat).
  { unfold shift_left. rewrite decide_False, decide_True by lia. apply zero_bitmap_ok. }
  destruct (shift_left_words shift bm) as [L W]; [lia|apply Hb|].
  apply bitmap_ok_lookup; [done|]. intros i Hi. rewrite W by done. unfold shifted_word.
  assert (u_ok 64 0) by done.
  repeat case_decide; repeat first
    [ apply shl64_ok | apply lor_ok | apply shiftr_ok; [lia|] | by apply bitmap_word | done ].
Qed.

(** A left shift by [shift] moves bit [d - shift] to bit [d] and clears the low bits. *)
Lemma shift_left_bit shift bm d :
  bitmap_ok bm → (0 < shift < 2048)%nat → 0 ≤ d < 2048 →
  bit (shift_left shift bm) d
  = (Z.of_nat shift <=? d) && bit bm (d - Z.of_nat shift).
Proof.
  intros Hb Hs Hd. destruct (shift_left_words shift bm) as [_ W]; [done|apply Hb|].
  destruct (split_bit d) as (k & r & -> & Hr); [lia|]. rewrite bit_split by done.
  rewrite W by lia. unfold shifted_word.
  pose proof (Nat.div_mod_eq shift 64) as E. pose proof (Nat.mod_upper_bound shift 64) as U.
  set (ws := (shift / 64)%nat) in *. set (bs := (shift mod 64)%nat) in *. clearbody ws bs.
  assert (∀ i j, 64 ≤ j → Z.testbit (bm !!! i) j = false) as Hi.
  { intros i j Hj. apply (testbit_above _ 64); [by apply bitmap_word|lia]. }
  assert (∀ k' r', 0 ≤ r' < 64 → 64 * Z.of_nat k + r - Z.of_nat shift = 64 * Z.of_nat k' + r' →
    Z.testbit (bm !!! k') r' = (Z.of_nat shift <=? 64 * Z.of_nat k + r)
      && bit bm (64 * Z.of_nat k + r - Z.of_nat shift)) as Hin.
  { intros k' r' Hr' Heq. rewrite Heq, bit_split by done.
    by replace (Z.of_nat shift <=? 64 * Z.of_nat k + r) with true by lia. }
  assert (64 * Z.of_nat k + r < Z.of_nat shift →
    (Z.of_nat shift <=? 64 * Z.of_nat k + r) && bit bm (64 * Z.of_nat k + r - Z.of_nat shift)
    = false) as Hlow by (intros; by replace (Z.of_nat shift <=? 64 * Z.of_nat k + r) with false by lia).
  repeat case_decide; rewrite ?Z.lor_spec, ?shl64_bit, ?Z.shiftr_spec, ?Z.bits_0, ?andb_false_r by lia.
  all: destruct (Z.leb_spec (Z.of_nat bs) r); cbn [andb orb].
  all: try rewrite (Hi (k - 1 - ws)%nat) by lia; rewrite ?orb_false_r.
  all: first [ symmetry; apply Hlow; lia | apply Hin; lia ].
Qed.

Lemma set_bit_ok k bm : 0 ≤ k < 2048 → bitmap_ok bm → bitmap_ok (set_bit k bm).
Proof.
  intros Hk Hb. apply insert_bitmap_ok; [done|]. apply lor_ok; [by apply bitmap_word|].
  rewrite Z.shiftl_mul_pow2, Z.mul_1_l by (apply Z.mod_pos_bound; lia).
  pose proof (Z.mod_pos_bound k 64). split; [apply Z.pow_nonneg; lia|].
  apply Z.pow_lt_mono_r; lia.
Qed.

Lemma set_bit_bit k bm d :
  bitmap_ok bm → 0 ≤ k < 2048 → 0 ≤ d < 2048 → bit (set_bit k bm) d = (d =? k) || bit bm d.
Proof.
  intros Hb Hk Hd. unfold set_bit, bit. pose proof (proj1 Hb) as L.
  assert (0 ≤ d mod 64 ∧ 0 ≤ k mod 64) as [? ?] by (split; apply Z.mod_pos_bound; lia).
  destruct (decide (k / 64 = d / 64)) as [E|E].
  - rewrite E, insert_total_eq by (rewrite L; by apply word_of). rewrite Z.lor_spec, orb_comm.
    f_equal. rewrite Z.shiftl_spec by lia. destruct (Z.eqb_spec d k) as [->|N].
    + by rewrite Z.sub_diag.
    + assert (d mod 64 - k mod 64 ≠ 0) by div_lia.
      destruct (decide (d mod 64 - k mod 64 < 0)); [by rewrite Z.testbit_neg_r by lia|].
      change 1 with (2 ^ 0). apply Z.pow2_bits_false. lia.
  - pose proof (Z.div_pos d 64). pose proof (Z.div_pos k 64). rewrite insert_total_ne by lia.
    replace (d =? k) with false by (symmetry; apply Z.eqb_neq; congruence). done.
Qed.

(** ** The set a window represents *)

(** [S] is the set of all the numbers marked; the bitmap knows about the top 2048. *)
Definition represents (w : Window) (S : gset Z) : Prop :=
  bitmap_ok (bitmask w) ∧
  match highest_processed w with
  | None => S = ∅ ∧ bitmask w = replicate 32 0
  | Some h => h ∈ S ∧ (∀ x, x ∈ S → 0 ≤ x ≤ h) ∧
      ∀ d, 0 ≤ d < 2048 → bit (bitmask w) d = bool_decide (h - d ∈ S)
  end.

Lemma represents_new : represents new_window ∅.
Proof. split; [apply zero_bitmap_ok|done]. Qed.

(** Marking the first number, or one that jumps past the window. *)
Lemma fresh_bit d :
  0 ≤ d < 2048 → bit (<[0%nat := 1]> (replicate 32 0)) d = (d =? 0).
Proof.
  intros Hd. change (<[0%nat := 1]> (replicate 32 0)) with (set_bit 0 (replicate 32 0)).
  rewrite set_bit_bit, zero_bit by (try done; apply zero_bitmap_ok). by rewrite orb_false_r.
Qed.

Lemma marked_bounds (S : gset Z) pn h :
  (∀ x, x ∈ S → 0 ≤ x ≤ h) → 0 ≤ pn ≤ h → ∀ x, x ∈ ({[pn]} ∪ S : gset Z) → 0 ≤ x ≤ h.
Proof. intros HS Hp x Hx. apply elem_of_union in Hx as [->%elem_of_singleton|Hx]; auto. Qed.

Lemma fresh_represents pn S bm :
  0 ≤ pn → bm = <[0%nat := 1]> (replicate 32 0) → (∀ x, x ∈ S → 0 ≤ x ∧ x + 2048 ≤ pn) →
  represents (mkWindow (Some pn) bm) ({[pn]} ∪ S).
Proof.
  intros Hp -> HS. split.
  { apply insert_bitmap_ok; [apply zero_bitmap_ok|done]. }
  simpl. split_and!; [by apply elem_of_union_l, elem_of_singleton
    |apply marked_bounds; [|lia]; intros x Hx; apply HS in Hx; lia|].
  intros d Hd. rewrite fresh_bit by done.
  destruct (Z.eqb_spec d 0) as [->|]; symmetry; [apply bool_decide_eq_true|apply bool_decide_eq_false].
  - set_unfold. lia.
  - set_unfold. intros [?|Hx]; [lia|]. apply HS in Hx. lia.
Qed.

Lemma mark_processed_represents w S pn :
  represents w S → 0 ≤ pn → represents (mark_processed pn w) ({[pn]} ∪ S).
Proof.
  intros [Hb R] Hp. unfold mark_processed. destruct (highest_processed w) as [h|] eqn:E.
  2: { destruct R as [-> ->]. by apply fresh_represents. }
  destruct R as (Hh & HS & B). destruct (Z.ltb_spec h pn) as [L|L].
  - destruct (Z.leb_spec 2048 (pn - h)) as [J|J].
    { apply fresh_represents; [done..|]. intros x Hx. apply HS in Hx. lia. }
    set (bm := shift_left _ _). assert (bitmap_ok bm) as Hbm by by apply shift_left_ok.
    change (<[0%nat := Z.lor (bm !!! 0%nat) 1]> bm) with (set_bit 0 bm).
    split; simpl; [by apply set_bit_ok|].
    split_and!; [by apply elem_of_union_l, elem_of_singleton
    |apply marked_bounds; [|lia]; intros x Hx; apply HS in Hx; lia|].
    intros d Hd. rewrite set_bit_bit by done. unfold bm. rewrite shift_left_bit by (done || lia).
    rewrite Z2Nat.id by lia. apply eq_bool_prop_intro. rewrite bool_decide_spec. set_unfold.
    destruct (Z.eqb_spec d 0) as [->|]; [simpl; split; [lia|done]|]. cbn [orb].
    destruct (Z.leb_spec (pn - h) d); cbn [andb].
    + rewrite B by lia. rewrite bool_decide_spec. replace (h - (d - (pn - h))) with (pn - d) by lia.
      split; [tauto|]. intros [?|?]; [lia|done].
    + split; [done|]. intros [?|Hx]; [lia|]. apply HS in Hx. lia.
  - destruct (Z.ltb_spec (h - pn) 2048) as [J|J].
    + split; simpl; [apply set_bit_ok; [lia|done]|].
      split_and!; [by apply elem_of_union_r|apply marked_bounds; [done|lia]|].
      intros d Hd. rewrite set_bit_bit, B by (done || lia).
      apply eq_bool_prop_intro. rewrite bool_decide_spec. set_unfold.
      destruct (Z.eqb_spec d (h - pn)) as [->|]; cbn [orb]; [split; [lia|done]|].
      rewrite bool_decide_spec. split; [tauto|]. intros [?|?]; [lia|done].
    + split; [done|]. rewrite E.
      split_and!; [by apply elem_of_union_r|apply marked_bounds; [done|lia]|].
      intros d Hd. rewrite B by done. apply bool_decide_ext. set_unfold.
      split; [tauto|]. intros [?|?]; [lia|done].
Qed.

(** After any sequence of marks the window represents the set of the numbers marked. *)
Lemma mark_all_represents w S pns :
  represents w S → Forall (Z.le 0) pns →
  represents (foldl (λ w pn, mark_processed pn w) w pns) (list_to_set pns ∪ S).
Proof.
  intros R Hp. revert w S R. induction Hp as [|pn pns Hpn Hp IH]; intros w S R; cbn [foldl].
  { by rewrite list_to_set_nil, (left_id_L ∅ (∪)). }
  specialize (IH _ _ (mark_processed_represents w S pn R Hpn)).
  by rewrite list_to_set_cons, (union_comm_L {[pn]}), <- (union_assoc_L).
Qed.
