(* ===== verification/ReplayWindow.v ===== *)
(** * Replay protection (src/src/transport/state/replay_window.rs)

    [is_replay] over the window of [Bitmap], and what it guarantees: exactly the
    numbers already marked, and those 2048 or more behind the highest, are refused. *)

From S2P Require Import Prelude Errors Bitmap.

(** [ReplayWindow::is_replay]. *)
Definition is_replay (pn : Z) (w : Window) : bool :=
  match highest_processed w with
  | None => false
  | Some highest =>
      if pn <=? highest then
        let diff := highest - pn in
        if 2048 <=? diff then true
        else
          let word_idx := Z.to_nat (diff / 64) in
          let bit_idx := diff mod 64 in
          negb (Z.land (bitmask w !!! word_idx) (Z.shiftl 1 bit_idx) =? 0)
      else false
  end.

(** What the receive path does with the numbers of authentic packets, in order of arrival:
    refuse a replay, otherwise mark and deliver. *)
Definition receive (st : Window * list Z) (pn : Z) : Window * list Z :=
  let '(w, delivered) := st in
  if is_replay pn w then (w, delivered) else (mark_processed pn w, delivered ++ [pn]).

(** ** Lemmas *)

Lemma is_replay_represents w S pn :
  represents w S → 0 ≤ pn →
  is_replay pn w = true ↔ pn ∈ S ∨ ∃ m, m ∈ S ∧ pn + 2048 ≤ m.
Proof.
  intros [Hb R] Hp. unfold is_replay. destruct (highest_processed w) as [h|].
  2: { destruct R as [-> _]. set_solver. }
  destruct R as (Hh & HS & B). destruct (Z.leb_spec pn h) as [L|L].
  - destruct (Z.leb_spec 2048 (h - pn)) as [J|J].
    + split; [|done]. intros _. right. exists h. split; [done|lia].
    + rewrite land_bit_nonzero by (apply Z.mod_pos_bound; lia).
      specialize (B (h - pn) ltac:(lia)). unfold bit in B. rewrite B, bool_decide_eq_true.
      replace (h - (h - pn)) with pn by lia. split; [by left|].
      intros [?|(m & Hm & ?)]; [done|]. apply HS in Hm. lia.
  - split; [done|]. intros [Hx|(m & Hm & ?)]; [apply HS in Hx|apply HS in Hm]; lia.
Qed.

Lemma receive_invariant pns w acc :
  represents w (list_to_set acc) → NoDup acc → Forall (Z.le 0) pns →
  let '(w', acc') := foldl receive (w, acc) pns in
  represents w' (list_to_set acc') ∧ NoDup acc'.
Proof.
  intros R N Hp. revert w acc R N. induction Hp as [|pn pns Hpn _ IH]; intros w acc R N; [done|].
  cbn [foldl]. unfold receive at 2. destruct (is_replay pn w) eqn:E; [by apply IH|].
  assert (pn ∉ acc) as Hn.
  { intros Hin. assert (is_replay pn w = true); [|congruence].
    eapply is_replay_represents; [done..|]. left. by apply elem_of_list_to_set. }
  apply IH.
  - replace (list_to_set (acc ++ [pn]) : gset Z) with ({[pn]} ∪ list_to_set acc : gset Z)
      by set_solver. by apply mark_processed_represents.
  - apply NoDup_app. split_and!; [done|set_solver|apply NoDup_singleton].
Qed.

(** ** The theorems *)

(** C26: After any sequence of marked numbers, [is_replay] refuses exactly the numbers that
    were marked and the numbers 2048 or more below one that was. *)
Theorem replay_window_exact (pns : list Z) (pn : Z) :
  Forall (Z.le 0) pns → 0 ≤ pn →
  is_replay pn (foldl (λ w pn, mark_processed pn w) new_window pns) = true
  ↔ pn ∈ pns ∨ ∃ m, m ∈ pns ∧ pn + 2048 ≤ m.
Proof.
  intros Hp Hn. rewrite is_replay_represents; [|by apply mark_all_represents, Hp; apply represents_new|done].
  set_solver.
Qed.

Lemma replay_window_exact_witness :
  is_replay 5000 (foldl (λ w pn, mark_processed pn w) new_window [3; 5000; 4100]) = true
  ↔ 5000 ∈ [3; 5000; 4100] ∨ ∃ m, m ∈ [3; 5000; 4100] ∧ 5000 + 2048 ≤ m.
Proof. apply replay_window_exact; closed. Defined.

(** C14: Whatever numbers arrive and in whatever order, no number is delivered twice, and a
    number that arrives is delivered unless it was before or is 2048 or more behind. *)
Theorem replay_delivers_once (pns : list Z) (pn : Z) :
  Forall (Z.le 0) pns → 0 ≤ pn →
  let '(w, delivered) := foldl receive (new_window, []) pns in
  NoDup delivered
  ∧ (receive (w, delivered) pn = (mark_processed pn w, delivered ++ [pn])
     ↔ (pn ∉ delivered) ∧ (∀ m, m ∈ delivered → m < pn + 2048)).
Proof.
  intros Hp Hn. pose proof (receive_invariant pns new_window []) as I.
  destruct (foldl receive (new_window, []) pns) as [w acc].
  destruct I as [R N]; [apply represents_new|constructor|done|]. split; [done|].
  unfold receive. pose proof (is_replay_represents w _ pn R Hn) as Q.
  destruct (is_replay pn w); split.
  - intros [= _ E]. apply (f_equal length) in E. rewrite length_app in E. simpl in E. lia.
  - intros [Hni Hw]. destruct Q as [Q _]. destruct (Q eq_refl) as [Hx|(m & Hm & ?)].
    + by apply elem_of_list_to_set in Hx.
    + apply elem_of_list_to_set, Hw in Hm. lia.
  - intros _. split.
    + intros Hi. destruct Q as [_ Q]. discriminate Q. left. by apply elem_of_list_to_set.
    + intros m Hm. destruct (decide (m < pn + 2048)); [done|].
      destruct Q as [_ Q]. discriminate Q. right. exists m. split; [by apply elem_of_list_to_set|lia].
  - done.
Qed.

Lemma replay_delivers_once_witness :
  let '(w, delivered) := foldl receive (new_window, []) [1; 0; 1; 3000; 500] in
  NoDup delivered
  ∧ (receive (w, delivered) 2999 = (mark_processed 2999 w, delivered ++ [2999])
     ↔ (2999 ∉ delivered) ∧ (∀ m, m ∈ delivered → m < 2999 + 2048)).
Proof. apply replay_delivers_once; closed. Defined.
