(* ===== verification/AckTracker.v ===== *)
(** * Generating ACK ranges (src/src/transport/state/ack_tracker.rs)

    [AckTracker] shares its state, [new], [mark_processed] and [shift_left] with the
    replay window ([Bitmap]); [get_ack_ranges] scans the bitmap word by word and turns
    it into at most 128 inclusive ranges, newest first.  The theorem says which packet
    numbers the ranges cover. *)

From stdpp Require Import sorting.
From S2P Require Import Prelude Errors Bitmap.

Definition MAX_ACK_RANGES : Z := 128.

(** [AckTracker::new], [AckTracker::mark_processed], [AckTracker::shift_left]. *)
Definition ack_new : Window := new_window.
Definition ack_mark_processed : Z → Window → Window := mark_processed.
Definition ack_shift_left : nat → list Z → list Z := shift_left.

Set Primitive Projections.
(** The local variables of the scan. *)
Record Scan := mkScan {
  in_range : bool;
  current_end : Z;
  diff : Z;
  ranges : list (Z * Z);
}.
Unset Primitive Projections.

(** A loop goes on with its variables, or the function returns. *)
Definition step_result : Type := Scan + list (Z * Z).

(** [for _ in 0..64], with [n] rounds left; [w] is the word shifted so far. *)
Fixpoint bits_loop (n : nat) (highest w : Z) (st : Scan) : step_result :=
  match n with
  | O => inl st
  | S n =>
      if highest <? diff st then inl st  (* break *)
      else
        let received := negb (Z.land w 1 =? 0) in
        let pn := highest - diff st in
        let next st := bits_loop n highest (Z.shiftr w 1)
          (mkScan (in_range st) (current_end st) (diff st + 1) (ranges st)) in
        if received then
          if in_range st then next st
          else next (mkScan true pn (diff st) (ranges st))
        else if in_range st then
          let ranges := ranges st ++ [(pn + 1, current_end st)] in
          if MAX_ACK_RANGES <=? len ranges then inr ranges
          else next (mkScan false (current_end st) (diff st) ranges)
        else next st
  end.

(** [for &word in self.bitmask.iter()]. *)
Fixpoint words_loop (words : list Z) (highest : Z) (st : Scan) : step_result :=
  match words with
  | [] => inl st
  | word :: words =>
      if highest <? diff st then inl st  (* break *)
      else if negb (in_range st) && (word =? 0) then
        words_loop words highest
          (mkScan (in_range st) (current_end st) (diff st + 64) (ranges st))
      else if in_range st && (word =? u_max 64) then
        words_loop words highest
          (mkScan (in_range st) (current_end st) (diff st + 64) (ranges st))
      else
        match bits_loop 64 highest word st with
        | inl st => words_loop words highest st
        | inr r => inr r
        end
  end.

(** [AckTracker::get_ack_ranges]. *)
Definition get_ack_ranges (w : Window) : list (Z * Z) :=
  match highest_processed w with
  | None => []
  | Some highest =>
      match words_loop (bitmask w) highest (mkScan false 0 0 []) with
      | inr ranges => ranges
      | inl st =>
          if in_range st then
            let lowest := sat_sub highest (sat_sub (diff st) 1) in
            if len (ranges st) <? MAX_ACK_RANGES
            then ranges st ++ [(lowest, current_end st)] else ranges st
          else ranges st
      end
  end.

(** ** What the ranges cover *)

Definition covered (rs : list (Z * Z)) (x : Z) : Prop := ∃ r, r ∈ rs ∧ r.1 ≤ x ≤ r.2.

(** Newest first, with at least one number missing between two ranges. *)
Definition separated : list (Z * Z) → Prop := StronglySorted (λ a b, b.2 + 1 < a.1).

Lemma covered_snoc rs lo hi x : covered (rs ++ [(lo, hi)]) x ↔ covered rs x ∨ lo ≤ x ≤ hi.
Proof.
  unfold covered. split.
  - intros (r & [Hr|Hr]%elem_of_app & ?); [left; eauto|]. apply list_elem_of_singleton in Hr as ->.
    by right.
  - intros [(r & Hr & ?)|?]; [exists r|exists (lo, hi)]; (split; [|done]); set_solver.
Qed.

Lemma separated_snoc rs lo hi :
  separated rs → Forall (λ r, hi + 1 < r.1) rs → separated (rs ++ [(lo, hi)]).
Proof.
  intros S F. induction S as [|r rs S IH R]; [repeat constructor|]. inversion F; subst.
  cbn [app]. constructor; [by apply IH|]. apply Forall_app. split; [done|]. by repeat constructor.
Qed.

Section scan.
Context (h : Z) (f : Z → bool) (Hf : ∀ d, h < d → f d = false).

(** The scan has read the bits below [diff]. *)
Record scan_inv (st : Scan) : Prop := {
  si_diff : 0 ≤ diff st;
  si_len : len (ranges st) < 128;
  si_bounds : Forall (λ r, 0 ≤ r.1 ≤ r.2 ∧ r.2 ≤ h) (ranges st);
  si_sep : separated (ranges st);
  si_end : in_range st = true →
    h - diff st < current_end st ≤ h ∧ diff st ≤ h + 1 ∧
    Forall (λ r, current_end st + 1 < r.1) (ranges st);
  si_gap : in_range st = false → Forall (λ r, h - diff st + 1 < r.1) (ranges st);
  si_cover : ∀ d, 0 ≤ d < diff st →
    f d = true ↔ covered (ranges st) (h - d) ∨ (in_range st = true ∧ h - d ≤ current_end st);
}.

(** What is returned: the ranges cover received numbers only; a received number is left
    out only when there are 128 ranges, all newer than it. *)
Record ranges_ok (rs : list (Z * Z)) : Prop := {
  ro_len : len rs ≤ 128;
  ro_bounds : Forall (λ r, 0 ≤ r.1 ≤ r.2 ∧ r.2 ≤ h) rs;
  ro_sep : separated rs;
  ro_sound : ∀ d, 0 ≤ d → covered rs (h - d) → f d = true;
  ro_complete : ∀ d, 0 ≤ d < 2048 → f d = true →
    covered rs (h - d) ∨ (len rs = 128 ∧ Forall (λ r, h - d < r.1) rs);
}.

Definition step_ok (P : Scan → Prop) (r : step_result) : Prop :=
  match r with inl st => scan_inv st ∧ P st | inr rs => ranges_ok rs end.

Lemma covered_below rs d b :
  Forall (λ r : Z * Z, b < r.1) rs → covered rs (h - d) → b < h - d.
Proof. intros F (r & Hr & ?). rewrite Forall_forall in F. specialize (F r Hr). lia. Qed.

(** One bit, not received, in a range: the range is closed. *)
Lemma close_range st :
  scan_inv st → diff st ≤ h → in_range st = true → f (diff st) = false →
  let rs := ranges st ++ [(h - diff st + 1, current_end st)] in
  (len rs < 128 → scan_inv (mkScan false (current_end st) (diff st + 1) rs))
  ∧ (128 ≤ len rs → ranges_ok rs).
Proof.
  intros [D L B S E G C] Hd Hr Hfd rs. destruct (E Hr) as (He & _ & Fe).
  assert (Forall (λ r, 0 ≤ r.1 ≤ r.2 ∧ r.2 ≤ h) rs) as Bs.
  { apply Forall_app; split; [done|]. repeat constructor; simpl; lia. }
  assert (separated rs) as Ss by by apply separated_snoc.
  assert (Forall (λ r, h - diff st < r.1) rs) as Gs.
  { apply Forall_app; split; [|repeat constructor; simpl; lia].
    eapply Forall_impl; [exact Fe|]. simpl. lia. }
  assert (∀ d, 0 ≤ d < diff st + 1 → f d = true ↔ covered rs (h - d)) as Cs.
  { intros d Hd'. destruct (decide (d = diff st)) as [->|].
    - rewrite Hfd. split; [done|]. intros Hc. apply (covered_below _ _ _ Gs) in Hc. lia.
    - unfold rs. rewrite C, Hr, covered_snoc by lia. split; [intros [?|[_ ?]]|intros [?|?]]; auto; right; lia. }
  split; intros Hl.
  - split; simpl; try done; try lia; [intros _; eapply Forall_impl; [exact Gs|]; simpl; lia|].
    intros d Hd'. rewrite Cs by lia. naive_solver.
  - assert (len rs = 128) as Hl' by (unfold rs in *; len_lia). split; try done; [lia| |].
    + intros d Hd' Hc. pose proof (covered_below _ _ _ Gs Hc). apply Cs; [lia|done].
    + intros d Hd' Hfd'. destruct (decide (d < diff st + 1)); [left; apply Cs; [lia|done]|right].
      split; [done|]. eapply Forall_impl; [exact Gs|]. simpl. lia.
Qed.

(** One received bit, or a missing one outside a range. *)
Lemma extend_scan st e :
  scan_inv st → diff st ≤ h → f (diff st) = true →
  e = (if in_range st then current_end st else h - diff st) →
  scan_inv (mkScan true e (diff st + 1) (ranges st)).
Proof.
  intros [D L B S E G C] Hd Hfd He. split; simpl; try done; [lia| |].
  - intros _. destruct (in_range st); subst e.
    + destruct (E eq_refl) as (?&?&?). repeat split; try done; lia.
    + split_and!; [lia..|]. eapply Forall_impl; [by apply G|]. simpl. lia.
  - intros d Hd'. destruct (decide (d = diff st)) as [->|].
    + rewrite Hfd. split; [|done]. intros _. right. split; [done|].
      destruct (in_range st); [destruct (E eq_refl)|]; lia.
    + rewrite C by lia. destruct (in_range st); [subst; tauto|].
      split; [intros [?|[? ?]]; [auto|done]|]. intros [?|[_ ?]]; [auto|lia].
Qed.

Lemma skip_gap st k :
  scan_inv st → in_range st = false → 0 ≤ k → (∀ d, diff st ≤ d < diff st + k → f d = false) →
  scan_inv (mkScan false (current_end st) (diff st + k) (ranges st)).
Proof.
  intros [D L B S E G C] Hr Hk Hz. specialize (G Hr). split; simpl; try done; [lia| |].
  - intros _. eapply Forall_impl; [exact G|]. simpl. lia.
  - intros d Hd. destruct (decide (d < diff st)); [rewrite C, Hr by lia; done|].
    rewrite Hz by lia. split; [done|]. intros [Hc|[? ?]]; [|done].
    apply (covered_below _ _ _ G) in Hc. lia.
Qed.

Lemma skip_full st k :
  scan_inv st → in_range st = true → 1 ≤ k → (∀ d, diff st ≤ d < diff st + k → f d = true) →
  scan_inv (mkScan true (current_end st) (diff st + k) (ranges st)).
Proof.
  intros [D L B S E G C] Hr Hk Hz. destruct (E Hr) as (?&?&?).
  assert (diff st + k ≤ h + 1).
  { destruct (decide (diff st + k ≤ h + 1)); [done|].
    specialize (Hz (diff st + k - 1)). rewrite Hf in Hz by lia. discriminate Hz; lia. }
  split; simpl; try done; [lia|intros _; split_and!; try done; lia|].
  intros d Hd. destruct (decide (d < diff st)); [rewrite C, Hr by lia; done|].
  rewrite Hz by lia. split; [|done]. intros _. right. split; [done|lia].
Qed.

Lemma bits_loop_ok n w st :
  scan_inv st → (∀ i, 0 ≤ i < Z.of_nat n → f (diff st + i) = Z.testbit w i) →
  step_ok (λ st', diff st' = diff st + Z.of_nat n ∨ h < diff st') (bits_loop n h w st).
Proof.
  revert w st. induction n as [|n IH]; intros w st I Hw; cbn [bits_loop].
  { split; [done|]. left. lia. }
  destruct (Z.ltb_spec h (diff st)) as [|Hd]; [split; [done|by right]|].
  change (Z.land w 1) with (Z.land w (Z.shiftl 1 0)). rewrite land_bit_nonzero by lia.
  assert (f (diff st) = Z.testbit w 0) as Hb by (rewrite <- Hw by lia; f_equal; lia).
  assert (∀ st', scan_inv st' → diff st' = diff st + 1 → step_ok
    (λ st'', diff st'' = diff st + Z.of_nat (S n) ∨ h < diff st'')
    (bits_loop n h (Z.shiftr w 1) st')) as Next.
  { intros st' I' E. specialize (IH (Z.shiftr w 1) st' I').
    assert (step_ok (λ st'', diff st'' = diff st' + Z.of_nat n ∨ h < diff st'')
      (bits_loop n h (Z.shiftr w 1) st')) as O.
    { apply IH. intros i Hi. rewrite E, Z.shiftr_spec, <- Hw by lia. f_equal. lia. }
    destruct (bits_loop n h (Z.shiftr w 1) st') as [st''|rs]; [|done].
    destruct O as [? [?|?]]; (split; [done|]); [left|right]; lia. }
  destruct (Z.testbit w 0), (in_range st) eqn:R; cbn [in_range current_end diff ranges].
  - apply Next; [|done]. apply extend_scan; [done..|by rewrite R].
  - apply Next; [|done]. apply (extend_scan st); [done..|by rewrite R].
  - destruct (close_range st I Hd R Hb) as [C1 C2]. unfold MAX_ACK_RANGES.
    destruct (Z.leb_spec 128 (len (ranges st ++ [(h - diff st + 1, current_end st)])));
      [by apply C2|]. apply Next; [by apply C1|done].
  - apply Next; [|done]. apply skip_gap; [done..|lia|].
    intros d Hd'. by replace d with (diff st) by lia.
Qed.

Lemma words_loop_ok words st :
  scan_inv st → Forall (u_ok 64) words →
  (∀ (k : nat) word r, words !! k = Some word → 0 ≤ r < 64 →
     f (diff st + 64 * Z.of_nat k + r) = Z.testbit word r) →
  step_ok (λ st', diff st' = diff st + 64 * len words ∨ h < diff st') (words_loop words h st).
Proof.
  intros I U. revert st I. induction U as [|word words Hu U IH]; intros st I Hw; cbn [words_loop].
  { split; [done|]. left. unfold len; simpl; lia. }
  destruct (Z.ltb_spec h (diff st)) as [|Hd]; [split; [done|by right]|].
  assert (∀ r, 0 ≤ r < 64 → f (diff st + r) = Z.testbit word r) as H0.
  { intros r Hr. rewrite <- (Hw 0%nat word r eq_refl Hr). f_equal. lia. }
  assert (∀ st', scan_inv st' → diff st' = diff st + 64 ∨ h < diff st' → step_ok
    (λ st'', diff st'' = diff st + 64 * len (word :: words) ∨ h < diff st'')
    (words_loop words h st')) as Next.
  { intros st' I' [E|E].
    - specialize (IH st' I'). rewrite len_cons.
      assert (step_ok (λ st'', diff st'' = diff st' + 64 * len words ∨ h < diff st'')
        (words_loop words h st')) as O.
      { apply IH. intros k x r Hk Hr. rewrite <- (Hw (S k) x r Hk Hr), E. f_equal. lia. }
      destruct (words_loop words h st') as [st''|rs]; [|done].
      destruct O as [? [?|?]]; (split; [done|]); [left|right]; lia.
    - destruct words; [|cbn [words_loop]; replace (h <? diff st') with true by lia];
        split; try done; by right. }
  destruct (in_range st) eqn:R; cbn [negb andb].
  - destruct (Z.eqb_spec word (u_max 64)) as [->|].
    + apply Next; [|by left]. apply skip_full; [done|done|lia|]. intros d Hd'.
      replace d with (diff st + (d - diff st)) by lia. rewrite H0 by lia.
      change (u_max 64) with (Z.ones 64). apply Z.ones_spec_low. lia.
    + pose proof (bits_loop_ok 64 word st I H0) as O.
      destruct (bits_loop 64 h word st) as [st'|rs]; [|done]. destruct O. by apply Next.
  - destruct (Z.eqb_spec word 0) as [->|].
    + apply Next; [|by left]. apply skip_gap; [done|done|lia|]. intros d Hd'.
      replace d with (diff st + (d - diff st)) by lia. rewrite H0 by lia. apply Z.bits_0.
    + pose proof (bits_loop_ok 64 word st I H0) as O.
      destruct (bits_loop 64 h word st) as [st'|rs]; [|done]. destruct O. by apply Next.
Qed.

(** The end of the function. *)
Lemma finish_ok st :
  scan_inv st → (2048 ≤ diff st ∨ h < diff st) →
  ranges_ok (if in_range st then ranges st ++ [(h - (diff st - 1), current_end st)] else ranges st).
Proof.
  intros [D L B S E G C] Hd.
  assert (∀ d, 0 ≤ d < 2048 → f d = true → d < diff st) as Hin.
  { intros d Hd' Hfd. destruct (decide (d < diff st)); [done|]. rewrite Hf in Hfd by lia. done. }
  destruct (in_range st) eqn:R.
  - destruct (E eq_refl) as (?&?&?). split.
    + len_lia.
    + apply Forall_app; split; [done|]. repeat constructor; simpl; lia.
    + by apply separated_snoc.
    + intros d Hd' [Hc|?]%covered_snoc.
      * destruct Hc as (r & Hr & ?). apply C; [|left; by exists r].
        rewrite !Forall_forall in *. specialize (B r Hr). specialize (H1 r Hr). lia.
      * apply C; [lia|right; split; [done|lia]].
    + intros d Hd' Hfd. left. apply covered_snoc.
      destruct (proj1 (C d ltac:(specialize (Hin d Hd' Hfd); lia)) Hfd) as [?|[_ ?]]; [auto|].
      specialize (Hin d Hd' Hfd). right. lia.
  - specialize (G eq_refl). split; try done; [lia| |].
    + intros d Hd' Hc. pose proof (covered_below _ _ _ G Hc). apply C; [lia|by left].
    + intros d Hd' Hfd. left. specialize (Hin d Hd' Hfd).
      destruct (proj1 (C d ltac:(lia)) Hfd) as [?|[? ?]]; done.
Qed.
End scan.

(** ** The theorem *)

(** The bits as the scan sees them. *)
Lemma ranges_of_window w h S :
  represents w S → highest_processed w = Some h →
  ranges_ok h (λ d, bool_decide (d < 2048) && bool_decide (h - d ∈ S)) (get_ack_ranges w).
Proof.
  intros [[Lb Ub] R] E. unfold get_ack_ranges. rewrite E in *. destruct R as (Hh & HS & B).
  set (f := λ d, bool_decide (d < 2048) && bool_decide (h - d ∈ S)).
  assert (0 ≤ h) as Hh0 by (apply HS in Hh; lia).
  assert (∀ d, h < d → f d = false) as Hf.
  { intros d Hd. unfold f. apply andb_false_iff. right. apply bool_decide_eq_false.
    intros Hx. apply HS in Hx. lia. }
  assert (step_ok h f (λ st, diff st = 0 + 64 * len (bitmask w) ∨ h < diff st)
    (words_loop (bitmask w) h (mkScan false 0 0 []))) as O.
  { apply (words_loop_ok h f Hf (bitmask w) (mkScan false 0 0 [])); [|done|].
    - split; simpl; try done; try lia; constructor.
    - cbn [diff]. intros k word r Hk Hr. rewrite Z.add_0_l.
      assert (k < 32)%nat by (apply lookup_lt_Some in Hk; lia). unfold f. rewrite bool_decide_eq_true_2 by lia. cbn [andb].
      rewrite <- (B (64 * Z.of_nat k + r)), bit_split by lia.
      by rewrite (list_lookup_total_correct _ _ _ Hk). }
  destruct (words_loop _ _ _) as [st|rs]; [|done]. destruct O as [I Hd].
  assert (len (bitmask w) = 32) as Hl by (unfold len; lia).
  pose proof (finish_ok h f Hf st I ltac:(lia)) as F.
  destruct (in_range st) eqn:R; [|done]. destruct (si_end _ _ _ I R) as (?&?&_).
  pose proof (si_len _ _ _ I). unfold MAX_ACK_RANGES.
  replace (len (ranges st) <? 128) with true by lia.
  replace (sat_sub h (sat_sub (diff st) 1)) with (h - (diff st - 1)) by (unfold sat_sub; lia).
  done.
Qed.

(** C25: After any non-empty sequence of processed packet numbers, [get_ack_ranges] returns
    at most 128 well-formed ranges, newest first and with a gap between any two.  They
    contain processed numbers only, and every processed number within 2047 of the highest
    is in one of them, unless there are 128 ranges and it is older than all of them. *)
Theorem ack_ranges_exact (pns : list Z) (h : Z) :
  Forall (Z.le 0) pns →
  let w := foldl (λ w pn, ack_mark_processed pn w) ack_new pns in
  let rs := get_ack_ranges w in
  highest_processed w = Some h →
  len rs ≤ 128 ∧ Forall (λ r, 0 ≤ r.1 ≤ r.2) rs ∧ separated rs
  ∧ (∀ x, covered rs x → x ∈ pns)
  ∧ (∀ x, x ∈ pns → h < x + 2048 →
       covered rs x ∨ (len rs = 128 ∧ Forall (λ r, x < r.1) rs)).
Proof.
  intros Hp w rs E.
  assert (represents w (list_to_set pns ∪ ∅)) as R
    by (apply mark_all_represents; [apply represents_new|done]).
  rewrite (right_id_L ∅ (∪)) in R. pose proof (ranges_of_window w h _ R E) as [L B S So C].
  assert (∀ x, x ∈ pns → x ≤ h) as Hle.
  { intros x Hx. destruct R as [_ R]. rewrite E in R. destruct R as (_ & HS & _).
    by apply HS, elem_of_list_to_set. }
  split_and!; [done|by eapply Forall_impl; [exact B|]; simpl; intros ? [??]|done| |].
  - intros x Hx. pose proof Hx as (r & Hr & Hxr). rewrite Forall_forall in B.
    specialize (B r Hr). replace x with (h - (h - x)) in Hx by lia.
    apply So in Hx; [|lia]. apply andb_true_iff in Hx as [_ Hx%bool_decide_eq_true].
    apply elem_of_list_to_set in Hx. by replace (h - (h - x)) with x in Hx by lia.
  - intros x Hx Hd. specialize (Hle x Hx). specialize (C (h - x) ltac:(lia)).
    replace (h - (h - x)) with x in C by lia. apply C. apply andb_true_iff.
    split; apply bool_decide_eq_true; [lia|by apply elem_of_list_to_set].
Qed.

Lemma ack_ranges_exact_witness :
  let w := foldl (λ w pn, ack_mark_processed pn w) ack_new [0; 1; 2; 5; 200; 6] in
  let rs := get_ack_ranges w in
  len rs ≤ 128 ∧ Forall (λ r, 0 ≤ r.1 ≤ r.2) rs ∧ separated rs
  ∧ (∀ x, covered rs x → x ∈ [0; 1; 2; 5; 200; 6])
  ∧ (∀ x, x ∈ [0; 1; 2; 5; 200; 6] → 200 < x + 2048 →
       covered rs x ∨ (len rs = 128 ∧ Forall (λ r, x < r.1) rs)).
Proof. apply (ack_ranges_exact [0; 1; 2; 5; 200; 6] 200); [closed|reflexivity]. Defined.
