(* ===== verification/Unacked.v ===== *)
(** * Packets in flight
    (src/src/transport/state/unacked.rs and unacked_window.rs)

    [UnackedPacket] is what the sender remembers of a packet until it is acknowledged
    or declared lost; [UnackedWindow] stores these packets in a ring indexed by packet
    number.  The window is shown to be a finite map. *)

From stdpp Require Import sorting.
From S2P Require Import Prelude Errors StreamType.

Module UnackedPayload.
(** unacked.rs, [enum UnackedPayload]. *)
Inductive t :=
  | Initial (cookie : option bytes)
  | Stream (stream_id : Z) (stream_type : StreamType) (offset : Z) (data : bytes)
  | MtuProbe (target_size : Z)
  | StreamClose (stream_id final_size : Z)
  | MaxStreamData (stream_id max_data : Z)
  | ResetStream (stream_id error_code final_size : Z)
  | Close
  | ConnectionCloseV2 (error_code : Z) (reason : bytes)
  | Datagram (data : bytes).

(** [UnackedPayload::len]. *)
Definition payload_len (p : t) : Z :=
  match p with
  | Initial _ => 0
  | Stream _ _ _ data | Datagram data => len data
  | MtuProbe target_size => target_size
  | StreamClose _ _ | MaxStreamData _ _ | ResetStream _ _ _ | ConnectionCloseV2 _ _ | Close => 0
  end.

#[export] Instance eq_dec : EqDecision t.
Proof. solve_decision. Defined.
End UnackedPayload.

Set Primitive Projections.
(** unacked.rs, [struct UnackedPacket]. *)
Record UnackedPacket := mkUnackedPacket {
  up_payload : UnackedPayload.t;
  up_sent_at : Z;
  up_retries : Z;
  up_is_mtu_probe : bool;
  up_sent_bytes : Z;
}.

(** unacked_window.rs, [struct UnackedWindow]. *)
Record UnackedWindow := mkUnackedWindow {
  base_pn : Z;
  deque : list (option UnackedPacket);
  uw_len : Z;
}.
Unset Primitive Projections.

Module Window.

(** [UnackedWindow::new]. *)
Definition new : UnackedWindow := mkUnackedWindow 0 [] 0.

(** [VecDeque::resize_with(n, || None)] to a larger size. *)
Definition resize_none (n : nat) (d : list (option UnackedPacket)) : list (option UnackedPacket) :=
  d ++ replicate (n - length d) None.

(** [UnackedWindow::insert]. *)
Definition insert (pn : Z) (packet : UnackedPacket) (w : UnackedWindow) : UnackedWindow :=
  let base := if (uw_len w =? 0) && (len (deque w) =? 0) then pn else base_pn w in
  if pn <? base then mkUnackedWindow base (deque w) (uw_len w)
  else
    let idx := Z.to_nat (pn - base) in
    let d := if decide (length (deque w) ≤ idx)%nat then resize_none (idx + 1) (deque w)
             else deque w in
    let n := match d !!! idx with None => uw_len w + 1 | Some _ => uw_len w end in
    mkUnackedWindow base (<[idx := Some packet]> d) n.

(** [while let Some(None) = self.deque.front() { pop_front(); base_pn += 1 }]. *)
Fixpoint trim (base : Z) (d : list (option UnackedPacket)) : Z * list (option UnackedPacket) :=
  match d with
  | None :: d => trim (base + 1) d
  | _ => (base, d)
  end.

(** [UnackedWindow::remove]. *)
Definition remove (pn : Z) (w : UnackedWindow) : option UnackedPacket * UnackedWindow :=
  if pn <? base_pn w then (None, w)
  else
    let idx := Z.to_nat (pn - base_pn w) in
    match deque w !! idx with
    | Some slot =>
        let n := match slot with Some _ => uw_len w - 1 | None => uw_len w end in
        let '(base, d) := trim (base_pn w) (<[idx := None]> (deque w)) in
        (slot, mkUnackedWindow base d n)
    | None => (None, w)
    end.

(** [UnackedWindow::clear]. *)
Definition clear (w : UnackedWindow) : UnackedWindow := mkUnackedWindow 0 [] 0.

(** [UnackedWindow::len] and [UnackedWindow::is_empty]. *)
Definition length_of (w : UnackedWindow) : Z := uw_len w.
Definition is_empty (w : UnackedWindow) : bool := uw_len w =? 0.

(** [UnackedWindow::get_mut], as a lookup. *)
Definition get (pn : Z) (w : UnackedWindow) : option UnackedPacket :=
  if pn <? base_pn w then None else mjoin (deque w !! Z.to_nat (pn - base_pn w)).

(** [iter().enumerate().filter_map(..)] from index [i]. *)
Fixpoint entries (base : Z) (d : list (option UnackedPacket)) : list (Z * UnackedPacket) :=
  match d with
  | [] => []
  | Some p :: d => (base, p) :: entries (base + 1) d
  | None :: d => entries (base + 1) d
  end.

(** [UnackedWindow::iter] and [UnackedWindow::keys]. *)
Definition iter (w : UnackedWindow) : list (Z * UnackedPacket) := entries (base_pn w) (deque w).
Definition keys (w : UnackedWindow) : list Z := fst <$> iter w.

(** ** Refinement of a finite map *)

Record refines (w : UnackedWindow) (m : gmap Z UnackedPacket) : Prop := {
  rf_get : ∀ pn, get pn w = m !! pn;
  rf_len : uw_len w = Z.of_nat (size m);
  rf_head : head (deque w) ≠ Some None;
}.

Lemma get_entries d base pn p :
  (pn, p) ∈ entries base d ↔ base ≤ pn ∧ d !! Z.to_nat (pn - base) = Some (Some p).
Proof.
  revert base. induction d as [|o d IH]; intros base; cbn [entries].
  { split; [by intros ?%not_elem_of_nil|]. rewrite lookup_nil. naive_solver. }
  assert ((pn, p) ∈ entries (base + 1) d ↔
    base < pn ∧ (o :: d) !! Z.to_nat (pn - base) = Some (Some p)) as E.
  { rewrite IH. split; intros [? Hl].
    - split; [lia|]. by replace (Z.to_nat (pn - base)) with (S (Z.to_nat (pn - (base + 1)))) by lia.
    - split; [lia|].
      by replace (Z.to_nat (pn - base)) with (S (Z.to_nat (pn - (base + 1)))) in Hl by lia. }
  destruct o as [q|].
  - rewrite elem_of_cons, E. split.
    + intros [[= -> ->]|[? ?]]; [|split; [lia|done]]. split; [lia|]. by rewrite Z.sub_diag.
    + intros [? Hl]. destruct (decide (pn = base)) as [->|]; [left|right; split; [lia|done]].
      rewrite Z.sub_diag in Hl. by injection Hl as ->.
  - rewrite E. split; intros [? Hl]; (split; [|done]); [lia|].
    destruct (decide (pn = base)) as [->|]; [by rewrite Z.sub_diag in Hl|lia].
Qed.

Lemma entries_sorted d base :
  StronglySorted (λ a b, a.1 < b.1) (entries base d) ∧ Forall (λ e, base ≤ e.1) (entries base d).
Proof.
  revert base. induction d as [|[p|] d IH]; intros base; cbn [entries].
  - split; constructor.
  - destruct (IH (base + 1)) as [S F]. split.
    + constructor; [done|]. eapply Forall_impl; [exact F|]. simpl. lia.
    + constructor; [simpl; lia|]. eapply Forall_impl; [exact F|]. simpl. lia.
  - destruct (IH (base + 1)) as [S F]. split; [done|].
    eapply Forall_impl; [exact F|]. simpl. lia.
Qed.

Lemma get_trim base d pn n :
  get pn (mkUnackedWindow (trim base d).1 (trim base d).2 n) = get pn (mkUnackedWindow base d n).
Proof.
  revert base. induction d as [|[p|] d IH]; intros base; [done..|]. cbn [trim].
  rewrite IH. unfold get. cbn [base_pn deque].
  destruct (Z.ltb_spec pn (base + 1)), (Z.ltb_spec pn base); try lia; try done.
  - by replace (Z.to_nat (pn - base)) with 0%nat by lia.
  - by replace (Z.to_nat (pn - base)) with (S (Z.to_nat (pn - (base + 1)))) by lia.
Qed.

Lemma head_trim base d : head (trim base d).2 ≠ Some None.
Proof. revert base. induction d as [|[p|] d IH]; intros base; cbn; [done..|apply IH]. Qed.

Lemma map_choose_or_empty (m : gmap Z UnackedPacket) : (∃ k q, m !! k = Some q) ∨ m = ∅.
Proof. destruct (decide (m = ∅)) as [->|N]; [by right|left]. by apply map_choose. Qed.

Lemma refines_new : refines new ∅.
Proof.
  split; [|done..]. intros pn. unfold get, new. cbn. rewrite lookup_empty. by case_match.
Qed.

(** The window is empty exactly when the map is. *)
Lemma refines_empty w m : refines w m → (deque w = [] ↔ m = ∅).
Proof.
  intros [G L H]. split.
  - intros E. apply map_eq. intros pn. rewrite <- G, lookup_empty. unfold get. rewrite E.
    by case_match.
  - intros ->. destruct (deque w) as [|[p|] d] eqn:E; [done| |done].
    specialize (G (base_pn w)). unfold get in G.
    by rewrite Z.ltb_irrefl, Z.sub_diag, E, lookup_empty in G.
Qed.

Lemma get_insert_at base d n p pn idx :
  (idx < length d)%nat →
  get pn (mkUnackedWindow base (<[idx := Some p]> d) n)
  = if decide (pn = base + Z.of_nat idx) then Some p else get pn (mkUnackedWindow base d n).
Proof.
  intros Hi. unfold get. cbn [base_pn deque]. case_decide as E.
  - subst. replace (base + Z.of_nat idx <? base) with false by lia.
    replace (Z.to_nat (base + Z.of_nat idx - base)) with idx by lia.
    by rewrite list_lookup_insert_eq.
  - destruct (Z.ltb_spec pn base); [done|]. by rewrite list_lookup_insert_ne by lia.
Qed.

Lemma get_resize base d n k pn :
  get pn (mkUnackedWindow base (resize_none k d) n) = get pn (mkUnackedWindow base d n).
Proof.
  unfold get, resize_none. cbn [base_pn deque]. destruct (pn <? base); [done|].
  set (i := Z.to_nat (pn - base)). destruct (decide (i < length d)%nat).
  - by rewrite lookup_app_l.
  - rewrite lookup_app_r, (lookup_ge_None_2 d) by lia.
    destruct (replicate _ None !! _) as [o|] eqn:E; [|done].
    by apply lookup_replicate in E as [-> _].
Qed.

Lemma refines_insert w m pn p :
  refines w m → (m = ∅ ∨ ∃ k, is_Some (m !! k) ∧ k ≤ pn) →
  refines (insert pn p w) (<[pn := p]> m).
Proof.
  intros R Hpn. pose proof (refines_empty w m R) as Hemp. destruct R as [G L H].
  unfold insert. set (base := if (uw_len w =? 0) && (len (deque w) =? 0) then pn else base_pn w).
  assert (base ≤ pn ∧ (deque w = [] → base = pn) ∧
    ∀ q, get q (mkUnackedWindow base (deque w) (uw_len w)) = m !! q) as (Hb & Hn & Gb).
  { unfold base. destruct Hpn as [->|(k & [q Hk] & Hle)].
    - rewrite L, map_size_empty, (proj2 Hemp eq_refl).
      change ((Z.of_nat 0 =? 0) && (len [] =? 0)) with true. split_and!; [lia|done|].
      intros q. rewrite lookup_empty. unfold get. cbn. by case_match.
    - assert (uw_len w ≠ 0).
      { rewrite L. intros E. assert (m = ∅) as ->; [apply map_size_empty_inv; lia|].
        by rewrite lookup_empty in Hk. }
      replace (uw_len w =? 0) with false by lia. cbn [andb].
      split_and!; [|intros ->%Hemp; by rewrite lookup_empty in Hk|done].
      rewrite <- G in Hk. unfold get in Hk. destruct (Z.ltb_spec k (base_pn w)); [done|lia]. }
  replace (pn <? base) with false by lia. clearbody base.
  set (idx := Z.to_nat (pn - base)).
  assert (Z.of_nat idx = pn - base) as Hidx by (unfold idx; lia).
  set (d := if decide (length (deque w) ≤ idx)%nat then _ else _).
  assert (idx < length d)%nat as Hi.
  { unfold d. case_decide; [|lia]. unfold resize_none. rewrite length_app, length_replicate. lia. }
  assert (∀ n q, get q (mkUnackedWindow base d n) = m !! q) as Gd.
  { intros n q. rewrite <- Gb. unfold d. case_decide; [by rewrite get_resize|done]. }
  assert (d !!! idx = m !! pn) as Hd.
  { rewrite <- (Gd 0 pn). unfold get. cbn [base_pn deque]. replace (pn <? base) with false by lia.
    fold idx. destruct (lookup_lt_is_Some_2 d idx Hi) as [o Ho].
    by rewrite Ho, (list_lookup_total_correct _ _ _ Ho). }
  split.
  - intros q. rewrite get_insert_at, Gd by done. case_decide as E.
    + replace q with pn by lia. by rewrite lookup_insert_eq.
    + rewrite lookup_insert_ne; [done|lia].
  - cbn [uw_len]. rewrite Hd, L. destruct (m !! pn) as [q|] eqn:E.
    + by rewrite map_size_insert_Some.
    + rewrite map_size_insert_None by done. lia.
  - cbn [deque]. destruct idx as [|idx'] eqn:Ei; [by destruct d|].
    intros Hh. assert (head d = Some None) as Hh' by (by destruct d).
    unfold d in Hh'. destruct (deque w) as [|o d'] eqn:Ed; [|case_decide; done].
    specialize (Hn eq_refl). lia.
Qed.

Lemma refines_remove w m pn :
  refines w m → (remove pn w).1 = m !! pn ∧ refines (remove pn w).2 (delete pn m).
Proof.
  intros [G L H]. pose proof (G pn) as Gp. unfold remove. unfold get in Gp.
  destruct (Z.ltb_spec pn (base_pn w)) as [Hlt|Hge].
  { cbn [fst snd]. rewrite <- Gp, delete_id by done. by split. }
  destruct (deque w !! Z.to_nat (pn - base_pn w)) as [slot|] eqn:E; cbn in Gp.
  2: { cbn [fst snd]. rewrite <- Gp, delete_id by done. by split. }
  set (n := match slot with Some _ => uw_len w - 1 | None => uw_len w end).
  set (d := <[Z.to_nat (pn - base_pn w) := None]> (deque w)).
  pose proof (get_trim (base_pn w) d) as T. pose proof (head_trim (base_pn w) d) as Th.
  destruct (trim (base_pn w) d) as [base d'] eqn:Et. cbn [fst snd] in *.
  split; [done|]. split; [|cbn [uw_len]|done].
  - intros q. rewrite (T q n). unfold get, d. cbn [base_pn deque].
    destruct (decide (q = pn)) as [->|Hq].
    + rewrite lookup_delete_eq. replace (pn <? base_pn w) with false by lia.
      rewrite list_lookup_insert_eq; [done|]. by apply lookup_lt_Some in E.
    + rewrite lookup_delete_ne, <- G by done. unfold get.
      destruct (Z.ltb_spec q (base_pn w)); [done|]. by rewrite list_lookup_insert_ne by lia.
  - unfold n. destruct slot as [q|].
    + rewrite map_size_delete_Some by (by eexists). rewrite L.
      assert (size m ≠ 0%nat); [|lia]. apply map_size_non_empty_iff. intros ->. done.
    + by rewrite map_size_delete_None.
Qed.

Lemma refines_clear w m : refines w m → refines (clear w) ∅.
Proof. intros _. apply refines_new. Qed.

(** The iterator yields the entries of the map in increasing order of packet number. *)
Lemma refines_iter w m :
  refines w m →
  StronglySorted (λ a b, a.1 < b.1) (iter w) ∧ (∀ pn p, (pn, p) ∈ iter w ↔ m !! pn = Some p).
Proof.
  intros [G _ _]. split; [apply entries_sorted|]. intros pn p. unfold iter.
  rewrite get_entries, <- G. unfold get. destruct (Z.ltb_spec pn (base_pn w)).
  - split; [lia|done].
  - destruct (deque w !! _) as [o|]; cbn; naive_solver.
Qed.

(** ** Sequences of operations *)

Inductive op := OpInsert (pn : Z) (p : UnackedPacket) | OpRemove (pn : Z) | OpClear.

(** The window, with the packets its removals returned. *)
Definition run_window (st : UnackedWindow * list (option UnackedPacket)) (o : op) :=
  let '(w, out) := st in
  match o with
  | OpInsert pn p => (insert pn p w, out)
  | OpRemove pn => let '(r, w) := remove pn w in (w, out ++ [r])
  | OpClear => (clear w, out)
  end.

(** The same on a finite map. *)
Definition run_map (st : gmap Z UnackedPacket * list (option UnackedPacket)) (o : op) :=
  let '(m, out) := st in
  match o with
  | OpInsert pn p => (<[pn := p]> m, out)
  | OpRemove pn => (delete pn m, out ++ [m !! pn])
  | OpClear => (∅, out)
  end.

(** Packets are inserted under increasing numbers, as [get_next_packet_number] hands them
    out: each is above [last]. *)
Fixpoint increasing (last : Z) (ops : list op) : Prop :=
  match ops with
  | [] => True
  | OpInsert pn _ :: ops => last < pn ∧ increasing pn ops
  | _ :: ops => increasing last ops
  end.

Lemma run_refines ops last w m out :
  refines w m → (∀ k, is_Some (m !! k) → k ≤ last) → increasing last ops →
  let '(w', out1) := foldl run_window (w, out) ops in
  let '(m', out2) := foldl run_map (m, out) ops in
  refines w' m' ∧ out1 = out2.
Proof.
  revert last w m out. induction ops as [|o ops IH]; intros last w m out R Hl I; [done|].
  cbn [foldl]. destruct o as [pn p|pn|]; cbn [run_window run_map increasing] in *.
  - destruct I as [Hp I]. apply (IH pn); [|intros k Hk|done].
    + apply refines_insert; [done|]. destruct (map_choose_or_empty m) as [(k & q & Hk)|E]; [right|by left].
      exists k. split; [by eexists|]. specialize (Hl k ltac:(by eexists)). lia.
    + destruct (decide (k = pn)) as [->|]; [lia|]. rewrite lookup_insert_ne in Hk by done.
      specialize (Hl k Hk). lia.
  - destruct (refines_remove w m pn R) as [E R']. destruct (remove pn w) as [r w'].
    cbn [fst snd] in *. subst r. apply (IH last); [done| |done].
    intros k [q Hk]. apply lookup_delete_Some in Hk as [_ Hk]. apply Hl. by eexists.
  - apply (IH last); [by eapply refines_clear| |done]. intros k []. by rewrite lookup_empty in *.
Qed.

End Window.
Import Window.

(** C27: Driven by any sequence of insertions under increasing packet numbers, removals and
    clears, the ring behaves as a finite map from packet numbers to packets: every removal
    returns what the map holds, the length is the number of entries, lookups agree, and the
    iterator lists the entries in increasing order. *)
Theorem unacked_window_is_map (ops : list op) :
  increasing (-1) ops →
  let '(w, removed) := foldl run_window (new, []) ops in
  let '(m, removed') := foldl run_map (∅, []) ops in
  removed = removed'
  ∧ length_of w = Z.of_nat (size m)
  ∧ (∀ pn, get pn w = m !! pn)
  ∧ StronglySorted (λ a b, a.1 < b.1) (iter w)
  ∧ (∀ pn p, (pn, p) ∈ iter w ↔ m !! pn = Some p).
Proof.
  intros I. pose proof (run_refines ops (-1) new ∅ [] refines_new) as H.
  destruct (foldl run_window _ ops) as [w out1], (foldl run_map _ ops) as [m out2].
  destruct H as [R <-]; [intros k [? Hk]; by rewrite lookup_empty in Hk|done|].
  destruct (refines_iter w m R). by split_and!; try apply R.
Qed.

Definition sample_packet (n : Z) : UnackedPacket :=
  mkUnackedPacket (UnackedPayload.Datagram [n]) 0 0 false n.

Lemma unacked_window_is_map_witness :
  let ops := [OpInsert 3 (sample_packet 1); OpInsert 7 (sample_packet 2); OpRemove 3;
              OpRemove 5; OpInsert 8 (sample_packet 3)] in
  let '(w, removed) := foldl run_window (new, []) ops in
  let '(m, removed') := foldl run_map (∅, []) ops in
  removed = removed'
  ∧ length_of w = Z.of_nat (size m)
  ∧ (∀ pn, get pn w = m !! pn)
  ∧ StronglySorted (λ a b, a.1 < b.1) (iter w)
  ∧ (∀ pn p, (pn, p) ∈ iter w ↔ m !! pn = Some p).
Proof. apply unacked_window_is_map. closed. Defined.
