(* ===== verification/StreamBuffer.v ===== *)
(** * The stream receive buffer (src/src/transport/state/stream_buffer.rs)

    A circular buffer that takes stream data at any offset inside the receive window
    and hands it out in order.  [received_ranges] is a [BTreeMap<u64, u64>] from the
    start of a range to its (exclusive) end: an association list in key order.
    A slice out of range and a remainder by zero panic, as in Rust. *)

From S2P Require Import Prelude Errors.

(** ** [BTreeMap<u64, u64>] *)

Module BTree.

Abbreviation t := (list (Z * Z)).

(** [insert]. *)
Fixpoint insert (k v : Z) (m : t) : t :=
  match m with
  | [] => [(k, v)]
  | (k', v') :: m' =>
      if k <? k' then (k, v) :: m
      else if k =? k' then (k, v) :: m'
      else (k', v') :: insert k v m'
  end.

(** [remove]. *)
Definition remove (k : Z) (m : t) : t := filter (λ e, e.1 ≠ k) m.

(** [range(..=k)], in order. *)
Definition up_to (k : Z) (m : t) : t := filter (λ e, e.1 ≤ k) m.

(** [range(k..).next()]. *)
Definition first_from (k : Z) (m : t) : option (Z * Z) := head (filter (λ e, k ≤ e.1) m).

(** [iter().next()]. *)
Definition first (m : t) : option (Z * Z) := head m.

End BTree.

(** ** The buffer *)

Set Primitive Projections.
(** stream_buffer.rs, [struct StreamReceiveBuffer]. *)
Record StreamReceiveBuffer := mkBuffer {
  buffer : bytes;
  capacity : Z;
  read_head : Z;
  write_head : Z;
  received_ranges : BTree.t;
}.
Unset Primitive Projections.

#[export] Instance upd_buffer : Upd buffer.
Proof. derive_upd buffer. Defined.
#[export] Instance upd_capacity : Upd capacity.
Proof. derive_upd capacity. Defined.
#[export] Instance upd_read_head : Upd read_head.
Proof. derive_upd read_head. Defined.
#[export] Instance upd_write_head : Upd write_head.
Proof. derive_upd write_head. Defined.
#[export] Instance upd_received_ranges : Upd received_ranges.
Proof. derive_upd received_ranges. Defined.

(** [StreamReceiveBuffer::new]. *)
Definition new_buffer (capacity : Z) : StreamReceiveBuffer := mkBuffer [] capacity 0 0 [].

(** [StreamReceiveBuffer::allocated_size]. *)
Definition allocated_size (b : StreamReceiveBuffer) : Z := len (buffer b).

(** [dst[a..a + src.len()].copy_from_slice(src)]. *)
Definition copy_at (dst : bytes) (a : nat) (src : bytes) : res bytes :=
  if decide (a + length src ≤ length dst)%nat
  then Ok (take a dst ++ src ++ drop (a + length src) dst) else Panic.

(** [src[a..a + n]]. *)
Definition sub_slice (src : bytes) (a n : nat) : res bytes :=
  if decide (a + n ≤ length src)%nat then Ok (take n (drop a src)) else Panic.

(** The [while data_offset < data.len()] loop.  Every round copies at least one byte when
    the capacity is positive, so [length data] rounds are enough. *)
Fixpoint copy_loop (fuel cap : nat) (buf data : bytes) (data_offset write_idx : nat) : res bytes :=
  if decide (data_offset < length data)%nat then
    match fuel with
    | O => Panic
    | S fuel =>
        let chunk_len := Nat.min (length data - data_offset) (cap - write_idx) in
        chunk ← sub_slice data data_offset chunk_len;
        buf ← copy_at buf write_idx chunk;
        copy_loop fuel cap buf data (data_offset + chunk_len) 0
    end
  else Ok buf.

(** The variables of the merging loop of [add_range]. *)
Record Merge := mkMerge {
  merged_start : Z;
  merged_end : Z;
  overlap : Z;
  to_remove : list Z;
}.

(** One round of [for (&rs, &re) in self.received_ranges.range(..=end)]. *)
Definition merge_step (start end_ : Z) (m : Merge) (r : Z * Z) : Merge :=
  let '(rs, re) := r in
  if start <=? re then
    let overlap_start := Z.max start rs in
    let overlap_end := Z.min end_ re in
    let ov := if overlap_start <? overlap_end
              then overlap m + (overlap_end - overlap_start) else overlap m in
    mkMerge (Z.min (merged_start m) rs) (Z.max (merged_end m) re) ov (to_remove m ++ [rs])
  else m.

(** [StreamReceiveBuffer::add_range]. *)
Definition add_range (start end_ : Z) (b : StreamReceiveBuffer) : Z * StreamReceiveBuffer :=
  let original_len := end_ - start in
  let m := foldl (merge_step start end_) (mkMerge start end_ 0 [])
             (BTree.up_to end_ (received_ranges b)) in
  let m :=
    match BTree.first_from end_ (received_ranges b) with
    | Some (rs, re) =>
        if rs <=? merged_end m
        then mkMerge (merged_start m) (Z.max (merged_end m) re) (overlap m) (to_remove m ++ [rs])
        else m
    | None => m
    end in
  let ranges := foldl (λ l k, BTree.remove k l) (received_ranges b) (to_remove m) in
  let ranges := BTree.insert (merged_start m) (merged_end m) ranges in
  (sat_sub original_len (overlap m), b <| received_ranges := ranges |>).

(** [StreamReceiveBuffer::write]: [None] when the data does not fit. *)
Definition write (offset : Z) (data : bytes) (b : StreamReceiveBuffer)
    : res (option Z * StreamReceiveBuffer) :=
  if len data =? 0 then Ok (Some 0, b)
  else
    match checked_add 64 offset (len data) with
    | None => Ok (None, b)
    | Some end_offset =>
        if wrap 64 (read_head b + capacity b) <? end_offset then Ok (None, b)
        else
          let b := if len (buffer b) =? 0
                   then b <| buffer := replicate (Z.to_nat (capacity b)) 0 |> else b in
          let b := if write_head b <? end_offset then b <| write_head := end_offset |> else b in
          let cap := capacity b in
          if cap =? 0 then Panic
          else
            let start_idx := Z.to_nat (offset mod cap) in
            buf ← copy_loop (length data) (Z.to_nat cap) (buffer b) data 0 start_idx;
            let '(added, b) := add_range offset end_offset (b <| buffer := buf |>) in
            Ok (Some added, b)
    end.

(** [StreamReceiveBuffer::read_contiguous]. *)
Definition read_contiguous (b : StreamReceiveBuffer) : res (option bytes * StreamReceiveBuffer) :=
  if len (buffer b) =? 0 then Ok (None, b)
  else
    match BTree.first (received_ranges b) with
    | None => Ok (None, b)
    | Some (first_start, first_end) =>
        if (first_start <=? read_head b) && (read_head b <? first_end) then
          let n := first_end - read_head b in
          let cap := capacity b in
          if cap =? 0 then Panic
          else
            let start_idx := Z.to_nat (read_head b mod cap) in
            let end_idx := Z.to_nat ((read_head b + n) mod cap) in
            out ← (if decide (start_idx < end_idx)%nat
                   then sub_slice (buffer b) start_idx (end_idx - start_idx)
                   else
                     hi ← sub_slice (buffer b) start_idx (length (buffer b) - start_idx);
                     lo ← sub_slice (buffer b) 0 end_idx;
                     Ok (hi ++ lo));
            let rh := first_end in
            (* Clean up old ranges. *)
            let stale_keys :=
              fst <$> filter (λ e, e.2 ≤ rh) (BTree.up_to rh (received_ranges b)) in
            let ranges := foldl (λ l k, BTree.remove k l) (received_ranges b) stale_keys in
            (* Trim the first remaining range if it starts before read_head. *)
            let ranges :=
              match BTree.first ranges with
              | Some (rs, re) =>
                  if (rs <? rh) && (rh <? re)
                  then BTree.insert rh re (BTree.remove rs ranges) else ranges
              | None => ranges
              end in
            Ok (Some out, b <| read_head := rh |> <| received_ranges := ranges |>)
        else Ok (None, b)
    end.

(** The part of [resize] that copies the old ring into [linear]. *)
Definition linear_copy (buf : bytes) (old_start first_chunk_len data_len : nat) : res bytes :=
  linear ← sub_slice buf old_start first_chunk_len;
  if decide (first_chunk_len < data_len)%nat
  then tail ← sub_slice buf 0 (data_len - first_chunk_len); Ok (linear ++ tail)
  else Ok linear.

(** The part of [resize] that copies [linear] into the new ring; the two sides of
    [copy_from_slice] have to have the same length. *)
Definition ring_store (new_buf linear : bytes) (new_start new_first_chunk_len data_len : nat)
    : res bytes :=
  first ← sub_slice linear 0 new_first_chunk_len;
  new_buf ← copy_at new_buf new_start first;
  if decide (new_first_chunk_len < data_len)%nat
  then tail ← sub_slice linear new_first_chunk_len (length linear - new_first_chunk_len);
       if decide (length tail = data_len - new_first_chunk_len)%nat
       then copy_at new_buf 0 tail else Panic
  else Ok new_buf.

(** [StreamReceiveBuffer::resize]. *)
Definition resize (new_capacity : Z) (b : StreamReceiveBuffer) : res StreamReceiveBuffer :=
  if new_capacity =? capacity b then Ok b
  else if len (buffer b) =? 0 then Ok (b <| capacity := new_capacity |>)
  else
    let new_buf := replicate (Z.to_nat new_capacity) 0 in
    let old_cap := capacity b in
    let data_len := Z.to_nat (wrap 64 (write_head b - read_head b)) in
    if old_cap =? 0 then Panic
    else
      let old_start := Z.to_nat (read_head b mod old_cap) in
      new_buf ←
        (if decide (0 < data_len)%nat then
           let first_chunk_len := Nat.min data_len (Z.to_nat old_cap - old_start) in
           if new_capacity =? 0 then Panic
           else
             let new_start := Z.to_nat (read_head b mod new_capacity) in
             let new_first_chunk_len := Nat.min data_len (Z.to_nat new_capacity - new_start) in
             linear ← linear_copy (buffer b) old_start first_chunk_len data_len;
             ring_store new_buf linear new_start new_first_chunk_len data_len
         else Ok new_buf);
      Ok (b <| buffer := new_buf |> <| capacity := new_capacity |>).
