(* ===== verification/RangeFacts.v ===== *)
(** * The received ranges of a stream buffer

    The ranges are kept disjoint, in order and never adjacent ([gapped]).  Adding a
    range adds exactly its offsets to the set the ranges cover, keeps the form, and
    returns how many offsets are new. *)

From S2P Require Import Prelude Errors StreamBuffer.

(** ** The form of the list *)

(** Every range is non-empty, starts at [lo] or later, and leaves a gap to the next. *)
Fixpoint gapped (lo : Z) (l : BTree.t) : Prop :=
  match l with
  | [] => True
  | (s, e) :: l => lo ≤ s ∧ s < e ∧ gapped (e + 1) l
  end.

Definition covers (l : BTree.t) (x : Z) : Prop := ∃ r, r ∈ l ∧ r.1 ≤ x < r.2.

(** The number of offsets covered. *)
Definition total (l : BTree.t) : Z := foldr (λ r n, r.2 - r.1 + n) 0 l.

Lemma covers_nil x : covers [] x ↔ False.
Proof. split; [|done]. intros (r & Hr & _). by apply not_elem_of_nil in Hr. Qed.
Lemma covers_cons s e l x : covers ((s, e) :: l) x ↔ s ≤ x < e ∨ covers l x.
Proof.
  unfold covers. split.
  - intros (r & [->|Hr]%elem_of_cons & ?); [by left|right; eauto].
  - intros [?|(r & Hr & ?)]; [exists (s, e)|exists r]; (split; [|done]); set_solver.
Qed.
Lemma covers_app l k x : covers (l ++ k) x ↔ covers l x ∨ covers k x.
Proof. unfold covers. setoid_rewrite elem_of_app. naive_solver. Qed.

Lemma total_app l k : total (l ++ k) = total l + total k.
Proof. induction l as [|r l IH]; simpl; lia. Qed.

Lemma gapped_weaken lo lo' l : lo' ≤ lo → gapped lo l → gapped lo' l.
Proof. destruct l as [|[s e] l]; simpl; [done|]. intros ? (?&?&?). repeat split; [lia|done..]. Qed.

Lemma gapped_lower lo l r : gapped lo l → r ∈ l → lo ≤ r.1 < r.2.
Proof.
  revert lo. induction l as [|[s e] l IH]; intros lo G Hr; [by apply not_elem_of_nil in Hr|].
  destruct G as (?&?&G). apply elem_of_cons in Hr as [->|Hr]; [simpl; lia|].
  specialize (IH _ G Hr). lia.
Qed.

Lemma gapped_app lo l k :
  gapped lo (l ++ k) ↔
  gapped lo l ∧ gapped lo k ∧ (∀ r q, r ∈ l → q ∈ k → r.2 < q.1).
Proof.
  revert lo. induction l as [|[s e] l IH]; intros lo; cbn [app gapped].
  { split; [intros ?; split_and!; try done; set_solver|by intros (_&?&_)]. }
  rewrite IH. split.
  - intros (?&?&Hl&Hk&Hlk). split_and!; try done; [by eapply gapped_weaken; [|exact Hk]; lia|].
    intros r q [->|Hr]%elem_of_cons Hq; [|by apply Hlk].
    apply (gapped_lower _ _ _ Hk) in Hq. simpl. lia.
  - intros ((?&?&Hl)&Hk&Hlk). split_and!; try done.
    + assert (∀ q, q ∈ k → e < q.1) as Hq by (intros q Hq; apply (Hlk (s, e)); [set_solver|done]).
      destruct k as [|[s' e'] k]; [done|]. simpl in Hk |- *.
      specialize (Hq (s', e') ltac:(set_solver)). simpl in Hq. split_and!; [lia|tauto..].
    + intros r q Hr Hq. apply Hlk; [set_solver|done].
Qed.

(** Distinct ranges of the list are apart. *)
Lemma gapped_keys lo l r q : gapped lo l → r ∈ l → q ∈ l → r.1 = q.1 → r = q.
Proof.
  revert lo. induction l as [|[s e] l IH]; intros lo G Hr Hq E; [set_solver|].
  destruct G as (?&?&G). pose proof (gapped_lower _ _ r G). pose proof (gapped_lower _ _ q G).
  apply elem_of_cons in Hr as [->|Hr]; apply elem_of_cons in Hq as [->|Hq]; simpl in *; auto.
  - specialize (H2 Hq). lia.
  - specialize (H1 Hr). lia.
  - by eapply IH.
Qed.

(** ** Splitting the list around a new range *)

(** The ranges before, touching and after [[start, end_]]. *)
Lemma split_ranges lo l start end_ :
  gapped lo l → start ≤ end_ →
  ∃ L M R, l = L ++ M ++ R ∧ Forall (λ r, r.2 < start) L
    ∧ Forall (λ r, start ≤ r.2 ∧ r.1 ≤ end_) M ∧ Forall (λ r, end_ < r.1) R.
Proof.
  intros G Hse. revert lo G. induction l as [|[s e] l IH]; intros lo G.
  { by exists [], [], []. }
  destruct G as (?&?&G). destruct (IH _ G) as (L & M & R & -> & HL & HM & HR).
  destruct (decide (e < start)).
  { exists ((s, e) :: L), M, R. split_and!; try done. by constructor. }
  destruct L as [|r L].
  2: { exfalso. inversion HL; subst. pose proof (gapped_lower _ _ r G ltac:(set_solver)). lia. }
  destruct (decide (s ≤ end_)).
  { exists [], ((s, e) :: M), R. split_and!; try done. by constructor; [simpl; lia|]. }
  destruct M as [|r M].
  2: { exfalso. inversion HM; subst. pose proof (gapped_lower _ _ r G ltac:(set_solver)). lia. }
  exists [], [], ((s, e) :: R). split_and!; try done. constructor; [simpl; lia|done].
Qed.

(** Removing a list of keys, one after the other. *)
Lemma foldl_remove ks (l : BTree.t) :
  foldl (λ l k, BTree.remove k l) l ks = filter (λ e, e.1 ∉ ks) l.
Proof.
  revert l. induction ks as [|k ks IH]; intros l; cbn [foldl].
  { symmetry. apply filter_all, Forall_true. intros x. apply not_elem_of_nil. }
  rewrite IH. unfold BTree.remove. rewrite list_filter_filter.
  apply list_filter_iff. intros x. rewrite not_elem_of_cons. tauto.
Qed.

Lemma insert_middle k v L R :
  Forall (λ r, r.1 < k) L → Forall (λ r, k < r.1) R →
  BTree.insert k v (L ++ R) = L ++ (k, v) :: R.
Proof.
  intros HL HR. induction HL as [|[s e] L Hs _ IH]; cbn [app BTree.insert].
  - destruct HR as [|[s e] R Hs HR]; [done|]. simpl in Hs |- *. by replace (k <? s) with true by lia.
  - simpl in Hs. replace (k <? s) with false by lia. replace (k =? s) with false by lia.
    by rewrite IH.
Qed.

(** ** The merging loop *)

Definition overlap_of (start end_ : Z) (r : Z * Z) : Z :=
  Z.max 0 (Z.min end_ r.2 - Z.max start r.1).

(** What the loop has computed after the touching ranges [M]. *)
Record merged (start end_ : Z) (M : BTree.t) (m : Merge) : Prop := {
  mg_start : merged_start m ≤ start;
  mg_end : end_ ≤ merged_end m;
  mg_union : ∀ x, merged_start m ≤ x < merged_end m ↔ start ≤ x < end_ ∨ covers M x;
  mg_keys : to_remove m = fst <$> M;
  mg_size : merged_end m - merged_start m + overlap m = end_ - start + total M;
  mg_overlap : 0 ≤ overlap m ≤ end_ - start;
  (** the end has moved only past the last range *)
  mg_last : merged_end m = end_ ∨ ∃ r, last M = Some r ∧ merged_end m = r.2;
  mg_first : merged_start m = start ∨ ∃ r, r ∈ M ∧ merged_start m = r.1;
}.

Lemma overlap_sum start end_ M lo :
  gapped lo M → start ≤ end_ →
  0 ≤ foldr (λ r n, overlap_of start end_ r + n) 0 M ≤ Z.max 0 (end_ - Z.max start lo).
Proof.
  intros G Hse. revert lo G. induction M as [|[s e] M IH]; intros lo G; simpl; [lia|].
  destruct G as (?&?&G). specialize (IH _ G). unfold overlap_of in *. simpl. lia.
Qed.

Lemma merge_step_touch start end_ m s e :
  start ≤ e → merge_step start end_ m (s, e) =
    mkMerge (Z.min (merged_start m) s) (Z.max (merged_end m) e)
      (overlap m + overlap_of start end_ (s, e)) (to_remove m ++ [s]).
Proof.
  intros. unfold merge_step, overlap_of. simpl. replace (start <=? e) with true by lia.
  f_equal. case_bools; to_prop; lia.
Qed.

Lemma merge_skip start end_ L m :
  Forall (λ r, r.2 < start) L → foldl (merge_step start end_) m L = m.
Proof.
  induction 1 as [|[s e] L Hs _ IH]; [done|]. cbn [foldl]. simpl in Hs. unfold merge_step at 2.
  by replace (start <=? e) with false by lia.
Qed.

Lemma merge_touching start end_ M lo :
  start < end_ → gapped lo M → Forall (λ r, start ≤ r.2 ∧ r.1 ≤ end_) M →
  merged start end_ M (foldl (merge_step start end_) (mkMerge start end_ 0 []) M)
  ∧ overlap (foldl (merge_step start end_) (mkMerge start end_ 0 []) M)
    = foldr (λ r n, overlap_of start end_ r + n) 0 M.
Proof.
  intros Hse. induction M as [|[s e] M IH] using rev_ind; intros G F.
  { split; [|done]. split; simpl; try lia; try (by left); try done.
    intros x. rewrite covers_nil. tauto. }
  apply gapped_app in G as (GM & (?&?&_) & Hlt). apply Forall_app in F as [FM Fe].
  inversion Fe as [|?? [Ht Hb] _]; subst. simpl in Ht, Hb.
  destruct (IH GM FM) as [[MS ME MU MK MZ MO ML MF] Hov]. rewrite foldl_app. cbn [foldl].
  set (m := foldl _ _ M) in *. rewrite merge_step_touch by done.
  assert (∀ r, r ∈ M → r.2 < s) as Hr by (intros r Hr; apply (Hlt r (s, e)); set_solver).
  assert (merged_end m = end_) as Hme.
  { destruct ML as [?|(r & Hl & E)]; [done|]. apply last_Some_elem_of in Hl.
    specialize (Hr r Hl). lia. }
  assert (merged_start m = start ∨ merged_start m ≤ s ∧ start ≤ s) as Hms.
  { destruct MF as [?|(r & Hh & E)]; [by left|right].
    specialize (Hr r Hh). rewrite Forall_forall in FM. specialize (FM r Hh).
    pose proof (gapped_lower _ _ _ GM Hh). lia. }
  assert (foldr (λ r n, overlap_of start end_ r + n) 0 (M ++ [(s, e)])
    = overlap m + overlap_of start end_ (s, e)) as Hsum.
  { rewrite Hov. clear. induction M as [|r M IH]; simpl; lia. }
  split; [|by rewrite Hsum].
  assert (gapped lo (M ++ [(s, e)])) as G'.
  { apply gapped_app. split_and!; try done. }
  pose proof (overlap_sum start end_ _ lo G' ltac:(lia)) as Hbound. rewrite Hsum in Hbound.
  split; simpl.
  - lia.
  - lia.
  - intros x. rewrite covers_app, covers_cons, covers_nil.
    transitivity (merged_start m ≤ x < merged_end m ∨ s ≤ x < e); [lia|rewrite MU; tauto].
  - by rewrite MK, fmap_app.
  - rewrite total_app. simpl. unfold overlap_of. simpl. lia.
  - lia.
  - destruct (decide (e ≤ end_)); [left; lia|right]. exists (s, e). rewrite last_snoc. split; [done|simpl; lia].
  - destruct (decide (merged_start m ≤ s)); [|right; exists (s, e); split; [set_solver|simpl; lia]].
    destruct MF as [?|(r & ? & ?)]; [left; lia|right; exists r; split; [set_solver|lia]].
Qed.

(** The range that starts at or after [end_], if it touches, is one of [M] already. *)
Lemma first_from_touching lo L M R start end_ m :
  start < end_ → gapped lo (L ++ M ++ R) → Forall (λ r, r.2 < start) L →
  Forall (λ r, end_ < r.1) R → merged start end_ M m →
  let m' := match BTree.first_from end_ (L ++ M ++ R) with
    | Some (rs, re) =>
        if rs <=? merged_end m
        then mkMerge (merged_start m) (Z.max (merged_end m) re) (overlap m) (to_remove m ++ [rs])
        else m
    | None => m
    end in
  merged_start m' = merged_start m ∧ merged_end m' = merged_end m ∧ overlap m' = overlap m
  ∧ (∀ k, k ∈ to_remove m' ↔ k ∈ fst <$> M).
Proof.
  intros Hse G HL HR [MS ME MU MK _ _ ML _]. cbv zeta. rewrite gapped_app in G. destruct G as (GL & GMR & _).
  destruct (BTree.first_from end_ _) as [[rs re]|] eqn:E; [|by rewrite MK].
  unfold BTree.first_from in E. apply head_Some_elem_of, list_elem_of_filter in E as [Hk Hin].
  simpl in Hk. apply elem_of_app in Hin as [Hin|Hin].
  { exfalso. rewrite Forall_forall in HL. specialize (HL _ Hin).
    pose proof (gapped_lower _ _ _ GL Hin). simpl in *. lia. }
  apply elem_of_app in Hin as [Hin|Hin].
  - assert (re ≤ merged_end m) as Hre.
    { pose proof (gapped_lower _ _ _ (proj1 (proj1 (gapped_app _ _ _) GMR)) Hin) as Hlo. simpl in Hlo.
      destruct (MU (re - 1)) as [_ Hu]. specialize (Hu ltac:(right; exists (rs, re); simpl; split; [done|lia])).
      lia. }
    case_bools; [|by rewrite MK]. simpl. split_and!; try done; [lia|]. intros k. rewrite MK.
    split; [|set_solver]. intros [?|Hk']%elem_of_app; [done|]. apply list_elem_of_singleton in Hk' as ->.
    apply list_elem_of_fmap. by exists (rs, re).
  - replace (rs <=? merged_end m) with false; [by rewrite MK|]. symmetry. apply Z.leb_gt.
    rewrite Forall_forall in HR. specialize (HR _ Hin). simpl in HR.
    destruct ML as [?|(r & Hl & ?)]; [lia|]. apply last_Some_elem_of in Hl.
    apply gapped_app in GMR as (_ & _ & Hlt). specialize (Hlt r (rs, re) Hl Hin). simpl in Hlt. lia.
Qed.

(** Removing the touching ranges leaves the others. *)
Lemma remove_touching lo L M R ks :
  gapped lo (L ++ M ++ R) → (∀ k, k ∈ ks ↔ k ∈ fst <$> M) →
  foldl (λ l k, BTree.remove k l) (L ++ M ++ R) ks = L ++ R.
Proof.
  intros G Hks. rewrite foldl_remove.
  assert (∀ r, r ∈ L ++ M ++ R → (r.1 ∈ ks ↔ r ∈ M)) as K.
  { intros r Hr. rewrite Hks, list_elem_of_fmap. split; [|naive_solver].
    intros (q & E & Hq). assert (r = q) as ->; [|done].
    eapply gapped_keys; [exact G|done|set_solver|done]. }
  pose proof G as G'. apply gapped_app in G' as (_ & GMR & HLMR).
  pose proof GMR as G'. apply gapped_app in G' as (GM & _ & HMR).
  rewrite !filter_app, (filter_none _ M), (filter_all _ L), (filter_all _ R); [done|..].
  - apply Forall_forall. intros r Hr. rewrite K by set_solver. intros Hm.
    specialize (HMR r r Hm Hr). pose proof (gapped_lower _ _ _ GM Hm). lia.
  - apply Forall_forall. intros r Hr. rewrite K by set_solver. intros Hm.
    specialize (HLMR r r Hr ltac:(set_solver)). pose proof (gapped_lower _ _ _ GM Hm). lia.
  - apply Forall_forall. intros r Hr. rewrite K by set_solver. tauto.
Qed.

(** The specification of [add_range]. *)
Lemma add_range_spec lo b start end_ :
  gapped lo (received_ranges b) → lo ≤ start < end_ →
  ∃ rs', add_range start end_ b
      = (total rs' - total (received_ranges b), b <| received_ranges := rs' |>)
    ∧ gapped lo rs' ∧ (∀ x, covers rs' x ↔ covers (received_ranges b) x ∨ start ≤ x < end_).
Proof.
  intros G Hse. destruct (split_ranges lo _ start end_ G) as (L & M & R & E & HL & HM & HR); [lia|].
  unfold add_range. rewrite E in *. unfold BTree.up_to. rewrite !filter_app.
  pose proof G as G'. apply gapped_app in G' as (GL & GMR & HLMR).
  pose proof GMR as G'. apply gapped_app in G' as (GM & GR & HMR).
  rewrite (filter_all _ L), (filter_all _ M), (filter_none _ R), app_nil_r;
    [|apply Forall_forall; intros r Hr; rewrite Forall_forall in HR; specialize (HR r Hr); lia
     |eapply Forall_impl; [exact HM|]; simpl; tauto
     |apply Forall_forall; intros r Hr; rewrite Forall_forall in HL; specialize (HL r Hr);
      pose proof (gapped_lower _ _ _ GL Hr); lia].
  rewrite foldl_app, (merge_skip _ _ L) by done.
  destruct (merge_touching start end_ M lo (proj2 Hse) GM HM) as [MG _].
  set (m := foldl (merge_step start end_) _ M) in *.
  destruct (first_from_touching lo L M R start end_ m) as (E1 & E2 & E3 & E4); try done; [lia|].
  set (m' := match BTree.first_from end_ (L ++ M ++ R) with Some _ => _ | None => _ end) in *.
  rewrite (remove_touching lo L M R) by done. rewrite E1, E2, E3. clearbody m'.
  destruct MG as [MS ME MU _ MZ MO ML MF].
  assert (∀ r, r ∈ L → r.2 < merged_start m) as HLs.
  { intros r Hr. rewrite Forall_forall in HL. specialize (HL r Hr).
    destruct MF as [?|(q & Hq & ?)]; [lia|]. specialize (HLMR r q Hr ltac:(set_solver)). lia. }
  assert (∀ r, r ∈ R → merged_end m < r.1) as HRs.
  { intros r Hr. rewrite Forall_forall in HR. specialize (HR r Hr).
    destruct ML as [?|(q & Hq & ?)]; [lia|]. apply last_Some_elem_of in Hq.
    specialize (HMR q r Hq Hr). lia. }
  rewrite insert_middle.
  2: { apply Forall_forall. intros r Hr. specialize (HLs r Hr). pose proof (gapped_lower _ _ _ GL Hr). lia. }
  2: { apply Forall_forall. intros r Hr. specialize (HRs r Hr). lia. }
  eexists. split; [|split].
  - f_equal. rewrite !total_app. simpl. unfold sat_sub. lia.
  - apply gapped_app. split_and!; [done| |].
    + change ((?a, ?b) :: R) with ([(a, b)] ++ R). apply gapped_app. split_and!; [|done|].
      * simpl. split_and!; [|lia|done]. destruct MF as [?|(q & Hq & ?)]; [lia|].
        pose proof (gapped_lower _ _ _ GM Hq). lia.
      * intros r q ->%list_elem_of_singleton Hq. simpl. by apply HRs.
    + intros r q Hr [->|Hq]%elem_of_cons; [by apply HLs|]. apply HLMR; set_solver.
  - intros x. rewrite !covers_app, covers_cons, MU. tauto.
Qed.
