(* ===== verification/BufferFacts.v ===== *)
(** * The stream receive buffer: lemmas

    [buf_ok b c]: the buffer [b] is well formed and the received, unread bytes it holds
    are those of the function [c] from stream offsets to bytes.  Every operation keeps
    this, with [c] updated by the data written. *)

From S2P Require Import Prelude Errors StreamBuffer RangeFacts.

(** ** Positions in the ring *)

(** The index of a stream offset. *)
Definition slot (cap x : Z) : nat := Z.to_nat (x mod cap).

Lemma slot_lt cap x : 0 < cap → (slot cap x < Z.to_nat cap)%nat.
Proof. intros. unfold slot. pose proof (Z.mod_pos_bound x cap). lia. Qed.

Lemma mod_add_small cap a j : 0 < cap → 0 ≤ j → a mod cap + j < cap → (a + j) mod cap = a mod cap + j.
Proof.
  intros. symmetry. apply (Z.mod_unique_pos _ _ (a / cap)).
  - pose proof (Z.mod_pos_bound a cap). lia.
  - pose proof (Z.div_mod a cap). lia.
Qed.
Lemma mod_add_wrap cap a j :
  0 < cap → cap ≤ a mod cap + j < 2 * cap → (a + j) mod cap = a mod cap + j - cap.
Proof.
  intros. symmetry. apply (Z.mod_unique_pos _ _ (a / cap + 1)); [lia|].
  pose proof (Z.div_mod a cap). lia.
Qed.
Lemma slot_add cap a (j : nat) :
  0 < cap → (slot cap a + j < Z.to_nat cap)%nat → slot cap (a + Z.of_nat j) = (slot cap a + j)%nat.
Proof.
  unfold slot. intros. pose proof (Z.mod_pos_bound a cap). rewrite mod_add_small by lia. lia.
Qed.
Lemma slot_wrap cap a (j : nat) :
  0 < cap → (j ≤ Z.to_nat cap)%nat → (Z.to_nat cap ≤ slot cap a + j)%nat →
  slot cap (a + Z.of_nat j) = (slot cap a + j - Z.to_nat cap)%nat.
Proof.
  unfold slot. intros. pose proof (Z.mod_pos_bound a cap). rewrite mod_add_wrap by lia. lia.
Qed.

(** Offsets less than a capacity apart have different indices. *)
Lemma slot_inj cap x y : 0 < cap → x < y < x + cap → slot cap x ≠ slot cap y.
Proof.
  intros Hc Hxy E. unfold slot in E.
  pose proof (Z.mod_pos_bound x cap). pose proof (Z.mod_pos_bound y cap).
  assert (x mod cap = y mod cap) as E' by lia.
  pose proof (Z.div_mod x cap). pose proof (Z.div_mod y cap).
  assert (y - x = cap * (y / cap - x / cap)) as F by lia.
  destruct (decide (y / cap - x / cap ≤ 0)); nia.
Qed.

(** ** Copying into and out of a list *)

Lemma copy_at_spec dst a src :
  (a + length src ≤ length dst)%nat →
  ∃ dst', copy_at dst a src = Ok dst' ∧ length dst' = length dst
    ∧ ∀ i, dst' !! i = if decide (a ≤ i < a + length src)%nat then src !! (i - a)%nat else dst !! i.
Proof.
  intros H. unfold copy_at. rewrite decide_True by done. eexists. split_and!; [done| |].
  { rewrite !length_app, length_take, length_drop. lia. }
  intros i. case_decide.
  - rewrite lookup_app_r by (rewrite length_take; lia).
    rewrite length_take, lookup_app_l by lia. f_equal. lia.
  - destruct (decide (i < a)%nat).
    + rewrite lookup_app_l by (rewrite length_take; lia). by rewrite lookup_take_lt.
    + rewrite !lookup_app_r by (rewrite ?length_take; lia).
      rewrite lookup_drop, length_take. f_equal. lia.
Qed.

Lemma sub_slice_spec src a n :
  (a + n ≤ length src)%nat →
  ∃ s, sub_slice src a n = Ok s ∧ length s = n ∧ ∀ i, (i < n)%nat → s !! i = src !! (a + i)%nat.
Proof.
  intros H. unfold sub_slice. rewrite decide_True by done. eexists. split_and!; [done| |].
  - rewrite length_take, length_drop. lia.
  - intros i Hi. by rewrite lookup_take_lt, lookup_drop.
Qed.

(** The loop of [write]: from round offset [k] on, each byte goes to its index. *)
Lemma copy_loop_spec off cap fuel buf data k wi :
  0 < cap → length buf = Z.to_nat cap → (length data ≤ Z.to_nat cap)%nat →
  (length data - k ≤ fuel)%nat → ((k < length data)%nat → wi = slot cap (off + Z.of_nat k)) →
  ∃ buf', copy_loop fuel (Z.to_nat cap) buf data k wi = Ok buf' ∧ length buf' = length buf
    ∧ (∀ j, (k ≤ j < length data)%nat → buf' !! slot cap (off + Z.of_nat j) = data !! j)
    ∧ (∀ i, (∀ j, (k ≤ j < length data)%nat → i ≠ slot cap (off + Z.of_nat j)) → buf' !! i = buf !! i).
Proof.
  intros Hc. revert buf k wi. induction fuel as [|fuel IH]; intros buf k wi Hb Hn Hf Hw;
    cbn [copy_loop].
  { rewrite decide_False by lia. exists buf. split_and!; try done. lia. }
  case_decide as Hk; [|exists buf; split_and!; try done; lia].
  specialize (Hw Hk). pose proof (slot_lt cap (off + Z.of_nat k) Hc) as Hs. rewrite <- Hw in Hs.
  set (n := Nat.min (length data - k) (Z.to_nat cap - wi)).
  destruct (sub_slice_spec data k n) as (chunk & -> & Hcl & Hcd); [lia|]. cbn [mbind res_bind].
  destruct (copy_at_spec buf wi chunk) as (buf1 & -> & Hb1 & Hd1); [lia|]. cbn [mbind res_bind].
  assert (∀ j, (k ≤ j < k + n)%nat → slot cap (off + Z.of_nat j) = (wi + (j - k))%nat) as Hslot.
  { intros j Hj. replace (off + Z.of_nat j) with (off + Z.of_nat k + Z.of_nat (j - k)) by lia.
    rewrite slot_add by lia. lia. }
  assert ((k + n < length data)%nat → 0%nat = slot cap (off + Z.of_nat (k + n))) as Hw0.
  { intros. replace (off + Z.of_nat (k + n)) with (off + Z.of_nat k + Z.of_nat n) by lia.
    rewrite slot_wrap by lia. lia. }
  destruct (IH buf1 (k + n)%nat 0%nat) as (buf' & -> & Hb' & Hin & Hout); [lia..|done|].
  exists buf'. split_and!; [done|lia| |].
  - intros j Hj. destruct (decide (j < k + n)%nat); [|apply Hin; lia].
    rewrite Hout.
    + rewrite Hd1, Hslot by lia. rewrite decide_True by lia. rewrite Hcd by lia. f_equal. lia.
    + intros j' Hj'. apply slot_inj; [done|lia].
  - intros i Hi. rewrite Hout by (intros j Hj; apply Hi; lia). rewrite Hd1.
    rewrite decide_False; [done|]. intros Hin'. apply (Hi (k + (i - wi))%nat); [lia|].
    rewrite Hslot by lia. lia.
Qed.

(** Reading [n] bytes from the ring, in two pieces when they wrap. *)
Lemma ring_read buf cap rh (n : nat) :
  0 < cap → length buf = Z.to_nat cap → (0 < n ≤ Z.to_nat cap)%nat →
  let s := slot cap rh in let e := slot cap (rh + Z.of_nat n) in
  ∃ out, (if decide (s < e)%nat then sub_slice buf s (e - s)
          else hi ← sub_slice buf s (length buf - s); lo ← sub_slice buf 0 e; Ok (hi ++ lo))
         = Ok out
    ∧ length out = n ∧ ∀ j, (j < n)%nat → out !! j = buf !! slot cap (rh + Z.of_nat j).
Proof.
  intros Hc Hb Hn s e. pose proof (slot_lt cap rh Hc) as Hs. fold s in Hs.
  destruct (decide (s + n < Z.to_nat cap)%nat) as [Hw|Hw].
  - assert (e = (s + n)%nat) as He by (by apply slot_add). rewrite decide_True by lia.
    destruct (sub_slice_spec buf s (e - s)) as (out & -> & Hl & Hd); [lia|].
    exists out. split_and!; [done|lia|]. intros j Hj. rewrite Hd by lia.
    by rewrite slot_add by (fold s; lia).
  - assert (e = (s + n - Z.to_nat cap)%nat) as He by (apply slot_wrap; [done|lia|fold s; lia]).
    rewrite decide_False by lia.
    destruct (sub_slice_spec buf s (length buf - s)) as (hi & -> & Hlh & Hdh); [lia|].
    cbn [mbind res_bind].
    destruct (sub_slice_spec buf 0 e) as (lo & -> & Hll & Hdl); [lia|]. cbn [mbind res_bind].
    exists (hi ++ lo). split_and!; [done|rewrite length_app; lia|]. intros j Hj.
    destruct (decide (j < length hi)%nat).
    + rewrite lookup_app_l, Hdh by lia. rewrite slot_add by (fold s; lia). done.
    + rewrite lookup_app_r, Hdl by lia. rewrite slot_wrap by (fold s; lia). f_equal. fold s. lia.
Qed.

(** ** The invariant *)

Record buf_ok (b : StreamReceiveBuffer) (c : Z → Z) : Prop := {
  bo_cap : 0 < capacity b;
  bo_heads : 0 ≤ read_head b ≤ write_head b;
  bo_window : write_head b ≤ read_head b + capacity b;
  bo_alloc : buffer b = [] ∧ received_ranges b = [] ∨ length (buffer b) = Z.to_nat (capacity b);
  bo_ranges : gapped (read_head b) (received_ranges b);
  bo_top : ∀ x, covers (received_ranges b) x → x < write_head b;
  bo_data : ∀ x, covers (received_ranges b) x → buffer b !! slot (capacity b) x = Some (c x);
}.

(** The contents after data was written at an offset. *)
Definition overwrite (c : Z → Z) (off : Z) (data : bytes) (x : Z) : Z :=
  if decide (off ≤ x < off + len data) then data !!! Z.to_nat (x - off) else c x.

Lemma covers_lower lo l x : gapped lo l → covers l x → lo ≤ x.
Proof. intros G (r & Hr & ?). pose proof (gapped_lower _ _ _ G Hr). lia. Qed.

Lemma buf_ok_new cap c : 0 < cap → buf_ok (new_buffer cap) c.
Proof.
  intros. split; simpl; try done; try lia; [by left|..]; by intros x ?%covers_nil.
Qed.

(** The memory is allocated at the first write. *)
Lemma allocated b c :
  buf_ok b c →
  let b1 := if len (buffer b) =? 0 then b <| buffer := replicate (Z.to_nat (capacity b)) 0 |> else b in
  length (buffer b1) = Z.to_nat (capacity b) ∧ read_head b1 = read_head b ∧ capacity b1 = capacity b
  ∧ write_head b1 = write_head b ∧ received_ranges b1 = received_ranges b
  ∧ ∀ x, covers (received_ranges b) x → buffer b1 !! slot (capacity b) x = Some (c x).
Proof.
  intros [C H W A G T D]. cbv zeta. destruct A as [[E Er]|E].
  - rewrite E. split_and!; try done; [apply length_replicate|]. intros x. by rewrite Er, covers_nil.
  - replace (len (buffer b) =? 0) with false by (unfold len; lia). done.
Qed.

(** Within one turn of the ring, a copy changes no slot but those of the data. *)
Lemma copied_data cap rh off data (buf buf' : bytes) c (R : Z → Prop) :
  0 < cap → rh ≤ off → off + len data ≤ rh + cap →
  (∀ x, R x → rh ≤ x < rh + cap) → (∀ x, R x → buf !! slot cap x = Some (c x)) →
  (∀ j, (0 ≤ j < length data)%nat → buf' !! slot cap (off + Z.of_nat j) = data !! j) →
  (∀ i, (∀ j, (0 ≤ j < length data)%nat → i ≠ slot cap (off + Z.of_nat j)) → buf' !! i = buf !! i) →
  ∀ x, R x ∨ off ≤ x < off + len data → buf' !! slot cap x = Some (overwrite c off data x).
Proof.
  intros C Ho Hf HR D Hin Hout x Hx. unfold overwrite. case_decide as Hr.
  - replace x with (off + Z.of_nat (Z.to_nat (x - off))) at 1 by lia.
    rewrite Hin by (unfold len in *; lia). apply list_lookup_lookup_total_lt. unfold len in *. lia.
  - destruct Hx as [Hx|Hx]; [|lia]. rewrite Hout; [by apply D|]. specialize (HR x Hx). intros j Hj Es.
    destruct (decide (x < off)).
    + revert Es. apply slot_inj; [done|]. unfold len in *. lia.
    + symmetry in Es. revert Es. apply slot_inj; [done|]. unfold len in *. lia.
Qed.

Lemma write_fits b c off data :
  buf_ok b c → read_head b + capacity b < 2 ^ 64 → read_head b ≤ off → data ≠ [] →
  off + len data ≤ read_head b + capacity b →
  ∃ b', write off data b
      = Ok (Some (total (received_ranges b') - total (received_ranges b)), b')
    ∧ buf_ok b' (overwrite c off data)
    ∧ read_head b' = read_head b ∧ capacity b' = capacity b
    ∧ write_head b' = Z.max (write_head b) (off + len data)
    ∧ (∀ x, covers (received_ranges b') x
         ↔ covers (received_ranges b) x ∨ off ≤ x < off + len data).
Proof.
  intros [C H W A G T D] Hu Ho Hd Hfit. pose proof (len_nonneg data).
  assert (1 ≤ len data) by (destruct data; [done|len_lia]).
  unfold write. replace (len data =? 0) with false by lia. unfold checked_add.
  replace (off + len data <? 2 ^ 64) with true by lia.
  replace (wrap 64 (read_head b + capacity b)) with (read_head b + capacity b)
    by (unfold wrap; symmetry; apply Z.mod_small; lia).
  replace (read_head b + capacity b <? off + len data) with false by lia.
  set (b1 := if len (buffer b) =? 0 then _ else b).
  destruct (allocated b c ltac:(by split)) as (L1 & R1 & C1 & W1 & S1 & D1). fold b1 in L1, R1, C1, W1, S1, D1.
  clearbody b1. set (b2 := if write_head b1 <? off + len data then _ else b1).
  assert (buffer b2 = buffer b1 ∧ read_head b2 = read_head b ∧ capacity b2 = capacity b
    ∧ write_head b2 = Z.max (write_head b) (off + len data)
    ∧ received_ranges b2 = received_ranges b) as (B2 & R2 & C2 & W2 & S2).
  { unfold b2. rewrite W1. case_bools; to_prop; cbn; rewrite ?R1, ?C1, ?W1, ?S1;
      split_and!; try done; lia. }
  clearbody b2. rewrite C2, B2. replace (capacity b =? 0) with false by lia.
  destruct (copy_loop_spec off (capacity b) (length data) (buffer b1) data 0
    (slot (capacity b) off)) as (buf & E & Lb & Hin & Hout); try done.
  { unfold len in *. lia. }
  { lia. }
  { intros _. by rewrite Z.add_0_r. }
  unfold slot in E at 1. rewrite E. cbn [mbind res_bind].
  destruct (add_range_spec (read_head b) (b2 <| buffer := buf |>) off (off + len data))
    as (rs' & -> & G' & Hc'); [change (gapped (read_head b) (received_ranges b2)); by rewrite S2|lia|].
  change (received_ranges (b2 <| buffer := buf |>)) with (received_ranges b2) in *.
  rewrite S2 in *. set (b3 := b2 <| buffer := buf |> <| received_ranges := rs' |>).
  assert (buffer b3 = buf ∧ read_head b3 = read_head b ∧ capacity b3 = capacity b
    ∧ write_head b3 = Z.max (write_head b) (off + len data) ∧ received_ranges b3 = rs')
    as (B3 & R3 & C3 & W3 & S3) by (split_and!; [done|exact R2|exact C2|exact W2|done]).
  clearbody b3. exists b3. rewrite S3. split_and!; try done.
  split; rewrite ?B3, ?R3, ?C3, ?W3, ?S3; try done; try lia.
  - intros x [Hx|Hx]%Hc'; [specialize (T x Hx)|]; lia.
  - intros x Hx%Hc'. revert x Hx. eapply copied_data; try done. intros x Hx.
    pose proof (covers_lower _ _ _ G Hx). specialize (T x Hx). lia.
Qed.

(** Data that does not fit is refused and changes nothing. *)
Lemma write_refused b c off data :
  buf_ok b c → read_head b + capacity b < 2 ^ 64 →
  read_head b + capacity b < off + len data → data ≠ [] → write off data b = Ok (None, b).
Proof.
  intros [C H _ _ _ _ _] Hu Hbig Hd. assert (1 ≤ len data) by (destruct data; [done|len_lia]).
  unfold write. replace (len data =? 0) with false by lia. unfold checked_add.
  destruct (off + len data <? 2 ^ 64); [|done].
  replace (wrap 64 (read_head b + capacity b)) with (read_head b + capacity b)
    by (unfold wrap; symmetry; apply Z.mod_small; lia).
  by replace (read_head b + capacity b <? off + len data) with true by lia.
Qed.

(** The bytes of the stream from one offset up to another. *)
Definition stream_slice (c : Z → Z) (a b : Z) : bytes := c <$> seqZ a (b - a).

Lemma stream_slice_app c x y z :
  x ≤ y ≤ z → stream_slice c x z = stream_slice c x y ++ stream_slice c y z.
Proof.
  intros. unfold stream_slice. rewrite <- fmap_app. f_equal.
  replace (z - x) with ((y - x) + (z - y)) by lia. rewrite seqZ_app by lia. by replace (x + (y - x)) with y by lia.
Qed.

Lemma len_stream_slice c a b : a ≤ b → len (stream_slice c a b) = b - a.
Proof. intros. unfold stream_slice, len. rewrite length_fmap, length_seqZ. lia. Qed.

Lemma read_nothing b c :
  buf_ok b c → ¬ covers (received_ranges b) (read_head b) → read_contiguous b = Ok (None, b).
Proof.
  intros [C H W A G T D] Hn. unfold read_contiguous. destruct (len (buffer b) =? 0); [done|].
  unfold BTree.first. destruct (received_ranges b) as [|[s e] l] eqn:E; [done|]. cbn [head].
  destruct ((s <=? read_head b) && (read_head b <? e)) eqn:B; [|done]. to_prop.
  exfalso. apply Hn, covers_cons. lia.
Qed.

(** Removing the first range. *)
Lemma first_range_removed rh e (l : BTree.t) :
  gapped (e + 1) l → rh < e →
  filter (λ r, r.1 ∉ fst <$> filter (λ r, r.2 ≤ e) (BTree.up_to e ((rh, e) :: l))) ((rh, e) :: l) = l.
Proof.
  intros G Hre. assert (Forall (λ r, e < r.1) l) as F.
  { apply Forall_forall. intros r Hr. pose proof (gapped_lower _ _ _ G Hr). lia. }
  assert (BTree.up_to e ((rh, e) :: l) = [(rh, e)]) as ->.
  { unfold BTree.up_to. rewrite filter_cons_True by (simpl; lia).
    rewrite filter_none; [done|]. eapply Forall_impl; [exact F|]. simpl. lia. }
  rewrite (filter_all _ [(rh, e)]) by (repeat constructor; simpl; lia). cbn [fmap list_fmap fst].
  rewrite filter_cons_False by (simpl; set_solver). apply filter_all.
  eapply Forall_impl; [exact F|]. simpl. intros r Hr Hin%list_elem_of_singleton. lia.
Qed.

(** [read_contiguous] returns the whole run of received bytes at the read head. *)
Lemma read_run b c :
  buf_ok b c → covers (received_ranges b) (read_head b) →
  ∃ b', read_contiguous b = Ok (Some (stream_slice c (read_head b) (read_head b')), b')
    ∧ buf_ok b' c ∧ read_head b < read_head b' ∧ capacity b' = capacity b
    ∧ write_head b' = write_head b
    ∧ ¬ covers (received_ranges b') (read_head b')
    ∧ (∀ x, covers (received_ranges b) x ↔
         read_head b ≤ x < read_head b' ∨ covers (received_ranges b') x)
    ∧ total (received_ranges b) = read_head b' - read_head b + total (received_ranges b').
Proof.
  intros [C H W A G T D] Hcov. unfold read_contiguous.
  destruct A as [[_ E]|A]; [by rewrite E, covers_nil in Hcov|].
  replace (len (buffer b) =? 0) with false by (unfold len; lia). unfold BTree.first.
  destruct (received_ranges b) as [|[s e] l] eqn:E; [by apply covers_nil in Hcov|]. cbn [head].
  destruct G as (Hs & Hse & G). apply covers_cons in Hcov as [Hcov|Hcov].
  2: { apply (covers_lower _ _ _ G) in Hcov. lia. }
  assert (s = read_head b) as -> by lia. clear Hs.
  replace ((read_head b <=? read_head b) && (read_head b <? e)) with true by lia.
  replace (capacity b =? 0) with false by lia.
  assert (e - 1 < write_head b) as He by (apply T, covers_cons; left; lia).
  destruct (ring_read (buffer b) (capacity b) (read_head b) (Z.to_nat (e - read_head b)))
    as (out & Eo & Lo & Do); [done|done|lia|].
  rewrite Z2Nat.id in Eo by lia. unfold slot in Eo. rewrite Eo. cbn [mbind res_bind].
  rewrite foldl_remove, first_range_removed by done.
  assert (match head l with
    | Some (rs, re) => if (rs <? e) && (e <? re) then BTree.insert e re (BTree.remove rs l) else l
    | None => l end = l) as ->.
  { destruct l as [|[rs re] l]; [done|]. destruct G as (?&_). simpl.
    by replace (rs <? e) with false by lia. }
  set (b' := b <| read_head := e |> <| received_ranges := l |>).
  assert (out = stream_slice c (read_head b) e) as ->.
  { apply list_eq. intros j. unfold stream_slice. rewrite list_lookup_fmap.
    destruct (decide (j < length out)%nat) as [Hj|Hj].
    - rewrite Do, lookup_seqZ_lt by lia. cbn. apply D. apply covers_cons. left. lia.
    - rewrite lookup_ge_None_2, lookup_seqZ_ge by lia. done. }
  assert (buffer b' = buffer b ∧ read_head b' = e ∧ capacity b' = capacity b
    ∧ write_head b' = write_head b ∧ received_ranges b' = l)
    as (B3 & R3 & C3 & W3 & S3) by done.
  clearbody b'. exists b'. rewrite R3, S3. split; [done|].
  assert (¬ covers l e) as Hne by (intros Hx; apply (covers_lower _ _ _ G) in Hx; lia).
  split_and!; [|lia|done|done|done|intros x; by rewrite covers_cons|simpl; lia].
  split; rewrite ?B3, ?R3, ?C3, ?W3, ?S3;
    [done|lia|lia|by right|by eapply gapped_weaken; [|exact G]; lia| |].
  - intros x Hx. apply T. apply covers_cons. by right.
  - intros x Hx. apply D. apply covers_cons. by right.
Qed.

(** ** Growing the buffer *)

(** The temporary linear copy of [n] bytes of the old ring. *)
Lemma linear_copy_spec buf cap rh (n : nat) :
  0 < cap → length buf = Z.to_nat cap → (0 < n ≤ Z.to_nat cap)%nat →
  ∃ lin, linear_copy buf (slot cap rh) (Nat.min n (Z.to_nat cap - slot cap rh)) n = Ok lin
    ∧ length lin = n ∧ ∀ j, (j < n)%nat → lin !! j = buf !! slot cap (rh + Z.of_nat j).
Proof.
  intros Hc Hb Hn. pose proof (slot_lt cap rh Hc) as Hs. unfold linear_copy.
  set (s := slot cap rh) in *. set (k := Nat.min n (Z.to_nat cap - s)).
  destruct (sub_slice_spec buf s k) as (l1 & -> & L1 & D1); [lia|]. cbn [mbind res_bind].
  case_decide as Hk.
  - destruct (sub_slice_spec buf 0 (n - k)) as (l2 & -> & L2 & D2); [lia|]. cbn [mbind res_bind].
    exists (l1 ++ l2). split_and!; [done|rewrite length_app; lia|]. intros j Hj.
    destruct (decide (j < k)%nat).
    + rewrite lookup_app_l, D1 by lia. by rewrite slot_add by (fold s; lia).
    + rewrite lookup_app_r, D2 by lia. rewrite slot_wrap by (fold s; lia). f_equal. fold s. lia.
  - exists l1. split_and!; [done|lia|]. intros j Hj. rewrite D1 by lia.
    by rewrite slot_add by (fold s; lia).
Qed.

(** Filling the new ring from it. *)
Lemma ring_store_spec dst cap rh lin :
  0 < cap → length dst = Z.to_nat cap → (0 < length lin ≤ Z.to_nat cap)%nat →
  ∃ buf, ring_store dst lin (slot cap rh)
           (Nat.min (length lin) (Z.to_nat cap - slot cap rh)) (length lin) = Ok buf
    ∧ length buf = length dst
    ∧ ∀ j, (j < length lin)%nat → buf !! slot cap (rh + Z.of_nat j) = lin !! j.
Proof.
  intros Hc Hb Hn. pose proof (slot_lt cap rh Hc) as Hs. unfold ring_store.
  set (n := length lin) in *. set (s := slot cap rh) in *. set (k := Nat.min n (Z.to_nat cap - s)).
  destruct (sub_slice_spec lin 0 k) as (l1 & -> & L1 & D1); [lia|]. cbn [mbind res_bind].
  destruct (copy_at_spec dst s l1) as (d1 & -> & Ld1 & Dd1); [lia|]. cbn [mbind res_bind].
  assert (∀ j, (j < k)%nat → slot cap (rh + Z.of_nat j) = (s + j)%nat) as Hlo
    by (intros; apply slot_add; [done|fold s; lia]).
  case_decide as Hk.
  - destruct (sub_slice_spec lin k (n - k)) as (l2 & -> & L2 & D2); [lia|].
    cbn [mbind res_bind]. rewrite decide_True by done.
    destruct (copy_at_spec d1 0 l2) as (d2 & -> & Ld2 & Dd2); [lia|].
    exists d2. split_and!; [done|lia|]. intros j Hj. rewrite Dd2.
    destruct (decide (j < k)%nat).
    + rewrite Hlo by done. rewrite decide_False by lia. rewrite Dd1, decide_True, D1 by lia.
      f_equal. lia.
    + rewrite slot_wrap by (fold s; lia). fold s. rewrite decide_True, D2 by lia. f_equal. lia.
  - exists d1. split_and!; [done|lia|]. intros j Hj. rewrite Hlo, Dd1, decide_True, D1 by lia.
    f_equal. lia.
Qed.

Lemma resize_spec b c new_cap :
  buf_ok b c → write_head b < 2 ^ 64 → capacity b ≤ new_cap →
  ∃ b', resize new_cap b = Ok b' ∧ buf_ok b' c ∧ read_head b' = read_head b
    ∧ received_ranges b' = received_ranges b ∧ capacity b' = new_cap
    ∧ write_head b' = write_head b.
Proof.
  intros [C H W A G T D] Hu Hcap. unfold resize.
  destruct (Z.eqb_spec new_cap (capacity b)) as [->|Hne]; [by exists b|].
  assert (∀ b', buffer b' = [] ∧ received_ranges b' = [] ∨ length (buffer b') = Z.to_nat new_cap →
    read_head b' = read_head b ∧ capacity b' = new_cap ∧ write_head b' = write_head b
      ∧ received_ranges b' = received_ranges b →
    (∀ x, read_head b ≤ x < write_head b → covers (received_ranges b) x →
       buffer b' !! slot new_cap x = buffer b !! slot (capacity b) x) →
    buf_ok b' c) as Mk.
  { intros b' A' (R3 & C3 & W3 & S3) Dn.
    split; rewrite ?R3, ?C3, ?W3, ?S3; [lia|done|lia|by rewrite S3 in A'|done|done|].
    intros x Hx. specialize (T x Hx). pose proof (covers_lower _ _ _ G Hx).
    rewrite Dn; [by apply D|lia|done]. }
  destruct A as [[Eb Er]|A].
  { rewrite Eb. change (len [] =? 0) with true. eexists. split; [done|].
    split_and!; try done. apply Mk; [by left|done|]. intros x _. by rewrite Er, covers_nil. }
  replace (len (buffer b) =? 0) with false by (unfold len; lia).
  replace (capacity b =? 0) with false by lia. replace (new_cap =? 0) with false by lia.
  replace (wrap 64 (write_head b - read_head b)) with (write_head b - read_head b)
    by (unfold wrap; symmetry; apply Z.mod_small; lia).
  set (n := Z.to_nat (write_head b - read_head b)). case_decide as Hn; cbn [mbind res_bind].
  2: { eexists. split; [done|]. split_and!; try done. apply Mk; [right; apply length_replicate|done|lia]. }
  destruct (linear_copy_spec (buffer b) (capacity b) (read_head b) n) as (lin & E1 & L1 & D1);
    [done|done|lia|].
  unfold slot in E1 at 1 2. rewrite E1. cbn [mbind res_bind].
  destruct (ring_store_spec (replicate (Z.to_nat new_cap) 0) new_cap (read_head b) lin)
    as (buf & E2 & L2 & D2); [lia|apply length_replicate|lia|].
  rewrite L1 in E2, D2. rewrite length_replicate in L2. unfold slot in E2. rewrite E2.
  cbn [mbind res_bind]. eexists. split; [done|]. split_and!; try done.
  apply Mk; [by right|done|]. intros x Hx _.
  change (buffer (b <| buffer := buf |> <| capacity := new_cap |>)) with buf.
  replace x with (read_head b + Z.of_nat (Z.to_nat (x - read_head b))) by lia.
  by rewrite D2, D1 by lia.
Qed.
