(* ===== verification/BufferProps.v ===== *)
(** * The stream receive buffer: theorems

    Whatever the order, overlap and repetition in which the pieces of a stream arrive,
    the reads of [StreamReceiveBuffer] yield the stream, in order and without gaps. *)

From S2P Require Import Prelude Errors StreamBuffer RangeFacts BufferFacts.

(** incoming_handler.rs, the write of the data of a stream frame: what lies before the read
    head is cut off. *)
Definition write_stream_data (offset : Z) (data : bytes) (b : StreamReceiveBuffer)
    : res (option Z * StreamReceiveBuffer) :=
  let '(write_offset, write_data) :=
    if offset <? read_head b then
      let diff := read_head b - offset in
      (read_head b, drop (Z.to_nat diff) data)
    else (offset, data) in
  if negb (len write_data =? 0) then write write_offset write_data b else Ok (Some 0, b).

(** incoming_handler.rs: what the receive path does with the data of a stream frame: a frame
    entirely before the read head is a duplicate and dropped, the rest is written.  The
    flow-control test between the two only closes the connection; [receive_stream_data] has it. *)
Definition buffer_stream_data (offset : Z) (data : bytes) (b : StreamReceiveBuffer)
    : res (option Z * StreamReceiveBuffer) :=
  let end_offset := offset + len data in
  if end_offset <=? read_head b then Ok (Some 0, b) else write_stream_data offset data b.

(** ** Runs *)

Inductive buf_op :=
  | Deliver (offset : Z) (data : bytes)  (** a stream frame arrives *)
  | Read                                 (** the application is served *)
  | Grow (new_capacity : Z).             (** the receive window is enlarged *)

(** The buffer, what the reads returned, the pieces accepted and the bytes accounted for
    as buffered. *)
Record Run := mkRun {
  run_buf : StreamReceiveBuffer;
  run_out : bytes;
  run_accepted : list (Z * Z);
  run_buffered : Z;
}.

Definition run_step (st : Run) (o : buf_op) : res Run :=
  match o with
  | Deliver offset data =>
      r ← buffer_stream_data offset data (run_buf st);
      match r with
      | (Some added, b) =>
          Ok (mkRun b (run_out st) (run_accepted st ++ [(offset, offset + len data)])
                (run_buffered st + added))
      | (None, b) => Ok (mkRun b (run_out st) (run_accepted st) (run_buffered st))
      end
  | Read =>
      r ← read_contiguous (run_buf st);
      match r with
      | (Some chunk, b) =>
          Ok (mkRun b (run_out st ++ chunk) (run_accepted st) (run_buffered st - len chunk))
      | (None, b) => Ok (mkRun b (run_out st) (run_accepted st) (run_buffered st))
      end
  | Grow new_capacity =>
      b ← resize new_capacity (run_buf st);
      Ok (mkRun b (run_out st) (run_accepted st) (run_buffered st))
  end.

Fixpoint run (ops : list buf_op) (st : Run) : res Run :=
  match ops with
  | [] => Ok st
  | o :: ops => st ← run_step st o; run ops st
  end.

Definition start (capacity : Z) : Run := mkRun (new_buffer capacity) [] [] 0.

(** The pieces come from one stream [σ] of at most [maxlen] bytes; the window only grows,
    up to [maxcap]. *)
Fixpoint ops_ok (σ : Z → Z) (maxlen maxcap cap : Z) (ops : list buf_op) : Prop :=
  match ops with
  | [] => True
  | Deliver offset data :: ops =>
      0 ≤ offset ∧ offset + len data ≤ maxlen
      ∧ data = stream_slice σ offset (offset + len data) ∧ ops_ok σ maxlen maxcap cap ops
  | Read :: ops => ops_ok σ maxlen maxcap cap ops
  | Grow c :: ops => cap ≤ c ≤ maxcap ∧ ops_ok σ maxlen maxcap c ops
  end.

Record run_inv (σ : Z → Z) (maxlen : Z) (st : Run) : Prop := {
  ri_buf : buf_ok (run_buf st) σ;
  ri_len : write_head (run_buf st) ≤ maxlen;
  ri_out : run_out st = stream_slice σ 0 (read_head (run_buf st));
  ri_accepted : ∀ x, 0 ≤ x →
    x < read_head (run_buf st) ∨ covers (received_ranges (run_buf st)) x
    ↔ covers (run_accepted st) x;
  ri_buffered : run_buffered st = total (received_ranges (run_buf st));
}.

(** ** Lemmas *)

Lemma buf_ok_ext b c c' : (∀ x, c x = c' x) → buf_ok b c → buf_ok b c'.
Proof. intros E [C H W A G T D]. split; try done. intros x Hx. rewrite <- E. by apply D. Qed.

Lemma stream_slice_lookup σ a b i :
  (i < Z.to_nat (b - a))%nat → stream_slice σ a b !! i = Some (σ (a + Z.of_nat i)).
Proof. intros. unfold stream_slice. by rewrite list_lookup_fmap, lookup_seqZ_lt by lia. Qed.

Lemma overwrite_same σ off data x :
  data = stream_slice σ off (off + len data) → overwrite σ off data x = σ x.
Proof.
  intros E. unfold overwrite. case_decide as Hx; [|done].
  apply list_lookup_total_correct. rewrite E, stream_slice_lookup by lia. do 2 f_equal. lia.
Qed.

Lemma drop_stream_slice σ a b k :
  0 ≤ k → drop (Z.to_nat k) (stream_slice σ a b) = stream_slice σ (a + k) b.
Proof.
  intros. apply list_eq. intros i. rewrite lookup_drop.
  destruct (decide (i < Z.to_nat (b - (a + k)))%nat).
  - rewrite !stream_slice_lookup by lia. do 2 f_equal. lia.
  - unfold stream_slice. rewrite !list_lookup_fmap, !lookup_seqZ_ge by lia. done.
Qed.

Lemma total_bound lo hi l :
  gapped lo l → (∀ x, covers l x → x < hi) → lo ≤ hi → 0 ≤ total l ≤ hi - lo.
Proof.
  revert lo. induction l as [|[s e] l IH]; intros lo G T H; simpl; [lia|].
  destruct G as (?&?&G). assert (e - 1 < hi) by (apply T, covers_cons; left; lia).
  destruct l as [|[s' e'] l]; [simpl; lia|].
  assert (e + 1 ≤ hi).
  { destruct G as (?&?&_). specialize (T s'). rewrite !covers_cons in T. lia. }
  specialize (IH (e + 1) G ltac:(intros x Hx; apply T, covers_cons; by right)). lia.
Qed.

Lemma covers_dec l x : covers l x ∨ ¬ covers l x.
Proof.
  destruct (decide (Exists (λ r, r.1 ≤ x < r.2) l)) as [E|E]; rewrite Exists_exists in E; [by left|by right].
Qed.

Lemma run_app ops1 ops2 st : run (ops1 ++ ops2) st = (st ← run ops1 st; run ops2 st).
Proof.
  revert st. induction ops1 as [|o ops1 IH]; intros st; [done|]. cbn [app run].
  destruct (run_step st o); cbn [mbind res_bind]; [apply IH|done..].
Qed.

(** What the receive path does with a piece of the stream. *)
Lemma buffer_stream_data_spec σ b off data :
  buf_ok b σ → read_head b + capacity b < 2 ^ 64 → 0 ≤ off → data = stream_slice σ off (off + len data) →
  ∃ o b', buffer_stream_data off data b = Ok (o, b') ∧ buf_ok b' σ
    ∧ read_head b' = read_head b ∧ capacity b' = capacity b
    ∧ write_head b' ≤ Z.max (write_head b) (off + len data)
    ∧ match o with
      | Some added => added = total (received_ranges b') - total (received_ranges b)
          ∧ ∀ x, 0 ≤ x → x < read_head b ∨ covers (received_ranges b') x
                          ↔ (x < read_head b ∨ covers (received_ranges b) x) ∨ off ≤ x < off + len data
      | None => b' = b
      end.
Proof.
  intros B Hu Ho Hdata. pose proof (len_nonneg data) as Hdl. pose proof B as [C H W _ G T _].
  unfold buffer_stream_data, write_stream_data.
  destruct (Z.leb_spec (off + len data) (read_head b)) as [Hold|Hnew].
  { exists (Some 0), b. split_and!; [done..|lia|lia|]. intros x Hx. split; [tauto|]. intros [?|?]; [done|left; lia]. }
  set (o := Z.max off (read_head b)). assert (o = Z.max off (read_head b)) as Eo by done.
  assert ((if off <? read_head b then (read_head b, drop (Z.to_nat (read_head b - off)) data)
           else (off, data)) = (o, stream_slice σ o (off + len data))) as ->.
  { unfold o. destruct (Z.ltb_spec off (read_head b)).
    - rewrite Hdata at 1. rewrite drop_stream_slice by lia. f_equal; [lia|f_equal; lia].
    - by rewrite Z.max_l, <- Hdata by lia. }
  assert (len (stream_slice σ o (off + len data)) = off + len data - o) as Hl
    by (apply len_stream_slice; lia).
  clearbody o. rewrite Hl. destruct (Z.eqb_spec (off + len data - o) 0) as [Hz|Hz]; cbn [negb].
  { exists (Some 0), b. split_and!; [done..|lia|lia|]. intros x Hx. split; [tauto|]. intros [?|?]; [done|lia]. }
  assert (stream_slice σ o (off + len data) ≠ []) as Hne
    by (intros E; rewrite E in Hl; rewrite len_nil in Hl; lia).
  destruct (decide (off + len data ≤ read_head b + capacity b)) as [Hfit|Hbig].
  2: { rewrite (write_refused b σ) by (rewrite ?Hl; done || lia). exists None, b. split_and!; [done..|lia|done]. }
  destruct (write_fits b σ o (stream_slice σ o (off + len data)))
    as (b' & -> & B' & R' & C' & W' & Cov'); try done; [lia|lia|].
  rewrite Hl in Cov'. replace (o + (off + len data - o)) with (off + len data) in Cov' by lia.
  exists (Some (total (received_ranges b') - total (received_ranges b))), b'. split_and!; [done| |done|done| |done|].
  - eapply buf_ok_ext; [|exact B']. intros x. apply overwrite_same. f_equal. lia.
  - rewrite W', Hl. lia.
  - intros x Hx. rewrite Cov'. split; [intros [?|[?|?]]; [tauto|tauto|right; lia]|].
    intros [[?|?]|?]; [tauto|tauto|]. destruct (decide (x < read_head b)); [tauto|right; right; lia].
Qed.

Section steps.
Context (σ : Z → Z) (maxlen maxcap : Z) (Hmax : maxlen + maxcap < 2 ^ 64).

Lemma deliver_inv st off data :
  run_inv σ maxlen st → capacity (run_buf st) ≤ maxcap → 0 ≤ off → off + len data ≤ maxlen →
  data = stream_slice σ off (off + len data) →
  ∃ st', run_step st (Deliver off data) = Ok st' ∧ run_inv σ maxlen st'
    ∧ capacity (run_buf st') = capacity (run_buf st).
Proof.
  intros [B L O A N] Hcap Ho Hend Hdata. pose proof (bo_heads _ _ B).
  destruct (buffer_stream_data_spec σ (run_buf st) off data) as (o & b' & E & B' & R' & C' & W' & Ho'); [done|lia|done..|].
  cbn [run_step]. rewrite E. cbn [mbind res_bind]. destruct o as [added|].
  - destruct Ho' as [-> Cov]. eexists. split; [done|]. split; [|done]. split; cbn [run_buf run_out run_accepted run_buffered].
    + done.
    + lia.
    + by rewrite R'.
    + intros x Hx. rewrite R', Cov, covers_app, covers_cons, covers_nil, <- A by done. cbn [fst snd]. tauto.
    + lia.
  - subst b'. eexists. split; [done|]. by split.
Qed.

Lemma read_inv st :
  run_inv σ maxlen st →
  ∃ st', run_step st Read = Ok st' ∧ run_inv σ maxlen st'
    ∧ capacity (run_buf st') = capacity (run_buf st)
    ∧ ¬ covers (received_ranges (run_buf st')) (read_head (run_buf st')).
Proof.
  intros [B L O A N]. cbn [run_step]. set (b := run_buf st) in *.
  assert (covers (received_ranges b) (read_head b) ∨ ¬ covers (received_ranges b) (read_head b))
    as [Hc|Hc] by apply covers_dec.
  - destruct (read_run b σ B Hc) as (b' & -> & B' & Hlt & C' & W' & Hn & Cov & Tot).
    pose proof (bo_heads _ _ B). eexists. split; [done|]. split; [|done].
    split; cbn [run_buf run_out run_accepted run_buffered]; [done|lia| | |].
    + by rewrite O, <- stream_slice_app by lia.
    + intros x Hx. rewrite <- A by done. fold b. rewrite Cov. split.
      * intros [?|?]; [|tauto]. destruct (decide (x < read_head b)); [tauto|right; left; lia].
      * intros [?|[?|?]]; [left; lia|left; lia|tauto].
    + rewrite len_stream_slice by lia. fold b in N. lia.
  - rewrite (read_nothing b σ B Hc). eexists. split; [done|]. by split.
Qed.

Lemma grow_inv st c :
  run_inv σ maxlen st → capacity (run_buf st) ≤ c ≤ maxcap →
  ∃ st', run_step st (Grow c) = Ok st' ∧ run_inv σ maxlen st' ∧ capacity (run_buf st') = c.
Proof.
  intros [B L O A N] Hc. cbn [run_step]. set (b := run_buf st) in *.
  pose proof (bo_cap _ _ B).
  destruct (resize_spec b σ c B) as (b' & -> & B' & R' & S' & C' & W'); [lia|lia|].
  eexists. split; [done|]. split; [|done].
  split; cbn [run_buf run_out run_accepted run_buffered]; rewrite ?R', ?S', ?W'; try done.
Qed.

Lemma run_spec ops st :
  run_inv σ maxlen st → capacity (run_buf st) ≤ maxcap →
  ops_ok σ maxlen maxcap (capacity (run_buf st)) ops →
  ∃ st', run ops st = Ok st' ∧ run_inv σ maxlen st'.
Proof.
  revert st. induction ops as [|o ops IH]; intros st I Hc Hok; cbn [run].
  { by exists st. }
  destruct o as [off data| |c]; cbn [ops_ok] in Hok.
  - destruct Hok as (?&?&?&Hok). destruct (deliver_inv st off data) as (st' & -> & I' & E); try done.
    cbn [mbind res_bind]. apply IH; [done|lia|by rewrite E].
  - destruct (read_inv st I) as (st' & -> & I' & E & _). cbn [mbind res_bind].
    apply IH; [done|lia|by rewrite E].
  - destruct Hok as (?&Hok). destruct (grow_inv st c) as (st' & -> & I' & E); [done..|].
    cbn [mbind res_bind]. apply IH; [done|lia|by rewrite E].
Qed.

Lemma start_inv cap : 0 < cap → 0 ≤ maxlen → run_inv σ maxlen (start cap).
Proof.
  intros. split; [by apply buf_ok_new|done|done| |done].
  intros x Hx. cbn. rewrite !covers_nil. lia.
Qed.
End steps.

(** ** The theorems *)

(** C7: In-order delivery.  Take any stream, and let its pieces arrive in any order, with
    any overlaps and repetitions, between any reads and enlargements of the window.  The
    buffer never panics; what the reads have returned is exactly the prefix of the stream
    up to the read head; and an offset has been returned or is held in the buffer exactly
    when a piece that contains it was accepted. *)
Theorem in_order_delivery (σ : Z → Z) (maxlen maxcap cap : Z) (ops : list buf_op) :
  0 < cap ≤ maxcap → 0 ≤ maxlen → maxlen + maxcap < 2 ^ 64 → ops_ok σ maxlen maxcap cap ops →
  ∃ st, run ops (start cap) = Ok st
    ∧ run_out st = stream_slice σ 0 (read_head (run_buf st))
    ∧ (∀ x, 0 ≤ x →
         x < read_head (run_buf st) ∨ covers (received_ranges (run_buf st)) x
         ↔ covers (run_accepted st) x).
Proof.
  intros Hc Hl Hm Hok.
  destruct (run_spec σ maxlen maxcap Hm ops (start cap)) as (st & E & [_ _ O A _]); [|simpl; lia|done|].
  { apply start_inv; lia. }
  by exists st.
Qed.

Definition sample_ops : list buf_op :=
  [Deliver 6 [106; 107; 108]; Deliver 0 [100; 101; 102]; Read; Deliver 2 [102; 103; 104; 105; 106];
   Grow 16; Deliver 9 [109]; Read].

Lemma in_order_delivery_witness :
  ∃ st, run sample_ops (start 9) = Ok st
    ∧ run_out st = stream_slice (λ x, 100 + x) 0 (read_head (run_buf st))
    ∧ (∀ x, 0 ≤ x →
         x < read_head (run_buf st) ∨ covers (received_ranges (run_buf st)) x
         ↔ covers (run_accepted st) x).
Proof. apply (in_order_delivery (λ x, 100 + x) 20 16 9 sample_ops); closed. Defined.

(** C22: Nothing is held back.  After a read, the read head is the first offset that no
    accepted piece contains: every byte whose predecessors have all arrived has been
    handed to the application. *)
Theorem read_releases_prefix (σ : Z → Z) (maxlen maxcap cap : Z) (ops : list buf_op) :
  0 < cap ≤ maxcap → 0 ≤ maxlen → maxlen + maxcap < 2 ^ 64 → ops_ok σ maxlen maxcap cap ops →
  ∃ st, run (ops ++ [Read]) (start cap) = Ok st
    ∧ ¬ covers (run_accepted st) (read_head (run_buf st))
    ∧ (∀ x, 0 ≤ x < read_head (run_buf st) → covers (run_accepted st) x).
Proof.
  intros Hc Hl Hm Hok.
  destruct (run_spec σ maxlen maxcap Hm ops (start cap)) as (st & E & I); [|simpl; lia|done|].
  { apply start_inv; lia. }
  destruct (read_inv σ maxlen st I) as (st' & E' & [B' _ _ A _] & _ & Hn).
  exists st'. rewrite run_app, E. cbn [mbind res_bind run]. rewrite E'. split; [done|].
  pose proof (bo_heads _ _ B'). split.
  - rewrite <- A by lia. intros [?|?]; [lia|done].
  - intros x Hx. rewrite <- A by lia. left. lia.
Qed.

Lemma read_releases_prefix_witness :
  ∃ st, run (sample_ops ++ [Read]) (start 9) = Ok st
    ∧ ¬ covers (run_accepted st) (read_head (run_buf st))
    ∧ (∀ x, 0 ≤ x < read_head (run_buf st) → covers (run_accepted st) x).
Proof. apply (read_releases_prefix (λ x, 100 + x) 20 16 9 sample_ops); closed. Defined.

(** C23: The buffer accounting is exact: the sum of what the writes reported as added, less
    what the reads returned, is the number of offsets held, and never exceeds the
    capacity, so a peer cannot make the buffer report more than the window. *)
Theorem buffered_bytes_exact (σ : Z → Z) (maxlen maxcap cap : Z) (ops : list buf_op) :
  0 < cap ≤ maxcap → 0 ≤ maxlen → maxlen + maxcap < 2 ^ 64 → ops_ok σ maxlen maxcap cap ops →
  ∃ st, run ops (start cap) = Ok st
    ∧ run_buffered st = total (received_ranges (run_buf st))
    ∧ 0 ≤ run_buffered st ≤ capacity (run_buf st)
    ∧ (allocated_size (run_buf st) = 0 ∨ allocated_size (run_buf st) = capacity (run_buf st)).
Proof.
  intros Hc Hl Hm Hok.
  destruct (run_spec σ maxlen maxcap Hm ops (start cap)) as (st & E & [B _ _ _ N]); [|simpl; lia|done|].
  { apply start_inv; lia. }
  exists st. split_and!; [done..| | |]; try rewrite N; destruct B as [C H W A G T _].
  - apply (total_bound (read_head (run_buf st)) (write_head (run_buf st))); [done..|lia].
  - pose proof (total_bound (read_head (run_buf st)) (write_head (run_buf st)) _ G T ltac:(lia)). lia.
  - unfold allocated_size, len. destruct A as [[-> _]| ->]; [by left|right; lia].
Qed.

Lemma buffered_bytes_exact_witness :
  ∃ st, run sample_ops (start 9) = Ok st
    ∧ run_buffered st = total (received_ranges (run_buf st))
    ∧ 0 ≤ run_buffered st ≤ capacity (run_buf st)
    ∧ (allocated_size (run_buf st) = 0 ∨ allocated_size (run_buf st) = capacity (run_buf st)).
Proof. apply (buffered_bytes_exact (λ x, 100 + x) 20 16 9 sample_ops); closed. Defined.
