(* ===== verification/Cookie.v ===== *)
(** * Retry cookies (src/src/transport/cookie.rs)

    A stateless proof that a client receives at its address: an 8-byte timestamp and an
    HMAC over the address, the client's connection id and the timestamp.  HMAC-SHA256 is
    third-party code: a function of the key and of the concatenation of the [update]s,
    with a 32-byte result. *)

From S2P Require Import Prelude Errors Config Buf.

(** [std::net::IpAddr] (its octets) and [std::net::SocketAddr]. *)
Inductive IpAddr := V4 (octets : bytes) | V6 (octets : bytes).
Record SocketAddr := mkSocketAddr { sa_ip : IpAddr; sa_port : Z }.

#[export] Instance IpAddr_eq_dec : EqDecision IpAddr.
Proof. solve_decision. Defined.
#[export] Instance SocketAddr_eq_dec : EqDecision SocketAddr.
Proof. solve_decision. Defined.

Class Hmac := { hmac_sha256 : bytes → bytes → bytes }.
Class HmacLaws `{Hmac} : Prop := {
  hmac_len key msg : len (hmac_sha256 key msg) = 32;
  hmac_bytes key msg : bytes_ok (hmac_sha256 key msg);
}.

(** [current_time_millis], given the time elapsed since the process started. *)
Definition current_time_millis (elapsed : Z) : Z := wrap 64 (as_millis elapsed).

(** [v4.octets()] or [v6.octets()]. *)
Definition ip_octets (ip : IpAddr) : bytes := match ip with V4 o => o | V6 o => o end.

Section cookie.
Context `{HM : Hmac}.

(** The bytes the HMAC is computed over, in the order of the [update] calls. *)
Definition cookie_message (addr : SocketAddr) (client_scid : bytes) (now : Z) : bytes :=
  ip_octets (sa_ip addr) ++ be_bytes 2 (sa_port addr) ++ client_scid ++ be_bytes 8 now.

(** [make_retry_cookie]. *)
Definition make_retry_cookie (cookie_key : bytes) (addr : SocketAddr) (client_scid : bytes)
    (now : Z) : bytes :=
  be_bytes 8 now ++ hmac_sha256 cookie_key (cookie_message addr client_scid now).

(** [verify_retry_cookie].  The slices are in range: the cookie has 40 bytes. *)
Definition verify_retry_cookie (cookie_key : bytes) (addr : SocketAddr) (client_scid cookie : bytes)
    (now max_age_ms : Z) : bool :=
  if negb (len cookie =? 40) then false
  else
    let cookie_time := be_val (take 8 cookie) in
    if (now <? cookie_time) || (max_age_ms <? now - cookie_time) then false
    else
      let expected := make_retry_cookie cookie_key addr client_scid cookie_time in
      bool_decide (take 32 (drop 8 expected) = take 32 (drop 8 cookie)).

End cookie.

(** ** Lemmas *)

Definition addr_ok (a : SocketAddr) : Prop :=
  u_ok 16 (sa_port a) ∧ bytes_ok (ip_octets (sa_ip a))
  ∧ match sa_ip a with V4 o => len o = 4 | V6 o => len o = 16 end.

(** The addresses have the same family. *)
Definition same_family (a b : SocketAddr) : Prop :=
  match sa_ip a, sa_ip b with V4 _, V4 _ | V6 _, V6 _ => True | _, _ => False end.

Lemma app_inj_len {A} (l1 l2 k1 k2 : list A) :
  len l1 = len l2 → l1 ++ k1 = l2 ++ k2 → l1 = l2 ∧ k1 = k2.
Proof. intros E. apply app_inj_1. unfold len in E. lia. Qed.

Lemma app_inj_len_r {A} (l1 l2 k1 k2 : list A) :
  len k1 = len k2 → l1 ++ k1 = l2 ++ k2 → l1 = l2 ∧ k1 = k2.
Proof. intros E. apply app_inj_2. unfold len in E. lia. Qed.

Lemma len_ip_octets a b :
  addr_ok a → addr_ok b → same_family a b → len (ip_octets (sa_ip a)) = len (ip_octets (sa_ip b)).
Proof.
  unfold addr_ok, same_family, ip_octets. intros (_&_&Ha) (_&_&Hb).
  destruct (sa_ip a), (sa_ip b); done || lia.
Qed.

(** Within a family the message determines what it authenticates. *)
Lemma cookie_message_inj a b s s' t t' :
  addr_ok a → addr_ok b → same_family a b → u_ok 64 t → u_ok 64 t' →
  cookie_message a s t = cookie_message b s' t' → a = b ∧ s = s' ∧ t = t'.
Proof.
  intros Ha Hb F Ht Ht' E. unfold cookie_message in E.
  apply app_inj_len in E as [Eip E]; [|by apply len_ip_octets].
  apply app_inj_len in E as [Ep E]; [|by rewrite !len_be_bytes].
  apply app_inj_len_r in E as [-> Et]; [|by rewrite !len_be_bytes].
  apply be_bytes_inj in Ep; [|apply Ha|apply Hb]. apply be_bytes_inj in Et; [|done..].
  split_and!; [|done..]. destruct a as [ia pa], b as [ib pb]. unfold same_family in F.
  simpl in *. destruct ia, ib; simpl in *; congruence || done.
Qed.

Section proofs.
Context `{HL : HmacLaws}.

Lemma make_cookie_parts key a s t :
  u_ok 64 t →
  len (make_retry_cookie key a s t) = 40
  ∧ be_val (take 8 (make_retry_cookie key a s t)) = t
  ∧ drop 8 (make_retry_cookie key a s t) = hmac_sha256 key (cookie_message a s t).
Proof.
  intros Ht. unfold make_retry_cookie. pose proof (len_be_bytes 8 t) as L.
  assert (length (be_bytes 8 t) = 8%nat) as L' by (unfold len in L; lia). split_and!.
  - rewrite len_app, hmac_len, L. done.
  - rewrite take_app_length' by done. by apply be_val_be_bytes_id.
  - by rewrite drop_app_length'.
Qed.

Lemma verify_cookie_iff key a s cookie now max_age :
  bytes_ok cookie →
  verify_retry_cookie key a s cookie now max_age = true ↔
  ∃ t, u_ok 64 t ∧ cookie = make_retry_cookie key a s t ∧ t ≤ now ∧ now - t ≤ max_age.
Proof.
  intros Hb. unfold verify_retry_cookie. split.
  - destruct (Z.eqb_spec (len cookie) 40) as [L|]; cbn [negb]; [|done].
    destruct ((now <? _) || _) eqn:E; [done|]. to_prop.
    intros Hm%bool_decide_eq_true. set (t := be_val (take 8 cookie)) in *.
    assert (u_ok 64 t) as Ht.
    { unfold u_ok, t. pose proof (be_val_bound (take 8 cookie)) as B.
      assert (len (take 8 cookie) = 8) as L8 by len_lia. rewrite L8 in B.
      by apply B, Forall_take. }
    exists t. split_and!; try done. destruct (make_cookie_parts key a s t Ht) as (Lm & _ & D).
    rewrite <- (take_drop 8 cookie). unfold make_retry_cookie. f_equal.
    + unfold t. replace 8%nat with (length (take 8 cookie)) at 2
        by (rewrite length_take; unfold len in L; lia). by rewrite be_bytes_be_val by (by apply Forall_take).
    + rewrite D in Hm. rewrite !take_ge in Hm; [done|rewrite length_drop; unfold len in L; lia|].
      pose proof (hmac_len key (cookie_message a s t)) as Lh. unfold len in Lh. lia.
  - intros (t & Ht & -> & Hle & Hage). destruct (make_cookie_parts key a s t Ht) as (L & T & D).
    rewrite L, T. change (40 =? 40) with true. cbn [negb].
    replace ((now <? t) || (max_age <? now - t)) with false by lia. by apply bool_decide_eq_true.
Qed.
End proofs.

(** A toy MAC, to run the definitions. *)
Definition hmac_model : Hmac := {|
  hmac_sha256 key msg := be_bytes 32 (be_val (key ++ msg));
|}.
Lemma hmac_model_laws : @HmacLaws hmac_model.
Proof. split; intros; [apply len_be_bytes|apply be_bytes_ok]. Qed.

(** ** The theorems *)

(** C38: A cookie is accepted for an address and connection id exactly when it is a cookie
    made with the same key for that address and connection id, at a time that is not in the
    future and not older than the configured age. *)
Theorem retry_cookie_exact `{HL : HmacLaws} (key : bytes) (a : SocketAddr) (scid cookie : bytes)
    (now max_age : Z) :
  bytes_ok cookie →
  verify_retry_cookie key a scid cookie now max_age = true ↔
  ∃ t, u_ok 64 t ∧ cookie = make_retry_cookie key a scid t ∧ t ≤ now ∧ now - t ≤ max_age.
Proof. apply verify_cookie_iff. Qed.

Lemma retry_cookie_exact_witness :
  let a := mkSocketAddr (V4 [127; 0; 0; 1]) 4433 in
  let cookie := @make_retry_cookie hmac_model [7] a [1; 2; 3] 1000 in
  @verify_retry_cookie hmac_model [7] a [1; 2; 3] cookie 3000 5000 = true ↔
  ∃ t, u_ok 64 t ∧ cookie = @make_retry_cookie hmac_model [7] a [1; 2; 3] t ∧ t ≤ 3000
    ∧ 3000 - t ≤ 5000.
Proof.
  apply (@retry_cookie_exact hmac_model hmac_model_laws).
  apply Forall_app; split; apply be_bytes_ok.
Defined.

(** Within one address family a cookie is bound to its owner, up to collisions of the
    MAC: a cookie made for one address, connection id and time is accepted for another
    only if the HMAC of two different messages is the same. *)
Theorem retry_cookie_binding `{HL : HmacLaws} (key : bytes) (a b : SocketAddr)
    (scid scid' : bytes) (t now max_age : Z) :
  addr_ok a → addr_ok b → same_family a b → u_ok 64 t →
  verify_retry_cookie key b scid' (make_retry_cookie key a scid t) now max_age = true →
  (a = b ∧ scid = scid')
  ∨ (cookie_message a scid t ≠ cookie_message b scid' t
     ∧ hmac_sha256 key (cookie_message a scid t) = hmac_sha256 key (cookie_message b scid' t)).
Proof.
  intros Ha Hb F Ht V. apply verify_cookie_iff in V as (t' & Ht' & E & _).
  2: { apply Forall_app; split; [apply be_bytes_ok|apply hmac_bytes]. }
  destruct (make_cookie_parts key a scid t Ht) as (_ & T & D).
  destruct (make_cookie_parts key b scid' t' Ht') as (_ & T' & D').
  rewrite E in T, D. assert (t' = t) as -> by congruence. rewrite D' in D.
  destruct (decide (cookie_message a scid t = cookie_message b scid' t)) as [Em|Em].
  - left. apply cookie_message_inj in Em as (->&->&_); done.
  - right. by split.
Qed.

Lemma retry_cookie_binding_witness :
  let a := mkSocketAddr (V4 [127; 0; 0; 1]) 4433 in
  (a = a ∧ [1; 2] = [1; 2])
  ∨ (cookie_message a [1; 2] 1000 ≠ cookie_message a [1; 2] 1000
     ∧ @hmac_sha256 hmac_model [7] (cookie_message a [1; 2] 1000)
       = @hmac_sha256 hmac_model [7] (cookie_message a [1; 2] 1000)).
Proof.
  apply (@retry_cookie_binding hmac_model hmac_model_laws [7]
    (mkSocketAddr (V4 [127; 0; 0; 1]) 4433) (mkSocketAddr (V4 [127; 0; 0; 1]) 4433)
    [1; 2] [1; 2] 1000 1000 5000); [closed|closed|exact I|closed|by vm_compute].
Defined.

(** C39: Across families it is not: the octets of an IPv4 address are not separated from
    what follows, so a client at an IPv4 address that picks a connection id of 12 bytes or
    more obtains, whatever the MAC, a cookie that is accepted for an IPv6 address it does
    not own (with the rest of the connection id). *)
Theorem retry_cookie_cross_family `{HL : HmacLaws} (key ip4 ip6_tail port6 scid : bytes)
    (port4 t now max_age : Z) :
  len ip4 = 4 → u_ok 16 port4 → len ip6_tail = 10 → bytes_ok port6 → len port6 = 2 →
  u_ok 64 t → t ≤ now → now - t ≤ max_age →
  let a4 := mkSocketAddr (V4 ip4) port4 in
  let a6 := mkSocketAddr (V6 (ip4 ++ be_bytes 2 port4 ++ ip6_tail)) (be_val port6) in
  verify_retry_cookie key a6 scid
    (make_retry_cookie key a4 (ip6_tail ++ port6 ++ scid) t) now max_age = true.
Proof.
  intros H4 Hp Hl Hb6 Hl6 Ht Hle Hage a4 a6. apply verify_cookie_iff.
  { apply Forall_app; split; [apply be_bytes_ok|apply hmac_bytes]. }
  exists t. split_and!; try done. unfold make_retry_cookie. do 2 f_equal.
  unfold cookie_message, a4, a6. cbn [sa_ip sa_port ip_octets]. rewrite <- !app_assoc.
  do 3 f_equal. replace 2%nat with (length port6) by (unfold len in Hl6; lia).
  by rewrite be_bytes_be_val.
Qed.

Lemma retry_cookie_cross_family_witness :
  let a4 := mkSocketAddr (V4 [192; 0; 2; 1]) 4433 in
  let a6 := mkSocketAddr (V6 ([192; 0; 2; 1] ++ be_bytes 2 4433 ++ replicate 10 9)) (be_val [1; 187]) in
  @verify_retry_cookie hmac_model [7] a6 [5; 5]
    (@make_retry_cookie hmac_model [7] a4 (replicate 10 9 ++ [1; 187] ++ [5; 5]) 1000) 1500 5000 = true.
Proof.
  apply (@retry_cookie_cross_family hmac_model hmac_model_laws [7] [192; 0; 2; 1]
    (replicate 10 9) [1; 187] [5; 5] 4433 1000 1500 5000); closed.
Defined.
