(* ===== verification/KeyDerivation.v ===== *)
(** * Key derivation (src/src/crypto/key_derivation.rs)

    HKDF-SHA256 is third-party code ([Hkdf]): extraction of a pseudo-random key, and
    expansion to a given number of bytes, which fails only for more than 255 blocks and is
    used here for 32 and 12 bytes.  Zeroizing is not modelled: it does not change a value
    that is used again, except [current_secret] in [ratchet_secret], which is kept. *)

From stdpp Require Import strings pretty.
From S2P Require Import Prelude Errors.

Class Hkdf := {
  (** [Hkdf::extract(salt, ikm)], and [Hkdf::new(salt, ikm)] *)
  hkdf_extract : option bytes → bytes → bytes;
  (** [hk.expand(info, &mut [u8; n])] of the [Hkdf] with the given PRK *)
  hkdf_expand : bytes → bytes → nat → bytes;
}.

Class HkdfLaws `{Hkdf} : Prop := {
  hkdf_expand_len prk info n : length (hkdf_expand prk info n) = n;
}.

(** A byte-string literal. *)
Definition str (s : string) : bytes :=
  (λ c, Z.of_nat (Ascii.nat_of_ascii c)) <$> String.list_ascii_of_string s.

Definition INITIAL_SALT : bytes := str "ZettaTransport v1 InitialSalt" ++ [0; 0; 0].

Set Primitive Projections.
(** [struct EpochKeys].  A cipher object is determined by its key. *)
Record EpochKeys := mkEpochKeys {
  ek_tx_key : bytes;
  ek_rx_key : bytes;
  ek_tx_iv : bytes;
  ek_rx_iv : bytes;
  ek_tx_cipher : bytes;
  ek_rx_cipher : bytes;
}.
Unset Primitive Projections.

Section derivation.
Context `{HK : Hkdf}.

(** [derive_master_secret]. *)
Definition derive_master_secret (shared_secret my_scid peer_dcid : bytes) (psk : option bytes)
    (is_client : bool) : bytes :=
  let ikm := shared_secret in
  let ikm := if is_client then ikm ++ my_scid ++ peer_dcid else ikm ++ peer_dcid ++ my_scid in
  let ikm := match psk with Some key => ikm ++ key | None => ikm end in
  let hk := hkdf_extract (Some (str "ZettaTransport v1")) ikm in
  hkdf_expand hk (str "master_secret") 32.

(** [derive_initial_secret]. *)
Definition derive_initial_secret (dcid : bytes) : bytes :=
  let hk := hkdf_extract (Some INITIAL_SALT) dcid in
  hkdf_expand hk (str "initial_secret") 32.

(** The closure [mk_label]: the base label and the epoch in decimal. *)
Definition mk_label (epoch : Z) (base : string) : bytes :=
  str base ++ str (":" +:+ pretty epoch).

(** [derive_epoch_keys]. *)
Definition derive_epoch_keys (secret : bytes) (epoch : Z) (is_client : bool) : EpochKeys :=
  let hk := secret in  (* Hkdf::from_prk *)
  let '(tx_label, rx_label) :=
    if is_client then (mk_label epoch "client_key", mk_label epoch "server_key")
    else (mk_label epoch "server_key", mk_label epoch "client_key") in
  let '(tx_iv_label, rx_iv_label) :=
    if is_client then (mk_label epoch "client_iv", mk_label epoch "server_iv")
    else (mk_label epoch "server_iv", mk_label epoch "client_iv") in
  let tx_key := hkdf_expand hk tx_label 32 in
  let rx_key := hkdf_expand hk rx_label 32 in
  let tx_iv := hkdf_expand hk tx_iv_label 12 in
  let rx_iv := hkdf_expand hk rx_iv_label 12 in
  mkEpochKeys tx_key rx_key tx_iv rx_iv tx_key rx_key.

(** [derive_hp_keys]. *)
Definition derive_hp_keys (secret : bytes) (is_client : bool) : bytes * bytes :=
  let hk := secret in
  let '(tx_hp_label, rx_hp_label) :=
    if is_client then (str "client_hp", str "server_hp") else (str "server_hp", str "client_hp") in
  (hkdf_expand hk tx_hp_label 32, hkdf_expand hk rx_hp_label 32).

(** [ratchet_secret]. *)
Definition ratchet_secret (current_secret : bytes) : bytes :=
  hkdf_expand (hkdf_extract None current_secret) (str "ZettaTransport v1 ratchet secret") 32.

End derivation.

(** ** Lemmas: the two roles derive mirrored keys *)

Lemma master_secret_agrees `{Hkdf} shared cid_c cid_s psk :
  derive_master_secret shared cid_c cid_s psk true
  = derive_master_secret shared cid_s cid_c psk false.
Proof. done. Qed.

Lemma epoch_keys_mirror `{Hkdf} secret epoch r :
  let a := derive_epoch_keys secret epoch r in
  let b := derive_epoch_keys secret epoch (negb r) in
  ek_tx_key a = ek_rx_key b ∧ ek_tx_iv a = ek_rx_iv b ∧ ek_tx_cipher a = ek_rx_cipher b.
Proof. by destruct r. Qed.

Lemma hp_keys_mirror `{Hkdf} secret r :
  (derive_hp_keys secret r).1 = (derive_hp_keys secret (negb r)).2.
Proof. by destruct r. Qed.
