(* ===== verification/CryptoContext.v ===== *)
(** * The crypto context of a connection (src/src/crypto/context.rs)

    Keys of the current epoch, pre-derived receive keys of the next one and the receive
    keys of the previous one.  ChaCha20-Poly1305 is third-party code ([Aead]): encryption
    of a payload in place with a detached tag, and decryption that fails on a bad tag. *)

From stdpp Require Import strings pretty.
From S2P Require Import Prelude Errors KeyDerivation HeaderProtection.

Class Aead := {
  (** key, nonce, associated data and plaintext to ciphertext and tag *)
  aead_encrypt : bytes → bytes → bytes → bytes → option (bytes * bytes);
  (** key, nonce, associated data, ciphertext and tag to plaintext *)
  aead_decrypt : bytes → bytes → bytes → bytes → bytes → option bytes;
}.

Class AeadLaws `{Aead} : Prop := {
  aead_round_trip key nonce aad pt ct tag :
    aead_encrypt key nonce aad pt = Some (ct, tag) → aead_decrypt key nonce aad ct tag = Some pt;
  aead_lengths key nonce aad pt ct tag :
    aead_encrypt key nonce aad pt = Some (ct, tag) → length ct = length pt ∧ length tag = 16%nat;
}.

(** Encryption fails only for messages beyond the keystream. *)
Class AeadTotal `{Aead} : Prop :=
  aead_total key nonce aad pt : bytes_ok pt → len pt < 2 ^ 32 →
    ∃ ct tag, aead_encrypt key nonce aad pt = Some (ct, tag) ∧ bytes_ok ct ∧ bytes_ok tag.

Set Primitive Projections.
(** [struct FallbackRxKeys]. *)
Record FallbackRxKeys := mkFallbackRxKeys {
  fb_rx_key : bytes;
  fb_rx_iv : bytes;
  fb_rx_cipher : bytes;
}.

(** [struct CryptoContext].  A cipher object is its key. *)
Record CryptoContext := mkCryptoContext {
  secret : bytes;
  tx_key : bytes;
  rx_key : bytes;
  tx_hp_key : bytes;
  rx_hp_key : bytes;
  tx_iv : bytes;
  rx_iv : bytes;
  tx_cipher : bytes;
  rx_cipher : bytes;
  epoch : Z;
  is_client : bool;
  next_rx_key : bytes;
  next_rx_iv : bytes;
  next_rx_cipher : bytes;
  prev_rx : option FallbackRxKeys;
}.
Unset Primitive Projections.

#[export] Instance upd_secret : Upd secret.
Proof. derive_upd secret. Defined.
#[export] Instance upd_prev_rx : Upd prev_rx.
Proof. derive_upd prev_rx. Defined.

(** [make_nonce_from_iv]: [nonce_bytes[12 - 8 + i] ^= pn_bytes[i]]. *)
Definition make_nonce_from_iv (iv : bytes) (packet_number : Z) : bytes :=
  let pn_bytes := be_bytes 8 packet_number in
  take 4 iv ++ zip_with Z.lxor (drop 4 iv) pn_bytes.

(** [generate_nonce]. *)
Definition generate_nonce (c : CryptoContext) (packet_number : Z) (is_tx use_prev_key : bool) : bytes :=
  let iv :=
    if is_tx then tx_iv c
    else if use_prev_key then
      match prev_rx c with Some p => fb_rx_iv p | None => rx_iv c end
    else rx_iv c in
  make_nonce_from_iv iv packet_number.

Section context.
Context `{HK : Hkdf} `{AE : Aead} `{CC : ChaCha20}.

Definition zeros (n : nat) : bytes := replicate n 0.

(** [CryptoContext::with_secret]. *)
Definition with_secret (secret : bytes) (is_client : bool) : CryptoContext :=
  let '(tx_hp_key, rx_hp_key) := derive_hp_keys secret is_client in
  {| secret := secret; tx_key := zeros 32; rx_key := zeros 32;
     tx_hp_key := tx_hp_key; rx_hp_key := rx_hp_key;
     tx_iv := zeros 12; rx_iv := zeros 12;
     tx_cipher := zeros 32; rx_cipher := zeros 32;
     epoch := 0; is_client := is_client;
     next_rx_key := zeros 32; next_rx_iv := zeros 12; next_rx_cipher := zeros 32;
     prev_rx := None |}.

(** [CryptoContext::apply_epoch_keys]. *)
Definition apply_epoch_keys (e : Z) (c : CryptoContext) : CryptoContext :=
  let keys := derive_epoch_keys (secret c) e (is_client c) in
  let next_secret_val := ratchet_secret (secret c) in
  let next_keys := derive_epoch_keys next_secret_val (wrap 64 (e + 1)) (is_client c) in
  {| secret := secret c;
     tx_key := ek_tx_key keys; rx_key := ek_rx_key keys;
     tx_hp_key := tx_hp_key c; rx_hp_key := rx_hp_key c;
     tx_iv := ek_tx_iv keys; rx_iv := ek_rx_iv keys;
     tx_cipher := ek_tx_cipher keys; rx_cipher := ek_rx_cipher keys;
     epoch := e; is_client := is_client c;
     next_rx_key := ek_rx_key next_keys; next_rx_iv := ek_rx_iv next_keys;
     next_rx_cipher := ek_rx_cipher next_keys;
     prev_rx := prev_rx c |}.

(** [CryptoContext::from_shared_secret]. *)
Definition from_shared_secret (shared_secret my_scid peer_dcid : bytes) (psk : option bytes)
    (is_client : bool) : CryptoContext :=
  apply_epoch_keys 0
    (with_secret (derive_master_secret shared_secret my_scid peer_dcid psk is_client) is_client).

(** [CryptoContext::initial]. *)
Definition initial (dcid : bytes) (is_client : bool) : CryptoContext :=
  apply_epoch_keys 0 (with_secret (derive_initial_secret dcid) is_client).

(** [CryptoContext::rotate_keys]. *)
Definition rotate_keys (c : CryptoContext) : CryptoContext :=
  let c := c <| prev_rx := Some (mkFallbackRxKeys (rx_key c) (rx_iv c) (rx_cipher c)) |> in
  let c := c <| secret := ratchet_secret (secret c) |> in
  apply_epoch_keys (wrap 64 (epoch c + 1)) c.

(** [CryptoContext::encrypt_in_place]: the payload afterwards, and the tag. *)
Definition encrypt_in_place (c : CryptoContext) (packet_number : Z) (aad payload : bytes)
    : res (bytes * bytes) :=
  let nonce := generate_nonce c packet_number true false in
  ok_or (aead_encrypt (tx_cipher c) nonce aad payload) (Crypto "Encryption failed").

(** [CryptoContext::decrypt_in_place]: the payload afterwards. *)
Definition decrypt_in_place (c : CryptoContext) (packet_number : Z) (aad payload tag : bytes)
    (use_prev_key : bool) : res bytes :=
  let nonce := generate_nonce c packet_number false use_prev_key in
  if use_prev_key then
    match prev_rx c with
    | Some prev =>
        let prev_nonce := make_nonce_from_iv (fb_rx_iv prev) packet_number in
        ok_or (aead_decrypt (fb_rx_cipher prev) prev_nonce aad payload tag)
          (Crypto "Decryption with prev key failed")
    | None => Err (Crypto "No previous RX cipher available")
    end
  else ok_or (aead_decrypt (rx_cipher c) nonce aad payload tag) (Crypto "Decryption failed").

(** [CryptoContext::trial_decrypt_and_rotate]: the payload and the context afterwards. *)
Definition trial_decrypt_and_rotate (c : CryptoContext) (packet_number : Z)
    (aad payload tag : bytes) : res (bytes * CryptoContext) :=
  let nonce := make_nonce_from_iv (next_rx_iv c) packet_number in
  pt ← ok_or (aead_decrypt (next_rx_cipher c) nonce aad payload tag)
         (Crypto "Trial decryption failed");
  Ok (pt, rotate_keys c).

(** [CryptoContext::apply_header_protection] and [remove_header_protection]. *)
Definition ctx_apply_header_protection (c : CryptoContext) (packet : bytes) (pn_offset : nat) : res bytes :=
  apply_header_protection packet pn_offset (tx_hp_key c).
Definition ctx_remove_header_protection (c : CryptoContext) (packet : bytes) (pn_offset : nat) : res bytes :=
  remove_header_protection packet pn_offset (rx_hp_key c).

End context.

(** [Zeroize], and [Drop] of the keys: arrays are overwritten with zeros, ciphers with ones of
    the key 0. *)
Definition zeroize (b : bytes) : bytes := zeros (length b).
Definition drop_fallback (k : FallbackRxKeys) : FallbackRxKeys :=
  mkFallbackRxKeys (zeroize (fb_rx_key k)) (zeroize (fb_rx_iv k)) (zeros 32).
Definition drop_context (c : CryptoContext) : CryptoContext :=
  {| secret := zeroize (secret c);
     tx_key := zeroize (tx_key c); rx_key := zeroize (rx_key c);
     tx_hp_key := zeroize (tx_hp_key c); rx_hp_key := zeroize (rx_hp_key c);
     tx_iv := zeroize (tx_iv c); rx_iv := zeroize (rx_iv c);
     tx_cipher := zeros 32; rx_cipher := zeros 32; epoch := epoch c; is_client := is_client c;
     next_rx_key := zeroize (next_rx_key c); next_rx_iv := zeroize (next_rx_iv c); next_rx_cipher := zeros 32;
     prev_rx := drop_fallback <$> prev_rx c |}.
