(* ===== verification/CryptoFacts.v ===== *)
(** * The crypto context: lemmas and theorems

    Both ends of a connection that share a master secret derive the same key schedule: the
    keys of epoch [n] come from the secret ratcheted [n] times.  Whatever epoch the sender
    is in, as long as it is the receiver's or a neighbour of it, the packet opens. *)

From stdpp Require Import strings pretty.
From S2P Require Import Prelude Errors KeyDerivation HeaderProtection CryptoContext.

Section schedule.
Context `{HK : Hkdf} `{AE : Aead} `{CC : ChaCha20}.

(** The secret of epoch [n]. *)
Definition secret_at (root : bytes) (n : nat) : bytes := Nat.iter n ratchet_secret root.

(** The keys of epoch [n] for a role. *)
Definition keys_at (root : bytes) (n : nat) (role : bool) : EpochKeys :=
  derive_epoch_keys (secret_at root n) (Z.of_nat n) role.

(** The context [c] of the given role is in epoch [n] of the schedule of [root]. *)
Record in_epoch (root : bytes) (role : bool) (n : nat) (c : CryptoContext) : Prop := {
  ie_secret : secret c = secret_at root n;
  ie_role : is_client c = role;
  ie_epoch : epoch c = Z.of_nat n;
  ie_tx : tx_cipher c = ek_tx_cipher (keys_at root n role) ∧ tx_iv c = ek_tx_iv (keys_at root n role);
  ie_rx : rx_cipher c = ek_rx_cipher (keys_at root n role) ∧ rx_iv c = ek_rx_iv (keys_at root n role);
  ie_next : next_rx_cipher c = ek_rx_cipher (keys_at root (S n) role)
            ∧ next_rx_iv c = ek_rx_iv (keys_at root (S n) role);
  ie_prev : match n with
            | O => prev_rx c = None
            | S m => ∃ p, prev_rx c = Some p ∧ fb_rx_cipher p = ek_rx_cipher (keys_at root m role)
                          ∧ fb_rx_iv p = ek_rx_iv (keys_at root m role)
            end;
  ie_hp : tx_hp_key c = (derive_hp_keys root role).1 ∧ rx_hp_key c = (derive_hp_keys root role).2;
}.

Lemma fresh_in_epoch root role : in_epoch root role 0 (apply_epoch_keys 0 (with_secret root role)).
Proof.
  unfold with_secret. destruct (derive_hp_keys root role) as [t r] eqn:E.
  split; simpl; try done. by rewrite E.
Qed.

Lemma rotate_in_epoch root role n c :
  Z.of_nat n + 2 < 2 ^ 64 → in_epoch root role n c → in_epoch root role (S n) (rotate_keys c).
Proof.
  intros Hn [Sc R E [T1 T2] [X1 X2] N P [H1 H2]]. unfold rotate_keys.
  change (epoch (c <| prev_rx := _ |> <| secret := _ |>)) with (epoch c). rewrite E.
  replace (wrap 64 (Z.of_nat n + 1)) with (Z.of_nat (S n)) by (unfold wrap; rewrite Z.mod_small; lia).
  destruct c. simpl in *. subst. unfold apply_epoch_keys. simpl.
  replace (wrap 64 (Z.of_nat (S n) + 1)) with (Z.of_nat (S (S n)))
    by (unfold wrap; rewrite Z.mod_small; lia).
  split; simpl; try done. by eexists.
Qed.

Lemma rotations_in_epoch root role n :
  Z.of_nat n + 2 < 2 ^ 64 →
  in_epoch root role n (Nat.iter n rotate_keys (apply_epoch_keys 0 (with_secret root role))).
Proof.
  intros Hn. induction n as [|n IH]; [apply fresh_in_epoch|].
  apply rotate_in_epoch; [lia|]. apply IH. lia.
Qed.

(** Both ends of a key exchange start in epoch 0 of one schedule. *)
Lemma shared_in_epoch shared cid_c cid_s psk role n :
  Z.of_nat n + 2 < 2 ^ 64 →
  in_epoch (derive_master_secret shared cid_c cid_s psk true) role n
    (Nat.iter n rotate_keys (from_shared_secret shared (if role then cid_c else cid_s)
      (if role then cid_s else cid_c) psk role)).
Proof.
  intros Hn. pose proof (rotations_in_epoch (derive_master_secret shared cid_c cid_s psk true) role n Hn).
  unfold from_shared_secret. by destruct role.
Qed.

(** The sender's keys of an epoch are the receiver's of the same epoch. *)
Lemma keys_mirror root n role :
  ek_tx_cipher (keys_at root n role) = ek_rx_cipher (keys_at root n (negb role))
  ∧ ek_tx_iv (keys_at root n role) = ek_rx_iv (keys_at root n (negb role)).
Proof.
  unfold keys_at. by destruct (epoch_keys_mirror (secret_at root n) (Z.of_nat n) role) as (_&?&?).
Qed.

Context {AL : AeadLaws}.

Lemma encrypt_inv c pn aad pt ct tag :
  encrypt_in_place c pn aad pt = Ok (ct, tag) →
  aead_decrypt (tx_cipher c) (make_nonce_from_iv (tx_iv c) pn) aad ct tag = Some pt.
Proof. intros E%ok_or_Ok. by apply aead_round_trip in E. Qed.

(** The receiver is in the sender's epoch. *)
Lemma open_same_epoch root role n c d pn aad pt ct tag :
  in_epoch root role n c → in_epoch root (negb role) n d →
  encrypt_in_place c pn aad pt = Ok (ct, tag) → decrypt_in_place d pn aad ct tag false = Ok pt.
Proof.
  intros C D E%encrypt_inv. unfold decrypt_in_place, generate_nonce.
  destruct (ie_rx _ _ _ _ D) as [-> ->], (ie_tx _ _ _ _ C) as [E1 E2], (keys_mirror root n role) as [M1 M2].
  apply ok_or_Ok. by rewrite <- M1, <- M2, <- E1, <- E2.
Qed.

(** The receiver is one epoch behind: it follows. *)
Lemma open_next_epoch root role n c d pn aad pt ct tag :
  Z.of_nat n + 2 < 2 ^ 64 → in_epoch root role (S n) c → in_epoch root (negb role) n d →
  encrypt_in_place c pn aad pt = Ok (ct, tag) →
  ∃ d', trial_decrypt_and_rotate d pn aad ct tag = Ok (pt, d') ∧ in_epoch root (negb role) (S n) d'.
Proof.
  intros Hn C D E%encrypt_inv. unfold trial_decrypt_and_rotate.
  destruct (ie_next _ _ _ _ D) as [-> ->], (ie_tx _ _ _ _ C) as [E1 E2],
    (keys_mirror root (S n) role) as [M1 M2].
  rewrite <- M1, <- M2, <- E1, <- E2, E. cbn. eexists. split; [done|]. by apply rotate_in_epoch.
Qed.

(** The receiver is one epoch ahead: it still has the key. *)
Lemma open_prev_epoch root role n c d pn aad pt ct tag :
  in_epoch root role n c → in_epoch root (negb role) (S n) d →
  encrypt_in_place c pn aad pt = Ok (ct, tag) → decrypt_in_place d pn aad ct tag true = Ok pt.
Proof.
  intros C D E%encrypt_inv. unfold decrypt_in_place.
  destruct (ie_prev _ _ _ _ D) as (p & -> & -> & ->), (ie_tx _ _ _ _ C) as [E1 E2],
    (keys_mirror root n role) as [M1 M2].
  apply ok_or_Ok. by rewrite <- M1, <- M2, <- E1, <- E2.
Qed.
End schedule.

(** ** Nonces *)

Lemma zip_lxor_inj (k p q : bytes) :
  length p = length k → length q = length k →
  zip_with Z.lxor k p = zip_with Z.lxor k q → p = q.
Proof.
  revert p q. induction k as [|x k IH]; intros [|y p] [|z q] Lp Lq E; try done.
  simpl in *. injection E as E1 E2. f_equal; [|by apply IH; lia || done].
  apply (f_equal (Z.lxor x)) in E1. by rewrite <- !Z.lxor_assoc, Z.lxor_nilpotent, !Z.lxor_0_l in E1.
Qed.

(** ** Concrete primitives, to run the definitions *)

Definition hkdf_model : Hkdf := {|
  hkdf_extract salt ikm := be_bytes 32 (be_val (default [] salt ++ ikm));
  hkdf_expand prk info n := be_bytes n (be_val prk * 31 + be_val info);
|}.
Definition aead_model : Aead := {|
  aead_encrypt key nonce aad pt := Some (pt, be_bytes 16 (be_val (key ++ nonce ++ aad ++ pt)));
  aead_decrypt key nonce aad ct tag :=
    if decide (tag = be_bytes 16 (be_val (key ++ nonce ++ aad ++ ct))) then Some ct else None;
|}.
Lemma aead_model_laws : @AeadLaws aead_model.
Proof.
  split.
  - intros key nonce aad pt ct tag [= <- <-]. simpl. by rewrite decide_True.
  - intros key nonce aad pt ct tag [= <- <-]. done.
Qed.
Lemma aead_model_total : @AeadTotal aead_model.
Proof. intros key nonce aad pt B _. eexists _, _. split; [done|]. split; [done|apply be_bytes_ok]. Qed.

(** ** The theorems *)

(** C15: Two ends that completed the same key exchange (same shared secret, connection ids
    and pre-shared key) understand each other through key updates: what one end encrypts
    after [n] rotations is decrypted by the other end after [n] rotations with the current
    keys, after [n - 1] rotations by the trial decryption, which then moves it to the same
    epoch, and after [n + 1] rotations with the keys it kept. *)
Theorem key_update_interop `{HK : Hkdf} `{AL : AeadLaws} (shared cid_c cid_s : bytes)
    (psk : option bytes) (sender_is_client : bool) (n : nat) (pn : Z) (aad pt ct tag : bytes) :
  Z.of_nat n + 3 < 2 ^ 64 →
  let ctx (client : bool) :=
    from_shared_secret shared (if client then cid_c else cid_s) (if client then cid_s else cid_c)
      psk client in
  let sender := Nat.iter n rotate_keys (ctx sender_is_client) in
  let receiver k := Nat.iter k rotate_keys (ctx (negb sender_is_client)) in
  encrypt_in_place sender pn aad pt = Ok (ct, tag) →
  decrypt_in_place (receiver n) pn aad ct tag false = Ok pt
  ∧ decrypt_in_place (receiver (S n)) pn aad ct tag true = Ok pt
  ∧ match n with
    | O => True
    | S m => ∃ d, trial_decrypt_and_rotate (receiver m) pn aad ct tag = Ok (pt, d)
                  ∧ epoch d = epoch sender ∧ tx_cipher d = rx_cipher sender
                  ∧ rx_cipher d = tx_cipher sender
    end.
Proof.
  intros Hn ctx sender receiver E.
  set (root := derive_master_secret shared cid_c cid_s psk true).
  assert (∀ r k, Z.of_nat k + 2 < 2 ^ 64 → in_epoch root r k (Nat.iter k rotate_keys (ctx r))) as I.
  { intros r k. apply shared_in_epoch. }
  assert (in_epoch root sender_is_client n sender) as C by (apply I; lia). split_and!.
  - by eapply open_same_epoch; [exact C|apply I; lia|].
  - by eapply open_prev_epoch; [exact C|apply I; lia|].
  - destruct n as [|m]; [done|].
    destruct (open_next_epoch root sender_is_client m sender (receiver m) pn aad pt ct tag)
      as (d & Ed & D); [lia|done|apply I; lia|done|].
    exists d. split; [done|]. pose proof (keys_mirror root (S m) sender_is_client).
    pose proof (keys_mirror root (S m) (negb sender_is_client)) as M. rewrite negb_involutive in M.
    destruct C, D. destruct_and!. split_and!; congruence.
Qed.

Lemma key_update_interop_witness :
  let ctx (client : bool) :=
    @from_shared_secret hkdf_model [1; 2] (if client then [3] else [4]) (if client then [4] else [3])
      None client in
  let sender := Nat.iter 1 (@rotate_keys hkdf_model) (ctx true) in
  let receiver k := Nat.iter k (@rotate_keys hkdf_model) (ctx false) in
  let tag := be_bytes 16 (be_val
    (tx_cipher sender ++ make_nonce_from_iv (tx_iv sender) 9 ++ [7] ++ [104; 105])) in
  @decrypt_in_place aead_model (receiver 1%nat) 9 [7] [104; 105] tag false = Ok [104; 105]
  ∧ @decrypt_in_place aead_model (receiver 2%nat) 9 [7] [104; 105] tag true = Ok [104; 105]
  ∧ ∃ d, @trial_decrypt_and_rotate hkdf_model aead_model (receiver 0%nat) 9 [7] [104; 105] tag
      = Ok ([104; 105], d)
    ∧ epoch d = epoch sender ∧ tx_cipher d = rx_cipher sender ∧ rx_cipher d = tx_cipher sender.
Proof.
  apply (@key_update_interop hkdf_model aead_model aead_model_laws [1; 2] [3] [4] None true 1 9 [7]
    [104; 105] [104; 105]); [closed|]. vm_compute. reflexivity.
Defined.

(** Under one IV, different packet numbers give different nonces: the AEAD never sees the
    same key and nonce twice as long as a packet number is used once per key. *)
Theorem nonce_unique (iv : bytes) (pn pn' : Z) :
  length iv = 12%nat → u_ok 64 pn → u_ok 64 pn' →
  make_nonce_from_iv iv pn = make_nonce_from_iv iv pn' → pn = pn'.
Proof.
  intros L Hp Hp' E. unfold make_nonce_from_iv in E. apply app_inv_head in E.
  apply zip_lxor_inj in E; [|rewrite length_be_bytes, length_drop, L; done..].
  apply be_bytes_inj in E; [done|exact Hp|exact Hp'].
Qed.

Lemma nonce_unique_witness :
  make_nonce_from_iv (replicate 12 170) 5 = make_nonce_from_iv (replicate 12 170) (2 + 3) ∧ 5 = 2 + 3.
Proof. split; [reflexivity|]. apply (nonce_unique (replicate 12 170)); closed. Defined.

(** ** What is left of the keys *)

Section erasure.
Context `{HL : HkdfLaws}.
#[local] Arguments zeroize : simpl never.
#[local] Arguments zeros : simpl never.

Lemma zeroize_expand prk info n : zeroize (hkdf_expand prk info n) = zeros n.
Proof. unfold zeroize. by rewrite hkdf_expand_len. Qed.

Lemma drop_apply_epoch e c : drop_context (apply_epoch_keys e c) =
  {| secret := zeroize (secret c); tx_key := zeros 32; rx_key := zeros 32;
     tx_hp_key := zeroize (tx_hp_key c); rx_hp_key := zeroize (rx_hp_key c); tx_iv := zeros 12; rx_iv := zeros 12;
     tx_cipher := zeros 32; rx_cipher := zeros 32; epoch := e; is_client := is_client c;
     next_rx_key := zeros 32; next_rx_iv := zeros 12; next_rx_cipher := zeros 32; prev_rx := drop_fallback <$> prev_rx c |}.
Proof. unfold drop_context, apply_epoch_keys, derive_epoch_keys. cbn. destruct (is_client c); cbn; by rewrite !zeroize_expand. Qed.

Lemma drop_rotate c c' : drop_context c = drop_context c' → drop_context (rotate_keys c) = drop_context (rotate_keys c').
Proof.
  intros E. destruct c, c'. unfold drop_context in E. cbn in E.
  injection E as _ E1 E2 E3 E4 E5 E6 E7 E8 _ _ _. unfold rotate_keys. rewrite !drop_apply_epoch. cbn.
  unfold ratchet_secret, drop_fallback. rewrite !zeroize_expand. cbn. congruence.
Qed.

(** A dropped context holds nothing of its secret: whatever was agreed on, after as many key updates the same
    bytes are left. *)
Lemma drop_forgets shared a b psk shared' a' b' psk' role n :
  drop_context (Nat.iter n rotate_keys (from_shared_secret shared a b psk role))
  = drop_context (Nat.iter n rotate_keys (from_shared_secret shared' a' b' psk' role)).
Proof.
  induction n as [|n IH]; [|by apply drop_rotate]. cbn. unfold from_shared_secret. rewrite !drop_apply_epoch.
  unfold with_secret, derive_hp_keys, derive_master_secret. destruct role; cbn; by rewrite !zeroize_expand.
Qed.
End erasure.
