(* ===== verification/Float.v ===== *)
(** * Floating point and time ([f64], [std::time])

    [f64] is IEEE 754 binary64, computed with the Standard Library's [SpecFloat].  The
    functions whose precision the Rust documentation leaves open ([powi], [cbrt]) are a
    parameter.  A [Duration] is a number of nanoseconds and an [Instant] the number of
    nanoseconds since the clock's origin. *)

From Stdlib Require Import SpecFloat.
From S2P Require Import Prelude Errors Config.

Abbreviation f64 := spec_float.
Definition prec : Z := 53.
Definition emax : Z := 1024.

(** [x as f64] of an unsigned integer. *)
Definition f_of (x : Z) : f64 := binary_normalize prec emax x 0 false.
Definition f_add : f64 → f64 → f64 := SFadd prec emax.
Definition f_sub : f64 → f64 → f64 := SFsub prec emax.
Definition f_mul : f64 → f64 → f64 := SFmul prec emax.
Definition f_div : f64 → f64 → f64 := SFdiv prec emax.
Definition f_lt : f64 → f64 → bool := SFltb.
Definition f_ge (x y : f64) : bool := SFleb y x.
Definition f_gt (x y : f64) : bool := SFltb y x.

(** [f64::max]: a NaN operand is ignored. *)
Definition f_max (x y : f64) : f64 :=
  match x, y with
  | S754_nan, _ => y
  | _, S754_nan => x
  | _, _ => if SFltb x y then y else x
  end.

(** The decimal literals of the code, as correctly rounded quotients. *)
Definition f_lit (num den : Z) : f64 := f_div (f_of num) (f_of den).

(** [x as usize]: truncates towards zero and saturates; NaN gives 0. *)
Definition f_to_usize (x : f64) : Z :=
  match x with
  | S754_nan | S754_zero _ => 0
  | S754_infinity s => if s then 0 else u_max 64
  | S754_finite true _ _ => 0
  | S754_finite false m e =>
      Z.min (u_max 64) (if 0 <=? e then Z.pos m * 2 ^ e else Z.pos m / 2 ^ (- e))
  end.

(** Functions of unspecified precision. *)
Class Libm := {
  powi : f64 → Z → f64;
  cbrt : f64 → f64;
}.

(** An instance, to run the definitions. *)
Definition libm_model : Libm := {|
  powi x n := Nat.iter (Z.to_nat n) (f_mul x) (f_of 1);
  cbrt x := x;
|}.

(** ** Durations and instants *)

(** [Instant::duration_since] and [Instant::elapsed]: zero when the argument is later. *)
Definition duration_since (now earlier : Z) : Z := sat_sub now earlier.

(** [Duration::as_secs_f64]. *)
Definition as_secs_f64 (d : Z) : f64 :=
  f_add (f_of (d / 1000000000)) (f_div (f_of (d mod 1000000000)) (f_of 1000000000)).

(** Round [n / d] to the nearest integer, ties to even. *)
Definition round_half_even (n d : Z) : Z :=
  let q := n / d in
  let r := n mod d in
  if (2 * r <? d) || ((2 * r =? d) && Z.even q) then q else q + 1.

(** [Duration::from_secs_f64]: the nearest number of nanoseconds; panics when the value is
    negative, not a number or too large. *)
Definition from_secs_f64 (x : f64) : res Z :=
  match x with
  | S754_zero _ => Ok 0
  | S754_finite false m e =>
      let d := if 0 <=? e then Z.pos m * 2 ^ e * 1000000000
               else round_half_even (Z.pos m * 1000000000) (2 ^ (- e)) in
      if d <? 2 ^ 64 * 1000000000 then Ok d else Panic
  | _ => Panic
  end.

(** [Duration::mul_f64]. *)
Definition mul_f64 (d : Z) (x : f64) : res Z := from_secs_f64 (f_mul x (as_secs_f64 d)).

(** [Duration::from_micros], [Duration::as_micros]. *)
Definition from_micros (us : Z) : Z := us * 1000.
Definition as_micros (d : Z) : Z := d / 1000.

Example float_literals :
  f_lit 4 10 = S754_finite false 7205759403792794 (-54)
  ∧ f_to_usize (f_mul (f_of 12000) (f_lit 7 10)) = 8400
  ∧ mul_f64 (from_millis 333) (f_lit 125 100) = Ok 416250000.
Proof. vm_compute. done. Qed.
