(* ===== verification/FloatFacts.v ===== *)
(** * Rounding facts about [f64]

    What the congestion controller needs of binary64 arithmetic: scaling a window by 0.7
    and truncating never enlarges it. *)

From Stdlib Require Import SpecFloat.
From S2P Require Import Prelude Errors Config Float.

(** The value of [m * 2^e], scaled by [2^200] to stay an integer. *)
Definition val (m e : Z) : Z := m * 2 ^ (e + 200).

Lemma digits_bounds m : 2 ^ (Z.pos (digits2_pos m) - 1) ≤ Z.pos m < 2 ^ Z.pos (digits2_pos m).
Proof.
  replace (digits2_pos m) with (Pos.size m) by (induction m; simpl; congruence).
  pose proof (Pos2Z.pos_is_pos (Pos.size m)). split.
  - apply (Z.mul_le_mono_pos_l _ _ 2); [lia|].
    rewrite <- Z.pow_succ_r, Z.sub_1_r, Z.succ_pred by lia.
    pose proof (Pos.size_le m) as S. rewrite <- Pos2Z.inj_pow.
    change (2 * Z.pos m) with (Z.pos (m~0)). apply Pos2Z.pos_le_pos. done.
  - rewrite <- Pos2Z.inj_pow. apply Pos2Z.pos_lt_pos, Pos.size_gt.
Qed.

Lemma shr_1_half mrs : 0 ≤ shr_m mrs → shr_m (shr_1 mrs) = shr_m mrs / 2.
Proof.
  destruct mrs as [m r s]. simpl. intros Hm. destruct m as [|[p|p|]|p]; simpl; try done; try lia.
  - rewrite Pos2Z.inj_xI. div_lia.
  - rewrite Pos2Z.inj_xO. div_lia.
Qed.

Lemma iter_pos_half n mrs : 0 ≤ shr_m mrs → shr_m (SpecFloat.iter_pos shr_1 n mrs) = shr_m mrs / 2 ^ Z.pos n.
Proof.
  revert mrs. induction n as [n IH|n IH|]; intros mrs Hm; simpl SpecFloat.iter_pos.
  - assert (0 ≤ shr_m (shr_1 mrs)) by (rewrite shr_1_half by done; apply Z.div_pos; lia).
    rewrite !IH, shr_1_half; try done; [|rewrite IH by done; apply Z.div_pos; lia].
    rewrite !Z.div_div by lia. f_equal. replace (Z.pos n~1) with (1 + (Z.pos n + Z.pos n)) by lia.
    rewrite !Z.pow_add_r, Z.pow_1_r by lia. ring.
  - rewrite !IH; try done; [|rewrite IH by done; apply Z.div_pos; lia].
    rewrite Z.div_div by lia. f_equal. rewrite <- Z.pow_add_r by lia. f_equal. lia.
  - by rewrite shr_1_half.
Qed.

(** The shift of [shr_fexp], away from the underflow range. *)
Lemma shr_fexp_spec m e :
  (-900 ≤ e) →
  let D := Z.pos (digits2_pos m) in
  let k := Z.max 0 (D - 53) in
  let r := shr_fexp prec emax (Z.pos m) e loc_Exact in
  shr_m r.1 = Z.pos m / 2 ^ k ∧ r.2 = e + k ∧ (k = 0 → r.1 = Build_shr_record (Z.pos m) false false).
Proof.
  intros He D k r. subst r. unfold shr_fexp, fexp, emin, prec, emax. fold D.
  change (Zdigits2 (Z.pos m)) with D.
  assert (0 < D) by (unfold D; lia).
  replace (Z.max (D + e - 53) (3 - 1024 - 53) - e) with (D - 53 + Z.max 0 (-1021 - (D + e) - 53 + 0) )
    by lia.
  replace (Z.max 0 (-1021 - (D + e) - 53 + 0)) with 0 by lia. rewrite Z.add_0_r.
  unfold shr. destruct (D - 53) as [|p|p] eqn:E; simpl fst; simpl snd.
  - subst k. rewrite Z.div_1_r. split_and!; [done|lia|done].
  - replace k with (Z.pos p) by lia. rewrite iter_pos_half by done. split_and!; [done|lia|lia].
  - replace k with 0 by lia. rewrite Z.div_1_r. split_and!; [done|lia|done].
Qed.

Lemma round_nearest_even_up m l : m ≤ round_nearest_even m l ≤ m + 1.
Proof. destruct l as [|[]]; simpl; case_bools; lia. Qed.

(** Rounding the mantissa to 53 bits: at most one unit in the last place is added. *)
Lemma round_mantissa m (k := Z.max 0 (Z.pos (digits2_pos m) - 53)) l :
  (k = 0 → l = loc_Exact) →
  let m2 := round_nearest_even (Z.pos m / 2 ^ k) l in
  1 ≤ m2 ≤ 2 ^ 53 ∧ m2 * 2 ^ k * 2 ^ 52 ≤ Z.pos m * (2 ^ 52 + 1) ∧ (k = 0 → m2 = Z.pos m).
Proof.
  intros Hl m2. pose proof (digits_bounds m) as [B1 B2]. pose proof (round_nearest_even_up (Z.pos m / 2 ^ k) l).
  fold m2 in H. set (D := Z.pos (digits2_pos m)) in *. assert (0 < D) by (unfold D; lia).
  destruct (decide (k = 0)) as [K|K].
  - assert (m2 = Z.pos m) as ->. { unfold m2. rewrite (Hl K), K. simpl. by rewrite Z.div_1_r. }
    rewrite K. assert (2 ^ D ≤ 2 ^ 53) by (apply Z.pow_le_mono_r; lia). lia.
  - assert (k = D - 53) as Ek by lia.
    assert (2 ^ 52 * 2 ^ k = 2 ^ (D - 1)) by (rewrite <- Z.pow_add_r by lia; f_equal; lia).
    assert (2 ^ 53 * 2 ^ k = 2 ^ D) by (rewrite <- Z.pow_add_r by lia; f_equal; lia).
    assert (0 < 2 ^ k) by (apply Z.pow_pos_nonneg; lia).
    assert (2 ^ 52 ≤ Z.pos m / 2 ^ k) by (apply Z.div_le_lower_bound; lia).
    assert (Z.pos m / 2 ^ k < 2 ^ 53) by (apply Z.div_lt_upper_bound; lia).
    assert (Z.pos m / 2 ^ k * 2 ^ k ≤ Z.pos m) by (rewrite Z.mul_comm; apply Z.mul_div_le; lia).
    assert (m2 * 2 ^ k ≤ (Z.pos m / 2 ^ k + 1) * 2 ^ k) by (apply Z.mul_le_mono_nonneg_r; lia).
    split_and!; lia.
Qed.

Lemma digits_le q n : Z.pos q < 2 ^ n → Z.pos (digits2_pos q) ≤ n.
Proof.
  intros Hq. pose proof (digits_bounds q) as [B _].
  destruct (decide (Z.pos (digits2_pos q) ≤ n)); [done|].
  assert (2 ^ n ≤ 2 ^ (Z.pos (digits2_pos q) - 1)) by (apply Z.pow_le_mono_r; lia). lia.
Qed.

Lemma round_aux_bound m e :
  (-150 ≤ e) → Z.pos (digits2_pos m) + e ≤ 900 →
  ∃ m' e', binary_round_aux prec emax false (Z.pos m) e loc_Exact = S754_finite false m' e'
    ∧ e ≤ e' ∧ val (Z.pos m') e' * 2 ^ 52 ≤ val (Z.pos m) e * (2 ^ 52 + 1)
    ∧ Z.pos (digits2_pos m') + e' ≤ Z.pos (digits2_pos m) + e + 55.
Proof.
  intros He HD. unfold binary_round_aux.
  pose proof (shr_fexp_spec m e ltac:(lia)) as (S1 & S2 & S3).
  destruct (shr_fexp prec emax (Z.pos m) e loc_Exact) as [r e1]. simpl in S1, S2, S3. subst e1.
  set (k := Z.max 0 (Z.pos (digits2_pos m) - 53)) in *. rewrite S1.
  destruct (round_mantissa m (loc_of_shr_record r)) as (R1 & R2 & R3); [intros K; by rewrite S3|].
  fold k in R1, R2, R3. destruct (round_nearest_even _ _) as [|q|q] eqn:Eq; [lia| |lia].
  pose proof (shr_fexp_spec q (e + k) ltac:(lia)) as (T1 & T2 & _).
  destruct (shr_fexp prec emax (Z.pos q) (e + k) loc_Exact) as [r2 e2]. simpl in T1, T2. subst e2.
  pose proof (digits_le q 54 ltac:(lia)) as Q. set (k2 := Z.max 0 (Z.pos (digits2_pos q) - 53)) in *.
  pose proof (digits_bounds q) as [B1 B2].
  assert (2 ^ k2 ≤ Z.pos q).
  { etrans; [|exact B1]. apply Z.pow_le_mono_r; lia. }
  assert (0 < 2 ^ k2) by (apply Z.pow_pos_nonneg; lia).
  assert (1 ≤ Z.pos q / 2 ^ k2) by (apply Z.div_le_lower_bound; lia).
  assert (Z.pos q / 2 ^ k2 * 2 ^ k2 ≤ Z.pos q) by (rewrite Z.mul_comm; apply Z.mul_div_le; lia).
  rewrite T1. destruct (Z.pos q / 2 ^ k2) as [|m'|m'] eqn:Em; [lia| |lia].
  rewrite (proj2 (Z.leb_le _ _)) by (unfold prec, emax; lia).
  exists m', (e + k + k2). split; [done|]. split; [lia|].
  pose proof (digits_le m' 54) as DM.
  assert (Z.pos m' * 1 ≤ Z.pos m' * 2 ^ k2) by (apply Z.mul_le_mono_nonneg_l; lia).
  specialize (DM ltac:(lia)). split; [|lia]. unfold val.
  replace (e + k + k2 + 200) with (k2 + (k + (e + 200))) by lia.
  rewrite (Z.pow_add_r 2 k2), (Z.pow_add_r 2 k) by lia.
  set (W := 2 ^ (e + 200)). assert (0 < W) by (apply Z.pow_pos_nonneg; lia).
  assert (Z.pos m' * 2 ^ k2 * 2 ^ k ≤ Z.pos q * 2 ^ k) by (apply Z.mul_le_mono_nonneg_r; lia).
  set (A := Z.pos m' * 2 ^ k2 * 2 ^ k) in *.
  replace (Z.pos m' * (2 ^ k2 * (2 ^ k * W)) * 2 ^ 52) with (A * 2 ^ 52 * W) by (unfold A; ring).
  replace (Z.pos m * W * (2 ^ 52 + 1)) with (Z.pos m * (2 ^ 52 + 1) * W) by ring.
  apply Z.mul_le_mono_nonneg_r; lia.
Qed.

Lemma iter_xO p n : Z.pos (Pos.iter xO p n) = Z.pos p * 2 ^ Z.pos n.
Proof.
  induction n as [|n IH] using Pos.peano_ind; [simpl; lia|].
  rewrite Pos.iter_succ, Pos2Z.inj_xO, IH, Pos2Z.inj_succ, Z.pow_succ_r by lia. lia.
Qed.

(** [x as f64] of a [u64] is at most one unit in the last place above [x]. *)
Lemma f_of_bound x :
  0 < x < 2 ^ 64 →
  ∃ m e, f_of x = S754_finite false m e ∧ -52 ≤ e
    ∧ val (Z.pos m) e * 2 ^ 52 ≤ val x 0 * (2 ^ 52 + 1) ∧ Z.pos (digits2_pos m) + e ≤ 119.
Proof.
  intros Hx. destruct x as [|x|x]; [lia| |lia]. unfold f_of, binary_normalize, binary_round.
  pose proof (digits_le x 64 ltac:(lia)) as D. set (d := digits2_pos x) in *.
  assert (fexp prec emax (Z.pos d + 0) = Z.pos d - 53) as -> by (unfold fexp, emin, prec, emax; lia).
  assert (∃ m e, shl_align x 0 (Z.pos d - 53) = (m, e) ∧ -52 ≤ e ≤ 0 ∧ val (Z.pos m) e = val (Z.pos x) 0
            ∧ Z.pos (digits2_pos m) + e ≤ 64) as (m & e & -> & He & Hv & Hd).
  { unfold shl_align. destruct (Z.pos d - 53 - 0) as [|n|n] eqn:E; [by exists x, 0; split_and!; lia || done..|].
    exists (Pos.iter xO x n), (Z.pos d - 53). split; [done|]. split; [lia|]. unfold val.
    rewrite iter_xO. replace (Z.pos n) with (53 - Z.pos d) by lia. split.
    - rewrite <- Z.mul_assoc, <- Z.pow_add_r by lia. f_equal. f_equal. lia.
    - enough (Z.pos (digits2_pos (Pos.iter xO x n)) ≤ 53) by lia. apply digits_le. rewrite iter_xO.
      pose proof (digits_bounds x) as [_ B]. fold d in B.
      replace 53 with (Z.pos d + Z.pos n) by lia. rewrite Z.pow_add_r by lia.
      apply Z.mul_lt_mono_pos_r; [apply Z.pow_pos_nonneg; lia|done]. }
  destruct (round_aux_bound m e ltac:(lia) ltac:(lia)) as (m' & e' & -> & ? & Hb & ?).
  exists m', e'. rewrite <- Hv. split_and!; [done|lia|done|lia].
Qed.

(** Scaling by 0.7 and truncating does not enlarge a [usize]. *)
Lemma scale_070_le x : u_ok 64 x → f_to_usize (f_mul (f_of x) (f_lit 7 10)) ≤ x.
Proof.
  intros Hx. unfold u_ok in Hx. destruct (decide (x = 0)) as [->|]; [by vm_compute|].
  destruct (f_of_bound x ltac:(lia)) as (m & e & -> & He & Hv & Hd).
  replace (f_lit 7 10) with (S754_finite false 6305039478318694 (-53)) by (by vm_compute).
  unfold f_mul, SFmul. simpl xorb. set (c := 6305039478318694%positive).
  assert (Z.pos (digits2_pos (m * c)) ≤ Z.pos (digits2_pos m) + 53) as Dc.
  { apply digits_le. pose proof (digits_bounds m). rewrite Z.pow_add_r, Pos2Z.inj_mul by lia.
    apply Z.mul_lt_mono_nonneg; unfold c; lia. }
  destruct (round_aux_bound (m * c) (e + -53) ltac:(lia) ltac:(lia)) as (m' & e' & E & He' & Hb & _).
  change (Z.pos m * Z.pos c) with (Z.pos (m * c)). rewrite E. unfold f_to_usize.
  assert (val (Z.pos m') e' ≤ val x 0) as V.
  { assert (val (Z.pos (m * c)) (e + -53) * 2 ^ 53 = val (Z.pos m) e * Z.pos c).
    { unfold val. rewrite Pos2Z.inj_mul. replace (e + 200) with (53 + (e + -53 + 200)) by lia.
      rewrite (Z.pow_add_r 2 53) by lia. ring. }
    assert (0 ≤ val x 0) by (unfold val; lia). unfold c in *. lia. }
  unfold val in V. change (0 + 200) with 200 in V. etrans; [apply Z.le_min_r|].
  destruct (0 <=? e') eqn:E0; to_prop.
  - rewrite Z.pow_add_r in V by lia. apply (Z.mul_le_mono_pos_r _ _ (2 ^ 200)); lia.
  - apply Z.div_le_upper_bound; [apply Z.pow_pos_nonneg; lia|].
    apply (Z.mul_le_mono_pos_r _ _ (2 ^ (e' + 200))); [apply Z.pow_pos_nonneg; lia|].
    etrans; [exact V|].
    assert (2 ^ (- e') * 2 ^ (e' + 200) = 2 ^ 200) as P by (rewrite <- Z.pow_add_r by lia; f_equal; lia).
    rewrite <- P. apply Z.eq_le_incl. ring.
Qed.
