(* ===== verification/FloatRange.v ===== *)
(** * Magnitudes of [f64] values

    A crude calculus of exponents: how large the results of the operations on durations can
    be.  It is enough to see that the conversions back to a [Duration] do not overflow. *)

From Stdlib Require Import SpecFloat.
From S2P Require Import Prelude Errors Config Float FloatFacts.

(** A non-negative number below [2^K], with an exponent of at least [lo]. *)
Definition within (lo K : Z) (x : f64) : Prop :=
  match x with
  | S754_zero false => True
  | S754_finite false m e => lo ≤ e ∧ Z.pos (digits2_pos m) + e ≤ K
  | _ => False
  end.

Lemma within_mono lo lo' K K' x : lo' ≤ lo → K ≤ K' → within lo K x → within lo' K' x.
Proof. destruct x as [[]| | |[] m e]; simpl; try done. lia. Qed.

(** The shift of [shr_fexp], for a number that is not exact. *)
Lemma shr_fexp_shift m e l :
  -900 ≤ e →
  let k := Z.max 0 (Z.pos (digits2_pos m) - 53) in
  let r := shr_fexp prec emax (Z.pos m) e l in shr_m r.1 = Z.pos m / 2 ^ k ∧ r.2 = e + k.
Proof.
  intros He k r. subst r. unfold shr_fexp, fexp, emin, prec, emax. change (Zdigits2 (Z.pos m)) with (Z.pos (digits2_pos m)).
  set (D := Z.pos (digits2_pos m)) in *. assert (0 < D) by (unfold D; lia).
  assert (shr_m (shr_record_of_loc (Z.pos m) l) = Z.pos m) as M by (by destruct l as [|[]]).
  replace (Z.max (D + e - 53) (3 - 1024 - 53) - e) with (D - 53) by lia.
  unfold shr. destruct (D - 53) as [|p|p] eqn:E; cbn [fst snd].
  - subst k. rewrite Z.div_1_r. split; [done|lia].
  - replace k with (Z.pos p) by lia. rewrite iter_pos_half by (rewrite M; done). rewrite M. split; [done|lia].
  - replace k with 0 by lia. rewrite Z.div_1_r. split; [done|lia].
Qed.

Lemma shifted_digits m k : 0 ≤ k < Z.pos (digits2_pos m) → 1 ≤ Z.pos m / 2 ^ k < 2 ^ (Z.pos (digits2_pos m) - k).
Proof.
  intros Hk. pose proof (digits_bounds m) as [B1 B2]. assert (0 < 2 ^ k) by (apply Z.pow_pos_nonneg; lia). split.
  - apply Z.div_le_lower_bound; [done|]. rewrite Z.mul_1_r. etrans; [|exact B1]. apply Z.pow_le_mono_r; lia.
  - apply Z.div_lt_upper_bound; [done|]. rewrite <- Z.pow_add_r by lia. by replace (k + (Z.pos (digits2_pos m) - k)) with (Z.pos (digits2_pos m)) by lia.
Qed.

(** Rounding adds at most one binary digit. *)
Lemma round_within m e l :
  -400 ≤ e → Z.pos (digits2_pos m) + e ≤ 800 →
  within e (Z.pos (digits2_pos m) + e + 1) (binary_round_aux prec emax false (Z.pos m) e l).
Proof.
  intros He HD. unfold binary_round_aux. set (D := Z.pos (digits2_pos m)) in *. assert (0 < D) by (unfold D; lia).
  pose proof (shr_fexp_shift m e l ltac:(lia)) as [S1 S2].
  destruct (shr_fexp prec emax (Z.pos m) e l) as [r e1]. cbn [fst snd] in S1, S2. subst e1. fold D in S1 |- *.
  set (k := Z.max 0 (D - 53)) in *. rewrite S1. pose proof (shifted_digits m k ltac:(lia)) as B. fold D in B.
  pose proof (round_nearest_even_up (Z.pos m / 2 ^ k) (loc_of_shr_record r)) as R.
  destruct (round_nearest_even _ _) as [|q|q]; [lia| |lia].
  assert (Z.pos (digits2_pos q) ≤ D - k + 1) as Dq.
  { apply digits_le. replace (D - k + 1) with (Z.succ (D - k)) by lia. rewrite Z.pow_succ_r by lia. lia. }
  pose proof (shr_fexp_shift q (e + k) loc_Exact ltac:(lia)) as [T1 T2].
  destruct (shr_fexp prec emax (Z.pos q) (e + k) loc_Exact) as [r2 e2]. cbn [fst snd] in T1, T2. subst e2.
  set (k2 := Z.max 0 (Z.pos (digits2_pos q) - 53)) in *. pose proof (shifted_digits q k2 ltac:(lia)) as B2.
  rewrite T1. destruct (Z.pos q / 2 ^ k2) as [|m'|m']; [lia| |lia]. pose proof (digits_le m' _ (proj2 B2)) as Dm.
  rewrite (proj2 (Z.leb_le _ _)) by (unfold prec, emax; lia). cbn [within]. lia.
Qed.

(** Alignment to a smaller exponent keeps the value. *)
Lemma align_within m e e' :
  let '(m', e1) := shl_align m e e' in e1 = Z.min e e' ∧ Z.pos m' = Z.pos m * 2 ^ (e - e1).
Proof.
  unfold shl_align. destruct (e' - e) as [|n|n] eqn:E.
  - replace (Z.min e e') with e by lia. rewrite Z.sub_diag, Z.mul_1_r. done.
  - replace (Z.min e e') with e by lia. rewrite Z.sub_diag, Z.mul_1_r. done.
  - replace (Z.min e e') with e' by lia. rewrite iter_xO. replace (e - e') with (Z.pos n) by lia. done.
Qed.

Lemma digits_scaled m n : 0 ≤ n → ∀ p, Z.pos p = Z.pos m * 2 ^ n → Z.pos (digits2_pos p) ≤ Z.pos (digits2_pos m) + n.
Proof.
  intros Hn p Hp. apply digits_le. rewrite Hp, Z.pow_add_r by lia. pose proof (digits_bounds m) as [_ B].
  apply Z.mul_lt_mono_pos_r; [apply Z.pow_pos_nonneg; lia|done].
Qed.

Lemma normalize_within x e K :
  0 ≤ x < 2 ^ (K - e) → -190 ≤ e → K ≤ 700 → within (e - 52) (K + 1) (binary_normalize prec emax x e false).
Proof.
  intros Hx He HK. destruct x as [|p|p]; [done| |lia]. cbn [binary_normalize]. unfold binary_round.
  assert (Z.pos (digits2_pos p) ≤ K - e) as D by (apply digits_le; lia).
  set (f := fexp prec emax (Z.pos (digits2_pos p) + e)).
  assert (e - 52 ≤ f) as Hf by (unfold f, fexp, emin, prec, emax; lia).
  pose proof (align_within p e f) as A. destruct (shl_align p e f) as [m' e'] eqn:E. destruct A as [-> A].
  pose proof (digits_scaled p (e - Z.min e f) ltac:(lia) m' A). eapply within_mono; [..|apply round_within; lia]; lia.
Qed.

Lemma f_of_within n x : 0 ≤ x < 2 ^ n → n ≤ 64 → within (-52) (n + 1) (f_of x).
Proof. intros Hx Hn. apply (normalize_within x 0 n); [by rewrite Z.sub_0_r|lia|lia]. Qed.

Lemma aligned_bound K m e m' ez :
  Z.pos (digits2_pos m) + e ≤ K → ez ≤ e → Z.pos m' = Z.pos m * 2 ^ (e - ez) → Z.pos m' < 2 ^ (K - ez).
Proof.
  intros D Hez ->. pose proof (digits_bounds m) as [_ B].
  apply (Z.lt_le_trans _ (2 ^ Z.pos (digits2_pos m) * 2 ^ (e - ez))).
  - apply Z.mul_lt_mono_pos_r; [apply Z.pow_pos_nonneg; lia|done].
  - rewrite <- Z.pow_add_r by lia. apply Z.pow_le_mono_r; lia.
Qed.

Lemma f_add_within lo K x y :
  -190 ≤ lo → K ≤ 600 → within lo K x → within lo K y → within (lo - 52) (K + 2) (f_add x y).
Proof.
  intros Hlo HK. unfold f_add, SFadd. destruct x as [[]| | |[] m1 e1], y as [[]| | |[] m2 e2]; try done; cbn [within]; [lia..|].
  intros [L1 D1] [L2 D2]. set (ez := Z.min e1 e2).
  pose proof (align_within m1 e1 ez) as A1. pose proof (align_within m2 e2 ez) as A2.
  destruct (shl_align m1 e1 ez) as [m1' e1'], (shl_align m2 e2 ez) as [m2' e2']. destruct A1 as [-> A1], A2 as [-> A2].
  replace (Z.min e1 ez) with ez in A1 by lia. replace (Z.min e2 ez) with ez in A2 by lia.
  pose proof (aligned_bound K m1 e1 m1' ez D1 ltac:(lia) A1). pose proof (aligned_bound K m2 e2 m2' ez D2 ltac:(lia) A2).
  cbn [cond_Zopp fst]. apply (within_mono (ez - 52) _ (K + 1 + 1)); [lia|lia|]. apply normalize_within; [|lia|lia].
  replace (K + 1 - ez) with (Z.succ (K - ez)) by lia. rewrite Z.pow_succ_r; lia.
Qed.

Lemma f_mul_within lo K x m e :
  within lo K x → -400 ≤ lo + e → -100 ≤ e ≤ 0 → Z.pos (digits2_pos m) ≤ 100 → K ≤ 600 →
  within (lo + e) (K + (Z.pos (digits2_pos m) + e) + 1) (f_mul (S754_finite false m e) x).
Proof.
  intros Hx Hlo He Hm HK. unfold f_mul, SFmul. destruct x as [[]| | |[] m2 e2]; try done. destruct Hx as [L2 D2]. cbn [xorb].
  assert (Z.pos (digits2_pos (m * m2)) ≤ Z.pos (digits2_pos m) + Z.pos (digits2_pos m2)) as D.
  { apply digits_le. rewrite Pos2Z.inj_mul, Z.pow_add_r by lia. pose proof (digits_bounds m). pose proof (digits_bounds m2).
    apply Z.mul_lt_mono_nonneg; lia. }
  eapply within_mono; [..|apply round_within]; lia.
Qed.

(** Division by a number of 53 digits. *)
Lemma f_div_within lo K x m e :
  within lo K x → -100 ≤ lo → K ≤ 200 → -60 ≤ e ≤ 0 → Z.pos (digits2_pos m) = 53 →
  within (lo - 105) (K - (53 + e) + 2) (f_div x (S754_finite false m e)).
Proof.
  intros Hx Hlo HK He Hm. unfold f_div, SFdiv. destruct x as [[]| | |[] m1 e1]; try done. destruct Hx as [L1 D1].
  unfold SFdiv_core_binary. cbn [Zdigits2 xorb]. rewrite Hm. set (d1 := Z.pos (digits2_pos m1)) in *. assert (0 < d1) by (unfold d1; lia).
  assert (fexp prec emax (d1 + e1 - (53 + e)) = d1 + e1 - (53 + e) - 53) as -> by (unfold fexp, emin, prec, emax; lia).
  set (e' := Z.min (d1 + e1 - (53 + e) - 53) (e1 - e)). set (s := e1 - e - e').
  assert ((match s with 0 => Z.pos m1 | Z.pos _ => Z.shiftl (Z.pos m1) s | Z.neg _ => 0 end) = Z.pos m1 * 2 ^ s) as ->.
  { assert (0 ≤ s) by lia. destruct s as [|p|p] eqn:E; [lia| |lia]. by rewrite Z.shiftl_mul_pow2. }
  pose proof (digits_bounds m1) as [A1 A2]. pose proof (digits_bounds m) as [B1 B2]. rewrite Hm in B1, B2. fold d1 in A1, A2.
  assert (0 < 2 ^ s) by (apply Z.pow_pos_nonneg; lia).
  pose proof (Z.div_mod (Z.pos m1 * 2 ^ s) (Z.pos m) ltac:(done)) as DM.
  assert (1 ≤ Z.pos m1 * 2 ^ s / Z.pos m) as Q1.
  { apply Z.div_le_lower_bound; [done|]. apply (Z.le_trans _ (2 ^ (d1 - 1) * 2 ^ s)).
    - rewrite <- Z.pow_add_r, Z.mul_1_r by lia. apply Z.lt_le_incl, (Z.lt_le_trans _ (2 ^ 53)); [done|]. apply Z.pow_le_mono_r; lia.
    - apply Z.mul_le_mono_nonneg_r; lia. }
  assert (Z.pos m1 * 2 ^ s / Z.pos m < 2 ^ (d1 + s - 52)) as Q2.
  { apply Z.div_lt_upper_bound; [done|]. apply (Z.lt_le_trans _ (2 ^ d1 * 2 ^ s)).
    - apply Z.mul_lt_mono_pos_r; lia.
    - assert (2 ^ d1 * 2 ^ s = 2 ^ (53 - 1) * 2 ^ (d1 + s - 52)) as -> by (rewrite <- !Z.pow_add_r by lia; f_equal; lia).
      apply Z.mul_le_mono_nonneg_r; [apply Z.pow_nonneg; lia|exact B1]. }
  unfold Z.div, Z.modulo in *. destruct (Z.div_eucl (Z.pos m1 * 2 ^ s) (Z.pos m)) as [q r].
  destruct q as [|q|q]; [lia| |lia]. pose proof (digits_le q _ Q2). eapply within_mono; [..|apply round_within]; lia.
Qed.

Lemma as_secs_within d : 0 ≤ d < 2 ^ 62 → within (-209) 36 (as_secs_f64 d).
Proof.
  intros Hd. unfold as_secs_f64. replace (f_of 1000000000) with (S754_finite false 8388608000000000 (-23)) by (by vm_compute).
  pose proof (Z.mod_pos_bound d 1000000000 ltac:(done)) as Hm.
  apply (f_add_within (-157) 34); [lia|lia|..].
  - apply (within_mono (-52) _ 34); [lia|lia|]. apply (f_of_within 33); [|lia]. split; [apply Z.div_pos; lia|].
    apply Z.div_lt_upper_bound; [lia|]. lia.
  - apply (within_mono (-52 - 105) _ (31 - (53 + -23) + 2)); [lia|lia|]. apply f_div_within; [|lia|lia|lia|done].
    apply (f_of_within 30); lia.
Qed.

(** A moderate number of seconds is a [Duration]. *)
Lemma from_secs_total lo K x : within lo K x → 0 ≤ K ≤ 63 → ∃ d, from_secs_f64 x = Ok d.
Proof.
  intros Hx HK. unfold from_secs_f64. destruct x as [[]| | |[] m e]; try done; [by eexists|]. destruct Hx as [_ D].
  pose proof (digits_bounds m) as [_ B]. set (n := Z.pos (digits2_pos m)) in *.
  assert (2 ^ K ≤ 2 ^ 63) by (apply Z.pow_le_mono_r; lia).
  destruct (Z.leb_spec 0 e) as [He|He].
  - assert (Z.pos m * 2 ^ e < 2 ^ K) as V.
    { apply (Z.lt_le_trans _ (2 ^ n * 2 ^ e)).
      - apply Z.mul_lt_mono_pos_r; [apply Z.pow_pos_nonneg; lia|done].
      - rewrite <- Z.pow_add_r by lia. apply Z.pow_le_mono_r; lia. }
    rewrite (proj2 (Z.ltb_lt _ _)) by lia. by eexists.
  - assert (0 < 2 ^ (- e)) by (apply Z.pow_pos_nonneg; lia).
    assert (Z.pos m < 2 ^ K * 2 ^ (- e)) as V.
    { rewrite <- Z.pow_add_r by lia. eapply Z.lt_le_trans; [exact B|]. apply Z.pow_le_mono_r; lia. }
    assert (round_half_even (Z.pos m * 1000000000) (2 ^ (- e)) ≤ Z.pos m * 1000000000 / 2 ^ (- e) + 1) as R
      by (unfold round_half_even; case_bools; lia).
    assert (Z.pos m * 1000000000 / 2 ^ (- e) < 2 ^ K * 1000000000) by (apply Z.div_lt_upper_bound; lia).
    rewrite (proj2 (Z.ltb_lt _ _)) by lia. by eexists.
Qed.

(** The threshold of time-based loss detection can be computed for every measured round trip. *)
Lemma scaled_rtt_total d : 0 ≤ d < 2 ^ 62 → ∃ r, mul_f64 d (f_lit 125 100) = Ok r.
Proof.
  intros Hd. unfold mul_f64. replace (f_lit 125 100) with (S754_finite false 5629499534213120 (-52)) by (by vm_compute).
  eapply (from_secs_total _ 38); [|lia].
  apply (f_mul_within (-209) 36 (as_secs_f64 d) 5629499534213120 (-52)); [by apply as_secs_within|lia|lia|by vm_compute|lia].
Qed.
