(* ===== verification/Termination.v ===== *)
(** * Why a stream or a connection ended (src/src/stream/termination.rs)

    The cell is shared between the connection actor and the application's stream handles;
    each operation runs under its mutex, so an execution is a sequence of operations. *)

From stdpp Require Import strings.
From S2P Require Import Prelude Errors.

Module TerminationReason.
(** [enum TerminationReason]. *)
Inductive t :=
  | StreamReset (stream_id error_code : Z)
  | ConnectionClosed (error_code : Z) (reason : bytes)
  | IdleTimeout.
End TerminationReason.

(** [struct Termination]. *)
Definition Termination : Type := option TerminationReason.t.

(** [Termination::default]. *)
Definition termination_default : Termination := None.

(** [Termination::set]. *)
Definition termination_set (reason : TerminationReason.t) (current : Termination) : Termination :=
  match current with
  | None => Some reason
  | Some _ => current
  end.

(** [Termination::reason]. *)
Definition termination_reason (t : Termination) : option TerminationReason.t := t.

(** [Termination::error]. *)
Definition termination_error (t : Termination) : option ZtError :=
  (λ reason, match reason with
    | TerminationReason.StreamReset stream_id error_code => StreamReset stream_id error_code
    | TerminationReason.ConnectionClosed error_code reason => ConnectionClosedByPeer error_code reason
    | TerminationReason.IdleTimeout => IdleTimeout
    end) <$> termination_reason t.

(** [Termination::io_error]: the kind, and the error it carries. *)
Definition termination_io_error (t : Termination) : option (IoErrorKind * ZtError) :=
  (λ error, let kind := match error with IdleTimeout => TimedOut | _ => ConnectionAborted end in
            (kind, error)) <$> termination_error t.

Lemma termination_set_some reasons r : foldl (flip termination_set) (Some r) reasons = Some r.
Proof. by induction reasons. Qed.

(** The first reason recorded for the end of a stream is the one its handles report,
    whatever is recorded after it. *)
Theorem first_termination_reason_wins (reasons : list TerminationReason.t) :
  termination_reason (foldl (flip termination_set) termination_default reasons) = head reasons.
Proof. destruct reasons as [|r reasons]; [done|]. apply termination_set_some. Qed.
