(* ===== verification/Congestion.v ===== *)
(** * Congestion controllers (src/src/transport/congestion.rs, the trait and its two
    implementations)

    [CongestionController] is the trait; [ControllerSpec] is what the connection relies on,
    discharged by CUBIC, by Reno and by the boxed controller that is one of the two. *)

From Stdlib Require Import SpecFloat.
From S2P Require Import Prelude Errors Config Float FloatFacts.

(** [trait CongestionController]. *)
Class CongestionController (T : Type) := {
  on_packet_sent : Z → Z → Z → T → T;
  on_packet_acked : Z → Z → Z → T → res T;
  on_congestion_event : Z → Z → T → T;
  cwnd : T → Z;
  ssthresh : T → Z;
  set_cwnd : Z → T → T;
  set_ssthresh : Z → T → T;
  set_mtu : Z → T → T;
}.

Set Primitive Projections.
(** [struct CubicController]. *)
Record CubicController := mkCubic {
  cu_cwnd : Z;
  cu_ssthresh : Z;
  cu_mtu : Z;
  cubic_w_max : f64;
  cubic_k : f64;
  cu_last_congestion_time : option Z;
  last_cubic_update : option Z;
  cubic_epoch_start : option Z;
  target_cwnd : Z;
}.

(** [struct RenoController]. *)
Record RenoController := mkReno {
  re_cwnd : Z;
  re_ssthresh : Z;
  re_mtu : Z;
  re_last_congestion_time : option Z;
}.
Unset Primitive Projections.

#[export] Instance upd_cu_cwnd : Upd cu_cwnd.
Proof. derive_upd cu_cwnd. Defined.
#[export] Instance upd_cu_ssthresh : Upd cu_ssthresh.
Proof. derive_upd cu_ssthresh. Defined.
#[export] Instance upd_cu_mtu : Upd cu_mtu.
Proof. derive_upd cu_mtu. Defined.
#[export] Instance upd_cubic_w_max : Upd cubic_w_max.
Proof. derive_upd cubic_w_max. Defined.
#[export] Instance upd_cubic_k : Upd cubic_k.
Proof. derive_upd cubic_k. Defined.
#[export] Instance upd_cu_last_congestion_time : Upd cu_last_congestion_time.
Proof. derive_upd cu_last_congestion_time. Defined.
#[export] Instance upd_last_cubic_update : Upd last_cubic_update.
Proof. derive_upd last_cubic_update. Defined.
#[export] Instance upd_cubic_epoch_start : Upd cubic_epoch_start.
Proof. derive_upd cubic_epoch_start. Defined.
#[export] Instance upd_target_cwnd : Upd target_cwnd.
Proof. derive_upd target_cwnd. Defined.
#[export] Instance upd_re_cwnd : Upd re_cwnd.
Proof. derive_upd re_cwnd. Defined.
#[export] Instance upd_re_ssthresh : Upd re_ssthresh.
Proof. derive_upd re_ssthresh. Defined.
#[export] Instance upd_re_mtu : Upd re_mtu.
Proof. derive_upd re_mtu. Defined.
#[export] Instance upd_re_last_congestion_time : Upd re_last_congestion_time.
Proof. derive_upd re_last_congestion_time. Defined.

(** Integer division of [usize]s: panics on zero. *)
Definition udiv (x y : Z) : res Z := if y =? 0 then Panic else Ok (x / y).

(** [(self.mtu * bytes_acked) / self.cwnd.max(self.mtu)]. *)
Definition additive_increase (mtu bytes_acked cwnd : Z) : res Z :=
  udiv (wrap 64 (mtu * bytes_acked)) (Z.max cwnd mtu).

(** [last.is_some_and(|last| now.duration_since(last) < rtt)]. *)
Definition within_rtt (last : option Z) (rtt now : Z) : bool :=
  match last with Some last_loss => duration_since now last_loss <? rtt | None => false end.

(** [CubicController::new]. *)
Definition cubic_new (initial_cwnd mtu : Z) : CubicController :=
  mkCubic initial_cwnd (u_max 64) mtu (f_of 0) (f_of 0) None None None initial_cwnd.

Section cubic.
Context `{LM : Libm}.

(** The cubic target in packets, [c * (t - k).powi(3) + w_max]. *)
Definition w_cubic_pkts (c : CubicController) (now : Z) : f64 :=
  let t := match cubic_epoch_start c with
           | Some epoch => as_secs_f64 (duration_since now epoch)
           | None => f_of 0
           end in
  f_add (f_mul (f_lit 4 10) (powi (f_sub t (cubic_k c)) 3)) (cubic_w_max c).

(** [if self.cubic_epoch_start.is_none() { .. }]. *)
Definition start_epoch (now : Z) (c : CubicController) : CubicController :=
  match cubic_epoch_start c with
  | None => c <| cubic_epoch_start := Some now |>
  | Some _ => c
  end.

(** The update of the target window, at most once per round trip. *)
Definition update_target (rtt now : Z) (c : CubicController) : CubicController :=
  let should_update := match last_cubic_update c with
                       | Some last => rtt <=? duration_since now last
                       | None => true
                       end in
  if should_update then
    let c := c <| last_cubic_update := Some now |> in
    c <| target_cwnd := f_to_usize (f_max (f_mul (w_cubic_pkts c now) (f_of (cu_mtu c))) (f_of 0)) |>
  else c.

(** [CubicController::on_packet_acked]. *)
Definition cubic_on_packet_acked (bytes_acked rtt now : Z) (c : CubicController) : res CubicController :=
  if cu_cwnd c <? cu_ssthresh c then
    Ok (c <| cu_cwnd ::= λ w, wrap 64 (w + bytes_acked) |>)
  else
    let c := update_target rtt now (start_epoch now c) in
    reno_inc ← additive_increase (cu_mtu c) bytes_acked (cu_cwnd c);
    if cu_cwnd c <? target_cwnd c then
      let cubic_inc := target_cwnd c - cu_cwnd c in
      Ok (c <| cu_cwnd ::= λ w, wrap 64 (w + Z.min (Z.min cubic_inc bytes_acked) (cu_mtu c)) |>)
    else Ok (c <| cu_cwnd ::= λ w, wrap 64 (w + reno_inc) |>).

(** Fast convergence: the window at which the next epoch plateaus. *)
Definition fast_convergence (current_cwnd_pkts beta : f64) (c : CubicController) : CubicController :=
  if f_lt current_cwnd_pkts (cubic_w_max c) then
    c <| cubic_w_max := f_div (f_mul current_cwnd_pkts (f_add (f_of 1) beta)) (f_of 2) |>
  else c <| cubic_w_max := current_cwnd_pkts |>.

(** [CubicController::on_congestion_event]. *)
Definition cubic_on_congestion_event (rtt now : Z) (c : CubicController) : CubicController :=
  if within_rtt (cu_last_congestion_time c) rtt now then c
  else
    let c := c <| cu_last_congestion_time := Some now |> in
    let beta := f_lit 7 10 in
    let k := f_lit 4 10 in
    let current_cwnd_pkts := f_div (f_of (cu_cwnd c)) (f_of (cu_mtu c)) in
    let c := fast_convergence current_cwnd_pkts beta c in
    let c := c <| cu_ssthresh := Z.max (f_to_usize (f_mul (f_of (cu_cwnd c)) beta))
                                   (wrap 64 (cu_mtu c * 2)) |> in
    let c := c <| cu_cwnd := cu_ssthresh c |> in
    let c := c <| cubic_k := cbrt (f_div (f_mul (cubic_w_max c) (f_sub (f_of 1) beta)) k) |> in
    let c := c <| cubic_epoch_start := None |> in
    c <| last_cubic_update := None |>.
End cubic.

(** [RenoController::new]. *)
Definition reno_new (initial_cwnd mtu : Z) : RenoController := mkReno initial_cwnd (u_max 64) mtu None.

(** [RenoController::on_packet_acked]. *)
Definition reno_on_packet_acked (bytes_acked _rtt _now : Z) (c : RenoController) : res RenoController :=
  if re_cwnd c <? re_ssthresh c then
    Ok (c <| re_cwnd ::= λ w, wrap 64 (w + bytes_acked) |>)
  else
    increment ← additive_increase (re_mtu c) bytes_acked (re_cwnd c);
    Ok (c <| re_cwnd ::= λ w, wrap 64 (w + Z.max increment 1) |>).

(** [RenoController::on_congestion_event]. *)
Definition reno_on_congestion_event (rtt now : Z) (c : RenoController) : RenoController :=
  if within_rtt (re_last_congestion_time c) rtt now then c
  else
    let c := c <| re_last_congestion_time := Some now |> in
    let c := c <| re_ssthresh := Z.max (re_cwnd c / 2) (wrap 64 (re_mtu c * 2)) |> in
    c <| re_cwnd := re_ssthresh c |>.

#[export] Instance cubic_controller `{Libm} : CongestionController CubicController := {|
  on_packet_sent _ _ _ c := c;
  on_packet_acked := cubic_on_packet_acked;
  on_congestion_event := cubic_on_congestion_event;
  cwnd := cu_cwnd;
  ssthresh := cu_ssthresh;
  set_cwnd v c := c <| cu_cwnd := v |>;
  set_ssthresh v c := c <| cu_ssthresh := v |>;
  set_mtu v c := c <| cu_mtu := v |>;
|}.

#[export] Instance reno_controller : CongestionController RenoController := {|
  on_packet_sent _ _ _ c := c;
  on_packet_acked := reno_on_packet_acked;
  on_congestion_event := reno_on_congestion_event;
  cwnd := re_cwnd;
  ssthresh := re_ssthresh;
  set_cwnd v c := c <| re_cwnd := v |>;
  set_ssthresh v c := c <| re_ssthresh := v |>;
  set_mtu v c := c <| re_mtu := v |>;
|}.

(** [Box<dyn CongestionController>]: one of the two, dispatched on. *)
Inductive BoxedController := BoxCubic (c : CubicController) | BoxReno (c : RenoController).

#[export] Instance boxed_controller `{Libm} : CongestionController BoxedController := {|
  on_packet_sent pn b t c :=
    match c with BoxCubic c => BoxCubic (on_packet_sent pn b t c) | BoxReno c => BoxReno (on_packet_sent pn b t c) end;
  on_packet_acked b rtt now c :=
    match c with
    | BoxCubic c => BoxCubic <$> on_packet_acked b rtt now c
    | BoxReno c => BoxReno <$> on_packet_acked b rtt now c
    end;
  on_congestion_event rtt now c :=
    match c with
    | BoxCubic c => BoxCubic (on_congestion_event rtt now c)
    | BoxReno c => BoxReno (on_congestion_event rtt now c)
    end;
  cwnd c := match c with BoxCubic c => cwnd c | BoxReno c => cwnd c end;
  ssthresh c := match c with BoxCubic c => ssthresh c | BoxReno c => ssthresh c end;
  set_cwnd v c := match c with BoxCubic c => BoxCubic (set_cwnd v c) | BoxReno c => BoxReno (set_cwnd v c) end;
  set_ssthresh v c :=
    match c with BoxCubic c => BoxCubic (set_ssthresh v c) | BoxReno c => BoxReno (set_ssthresh v c) end;
  set_mtu v c := match c with BoxCubic c => BoxCubic (set_mtu v c) | BoxReno c => BoxReno (set_mtu v c) end;
|}.

(** The controller of a new connection ([ZtConnection::new_with_config]). *)
Definition new_controller (algo : CongestionControlAlgorithm) (initial_cwnd mtu : Z) : BoxedController :=
  match algo with
  | Cubic => BoxCubic (cubic_new initial_cwnd mtu)
  | Reno => BoxReno (reno_new initial_cwnd mtu)
  end.
