(* ===== verification/CongestionFacts.v ===== *)
(** * Congestion controllers: the contract and its proofs *)

From S2P Require Import Prelude Errors Config Float FloatFacts Congestion.

(** What a controller promises.  [segment] is its MTU and [last_event] the time of the last
    reduction; both are private to the implementations. *)
Class ControllerSpec (T : Type) `{CongestionController T} := {
  segment : T → Z;
  last_event : T → option Z;
  (** An acknowledgement never shrinks the window, and enlarges it by no more than the
      bytes it acknowledges (or by one byte). *)
  ack_growth c b rtt now :
    0 < segment c → 0 ≤ cwnd c → 0 ≤ b →
    cwnd c + Z.max 1 b < 2 ^ 64 → segment c * b < 2 ^ 64 →
    ∃ c', on_packet_acked b rtt now c = Ok c'
      ∧ cwnd c ≤ cwnd c' ≤ cwnd c + Z.max 1 b
      ∧ ssthresh c' = ssthresh c ∧ segment c' = segment c ∧ last_event c' = last_event c;
  (** At most one reduction per round trip. *)
  event_once c rtt now :
    within_rtt (last_event c) rtt now = true → on_congestion_event rtt now c = c;
  (** A reduction sets window and threshold to the same value, at least two segments and
      otherwise no larger than the window was. *)
  event_reduces c rtt now :
    within_rtt (last_event c) rtt now = false → u_ok 64 (cwnd c) → 0 < segment c < 2 ^ 63 →
    let c' := on_congestion_event rtt now c in
    cwnd c' = ssthresh c' ∧ 2 * segment c ≤ cwnd c' ≤ Z.max (cwnd c) (2 * segment c)
    ∧ segment c' = segment c ∧ last_event c' = Some now;
  set_mtu_spec v c :
    segment (set_mtu v c) = v ∧ cwnd (set_mtu v c) = cwnd c ∧ ssthresh (set_mtu v c) = ssthresh c
    ∧ last_event (set_mtu v c) = last_event c;
}.

Lemma additive_increase_bound mtu b w :
  0 < mtu → 0 ≤ b → mtu * b < 2 ^ 64 →
  ∃ i, additive_increase mtu b w = Ok i ∧ 0 ≤ i ≤ b.
Proof.
  intros Hm Hb Ho. unfold additive_increase, udiv, wrap.
  rewrite Z.mod_small by nia. destruct (_ =? 0) eqn:E; to_prop; [lia|]. eexists. split; [done|].
  split; [apply Z.div_pos; nia|]. apply Z.div_le_upper_bound; nia.
Qed.

Lemma wrap_id w x : u_ok w x → wrap w x = x.
Proof. intros [? ?]. unfold wrap. by apply Z.mod_small. Qed.

Lemma if_true_eq {A} {b : bool} {x y : A} : b = true → (if b then x else y) = x.
Proof. by intros ->. Qed.

(** The fields the window arithmetic reads are not touched by the cubic bookkeeping. *)
Definition same_window (c c' : CubicController) : Prop :=
  cu_cwnd c' = cu_cwnd c ∧ cu_mtu c' = cu_mtu c ∧ cu_ssthresh c' = cu_ssthresh c
  ∧ cu_last_congestion_time c' = cu_last_congestion_time c.

Lemma update_target_window `{Libm} rtt now c :
  same_window c (update_target rtt now (start_epoch now c)).
Proof.
  unfold update_target, start_epoch.
  repeat case_match; done.
Qed.

Lemma fast_convergence_window p b c : same_window c (fast_convergence p b c).
Proof. unfold fast_convergence. by case_match. Qed.

Lemma cubic_ack_growth `{Libm} c b rtt now :
  0 < cu_mtu c → 0 ≤ cu_cwnd c → 0 ≤ b →
  cu_cwnd c + Z.max 1 b < 2 ^ 64 → cu_mtu c * b < 2 ^ 64 →
  ∃ c', cubic_on_packet_acked b rtt now c = Ok c'
    ∧ cu_cwnd c ≤ cu_cwnd c' ≤ cu_cwnd c + Z.max 1 b
    ∧ cu_ssthresh c' = cu_ssthresh c ∧ cu_mtu c' = cu_mtu c
    ∧ cu_last_congestion_time c' = cu_last_congestion_time c.
Proof.
  intros Hm Hw Hb Ho Hp. unfold cubic_on_packet_acked.
  destruct (cu_cwnd c <? cu_ssthresh c) eqn:Ess.
  { destruct c. eexists. split; [done|]. cbn in *. rewrite wrap_id by (split; lia).
    split_and!; lia || done. }
  destruct (update_target_window rtt now c) as (W2&M2&S2&L2).
  set (c2 := update_target _ _ _) in *. clearbody c2.
  destruct (additive_increase_bound (cu_mtu c2) b (cu_cwnd c2)) as (i & -> & Hi); [congruence || lia..|].
  destruct c, c2. cbn in *. subst.
  match goal with |- context [if ?b then _ else _] => destruct b eqn:Et end; to_prop.
  all: eexists; split; [done|]; cbn; rewrite wrap_id by (split; lia); split_and!; lia || done.
Qed.

Lemma cubic_event_reduces `{Libm} c rtt now :
  within_rtt (cu_last_congestion_time c) rtt now = false → u_ok 64 (cu_cwnd c) → 0 < cu_mtu c < 2 ^ 63 →
  let c' := cubic_on_congestion_event rtt now c in
  cu_cwnd c' = cu_ssthresh c' ∧ 2 * cu_mtu c ≤ cu_cwnd c' ≤ Z.max (cu_cwnd c) (2 * cu_mtu c)
  ∧ cu_mtu c' = cu_mtu c ∧ cu_last_congestion_time c' = Some now.
Proof.
  intros E Hw Hm. unfold cubic_on_congestion_event. rewrite E.
  pose proof (scale_070_le (cu_cwnd c) Hw) as S.
  set (c0 := c <| cu_last_congestion_time := Some now |>).
  destruct (fast_convergence_window (f_div (f_of (cu_cwnd c0)) (f_of (cu_mtu c0))) (f_lit 7 10) c0)
    as (W1&M1&_&L1).
  set (c1 := fast_convergence _ _ _) in *. clearbody c1. subst c0.
  destruct c, c1. cbn in *. subst. rewrite wrap_id by (split; lia). split_and!; try done; lia.
Qed.

#[export] Instance cubic_spec `{Libm} : ControllerSpec CubicController := {|
  segment := cu_mtu;
  last_event := cu_last_congestion_time;
  ack_growth := cubic_ack_growth;
  event_once c rtt now E := if_true_eq E;
  event_reduces := cubic_event_reduces;
  set_mtu_spec v c := conj eq_refl (conj eq_refl (conj eq_refl eq_refl));
|}.

Lemma reno_ack_growth c b rtt now :
  0 < re_mtu c → 0 ≤ re_cwnd c → 0 ≤ b →
  re_cwnd c + Z.max 1 b < 2 ^ 64 → re_mtu c * b < 2 ^ 64 →
  ∃ c', reno_on_packet_acked b rtt now c = Ok c'
    ∧ re_cwnd c ≤ re_cwnd c' ≤ re_cwnd c + Z.max 1 b
    ∧ re_ssthresh c' = re_ssthresh c ∧ re_mtu c' = re_mtu c
    ∧ re_last_congestion_time c' = re_last_congestion_time c.
Proof.
  intros Hm Hw Hb Ho Hp. unfold reno_on_packet_acked.
  destruct (re_cwnd c <? re_ssthresh c) eqn:Ess.
  { destruct c. eexists. split; [done|]. cbn in *. rewrite wrap_id by (split; lia).
    split_and!; lia || done. }
  destruct (additive_increase_bound (re_mtu c) b (re_cwnd c)) as (i & -> & Hi); [lia..|].
  destruct c. eexists. split; [done|]. cbn in *. rewrite wrap_id by (split; lia). split_and!; lia || done.
Qed.

Lemma reno_event_reduces c rtt now :
  within_rtt (re_last_congestion_time c) rtt now = false → u_ok 64 (re_cwnd c) → 0 < re_mtu c < 2 ^ 63 →
  let c' := reno_on_congestion_event rtt now c in
  re_cwnd c' = re_ssthresh c' ∧ 2 * re_mtu c ≤ re_cwnd c' ≤ Z.max (re_cwnd c) (2 * re_mtu c)
  ∧ re_mtu c' = re_mtu c ∧ re_last_congestion_time c' = Some now.
Proof.
  intros E [Hw0 Hw] Hm. unfold reno_on_congestion_event. rewrite E. destruct c. cbn in *.
  rewrite wrap_id by (split; lia). split_and!; try done; try lia.
  apply Z.max_lub; [|lia]. etrans; [apply (Z.div_le_upper_bound _ 2 re_cwnd); lia|lia].
Qed.

#[export] Instance reno_spec : ControllerSpec RenoController := {|
  segment := re_mtu;
  last_event := re_last_congestion_time;
  ack_growth := reno_ack_growth;
  event_once c rtt now E := if_true_eq E;
  event_reduces := reno_event_reduces;
  set_mtu_spec v c := conj eq_refl (conj eq_refl (conj eq_refl eq_refl));
|}.

(** The boxed controller keeps the contract because both implementations do. *)
#[export] Instance boxed_spec `{Libm} : ControllerSpec BoxedController.
Proof.
  refine {|
    segment c := match c with BoxCubic c => segment c | BoxReno c => segment c end;
    last_event c := match c with BoxCubic c => last_event c | BoxReno c => last_event c end;
  |}.
  - intros [c|c] b rtt now Hm Hw Hb Ho Hp; cbn [cwnd ssthresh on_packet_acked boxed_controller] in *;
      destruct (ack_growth c b rtt now Hm Hw Hb Ho Hp) as (c' & -> & ?); by eexists.
  - intros [c|c] rtt now E; cbn [on_congestion_event boxed_controller]; f_equal; by apply event_once.
  - intros [c|c] rtt now E Hw Hm; exact (event_reduces c rtt now E Hw Hm).
  - intros v [c|c]; exact (set_mtu_spec v c).
Defined.

(** ** Sequences of events *)

Inductive cc_event := Acked (bytes rtt now : Z) | Congested (rtt now : Z).

Definition cc_step {T} `{CongestionController T} (r : res T) (e : cc_event) : res T :=
  c ← r;
  match e with
  | Acked b rtt now => on_packet_acked b rtt now c
  | Congested rtt now => Ok (on_congestion_event rtt now c)
  end.

(** The most the events can add to the window. *)
Definition credit (e : cc_event) : Z := match e with Acked b _ _ => Z.max 1 b | Congested _ _ => 0 end.
Definition credits (es : list cc_event) : Z := foldr (λ e a, credit e + a) 0 es.
Definition event_ok (e : cc_event) : Prop := match e with Acked b _ _ => 0 ≤ b < 2 ^ 40 | _ => True end.

Lemma cc_step_bounds {T} `{ControllerSpec T} c e :
  0 < segment c < 2 ^ 16 → 0 ≤ cwnd c → cwnd c + credit e < 2 ^ 64 → event_ok e →
  ∃ c', cc_step (Ok c) e = Ok c' ∧ segment c' = segment c
    ∧ Z.min (cwnd c) (2 * segment c) ≤ cwnd c' ≤ Z.max (cwnd c) (2 * segment c) + credit e.
Proof.
  intros Hs Hw Hc Ho. destruct e as [b rtt now|rtt now]; cbn [cc_step mbind res_bind credit event_ok] in *.
  - destruct (ack_growth c b rtt now) as (c' & -> & ? & _ & ? & _); [lia..|nia|]. eexists. split; [done|].
    split; [done|lia].
  - eexists. split; [done|]. destruct (within_rtt (last_event c) rtt now) eqn:E.
    + rewrite event_once by done. split; [done|lia].
    + destruct (event_reduces c rtt now E) as (_ & ? & ? & _); [split; lia|lia|]. split; [done|lia].
Qed.

Lemma credit_nonneg e : 0 ≤ credit e.
Proof. destruct e; simpl; lia. Qed.
Lemma credits_nonneg es : 0 ≤ credits es.
Proof. induction es as [|e es IH]; simpl; [lia|]. pose proof (credit_nonneg e). lia. Qed.


