(* ===== verification/Connection.v ===== *)
(** * Connection state
    (src/src/transport/connection.rs, state/stream_state.rs, state/space.rs and
    state/connection_state.rs)

    [ZtConnection] is everything a connection owns; [StreamState] is its part for one
    stream.  What is shared with the application's handles is kept as the value last
    written: [window_opened] is the permit stored in a [Notify], [app_data] the chunks sent
    on a stream's channel and [app_tx] whether its sender is still held. *)

From Stdlib Require Import SpecFloat.
From S2P Require Import Prelude Errors Config StreamType Bitmap ReplayWindow AckTracker Unacked StreamBuffer.
From S2P Require Import Cookie CryptoContext Float Congestion Termination.

(** [enum ConnectionState]. *)
Inductive ConnectionState := Handshaking | Active | Closing | Closed.

#[export] Instance ConnectionState_eq_dec : EqDecision ConnectionState.
Proof. solve_decision. Defined.
#[export] Instance SocketAddr_eq_dec : EqDecision SocketAddr.
Proof. intros a b. unfold Decision. decide equality; [apply Z.eq_dec|]. decide equality; apply list_eq_dec. Defined.

Set Primitive Projections.
(** stream_state.rs, [struct StreamState]. *)
Record StreamState := mkStreamState {
  expected_rx_offset : Z;
  next_tx_offset : Z;
  receive_buffer : StreamReceiveBuffer;
  window_size : Z;
  tx_window : Z;
  buffered_bytes : Z;
  window_opened : bool;
  app_tx : bool;
  app_data : list bytes;
  stream_termination : Termination;
  highest_rx_offset : Z;
  final_rx_offset : option Z;
  send_stopped_error : option Z;
  last_sent_max_data : Z;
  last_window_update : Z;
  bytes_read_in_epoch : Z;
  stream_type : StreamType;
}.

(** space.rs, [struct PacketSpace]. *)
Record PacketSpace := mkPacketSpace {
  sp_next_packet_number : Z;
  sp_unacked_packets : UnackedWindow;
  sp_replay_window : Window;
  sp_crypto : option CryptoContext;
}.

(** connection.rs, [struct ZtConnection]. *)
Record ZtConnection := mkZtConnection {
  addr : SocketAddr;
  dcid : bytes;
  scid : bytes;
  state : ConnectionState;
  next_packet_number : Z;
  crypto : option CryptoContext;
  initial_space : PacketSpace;
  handshake_space : PacketSpace;
  app_space : PacketSpace;
  streams : gmap Z StreamState;
  mtu_probes : gmap Z Z;
  unacked_packets : UnackedWindow;
  rtt : Z;
  rttvar : Z;
  rtt_initialized : bool;
  local_window : Z;
  remote_window : Z;
  cc : BoxedController;
  pacing_tokens : f64;
  last_pacing_update : option Z;
  bytes_in_flight : Z;
  mtu : Z;
  shared_mtu : Z;
  mtu_min : Z;
  mtu_max : Z;
  base_mtu : Z;
  bytes_received : Z;
  bytes_sent : Z;
  conn_tx_offset : Z;
  unpaced_queue : list (UnackedPayload.t * Z);
  queued_bytes : Z;
  replay_window : Window;
  ack_tracker : Window;
  current_key_epoch : Z;
  packets_since_key_update : Z;
  cookie : option bytes;
  handshake_packet : option bytes;
  is_closed : bool;
  largest_acked_received_at : option Z;
  local_max_streams : Z;
  peer_max_streams : Z;
  peer_initial_stream_window : Z;
  peer_max_datagram_size : Z;
  idle_timeout : Z;
  termination : Termination;
  packets_lost : Z;
  packets_retransmitted : Z;
  mtu_probe_successes : Z;
  mtu_probe_failures : Z;
  mtu_blackhole_recoveries : Z;
}.
Unset Primitive Projections.

#[export] Instance upd_expected_rx_offset : Upd expected_rx_offset := ltac:(derive_upd expected_rx_offset).
#[export] Instance upd_next_tx_offset : Upd next_tx_offset := ltac:(derive_upd next_tx_offset).
#[export] Instance upd_receive_buffer : Upd receive_buffer := ltac:(derive_upd receive_buffer).
#[export] Instance upd_window_size : Upd window_size := ltac:(derive_upd window_size).
#[export] Instance upd_tx_window : Upd tx_window := ltac:(derive_upd tx_window).
#[export] Instance upd_buffered_bytes : Upd buffered_bytes := ltac:(derive_upd buffered_bytes).
#[export] Instance upd_window_opened : Upd window_opened := ltac:(derive_upd window_opened).
#[export] Instance upd_app_tx : Upd app_tx := ltac:(derive_upd app_tx).
#[export] Instance upd_app_data : Upd app_data := ltac:(derive_upd app_data).
#[export] Instance upd_stream_termination : Upd stream_termination := ltac:(derive_upd stream_termination).
#[export] Instance upd_highest_rx_offset : Upd highest_rx_offset := ltac:(derive_upd highest_rx_offset).
#[export] Instance upd_final_rx_offset : Upd final_rx_offset := ltac:(derive_upd final_rx_offset).
#[export] Instance upd_send_stopped_error : Upd send_stopped_error := ltac:(derive_upd send_stopped_error).
#[export] Instance upd_last_sent_max_data : Upd last_sent_max_data := ltac:(derive_upd last_sent_max_data).
#[export] Instance upd_last_window_update : Upd last_window_update := ltac:(derive_upd last_window_update).
#[export] Instance upd_bytes_read_in_epoch : Upd bytes_read_in_epoch := ltac:(derive_upd bytes_read_in_epoch).
#[export] Instance upd_stream_type : Upd stream_type := ltac:(derive_upd stream_type).
#[export] Instance upd_addr : Upd addr := ltac:(derive_upd addr).
#[export] Instance upd_dcid : Upd dcid := ltac:(derive_upd dcid).
#[export] Instance upd_scid : Upd scid := ltac:(derive_upd scid).
#[export] Instance upd_state : Upd state := ltac:(derive_upd state).
#[export] Instance upd_next_packet_number : Upd next_packet_number := ltac:(derive_upd next_packet_number).
#[export] Instance upd_crypto : Upd crypto := ltac:(derive_upd crypto).
#[export] Instance upd_initial_space : Upd initial_space := ltac:(derive_upd initial_space).
#[export] Instance upd_handshake_space : Upd handshake_space := ltac:(derive_upd handshake_space).
#[export] Instance upd_app_space : Upd app_space := ltac:(derive_upd app_space).
#[export] Instance upd_streams : Upd streams := ltac:(derive_upd streams).
#[export] Instance upd_mtu_probes : Upd mtu_probes := ltac:(derive_upd mtu_probes).
#[export] Instance upd_unacked_packets : Upd unacked_packets := ltac:(derive_upd unacked_packets).
#[export] Instance upd_rtt : Upd rtt := ltac:(derive_upd rtt).
#[export] Instance upd_rttvar : Upd rttvar := ltac:(derive_upd rttvar).
#[export] Instance upd_rtt_initialized : Upd rtt_initialized := ltac:(derive_upd rtt_initialized).
#[export] Instance upd_local_window : Upd local_window := ltac:(derive_upd local_window).
#[export] Instance upd_remote_window : Upd remote_window := ltac:(derive_upd remote_window).
#[export] Instance upd_cc : Upd cc := ltac:(derive_upd cc).
#[export] Instance upd_pacing_tokens : Upd pacing_tokens := ltac:(derive_upd pacing_tokens).
#[export] Instance upd_last_pacing_update : Upd last_pacing_update := ltac:(derive_upd last_pacing_update).
#[export] Instance upd_bytes_in_flight : Upd bytes_in_flight := ltac:(derive_upd bytes_in_flight).
#[export] Instance upd_mtu : Upd mtu := ltac:(derive_upd mtu).
#[export] Instance upd_shared_mtu : Upd shared_mtu := ltac:(derive_upd shared_mtu).
#[export] Instance upd_mtu_min : Upd mtu_min := ltac:(derive_upd mtu_min).
#[export] Instance upd_mtu_max : Upd mtu_max := ltac:(derive_upd mtu_max).
#[export] Instance upd_base_mtu : Upd base_mtu := ltac:(derive_upd base_mtu).
#[export] Instance upd_bytes_received : Upd bytes_received := ltac:(derive_upd bytes_received).
#[export] Instance upd_bytes_sent : Upd bytes_sent := ltac:(derive_upd bytes_sent).
#[export] Instance upd_conn_tx_offset : Upd conn_tx_offset := ltac:(derive_upd conn_tx_offset).
#[export] Instance upd_unpaced_queue : Upd unpaced_queue := ltac:(derive_upd unpaced_queue).
#[export] Instance upd_queued_bytes : Upd queued_bytes := ltac:(derive_upd queued_bytes).
#[export] Instance upd_replay_window : Upd replay_window := ltac:(derive_upd replay_window).
#[export] Instance upd_ack_tracker : Upd ack_tracker := ltac:(derive_upd ack_tracker).
#[export] Instance upd_current_key_epoch : Upd current_key_epoch := ltac:(derive_upd current_key_epoch).
#[export] Instance upd_packets_since_key_update : Upd packets_since_key_update := ltac:(derive_upd packets_since_key_update).
#[export] Instance upd_cookie : Upd cookie := ltac:(derive_upd cookie).
#[export] Instance upd_handshake_packet : Upd handshake_packet := ltac:(derive_upd handshake_packet).
#[export] Instance upd_is_closed : Upd is_closed := ltac:(derive_upd is_closed).
#[export] Instance upd_largest_acked_received_at : Upd largest_acked_received_at := ltac:(derive_upd largest_acked_received_at).
#[export] Instance upd_local_max_streams : Upd local_max_streams := ltac:(derive_upd local_max_streams).
#[export] Instance upd_peer_max_streams : Upd peer_max_streams := ltac:(derive_upd peer_max_streams).
#[export] Instance upd_peer_initial_stream_window : Upd peer_initial_stream_window := ltac:(derive_upd peer_initial_stream_window).
#[export] Instance upd_peer_max_datagram_size : Upd peer_max_datagram_size := ltac:(derive_upd peer_max_datagram_size).
#[export] Instance upd_idle_timeout : Upd idle_timeout := ltac:(derive_upd idle_timeout).
#[export] Instance upd_termination : Upd termination := ltac:(derive_upd termination).
#[export] Instance upd_packets_lost : Upd packets_lost := ltac:(derive_upd packets_lost).
#[export] Instance upd_packets_retransmitted : Upd packets_retransmitted := ltac:(derive_upd packets_retransmitted).
#[export] Instance upd_mtu_probe_successes : Upd mtu_probe_successes := ltac:(derive_upd mtu_probe_successes).
#[export] Instance upd_mtu_probe_failures : Upd mtu_probe_failures := ltac:(derive_upd mtu_probe_failures).
#[export] Instance upd_mtu_blackhole_recoveries : Upd mtu_blackhole_recoveries := ltac:(derive_upd mtu_blackhole_recoveries).
#[export] Instance upd_sp_next_packet_number : Upd sp_next_packet_number := ltac:(derive_upd sp_next_packet_number).

(** ** Streams *)

(** [StreamState::new]; [now] is the [Instant::now()] it takes. *)
Definition new_stream (ty : StreamType) (receive_window transmit_window now : Z) : StreamState :=
  let window_size := receive_window in
  {| expected_rx_offset := 0; next_tx_offset := 0;
     receive_buffer := new_buffer window_size;
     window_size := window_size; tx_window := transmit_window; buffered_bytes := 0;
     window_opened := false; app_tx := true; app_data := [];
     stream_termination := termination_default;
     highest_rx_offset := 0; final_rx_offset := None; send_stopped_error := None;
     last_sent_max_data := window_size; last_window_update := now; bytes_read_in_epoch := 0;
     stream_type := ty |}.

(** [StreamState::signal_window_opened]: the waiters are woken and a permit is stored. *)
Definition signal_window_opened (s : StreamState) : StreamState := s <| window_opened := true |>.

(** [for stream in self.streams.values() { stream.signal_window_opened(); }]. *)
Definition signal_all (c : ZtConnection) : ZtConnection := c <| streams ::= fmap signal_window_opened |>.

(** ** Packet spaces *)

(** [PacketSpace::new] and [PacketSpace::get_next_packet_number]. *)
Definition new_space : PacketSpace := mkPacketSpace 0 Window.new new_window None.
Definition space_next_packet_number (s : PacketSpace) : res Z * PacketSpace :=
  let n := sp_next_packet_number s in
  match checked_add 64 n 1 with
  | Some n' => (Ok n, s <| sp_next_packet_number := n' |>)
  | None => (Err PacketNumberOverflow, s)
  end.

(** ** Connections *)

(** [ZtConnection::new_with_config]. *)
Definition new_with_config (addr : SocketAddr) (scid dcid : bytes) (config : ZtConfig) : ZtConnection :=
  let mtu := cfg_mtu_min config in
  let initial_cwnd := wrap 64 (10 * mtu) in
  {| addr := addr; dcid := dcid; scid := scid; state := Handshaking;
     next_packet_number := 0; crypto := None;
     initial_space := new_space; handshake_space := new_space; app_space := new_space;
     streams := ∅; mtu_probes := ∅; unacked_packets := Window.new;
     rtt := from_millis 333; rttvar := from_millis 166; rtt_initialized := false;
     local_window := cfg_initial_max_data config; remote_window := cfg_initial_max_data config;
     cc := new_controller (cc_algorithm config) initial_cwnd mtu;
     pacing_tokens := f_of initial_cwnd; last_pacing_update := None; bytes_in_flight := 0;
     mtu := mtu; shared_mtu := mtu; mtu_min := cfg_mtu_min config; mtu_max := cfg_mtu_max config;
     base_mtu := cfg_mtu_min config; bytes_received := 0; bytes_sent := 0; conn_tx_offset := 0;
     unpaced_queue := []; queued_bytes := 0;
     replay_window := new_window; ack_tracker := ack_new;
     current_key_epoch := 0; packets_since_key_update := 0; cookie := None;
     handshake_packet := None; is_closed := false; largest_acked_received_at := None;
     local_max_streams := max_concurrent_streams config;
     peer_max_streams := max_concurrent_streams config;
     peer_initial_stream_window := cfg_initial_stream_window config;
     peer_max_datagram_size := sat_sub (cfg_mtu_min config) 64;
     idle_timeout := cfg_idle_timeout config; termination := termination_default;
     packets_lost := 0; packets_retransmitted := 0; mtu_probe_successes := 0;
     mtu_probe_failures := 0; mtu_blackhole_recoveries := 0 |}.

(** [ZtConnection::new_with_cc] and [ZtConnection::new]. *)
Definition config_with_cc (cc_algo : CongestionControlAlgorithm) : ZtConfig :=
  let d := config_default in
  mkZtConfig (connect_timeout d) (cfg_idle_timeout d) (max_concurrent_streams d) (cfg_alpn d)
    (cfg_initial_stream_window d) (max_stream_window d) (cfg_initial_max_data d)
    (max_connection_buffer d) (cfg_mtu_min d) (cfg_mtu_max d) (mtu_probe_interval d)
    (cookie_max_age_ms d) (key_update_packet_interval d) (cfg_psk d)
    (max_path_validation_retries d) cc_algo.
Definition new_with_cc (addr : SocketAddr) (scid dcid : bytes) (cc_algo : CongestionControlAlgorithm)
    : ZtConnection :=
  new_with_config addr scid dcid (config_with_cc cc_algo).
Definition new_connection (addr : SocketAddr) (scid dcid : bytes) : ZtConnection :=
  new_with_cc addr scid dcid Cubic.

(** [ZtConnection::get_next_packet_number]. *)
Definition get_next_packet_number (c : ZtConnection) : res Z * ZtConnection :=
  let n := next_packet_number c in
  match checked_add 64 n 1 with
  | Some n' => (Ok n, c <| next_packet_number := n' |>)
  | None => (Err PacketNumberOverflow, c)
  end.

(** The values of a [HashMap], for a sum over them. *)
Definition sum_streams (f : StreamState → Z) (m : gmap Z StreamState) : Z :=
  map_fold (λ _ s acc, f s + acc) 0 m.

(** [ZtConnection::get_total_buffered_bytes]. *)
Definition get_total_buffered_bytes (c : ZtConnection) : Z :=
  wrap 64 (sum_streams buffered_bytes (streams c)).

(** [ZtConnection::total_allocated_buffer_size]: a saturating sum. *)
Definition total_allocated_buffer_size (c : ZtConnection) : Z :=
  Z.min (u_max 64) (sum_streams (λ s, allocated_size (receive_buffer s)) (streams c)).

Section mtu.
Context `{LM : Libm}.

(** [ZtConnection::record_mtu_probe_success]. *)
Definition record_mtu_probe_success (target_size : Z) (c : ZtConnection) : ZtConnection :=
  let c := c <| mtu_probe_successes ::= λ n, sat_add 64 n 1 |> in
  let c := c <| mtu_min ::= λ m, Z.max m target_size |> in
  if mtu c <? target_size then
    let c := c <| mtu := target_size |> in
    let c := c <| shared_mtu := target_size |> in
    c <| cc ::= set_mtu target_size |>
  else c.

(** [ZtConnection::record_mtu_probe_failure]. *)
Definition record_mtu_probe_failure (target_size : Z) (c : ZtConnection) : ZtConnection :=
  let c := c <| mtu_probe_failures ::= λ n, sat_add 64 n 1 |> in
  c <| mtu_max ::= λ m, Z.min m (sat_sub target_size 1) |>.

(** [ZtConnection::recover_mtu_blackhole]. *)
Definition recover_mtu_blackhole (c : ZtConnection) : bool * ZtConnection :=
  if mtu c <=? base_mtu c then (false, c)
  else
    let previous_mtu := mtu c in
    let c := c <| mtu := base_mtu c |> in
    let c := c <| mtu_min := base_mtu c |> in
    let c := c <| mtu_max := Z.max (sat_sub previous_mtu 1) (base_mtu c) |> in
    let c := c <| shared_mtu := base_mtu c |> in
    let c := c <| cc ::= set_mtu (base_mtu c) |> in
    let c := c <| mtu_blackhole_recoveries ::= λ n, sat_add 64 n 1 |> in
    (true, c).
End mtu.

(** congestion.rs, [ZtConnection::is_replay]. *)
Definition conn_is_replay (c : ZtConnection) (pn : Z) : bool := is_replay pn (replay_window c).

(** congestion.rs, [ZtConnection::mark_processed]. *)
Definition conn_mark_processed (pn now : Z) (c : ZtConnection) : ZtConnection :=
  let is_new_highest := match highest_processed (ack_tracker c) with
                        | None => true | Some h => h <=? pn end in
  let c := if is_new_highest then c <| largest_acked_received_at := Some now |> else c in
  let c := c <| replay_window ::= mark_processed pn |> in
  c <| ack_tracker ::= ack_mark_processed pn |>.

(** congestion.rs, [ZtConnection::get_ack_ranges]. *)
Definition conn_get_ack_ranges (c : ZtConnection) : list (Z * Z) := get_ack_ranges (ack_tracker c).
