(* ===== verification/AckHandling.v ===== *)
(** * Acknowledgement processing (src/src/transport/congestion.rs, [handle_ack])

    [handle_ack] removes acknowledged packets, declares losses, updates the round-trip
    estimate and the congestion window and wakes blocked writers.  The clock readings it
    takes are arguments: [t_sample] is the one [elapsed()] of the first packet sampled and
    [now] the [Instant::now()] of loss detection. *)

From S2P Require Import Prelude Errors Config Unacked Float Congestion Connection.

(** The local variables of the two acknowledgement loops. *)
Record AckAcc := mkAckAcc {
  bytes_acked : Z;
  bytes_in_flight_acked : Z;
  sample_rtt : option Z;
}.

Section handle_ack.
Context `{LM : Libm}.

(** What both loops do with a removed packet. *)
Definition count_acked (t_sample : Z) (up : UnackedPacket) (a : AckAcc) : AckAcc := {|
  bytes_acked := if up_is_mtu_probe up then bytes_acked a
                 else bytes_acked a + UnackedPayload.payload_len (up_payload up);
  bytes_in_flight_acked := bytes_in_flight_acked a + up_sent_bytes up;
  sample_rtt := match sample_rtt a with
                | None => if up_retries up =? 0 then Some (duration_since t_sample (up_sent_at up))
                          else None
                | Some r => Some r
                end;
|}.

(** An acknowledged MTU probe. *)
Definition probe_acked (pn : Z) (up : UnackedPacket) (c : ZtConnection) : ZtConnection :=
  if up_is_mtu_probe up then
    let known := bool_decide (is_Some (mtu_probes c !! pn)) in
    let c := c <| mtu_probes ::= delete pn |> in
    let new_mtu := UnackedPayload.payload_len (up_payload up) in
    if known && (mtu c <? new_mtu) then record_mtu_probe_success new_mtu c else c
  else c.

(** The body of [for pn in lower..=upper]. *)
Definition sack_one (t_sample : Z) (st : ZtConnection * AckAcc) (pn : Z) : ZtConnection * AckAcc :=
  let '(c, a) := st in
  let '(r, w) := Window.remove pn (unacked_packets c) in
  let c := c <| unacked_packets := w |> in
  match r with
  | Some up => (probe_acked pn up c, count_acked t_sample up a)
  | None => (c, a)
  end.

(** The body of [for &(start, end) in sack_ranges]. *)
Definition sack_range (t_sample : Z) (st : ZtConnection * AckAcc) (r : Z * Z) : ZtConnection * AckAcc :=
  let '(c, a) := st in
  let '(start, end_) := r in
  let w := unacked_packets c in
  let lower := Z.max start (base_pn w) in
  let upper := Z.min end_ (base_pn w + len (deque w)) in
  if lower <=? upper then foldl (sack_one t_sample) (c, a) (seqZ lower (upper - lower + 1)) else (c, a).

(** [for (pn, _) in iter { if pn < bound { push(pn) } else { break } }]. *)
Fixpoint keys_below (bound : Z) (l : list (Z * UnackedPacket)) : list Z :=
  match l with
  | (pn, _) :: l => if pn <? bound then pn :: keys_below bound l else []
  | [] => []
  end.

(** The body of [for pn in cumulative_acked]. *)
Definition cumulative_one (t_sample : Z) (st : ZtConnection * AckAcc) (pn : Z) : ZtConnection * AckAcc :=
  let '(c, a) := st in
  let '(r, w) := Window.remove pn (unacked_packets c) in
  let c := c <| unacked_packets := w |> in
  match r with
  | Some up => (c, count_acked t_sample up a)
  | None => (c, a)
  end.

(** The collection of [lost_pns]. *)
Fixpoint find_lost (largest_acked_pn time_threshold now : Z) (l : list (Z * UnackedPacket)) : list Z :=
  match l with
  | (pn, up) :: l =>
      if pn <? largest_acked_pn then
        let packet_threshold := wrap 64 (pn + 3) <=? largest_acked_pn in
        let time_threshold_met := time_threshold <? duration_since now (up_sent_at up) in
        if packet_threshold || time_threshold_met
        then pn :: find_lost largest_acked_pn time_threshold now l
        else find_lost largest_acked_pn time_threshold now l
      else []
  | [] => []
  end.

(** The local variables of the loss loop. *)
Record LossAcc := mkLossAcc {
  loss_detected : bool;
  fast_retransmits : list (UnackedPayload.t * Z);
}.

(** The body of [for pn in lost_pns]. *)
Definition lose_one (st : ZtConnection * LossAcc) (pn : Z) : ZtConnection * LossAcc :=
  let '(c, a) := st in
  let '(r, w) := Window.remove pn (unacked_packets c) in
  let c := c <| unacked_packets := w |> in
  match r with
  | Some up =>
      let c := c <| bytes_in_flight ::= λ b, sat_sub b (up_sent_bytes up) |> in
      if up_is_mtu_probe up then
        let c := c <| mtu_probes ::= delete pn |> in
        match up_payload up with
        | UnackedPayload.MtuProbe target_size => (record_mtu_probe_failure target_size c, a)
        | _ => (c, a)
        end
      else
        match up_payload up with
        | UnackedPayload.Datagram _ => (c, mkLossAcc true (fast_retransmits a))
        | p => (c, mkLossAcc true (fast_retransmits a ++ [(p, up_retries up)]))
        end
  | None => (c, a)
  end.

(** The round-trip estimator. *)
Definition update_rtt (sample : option Z) (ack_delay_us : Z) (c : ZtConnection) : ZtConnection :=
  match sample with
  | None => c
  | Some r =>
      let ack_delay := from_micros ack_delay_us in
      let r := if ack_delay <? r then r - ack_delay else r in
      if negb (rtt_initialized c) then
        let c := c <| rtt := r |> in
        let c := c <| rttvar := r / 2 |> in
        c <| rtt_initialized := true |>
      else
        let error := Z.abs (rtt c - r) in
        let c := c <| rttvar ::= λ v, (v * 3 + error) / 4 |> in
        c <| rtt ::= λ v, (v * 7 + r) / 8 |>
  end.

(** What [handle_ack] does once the losses are known: congestion response, bytes in flight,
    round-trip time, window growth, the peer's window. *)
Definition finish_ack (window_size ack_delay_us now : Z) (a : AckAcc) (loss_detected : bool)
    (c : ZtConnection) : res ZtConnection :=
  let c := if loss_detected then c <| cc ::= on_congestion_event (rtt c) now |> else c in
  let c := c <| bytes_in_flight ::= λ b, sat_sub b (bytes_in_flight_acked a) |> in
  let c := update_rtt (sample_rtt a) ack_delay_us c in
  c ← (if 0 <? bytes_acked a then
         cc' ← on_packet_acked (bytes_acked a) (rtt c) now (cc c);
         Ok (c <| cc := cc' |>)
       else Ok c);
  let old_remote_window := remote_window c in
  let c := c <| remote_window := window_size |> in
  let c := if (old_remote_window <? window_size) || (0 <? bytes_acked a) then signal_all c else c in
  Ok c.

(** [ZtConnection::handle_ack]: the fast retransmits it collects, and the connection after. *)
Definition handle_ack (largest_acked_pn window_size ack_delay_us : Z) (sack_ranges : list (Z * Z))
    (t_sample now : Z) (c : ZtConnection) : res (list (UnackedPayload.t * Z) * ZtConnection) :=
  let '(c, a) := foldl (sack_range t_sample) (c, mkAckAcc 0 0 None) sack_ranges in
  let oldest_tracked := sat_sub largest_acked_pn 2047 in
  let cumulative_acked := keys_below oldest_tracked (Window.iter (unacked_packets c)) in
  let '(c, a) := foldl (cumulative_one t_sample) (c, a) cumulative_acked in
  scaled ← mul_f64 (rtt c) (f_lit 125 100);
  let time_threshold := Z.max scaled (from_millis 15) in
  let lost_pns := find_lost largest_acked_pn time_threshold now (Window.iter (unacked_packets c)) in
  let c := c <| packets_lost ::= λ n, sat_add 64 n (len lost_pns) |> in
  let '(c, l) := foldl lose_one (c, mkLossAcc false []) lost_pns in
  c ← finish_ack window_size ack_delay_us now a (loss_detected l) c;
  Ok (fast_retransmits l, c).
End handle_ack.
