(* ===== verification/AckFacts.v ===== *)
(** * Acknowledgement processing: lemmas and theorems

    A packet leaves the in-flight window only for a reason: it was acknowledged, or it was
    declared lost, and then its payload is handed back for retransmission unless it is a
    probe or a datagram. *)

From stdpp Require Import sorting.
From S2P Require Import Prelude Errors Config Unacked Float Congestion CongestionFacts Connection AckHandling.

(** ** Maps of packets in flight *)

Abbreviation packets := (gmap Z UnackedPacket).

(** The bytes in flight, and the payload bytes, of a set of packets. *)
Definition total (f : UnackedPacket → Z) (m : packets) : Z := map_fold (λ _ up acc, f up + acc) 0 m.
Abbreviation flight := (total up_sent_bytes).
Abbreviation load := (total (λ up, UnackedPayload.payload_len (up_payload up))).

Lemma total_empty f : total f ∅ = 0.
Proof. apply map_fold_empty. Qed.

Lemma total_insert f m pn up : m !! pn = None → total f (<[pn := up]> m) = f up + total f m.
Proof. intros. unfold total. rewrite map_fold_insert_L; [done|lia|done]. Qed.

Lemma total_delete f m pn up : m !! pn = Some up → total f m = f up + total f (delete pn m).
Proof.
  intros Hm. rewrite <- (insert_delete_id m pn up) at 1 by done.
  rewrite total_insert; [done|apply lookup_delete_eq].
Qed.

Lemma total_nonneg f m : map_Forall (λ _ up, 0 ≤ f up) m → 0 ≤ total f m.
Proof.
  induction m as [|pn up m Hn IH] using map_ind; [by rewrite total_empty|].
  intros [? ?]%map_Forall_insert; [|done]. rewrite total_insert by done. specialize (IH ltac:(done)). lia.
Qed.

(** [m] without the packets numbered in [pns]. *)
Definition without (pns : list Z) (m : packets) : packets := foldl (λ m pn, delete pn m) m pns.

Lemma lookup_without pns m k : without pns m !! k = if decide (k ∈ pns) then None else m !! k.
Proof.
  revert m. induction pns as [|pn pns IH]; intros m; [done|].
  change (without (pn :: pns) m) with (without pns (delete pn m)). rewrite IH. destruct (decide (k ∈ pns)).
  { rewrite decide_True; [done|]. by apply list_elem_of_further. }
  destruct (decide (k = pn)) as [->|].
  - rewrite lookup_delete_eq, decide_True; [done|]. by apply list_elem_of_here.
  - rewrite lookup_delete_ne, decide_False by (rewrite ?elem_of_cons; naive_solver). done.
Qed.

(** ** Iteration order *)

(** Lists sorted by key with the same elements are equal. *)
Lemma sorted_keys_eq (l k : list (Z * UnackedPacket)) :
  StronglySorted (λ a b, a.1 < b.1) l → StronglySorted (λ a b, a.1 < b.1) k →
  (∀ e, e ∈ l ↔ e ∈ k) → l = k.
Proof.
  intros Sl. revert k. induction Sl as [|x l Sl IH Hx]; intros k Sk E.
  - destruct k as [|y k]; [done|]. destruct (E y) as [_ Hy]. exfalso.
    by eapply not_elem_of_nil, Hy, list_elem_of_here.
  - destruct Sk as [|y k Sk Hy].
    { destruct (E x) as [Ex _]. exfalso. by eapply not_elem_of_nil, Ex, list_elem_of_here. }
    rewrite Forall_forall in Hx, Hy.
    assert (x = y) as ->.
    { destruct (E x) as [Ex _], (E y) as [_ Ey].
      specialize (Ex (list_elem_of_here _ _)). specialize (Ey (list_elem_of_here _ _)).
      apply elem_of_cons in Ex as [?|Ex]; [done|]. apply elem_of_cons in Ey as [?|Ey]; [done|].
      specialize (Hx _ Ey). specialize (Hy _ Ex). lia. }
    f_equal. apply IH; [done|]. intros e. specialize (E e). rewrite !elem_of_cons in E.
    split; intros He; destruct E as [E1 E2].
    + destruct (E1 (or_intror He)) as [->|]; [|done]. specialize (Hx _ He). lia.
    + destruct (E2 (or_intror He)) as [->|]; [|done]. specialize (Hy _ He). lia.
Qed.

Lemma iter_of_filter w w' m m' (P : Z * UnackedPacket → Prop) `{∀ e, Decision (P e)} :
  Window.refines w m → Window.refines w' m' →
  (∀ pn up, m' !! pn = Some up ↔ m !! pn = Some up ∧ P (pn, up)) →
  Window.iter w' = filter P (Window.iter w).
Proof.
  intros R R' E. destruct (Window.refines_iter _ _ R) as [S1 M1], (Window.refines_iter _ _ R') as [S2 M2].
  apply sorted_keys_eq; [done| |].
  - clear -S1. induction S1 as [|x l S IH F]; [constructor|]. rewrite filter_cons. case_decide; [|done].
    constructor; [done|]. rewrite Forall_forall in F |- *. intros y [_ Hy]%list_elem_of_filter. by apply F.
  - intros [pn up]. rewrite list_elem_of_filter, M1, M2, E. tauto.
Qed.

Lemma refines_in_window w m pn up :
  Window.refines w m → m !! pn = Some up → base_pn w ≤ pn < base_pn w + len (deque w).
Proof.
  intros R Hm. rewrite <- (Window.rf_get _ _ R) in Hm. unfold Window.get in Hm.
  destruct (pn <? base_pn w) eqn:E; [done|]. to_prop. split; [done|].
  destruct (deque w !! Z.to_nat (pn - base_pn w)) eqn:El; [|done].
  apply lookup_lt_Some in El. unfold len. lia.
Qed.

(** ** The acknowledgement loops *)

Abbreviation plen up := (UnackedPayload.payload_len (up_payload up)).

Section loops.
Context `{LM : Libm}.

(** The connection's packets in flight are [m], and the controller is usable. *)
Record sound (c : ZtConnection) (m : packets) : Prop := {
  so_window : Window.refines (unacked_packets c) m;
  so_packets : map_Forall (λ _ up, 0 ≤ up_sent_bytes up ∧ 0 ≤ plen up < 2 ^ 16) m;
  so_segment : 0 < segment (cc c) < 2 ^ 16;
  so_mtu : 0 ≤ mtu c;
}.

(** What the acknowledgement loops leave alone. *)
Definition same (c c' : ZtConnection) : Prop :=
  bytes_in_flight c' = bytes_in_flight c ∧ rtt c' = rtt c ∧ cwnd (cc c') = cwnd (cc c).

(** What they count when the packets in flight go from [m] to [m']. *)
Definition counted (a a' : AckAcc) (m m' : packets) : Prop :=
  bytes_in_flight_acked a' + flight m' = bytes_in_flight_acked a + flight m
  ∧ bytes_in_flight_acked a ≤ bytes_in_flight_acked a' ∧ bytes_acked a ≤ bytes_acked a' ∧ bytes_acked a' + load m' ≤ bytes_acked a + load m.

Definition removes (f : ZtConnection * AckAcc → Z → ZtConnection * AckAcc) : Prop :=
  ∀ pn c a m, sound c m →
  let '(c', a') := f (c, a) pn in
  sound c' (delete pn m) ∧ same c c' ∧ counted a a' m (delete pn m).

Lemma removes_fold f pns : removes f → ∀ c a m, sound c m →
  let '(c', a') := foldl f (c, a) pns in
  sound c' (without pns m) ∧ same c c' ∧ counted a a' m (without pns m).
Proof.
  intros F. induction pns as [|pn pns IH]; intros c a m S; simpl.
  { split_and!; try done; unfold counted; lia. }
  specialize (F pn c a m S). destruct (f (c, a) pn) as [c1 a1], F as (S1 & K1 & C1).
  specialize (IH c1 a1 _ S1). destruct (foldl f (c1, a1) pns) as [c2 a2], IH as (S2 & K2 & C2).
  split; [done|]. unfold same, counted in *. destruct_and!. split_and!; congruence || lia.
Qed.

Lemma count_acked_counted t up a m pn :
  map_Forall (λ _ up, 0 ≤ up_sent_bytes up ∧ 0 ≤ plen up < 2 ^ 16) m → m !! pn = Some up →
  counted a (count_acked t up a) m (delete pn m).
Proof.
  intros F Hm. pose proof (F _ _ Hm) as B. simpl in B. unfold counted, count_acked. simpl.
  rewrite (total_delete up_sent_bytes m pn up Hm),
    (total_delete (λ up, UnackedPayload.payload_len (up_payload up)) m pn up Hm).
  destruct (up_is_mtu_probe up); lia.
Qed.

Lemma sound_delete c m pn :
  sound c m →
  sound (c <| unacked_packets := (Window.remove pn (unacked_packets c)).2 |>) (delete pn m)
  ∧ (Window.remove pn (unacked_packets c)).1 = m !! pn.
Proof.
  intros [R P G M]. destruct (Window.refines_remove _ _ pn R) as [E R']. split; [|done].
  split; try done. by apply map_Forall_delete.
Qed.

Lemma probe_acked_sound pn up c m :
  sound c m → 0 ≤ plen up < 2 ^ 16 → sound (probe_acked pn up c) m ∧ same c (probe_acked pn up c).
Proof.
  intros [R P G M] B. unfold probe_acked. destruct (up_is_mtu_probe up); [|by split].
  set (c1 := c <| mtu_probes ::= delete pn |>).
  assert (mtu c1 = mtu c ∧ unacked_packets c1 = unacked_packets c ∧ cc c1 = cc c ∧ same c c1)
    as (M1 & U1 & G1 & S1) by done. clearbody c1.
  destruct (_ && _) eqn:E; [|split; [|done]; split; by rewrite ?M1, ?U1, ?G1].
  to_prop. unfold record_mtu_probe_success.
  set (c2 := c1 <| mtu_probe_successes ::= _ |> <| mtu_min ::= _ |>).
  assert (mtu c2 = mtu c1 ∧ unacked_packets c2 = unacked_packets c1 ∧ cc c2 = cc c1 ∧ same c1 c2)
    as (M2 & U2 & G2 & S2) by done. clearbody c2.
  rewrite M2, (proj2 (Z.ltb_lt _ _)) by done.
  destruct (set_mtu_spec (plen up) (cc c2)) as (Q1 & Q2 & _).
  split; [split; [|done|..]|unfold same in *; destruct_and!; split_and!].
  - change (Window.refines (unacked_packets c2) m). congruence.
  - change (0 < segment (set_mtu (plen up) (cc c2)) < 2 ^ 16). lia.
  - change (0 ≤ plen up). lia.
  - change (bytes_in_flight c2 = bytes_in_flight c). congruence.
  - change (rtt c2 = rtt c). congruence.
  - change (cwnd (set_mtu (plen up) (cc c2)) = cwnd (cc c)). congruence.
Qed.

Lemma sack_one_removes t : removes (sack_one t).
Proof.
  intros pn c a m S. unfold sack_one. destruct (sound_delete c m pn S) as [S' E].
  destruct (Window.remove pn (unacked_packets c)) as [r w]. cbn [fst snd] in S', E. subst r.
  set (c1 := c <| unacked_packets := w |>) in *. assert (same c c1) as K by done. clearbody c1.
  destruct (m !! pn) as [up|] eqn:Hm.
  - destruct (probe_acked_sound pn up c1 (delete pn m) S') as [S2 K2].
    { by destruct (so_packets _ _ S _ _ Hm). }
    split; [done|]. split; [unfold same in *; destruct_and!; split_and!; congruence|].
    apply count_acked_counted; [apply S|done].
  - rewrite delete_id by done. rewrite delete_id in S' by done. unfold counted. split_and!; done || lia.
Qed.

Lemma cumulative_one_removes t : removes (cumulative_one t).
Proof.
  intros pn c a m S. unfold cumulative_one. destruct (sound_delete c m pn S) as [S' E].
  destruct (Window.remove pn (unacked_packets c)) as [r w]. cbn [fst snd] in S', E. subst r.
  destruct (m !! pn) as [up|] eqn:Hm.
  - split; [done|]. split; [done|]. apply count_acked_counted; [apply S|done].
  - rewrite delete_id by done. rewrite delete_id in S' by done. unfold counted. split_and!; done || lia.
Qed.

(** [pn] is in one of the ranges. *)
Definition in_ranges (rs : list (Z * Z)) (pn : Z) : bool :=
  existsb (λ r, (r.1 <=? pn) && (pn <=? r.2)) rs.

Lemma sack_range_spec t r c a m : sound c m →
  let '(c', a') := sack_range t (c, a) r in
  ∃ m', sound c' m' ∧ same c c' ∧ counted a a' m m'
    ∧ ∀ k, m' !! k = if (r.1 <=? k) && (k <=? r.2) then None else m !! k.
Proof.
  intros S. destruct r as [lo hi]. unfold sack_range. cbn [fst snd].
  pose proof (λ k up, refines_in_window _ m k up (so_window _ _ S)) as W.
  set (lower := Z.max lo (base_pn (unacked_packets c))).
  set (upper := Z.min hi (base_pn (unacked_packets c) + len (deque (unacked_packets c)))).
  assert (∀ k, is_Some (m !! k) → (lo <=? k) && (k <=? hi) = bool_decide (lower ≤ k ≤ upper)) as Hk.
  { intros k [up Hm]. specialize (W _ _ Hm). case_bool_decide; lia. }
  destruct (lower <=? upper) eqn:E; to_prop.
  - pose proof (removes_fold _ (seqZ lower (upper - lower + 1)) (sack_one_removes t) c a m S) as F.
    destruct (foldl _ _ _) as [c' a']. destruct F as (S' & K & C). eexists. split_and!; [done..|].
    intros k. rewrite lookup_without. destruct (m !! k) as [up|] eqn:Hm; [|by repeat case_match].
    rewrite Hk by (by eexists). case_bool_decide; case_decide as D; try done; rewrite elem_of_seqZ in D; lia.
  - exists m. split_and!; [done..|unfold counted; lia|]. intros k.
    destruct (m !! k) as [up|] eqn:Hm; [|by case_match].
    rewrite Hk by (by eexists). case_bool_decide; [lia|done].
Qed.

Lemma sack_ranges_spec t rs c a m : sound c m →
  let '(c', a') := foldl (sack_range t) (c, a) rs in
  ∃ m', sound c' m' ∧ same c c' ∧ counted a a' m m'
    ∧ ∀ k, m' !! k = if in_ranges rs k then None else m !! k.
Proof.
  revert c a m. induction rs as [|r rs IH]; intros c a m S; cbn [foldl].
  { exists m. split_and!; try done; unfold counted; lia. }
  pose proof (sack_range_spec t r c a m S) as R. destruct (sack_range t (c, a) r) as [c1 a1].
  destruct R as (m1 & S1 & K1 & C1 & L1). specialize (IH c1 a1 m1 S1).
  destruct (foldl _ _ rs) as [c2 a2]. destruct IH as (m2 & S2 & K2 & C2 & L2). exists m2.
  unfold same, counted in *. destruct_and!. split_and!; try done; try congruence; try lia.
  intros k. rewrite L2, L1. change (in_ranges (r :: rs) k)
    with (((r.1 <=? k) && (k <=? r.2)) || in_ranges rs k).
  by destruct (_ && _), (in_ranges rs k).
Qed.

Lemma elem_of_keys_below b l k :
  StronglySorted (λ a b, a.1 < b.1) l → (k ∈ keys_below b l ↔ ∃ up, (k, up) ∈ l ∧ k < b).
Proof.
  induction 1 as [|[pn up] l S IH F]; cbn [keys_below].
  { split; [by intros ?%not_elem_of_nil|]. by intros (? & ?%not_elem_of_nil & _). }
  rewrite Forall_forall in F. destruct (Z.ltb_spec pn b).
  - rewrite elem_of_cons, IH. setoid_rewrite elem_of_cons. naive_solver.
  - split; [by intros ?%not_elem_of_nil|]. intros (up' & [[= -> ->]|He]%elem_of_cons & Hk); [lia|].
    specialize (F _ He). simpl in F. lia.
Qed.

(** The packets declared lost. *)
Definition is_lost (largest time_threshold now : Z) (e : Z * UnackedPacket) : bool :=
  (e.1 <? largest)
  && ((wrap 64 (e.1 + 3) <=? largest) || (time_threshold <? duration_since now (up_sent_at e.2))).

Lemma find_lost_filter largest tt now l :
  StronglySorted (λ a b, a.1 < b.1) l →
  find_lost largest tt now l = (filter (λ e, is_lost largest tt now e = true) l).*1.
Proof.
  induction 1 as [|[pn up] l S IH F]; [done|]. cbn [find_lost]. rewrite filter_cons.
  destruct (pn <? largest) eqn:E.
  - case_decide as D; unfold is_lost in D; cbn [fst snd] in D; rewrite E in D; cbn [andb] in D;
      destruct (_ || _); try done; by rewrite IH.
  - rewrite decide_False by (unfold is_lost; cbn [fst]; by rewrite E). symmetry. to_prop.
    replace (filter _ l) with (@nil (Z * UnackedPacket)); [done|]. symmetry.
    apply elem_of_nil_inv. intros [k u] [L He]%list_elem_of_filter. rewrite Forall_forall in F.
    specialize (F _ He). simpl in F. unfold is_lost in L. cbn [fst] in L.
    by replace (k <? largest) with false in L by lia.
Qed.

(** What a lost packet leaves to retransmit. *)
Definition resend (up : UnackedPacket) : list (UnackedPayload.t * Z) :=
  if up_is_mtu_probe up then []
  else match up_payload up with
       | UnackedPayload.Datagram _ => []
       | p => [(p, up_retries up)]
       end.

Lemma lose_one_spec c l m pn x :
  sound c m → bytes_in_flight c = flight m + x → 0 ≤ x →
  let '(c', l') := lose_one (c, l) pn in
  sound c' (delete pn m) ∧ bytes_in_flight c' = flight (delete pn m) + x
  ∧ rtt c' = rtt c ∧ cc c' = cc c
  ∧ fast_retransmits l' = fast_retransmits l ++ from_option resend [] (m !! pn).
Proof.
  intros S B Hx. unfold lose_one. destruct (sound_delete c m pn S) as [S' E].
  destruct (Window.remove pn (unacked_packets c)) as [r w]. cbn [fst snd] in S', E. subst r.
  set (c1 := c <| unacked_packets := w |>) in *.
  assert (bytes_in_flight c1 = bytes_in_flight c ∧ rtt c1 = rtt c ∧ cc c1 = cc c) as (B1 & T1 & G1) by done.
  clearbody c1. destruct (m !! pn) as [up|] eqn:Hm.
  2: { simpl. rewrite app_nil_r. rewrite delete_id in S' |- * by done. split_and!; congruence || done. }
  pose proof (total_delete up_sent_bytes m pn up Hm) as F. pose proof (so_packets _ _ S' ) as P'.
  assert (0 ≤ flight (delete pn m)).
  { apply total_nonneg. eapply map_Forall_impl; [exact P'|]. simpl. naive_solver. }
  set (c2 := c1 <| bytes_in_flight ::= _ |>).
  assert (sound c2 (delete pn m)) as S2 by (destruct S'; by split).
  assert (bytes_in_flight c2 = flight (delete pn m) + x) as B2.
  { change (sat_sub (bytes_in_flight c1) (up_sent_bytes up) = flight (delete pn m) + x).
    unfold sat_sub. lia. }
  assert (rtt c2 = rtt c ∧ cc c2 = cc c) as [T2 G2] by (by split). clearbody c2.
  simpl from_option. unfold resend. destruct (up_is_mtu_probe up).
  - destruct (up_payload up); simpl; rewrite ?app_nil_r; (split; [|done]); destruct S2; by split.
  - destruct (up_payload up); simpl; rewrite ?app_nil_r; done.
Qed.

Lemma lose_fold pns c l m x :
  NoDup pns → sound c m → bytes_in_flight c = flight m + x → 0 ≤ x →
  let '(c', l') := foldl lose_one (c, l) pns in
  sound c' (without pns m) ∧ bytes_in_flight c' = flight (without pns m) + x
  ∧ rtt c' = rtt c ∧ cc c' = cc c
  ∧ fast_retransmits l' = fast_retransmits l ++ flat_map (λ pn, from_option resend [] (m !! pn)) pns.
Proof.
  intros N. revert c l m. induction N as [|pn pns Hpn N IH]; intros c l m S B Hx; cbn [foldl].
  { simpl. rewrite app_nil_r. done. }
  pose proof (lose_one_spec c l m pn x S B Hx) as L. destruct (lose_one (c, l) pn) as [c1 l1].
  destruct L as (S1 & B1 & T1 & G1 & F1). specialize (IH c1 l1 _ S1 B1 Hx).
  destruct (foldl _ _ pns) as [c2 l2]. destruct IH as (S2 & B2 & T2 & G2 & F2).
  split_and!; [done|done|congruence|congruence|]. rewrite F2, F1, <- app_assoc. cbn [flat_map]. do 2 f_equal.
  clear -Hpn. induction pns as [|q pns IH]; [done|]. simpl. rewrite lookup_delete_ne by set_solver.
  f_equal. apply IH. set_solver.
Qed.

Lemma finish_ack_spec ws delay now a ld c m :
  sound c m → bytes_in_flight c = flight m + bytes_in_flight_acked a →
  0 ≤ bytes_in_flight_acked a → 0 ≤ bytes_acked a < 2 ^ 40 → 0 ≤ cwnd (cc c) < 2 ^ 62 →
  ∃ c', finish_ack ws delay now a ld c = Ok c' ∧ sound c' m ∧ bytes_in_flight c' = flight m.
Proof.
  intros S B Ha Hb Hw. unfold finish_ack.
  assert (0 ≤ flight m).
  { apply total_nonneg. eapply map_Forall_impl; [apply S|]. simpl. naive_solver. }
  set (c1 := if ld then _ else _).
  assert (sound c1 m ∧ bytes_in_flight c1 = bytes_in_flight c ∧ 0 ≤ cwnd (cc c1) < 2 ^ 62) as (S1 & B1 & W1).
  { unfold c1. destruct ld; [|done]. destruct S as [R P G M].
    destruct (within_rtt (last_event (cc c)) (rtt c) now) eqn:E.
    - change (sound (c <| cc := on_congestion_event (rtt c) now (cc c) |>) m
        ∧ bytes_in_flight c = bytes_in_flight c
        ∧ 0 ≤ cwnd (on_congestion_event (rtt c) now (cc c)) < 2 ^ 62).
      rewrite event_once by done. split_and!; try done; lia.
    - destruct (event_reduces (cc c) (rtt c) now E ltac:(split; lia) ltac:(lia)) as (_ & H2 & H3 & _).
      split_and!; [split; try done|done|..].
      + change (0 < segment (on_congestion_event (rtt c) now (cc c)) < 2 ^ 16). lia.
      + change (0 ≤ cwnd (on_congestion_event (rtt c) now (cc c))). lia.
      + change (cwnd (on_congestion_event (rtt c) now (cc c)) < 2 ^ 62). lia. }
  clearbody c1. set (c2 := c1 <| bytes_in_flight ::= _ |>).
  assert (sound c2 m ∧ bytes_in_flight c2 = flight m ∧ cc c2 = cc c1) as (S2 & B2 & G2).
  { split_and!; [destruct S1; by split| |done].
    change (sat_sub (bytes_in_flight c1) (bytes_in_flight_acked a) = flight m). unfold sat_sub. lia. }
  clearbody c2. set (c3 := update_rtt _ _ _).
  assert (sound c3 m ∧ bytes_in_flight c3 = flight m ∧ cc c3 = cc c1) as (S3 & B3 & G3).
  { unfold c3, update_rtt. destruct (sample_rtt a); [|done]. destruct (negb _); (split; [destruct S2; by split|done]). }
  clearbody c3.
  assert (∃ c4, (if 0 <? bytes_acked a then cc' ← on_packet_acked (bytes_acked a) (rtt c3) now (cc c3); Ok (c3 <| cc := cc' |>)
      else Ok c3) = Ok c4 ∧ sound c4 m ∧ bytes_in_flight c4 = flight m) as (c4 & -> & S4 & B4).
  { destruct (0 <? bytes_acked a) eqn:E0; [|by eexists]. destruct S3 as [R P G M].
    destruct (ack_growth (cc c3) (bytes_acked a) (rtt c3) now) as (cc' & -> & Hg & _ & Hs & _);
      [lia|rewrite G3; lia|lia|rewrite G3; lia|nia|].
    eexists. split; [done|]. split; [split; try done|done].
    change (0 < segment cc' < 2 ^ 16). lia. }
  cbn. eexists. split; [done|]. destruct S4 as [R P G M].
  destruct (_ || _); (split; [by split|done]).
Qed.
End loops.

Lemma load_bound (m : packets) :
  map_Forall (λ _ up, 0 ≤ up_sent_bytes up ∧ 0 ≤ plen up < 2 ^ 16) m →
  0 ≤ load m ≤ 2 ^ 16 * Z.of_nat (size m).
Proof.
  induction m as [|pn up m Hn IH] using map_ind; [by rewrite total_empty, map_size_empty|].
  intros [[? ?] ?]%map_Forall_insert; [|done]. specialize (IH ltac:(done)).
  rewrite total_insert, map_size_insert_None by done. lia.
Qed.

Lemma sorted_keys_NoDup (l : list (Z * UnackedPacket)) : StronglySorted (λ a b, a.1 < b.1) l → NoDup l.*1.
Proof.
  induction 1 as [|e l S IH F]; [constructor|]. simpl. constructor; [|done].
  rewrite Forall_forall in F. intros (e' & E & He)%list_elem_of_fmap. specialize (F _ He). lia.
Qed.

Lemma sorted_filter (P : Z * UnackedPacket → Prop) `{∀ e, Decision (P e)} l :
  StronglySorted (λ a b, a.1 < b.1) l → StronglySorted (λ a b, a.1 < b.1) (filter P l).
Proof.
  induction 1 as [|x l S IH F]; [constructor|]. rewrite filter_cons. case_decide; [|done].
  constructor; [done|]. rewrite Forall_forall in F |- *. intros y [_ Hy]%list_elem_of_filter. by apply F.
Qed.

Lemma cumulative_spec `{Libm} t bound c a m :
  sound c m →
  let '(c', a') := foldl (cumulative_one t) (c, a) (keys_below bound (Window.iter (unacked_packets c))) in
  ∃ m', sound c' m' ∧ same c c' ∧ counted a a' m m'
    ∧ ∀ k, m' !! k = if k <? bound then None else m !! k.
Proof.
  intros S. destruct (Window.refines_iter _ _ (so_window _ _ S)) as [Srt El].
  pose proof (removes_fold _ (keys_below bound (Window.iter (unacked_packets c)))
    (cumulative_one_removes t) c a m S) as R.
  destruct (foldl _ _ _) as [c' a']. destruct R as (S' & K & C). eexists. split_and!; [done..|].
  intros k. rewrite lookup_without. case_decide as D; rewrite elem_of_keys_below in D by done.
  - destruct D as (up & _ & Hk). by replace (k <? bound) with true by lia.
  - destruct (Z.ltb_spec k bound); [|done]. destruct (m !! k) as [up|] eqn:E; [|done].
    destruct D. exists up. by rewrite El.
Qed.

(** Removing the lost packets of [m]: what remains, and what is handed back. *)
Lemma lost_packets w m (lost : Z * UnackedPacket → bool) :
  Window.refines w m →
  let pns := (filter (λ e, lost e = true) (Window.iter w)).*1 in
  NoDup pns
  ∧ (∀ pn up, without pns m !! pn = Some up ↔ m !! pn = Some up ∧ lost (pn, up) = false)
  ∧ flat_map (λ pn, from_option resend [] (m !! pn)) pns
    = flat_map (λ e, resend e.2) (filter (λ e, lost e = true) (Window.iter w)).
Proof.
  intros R pns. destruct (Window.refines_iter _ _ R) as [Srt El]. split_and!.
  - by apply sorted_keys_NoDup, sorted_filter.
  - intros pn up. rewrite lookup_without. case_decide as D.
    + apply list_elem_of_fmap in D as ([k u] & -> & [L He]%list_elem_of_filter). simpl.
      rewrite El in He. naive_solver congruence.
    + split; [|naive_solver]. intros Hm. split; [done|]. apply not_true_iff_false. intros L.
      destruct D. apply list_elem_of_fmap. exists (pn, up). split; [done|].
      apply list_elem_of_filter. by rewrite El.
  - subst pns. assert (∀ e, e ∈ filter (λ e, lost e = true) (Window.iter w) → m !! e.1 = Some e.2) as Hl.
    { intros [k u] [_ He]%list_elem_of_filter. by rewrite El in He. }
    induction (filter _ _) as [|e l IH]; [done|]. simpl. rewrite (Hl e) by apply list_elem_of_here. simpl.
    f_equal. apply IH. intros e' He'. apply Hl. by apply list_elem_of_further.
Qed.

Lemma flight_nonneg (m : packets) :
  map_Forall (λ _ up, 0 ≤ up_sent_bytes up ∧ 0 ≤ plen up < 2 ^ 16) m → 0 ≤ flight m.
Proof. intros F. apply total_nonneg. eapply map_Forall_impl; [exact F|]. simpl. naive_solver. Qed.

(** ** The theorem *)

(** C13: Processing an acknowledgement loses nothing.  A packet leaves the in-flight window
    exactly when a SACK range covers it, or it is older than the 2048 packets the peer
    tracks, or it is declared lost (three packets or a time threshold behind the largest
    acknowledged one); the payloads of the lost packets are handed back for retransmission
    in packet-number order, except MTU probes and datagrams; and the count of bytes in
    flight remains the sum over the packets in the window. *)
Theorem handle_ack_conserves `{LM : Libm} (c : ZtConnection) (m : packets)
    (largest window_size ack_delay_us t_sample now scaled : Z) (ranges : list (Z * Z)) :
  sound c m → bytes_in_flight c = flight m →
  Z.of_nat (size m) < 2 ^ 24 → 0 ≤ cwnd (cc c) < 2 ^ 62 →
  mul_f64 (rtt c) (f_lit 125 100) = Ok scaled →
  let acked pn := in_ranges ranges pn || (pn <? sat_sub largest 2047) in
  let lost := is_lost largest (Z.max scaled (from_millis 15)) now in
  ∃ rs c' m',
    handle_ack largest window_size ack_delay_us ranges t_sample now c = Ok (rs, c')
    ∧ sound c' m' ∧ bytes_in_flight c' = flight m'
    ∧ (∀ pn up, m' !! pn = Some up ↔ m !! pn = Some up ∧ acked pn = false ∧ lost (pn, up) = false)
    ∧ rs = flat_map (λ e, resend e.2)
             (filter (λ e, acked e.1 = false ∧ lost e = true) (Window.iter (unacked_packets c))).
Proof.
  intros S B Hsz Hw Hmul acked lost. unfold handle_ack.
  pose proof (sack_ranges_spec t_sample ranges c (mkAckAcc 0 0 None) m S) as R1.
  destruct (foldl (sack_range _) _ _) as [c1 a1]. destruct R1 as (m1 & S1 & K1 & C1 & L1).
  pose proof (cumulative_spec t_sample (sat_sub largest 2047) c1 a1 m1 S1) as R2.
  destruct (foldl (cumulative_one _) _ _) as [c2 a2]. destruct R2 as (m2 & S2 & K2 & C2 & L2).
  assert (∀ pn up, m2 !! pn = Some up ↔ m !! pn = Some up ∧ acked pn = false) as Hm2.
  { intros pn up. rewrite L2, L1. unfold acked. destruct (in_ranges ranges pn), (pn <? _); naive_solver. }
  unfold same, counted in *. simpl in C1. destruct_and!.
  assert (rtt c2 = rtt c) as -> by congruence. rewrite Hmul.
  cbn [mbind res_bind]. rewrite find_lost_filter by apply (Window.refines_iter _ _ (so_window _ _ S2)).
  change (is_lost _ _ _) with lost.
  destruct (lost_packets _ m2 lost (so_window _ _ S2)) as (Nd & Hm3 & Hrs).
  rewrite (iter_of_filter _ _ m m2 (λ e, acked e.1 = false) (so_window _ _ S) (so_window _ _ S2) Hm2) in *.
  rewrite list_filter_filter in *. set (pns := (filter _ _).*1) in *.
  set (c2' := c2 <| packets_lost ::= _ |>).
  assert (sound c2' m2) as S2' by (destruct S2; by split).
  assert (bytes_in_flight c2' = bytes_in_flight c2 ∧ cc c2' = cc c2) as [B2' G2'] by done. clearbody c2'.
  pose proof (load_bound m (so_packets _ _ S)). pose proof (load_bound m2 (so_packets _ _ S2)).
  pose proof (flight_nonneg m2 (so_packets _ _ S2)).
  pose proof (lose_fold pns c2' (mkLossAcc false []) m2 (bytes_in_flight_acked a2) Nd S2') as R3.
  destruct (foldl lose_one _ _) as [c3 l3]. destruct R3 as (S3 & B3 & T3 & G3 & F3); [lia..|].
  destruct (finish_ack_spec window_size ack_delay_us now a2 (loss_detected l3) c3 _ S3 B3)
    as (c' & -> & S' & B'); [lia|lia|rewrite G3, G2'; lia|].
  cbn. eexists _, c', _. split; [done|]. split; [done|]. split; [done|]. split.
  - intros pn up. rewrite Hm3, Hm2. tauto.
  - rewrite F3. simpl. rewrite Hrs. f_equal. apply list_filter_iff. intros. tauto.
Qed.

(** A connection with three packets in flight: stream data, a datagram and an MTU probe. *)
Definition sample_packets : packets :=
  <[9 := mkUnackedPacket (UnackedPayload.MtuProbe 1500) 0 0 true 1500]>
    (<[4 := mkUnackedPacket (UnackedPayload.Datagram [7; 8]) 0 0 false 40]>
      (<[3 := mkUnackedPacket (UnackedPayload.Stream 0 StreamType.Bidirectional 0 [1]) 0 2 false 30]> ∅)).

Definition sample_connection : ZtConnection :=
  (new_connection (Cookie.mkSocketAddr (Cookie.V4 [127; 0; 0; 1]) 4433) [1] [2])
    <| unacked_packets :=
         Window.insert 9 (mkUnackedPacket (UnackedPayload.MtuProbe 1500) 0 0 true 1500)
           (Window.insert 4 (mkUnackedPacket (UnackedPayload.Datagram [7; 8]) 0 0 false 40)
             (Window.insert 3
               (mkUnackedPacket (UnackedPayload.Stream 0 StreamType.Bidirectional 0 [1]) 0 2 false 30)
               Window.new)) |>
    <| bytes_in_flight := 1570 |>.

Lemma sample_sound : @sound libm_model sample_connection sample_packets.
Proof.
  split.
  - apply Window.refines_insert; [apply Window.refines_insert; [apply Window.refines_insert|]|].
    + apply Window.refines_new.
    + by left.
    + right. exists 3. split; [by eexists|lia].
    + right. exists 4. split; [by eexists|lia].
  - repeat (apply map_Forall_insert_2; [closed|]). apply map_Forall_empty.
  - by vm_compute.
  - by vm_compute.
Qed.

Lemma handle_ack_conserves_witness :
  let acked pn := in_ranges [(9, 9)] pn || (pn <? sat_sub 9 2047) in
  let lost := is_lost 9 (Z.max 416250000 (from_millis 15)) 5 in
  ∃ rs c' m',
    @handle_ack libm_model 9 65536 25 [(9, 9)] 100 5 sample_connection = Ok (rs, c')
    ∧ @sound libm_model c' m' ∧ bytes_in_flight c' = flight m'
    ∧ (∀ pn up, m' !! pn = Some up ↔
         sample_packets !! pn = Some up ∧ acked pn = false ∧ lost (pn, up) = false)
    ∧ rs = flat_map (λ e, resend e.2)
             (filter (λ e, acked e.1 = false ∧ lost e = true)
               (Window.iter (unacked_packets sample_connection))).
Proof.
  apply (@handle_ack_conserves libm_model sample_connection sample_packets 9 65536 25 100 5 416250000);
    [exact sample_sound|closed..].
Defined.
