(* ===== verification/Actor.v ===== *)
(** * The connection actor: state and effects (src/src/transport/actor/mod.rs)

    [ZtConnectionActor] owns a connection and runs single-threaded.  Its methods are
    computations in the state monad with errors of [Effects] ([act]).  The world outside (clock, socket,
    random numbers, the capacity of channels) is an oracle, consulted once per use. *)

From stdpp Require Import strings.
From S2P Require Import Prelude Errors Effects Config StreamType Cookie Connection.

(** What the actor asks of the outside; the [nat] counts the questions. *)
Class Env := {
  (** [Instant::now()]. *)
  clock : nat → Z;
  (** [UdpSocket::try_send_to]: [None] is success. *)
  socket_send : nat → SocketAddr → bytes → option IoErrorKind;
  (** Eight random bytes. *)
  random_token : nat → bytes;
  (** [mpsc::Sender::try_send] and [try_reserve]: whether there is room and a receiver. *)
  channel_ready : nat → bool;
}.

Module ActorMessage.
(** [enum ActorMessage].  What a message asks for is sent back on its [respond_to] channel;
    here the handler of the message returns it. *)
Inductive t :=
  | IncomingPacket (data : bytes) (from : SocketAddr)
  | OutgoingData (stream_id : Z) (data : bytes)
  | GetMtu
  | CloseStream (stream_id : Z)
  | ResetStream (stream_id error_code : Z)
  | OpenStream (ty : StreamType)
  | SetHandshakePacket (hs : bytes)
  | StreamDataRead (stream_id bytes_read : Z)
  | Close
  | CloseWithError (error_code : Z) (reason : bytes)
  | SendDatagram (data : bytes)
  | GetStats.
End ActorMessage.

Set Primitive Projections.
(** [struct ZtConnectionActor]: its own state, the configuration of its endpoint, and what
    it has put on the socket ([outbox]), the datagram channel and the channel of streams
    opened by the peer. *)
Record Actor := mkActor {
  config : ZtConfig;
  alpn : bytes;
  conn : ZtConnection;
  pending_acks : Z;
  public_key : bytes;
  ephemeral_secret : option bytes;
  ed_signing_key : option bytes;
  ed_public_key : bytes;
  psk : option bytes;
  peer_key_verifier : option (bytes → bool);
  handshake_waiter : bool;
  actor_scid : bytes;
  last_active_stream_id : Z;
  next_stream_id : Z;
  on_client : bool;
  socket_blocked : bool;
  pending_validation_addr : option SocketAddr;
  path_validation_token : option bytes;
  path_validation_sent_at : option Z;
  path_validation_retries : Z;
  outbox : list (SocketAddr * bytes);
  datagrams : list bytes;
  incoming_streams : list Z;
  questions : nat;
}.
Unset Primitive Projections.

#[export] Instance upd_conn : Upd conn := ltac:(derive_upd conn).
#[export] Instance upd_pending_acks : Upd pending_acks := ltac:(derive_upd pending_acks).
#[export] Instance upd_ephemeral_secret : Upd ephemeral_secret := ltac:(derive_upd ephemeral_secret).
#[export] Instance upd_handshake_waiter : Upd handshake_waiter := ltac:(derive_upd handshake_waiter).
#[export] Instance upd_actor_scid : Upd actor_scid := ltac:(derive_upd actor_scid).
#[export] Instance upd_last_active_stream_id : Upd last_active_stream_id :=
  ltac:(derive_upd last_active_stream_id).
#[export] Instance upd_next_stream_id : Upd next_stream_id := ltac:(derive_upd next_stream_id).
#[export] Instance upd_socket_blocked : Upd socket_blocked := ltac:(derive_upd socket_blocked).
#[export] Instance upd_pending_validation_addr : Upd pending_validation_addr :=
  ltac:(derive_upd pending_validation_addr).
#[export] Instance upd_path_validation_token : Upd path_validation_token :=
  ltac:(derive_upd path_validation_token).
#[export] Instance upd_path_validation_sent_at : Upd path_validation_sent_at :=
  ltac:(derive_upd path_validation_sent_at).
#[export] Instance upd_path_validation_retries : Upd path_validation_retries :=
  ltac:(derive_upd path_validation_retries).
#[export] Instance upd_outbox : Upd outbox := ltac:(derive_upd outbox).
#[export] Instance upd_datagrams : Upd datagrams := ltac:(derive_upd datagrams).
#[export] Instance upd_incoming_streams : Upd incoming_streams := ltac:(derive_upd incoming_streams).
#[export] Instance upd_questions : Upd questions := ltac:(derive_upd questions).

(** [ZtConnectionActor::new]. *)
Definition new_actor (config : ZtConfig) (alpn : bytes) (state : ZtConnection)
    (public_key : bytes) (ephemeral_secret ed_signing_key : option bytes) (ed_public_key : bytes)
    (psk : option bytes) (peer_key_verifier : option (bytes → bool)) (handshake_waiter : bool) (scid : bytes) (is_client : bool) : Actor :=
  let next_stream_id := if is_client then 2 else 1 in
  {| config := config; alpn := alpn; conn := state; pending_acks := 0; public_key := public_key;
     ephemeral_secret := ephemeral_secret; ed_signing_key := ed_signing_key;
     ed_public_key := ed_public_key; psk := psk;
     peer_key_verifier := peer_key_verifier; handshake_waiter := handshake_waiter;
     actor_scid := scid; last_active_stream_id := 0; next_stream_id := next_stream_id;
     on_client := is_client; socket_blocked := false; pending_validation_addr := None;
     path_validation_token := None; path_validation_sent_at := None; path_validation_retries := 0;
     outbox := []; datagrams := []; incoming_streams := []; questions := 0 |}.

(** [current_key_phase]: [!current_key_epoch.is_multiple_of(2)]. *)
Definition current_key_phase (a : Actor) : bool := negb (current_key_epoch (conn a) mod 2 =? 0).

(** ** The methods of the actor *)

Abbreviation act := (stm Actor).

Definition on_conn (f : ZtConnection → ZtConnection) : act unit := modify (λ a, a <| conn ::= f |>).

Section questions.
Context `{EV : Env}.

(** Ask the outside, and count the question. *)
Definition ask {A} (f : nat → A) : act A := λ a, (Ok (f (questions a)), a <| questions ::= S |>).
Definition now : act Z := ask clock.
Definition get_token : act bytes := ask random_token.
Definition try_channel : act bool := ask channel_ready.
End questions.

(** [self.state.get_next_packet_number()?]. *)
Definition next_pn : act Z := λ a,
  let '(r, c) := get_next_packet_number (conn a) in (r, a <| conn := c |>).
