(* ===== verification/ActFacts.v ===== *)
(** * Invariants of the actor's methods

    The calculus of [Effects] for the actor's own primitives, and its automation: an
    invariant is checked at the few places where a method writes the state. *)

From stdpp Require Import strings.
From S2P Require Import Prelude Errors Effects Connection Actor.

Lemma next_pn_inv a pn a' :
  next_pn a = (Ok pn, a') →
  pn = next_packet_number (conn a) ∧ a' = a <| conn ::= λ c, c <| next_packet_number := pn + 1 |> |>.
Proof.
  unfold next_pn, get_next_packet_number, checked_add. destruct (_ <? _); [|done].
  by intros [= <- <-].
Qed.

Section rules.
Context (I : Actor → Prop).

Lemma preserves_on_conn f : (∀ a, I a → I (a <| conn ::= f |>)) → preserves I (on_conn f).
Proof. intros H a Ia. by apply H. Qed.
Lemma preserves_ask {A} (f : nat → A) : (∀ a, I a → I (a <| questions ::= S |>)) → preserves I (ask f).
Proof. intros H a Ia. by apply H. Qed.
Lemma preserves_next_pn :
  (∀ a n, I a → I (a <| conn ::= λ c, c <| next_packet_number := n |> |>)) → preserves I next_pn.
Proof.
  intros H a Ia. unfold next_pn, get_next_packet_number. destruct (checked_add 64 _ 1) as [n|]; [by apply H|].
  destruct a. done.
Qed.
End rules.

(** Walks through the body of a method; what is left are the writes of the state. *)
Ltac walk_step :=
  match goal with
  | |- preserves _ _ => solve [auto with preserves nocore]
  | |- preserves _ (mbind _ _) => apply preserves_bind; [|intros ?]
  | |- preserves _ (attempt _) => apply preserves_attempt
  | |- preserves _ (act_when _ _) => apply preserves_when; intros ?
  | |- preserves _ next_pn => apply preserves_next_pn
  | |- preserves _ (on_conn _) => apply preserves_on_conn
  | |- preserves _ (modify _) => apply preserves_modify
  | |- preserves _ (ask _) => apply preserves_ask
  | |- preserves _ (match ?x with _ => _ end) => destruct x eqn:?
  end.
Ltac walk := repeat walk_step.
