(* ===== verification/StreamHandle.v ===== *)
(** * The application's stream handle (src/src/stream/stream.rs)

    [ZtStream] is one end of a stream in the hands of the application: it stages written
    bytes, sends them to the connection actor in chunks of at most one packet and waits for
    its answer, and hands out the chunks the actor delivered.  Its [AsyncRead] and
    [AsyncWrite] methods are polls: they return at once, with [Pending] when they have to
    wait.

    The actor and the scheduler are an oracle ([StreamEnv]): whether a channel has room,
    whether a future is ready when it is polled, and what the actor answers to each
    message.  The values of the shared cells are read at most once per poll and are its
    arguments. *)

From stdpp Require Import strings.
From S2P Require Import Prelude Errors Effects Config StreamType Cookie Termination Connection Actor.

(** What the actor answers to an [OutgoingData] message; [Dropped] when it never does. *)
Inductive Answer := Accepted | Refused (e : ZtError) | Dropped.

(** The outside of a handle; the first argument counts the questions. *)
Class StreamEnv := {
  (** [try_send], [try_reserve] and [send().await]: whether the message goes through. *)
  sender_ready : nat → bool;
  (** Whether the answer is there when its channel is polled. *)
  answer_ready : nat → bool;
  (** The answer to the message with the given position among the messages of the handle. *)
  answer : nat → Answer;
  (** Whether the [Notified] future is ready when it is polled, or in time. *)
  notified : nat → bool;
  (** Whether the [Sleep] future is ready when it is polled. *)
  slept : nat → bool;
  (** The shared [closed] flag and [Termination]. *)
  load_closed : nat → bool;
  load_termination : nat → Termination;
}.

(** [std::task::Poll]. *)
Inductive poll (A : Type) := Ready (x : A) | Pending.
Arguments Ready {A} _.
Arguments Pending {A}.

(** [std::io::Error]: a message, an error of the crate, or a message about one. *)
Inductive IoError :=
  | IoMessage (kind : IoErrorKind) (msg : string)
  | IoSource (kind : IoErrorKind) (e : ZtError)
  | IoAbout (kind : IoErrorKind) (msg : string) (e : ZtError).

(** [enum WriteState]; the receiver of the answer is the position of the message. *)
Inductive WriteState :=
  | Idle
  | Sending (resp_rx : nat) (chunk : bytes)
  | Blocked (chunk : bytes)
  | Pacing (chunk : bytes).

Set Primitive Projections.
(** [struct ZtStream], with the messages it sent to the actor ([posted]), the chunks in its
    receive channel, whether their sender is held, and whether a waker is registered. *)
Record ZtStream := mkZtStream {
  zs_stream_id : Z;
  receiver : list bytes;
  receiver_open : bool;
  current_read_chunk : option bytes;
  pending_read_credit : Z;
  write_buffer : bytes;
  write_state : WriteState;
  zs_stream_type : StreamType;
  operation_timeout : Z;
  posted : list ActorMessage.t;
  waker : bool;
  zs_questions : nat;
}.
Unset Primitive Projections.

#[export] Instance upd_receiver : Upd receiver := ltac:(derive_upd receiver).
#[export] Instance upd_receiver_open : Upd receiver_open := ltac:(derive_upd receiver_open).
#[export] Instance upd_current_read_chunk : Upd current_read_chunk := ltac:(derive_upd current_read_chunk).
#[export] Instance upd_pending_read_credit : Upd pending_read_credit := ltac:(derive_upd pending_read_credit).
#[export] Instance upd_write_buffer : Upd write_buffer := ltac:(derive_upd write_buffer).
#[export] Instance upd_write_state : Upd write_state := ltac:(derive_upd write_state).
#[export] Instance upd_posted : Upd posted := ltac:(derive_upd posted).
#[export] Instance upd_waker : Upd waker := ltac:(derive_upd waker).
#[export] Instance upd_zs_questions : Upd zs_questions := ltac:(derive_upd zs_questions).

(** [ZtStream::new]. *)
Definition new_handle (stream_id : Z) (ty : StreamType) (operation_timeout : Z) : ZtStream :=
  {| zs_stream_id := stream_id; receiver := []; receiver_open := true;
     current_read_chunk := None; pending_read_credit := 0;
     write_buffer := []; write_state := Idle; zs_stream_type := ty;
     operation_timeout := operation_timeout; posted := []; waker := false; zs_questions := 0 |}.

Abbreviation handle := (stm ZtStream).

(** [mtu.saturating_sub(64).max(512)]. *)
Definition chunk_size (mtu : Z) : Z := Z.max (sat_sub mtu 64) 512.

(** [data.chunks(n)]: pieces of [n] elements, the last one shorter. *)
Fixpoint chunks (fuel n : nat) (data : bytes) : list bytes :=
  match data, fuel with
  | [], _ | _, O => []
  | _, S fuel => take n data :: chunks fuel n (drop n data)
  end.

Section handle.
Context `{SE : StreamEnv}.

(** Ask the outside, and count the question. *)
Definition consult {A} (f : nat → A) : handle A :=
  λ h, (Ok (f (zs_questions h)), h <| zs_questions ::= S |>).

(** A message to the actor; its position names the channel of its answer. *)
Definition post (m : ActorMessage.t) : handle nat :=
  λ h, (Ok (length (posted h)), h <| posted ::= λ l, l ++ [m] |>).

(** The waker of the task is registered, by a pending future or [cx.waker().wake_by_ref()]. *)
Definition register_waker : handle unit := modify (λ h, h <| waker := true |>).

(** Poll a future that is ready or registers the waker. *)
Definition poll_future (f : nat → bool) : handle bool :=
  r ← consult f;
  act_when (negb r) register_waker;;
  mret r.

Definition set_write_state (s : WriteState) : handle unit := modify (λ h, h <| write_state := s |>).

Definition post_data (chunk : bytes) : handle nat :=
  id ← gets zs_stream_id;
  post (ActorMessage.OutgoingData id chunk).

(** ** Writing *)

(** How a turn of the state machine ends: the loop goes on, or the poll returns. *)
Inductive Turn := Again | Waits | Fails (e : IoError).

(** A refused chunk is sent again, or waits for a timer when the channel is full. *)
Definition resend (chunk : bytes) : handle Turn :=
  ok ← consult sender_ready;
  if (ok : bool) then
    rx ← post_data chunk;
    set_write_state (Sending rx chunk);;
    mret Again
  else
    set_write_state (Pacing chunk);;
    mret Waits.

(** One turn of the loop of [poll_write] and [poll_flush] from a state that is not idle. *)
Definition drive_turn (what : string) (s : WriteState) : handle Turn :=
  match s with
  | Idle => mret Again
  | Sending resp_rx chunk =>
      ready ← poll_future answer_ready;
      if (ready : bool) then
        match answer resp_rx with
        | Accepted => set_write_state Idle;; mret Again
        | Refused FlowControlBlocked | Refused CongestionWindowFull =>
            set_write_state (Blocked chunk);; mret Again
        | Refused (PacingBlocked _) => set_write_state (Pacing chunk);; mret Again
        | Refused e => set_write_state Idle;; mret (Fails (IoAbout OtherKind what e))
        | Dropped => set_write_state Idle;; mret (Fails (IoMessage ConnectionAborted "Oneshot channel closed"))
        end
      else mret Waits
  | Blocked chunk =>
      ready ← poll_future notified;
      if (ready : bool) then resend chunk else mret Waits
  | Pacing chunk =>
      ready ← poll_future slept;
      if (ready : bool) then resend chunk else mret Waits
  end.

(** [write_buffer.split_to(n)] goes to the actor over a channel with a permit. *)
Definition dispatch (n : nat) : handle unit :=
  chunk ← gets (λ h, take n (write_buffer h));
  modify (λ h, h <| write_buffer ::= drop n |>);;
  rx ← post_data chunk;
  set_write_state (Sending rx chunk).

(** The loop of [poll_write].  The turns are not bounded by the code: each waits for an answer
    of the actor or a timer.  [Panic] stands for a loop that has not ended after [fuel] turns. *)
Fixpoint drive (fuel : nat) : handle Turn :=
  s ← gets (λ h, write_state h);
  match s with
  | Idle => mret Again
  | _ =>
      match fuel with
      | O => lift Panic
      | S fuel =>
          r ← drive_turn "Write failed" s;
          match r with Again => drive fuel | r => mret r end
      end
  end.

Definition write_denied (what : string) : IoError := IoMessage PermissionDenied what.

(** The end of [poll_write]: the caller's bytes fill the staging buffer, and a full one goes out. *)
Definition stage_write (size : Z) (buf : bytes) : handle Z :=
  available ← gets (λ h, sat_sub size (len (write_buffer h)));
  let written := Z.min available (len buf) in
  modify (λ h, h <| write_buffer ::= λ b, b ++ take (Z.to_nat written) buf |>);;
  full ← gets (λ h, size <=? len (write_buffer h));
  act_when full
    (ok ← consult sender_ready;
     act_when ok (dispatch (Z.to_nat size)));;
  mret written.

(** The part of [poll_write] after the state machine is idle. *)
Definition buffer_write (mtu : Z) (buf : bytes) : handle (poll (IoError + Z)) :=
  let size := chunk_size mtu in
  full ← gets (λ h, size <=? len (write_buffer h));
  ready ← (if (full : bool) then
             ok ← consult sender_ready;
             if (ok : bool) then dispatch (Z.to_nat size);; mret true
             else register_waker;; mret false
           else mret true);
  if negb ready then mret Pending
  else
    written ← stage_write size buf;
    mret (Ready (inr written)).

(** [poll_write]. *)
Definition poll_write (fuel : nat) (closed : bool) (termination : Termination) (mtu : Z) (buf : bytes)
    : handle (poll (IoError + Z)) :=
  ty ← gets zs_stream_type;
  if bool_decide (ty = UnidirectionalIn) then
    mret (Ready (inl (write_denied "Cannot write to a unidirectional incoming stream")))
  else if (closed : bool) then
    mret (Ready (inl (match termination_io_error termination with
                      | Some (kind, e) => IoSource kind e
                      | None => IoMessage ConnectionAborted "Connection closed"
                      end)))
  else
    r ← drive fuel;
    match r with
    | Waits => mret Pending
    | Fails e => mret (Ready (inl e))
    | Again => buffer_write mtu buf
    end.

(** The loop of [poll_flush]. *)
Fixpoint flush_loop (fuel : nat) : handle (poll (IoError + unit)) :=
  s ← gets (λ h, write_state h);
  empty ← gets (λ h, len (write_buffer h) =? 0);
  match s, empty with
  | Idle, true => mret (Ready (inr tt))
  | _, _ =>
      match fuel with
      | O => lift Panic
      | S fuel =>
          r ← match s with
              | Idle =>
                  ok ← consult sender_ready;
                  if (ok : bool) then
                    n ← gets (λ h, length (write_buffer h));
                    dispatch n;;
                    mret Again
                  else
                    register_waker;;
                    mret Waits
              | s => drive_turn "Flush failed" s
              end;
          match r with
          | Again => flush_loop fuel
          | Waits => mret Pending
          | Fails e => mret (Ready (inl e))
          end
      end
  end.

(** [poll_flush]. *)
Definition poll_flush (fuel : nat) : handle (poll (IoError + unit)) :=
  ty ← gets zs_stream_type;
  if bool_decide (ty = UnidirectionalIn) then
    mret (Ready (inl (write_denied "Cannot write/flush on a unidirectional incoming stream")))
  else flush_loop fuel.

(** [poll_shutdown]. *)
Definition poll_shutdown (fuel : nat) : handle (poll (IoError + unit)) :=
  ty ← gets zs_stream_type;
  if bool_decide (ty = UnidirectionalIn) then
    mret (Ready (inl (write_denied "Cannot shutdown/write on a unidirectional incoming stream")))
  else
    r ← poll_flush fuel;
    match r with
    | Ready (inl e) => mret (Ready (inl e))
    | Pending => mret Pending
    | Ready (inr _) =>
        ok ← consult sender_ready;
        if (ok : bool) then
          id ← gets zs_stream_id;
          post (ActorMessage.CloseStream id);;
          mret (Ready (inr tt))
        else
          register_waker;;
          mret Pending
    end.

(** ** Sending without staging *)

(** The loop over one chunk of [send] and [send_bytes]: it is sent until it is accepted. *)
Fixpoint send_chunk (fuel : nat) (chunk : bytes) : handle unit :=
  closed ← consult load_closed;
  if (closed : bool) then
    t ← consult load_termination;
    fail_with (default ActorFailed (termination_error t))
  else
    ok ← consult sender_ready;
    if negb ok then fail_with ActorFailed
    else
      rx ← post_data chunk;
      match answer rx with
      | Accepted => skip
      | Refused FlowControlBlocked | Refused CongestionWindowFull =>
          in_time ← consult notified;
          if (in_time : bool) then match fuel with O => lift Panic | S fuel => send_chunk fuel chunk end
          else fail_with Timeout
      | Refused (PacingBlocked _) => match fuel with O => lift Panic | S fuel => send_chunk fuel chunk end
      | Refused e => fail_with e
      | Dropped => fail_with ActorFailed
      end.

Fixpoint send_chunks (fuel : nat) (l : list bytes) : handle unit :=
  match l with
  | [] => skip
  | chunk :: l => send_chunk fuel chunk;; send_chunks fuel l
  end.

Definition send_denied : ZtError := Io PermissionDenied "Cannot write to a unidirectional incoming stream".

(** [send]. *)
Definition send (fuel : nat) (mtu : Z) (data : bytes) : handle unit :=
  ty ← gets zs_stream_type;
  if bool_decide (ty = UnidirectionalIn) then fail_with send_denied
  else send_chunks fuel (chunks (length data) (Z.to_nat (chunk_size mtu)) data).

(** The loop of [send_bytes]: [split_to] while more than a chunk is left, then the rest. *)
Fixpoint send_bytes_loop (turns fuel : nat) (size : Z) (data : bytes) : handle unit :=
  match data, turns with
  | [], _ => skip
  | _, O => lift Panic
  | _, S turns =>
      let '(to_send, rest) :=
        if size <? len data then (take (Z.to_nat size) data, drop (Z.to_nat size) data) else (data, []) in
      send_chunk fuel to_send;;
      send_bytes_loop turns fuel size rest
  end.

(** [send_bytes]. *)
Definition send_bytes (fuel : nat) (mtu : Z) (data : bytes) : handle unit :=
  ty ← gets zs_stream_type;
  if bool_decide (ty = UnidirectionalIn) then fail_with send_denied
  else send_bytes_loop (length data) fuel (chunk_size mtu) data.

(** ** Reading *)

(** [receiver.poll_recv(cx)]. *)
Definition poll_recv : handle (poll (option bytes)) := λ h,
  match receiver h with
  | chunk :: l => (Ok (Ready (Some chunk)), h <| receiver := l |>)
  | [] => if receiver_open h then (Ok Pending, h <| waker := true |>) else (Ok (Ready None), h)
  end.

(** The credit of bytes read is sent to the actor, or kept for the next poll. *)
Definition send_credit : handle unit :=
  ok ← consult sender_ready;
  act_when ok
    (id ← gets zs_stream_id;
     credit ← gets pending_read_credit;
     post (ActorMessage.StreamDataRead id credit);;
     modify (λ h, h <| pending_read_credit := 0 |>)).

(** The caller's buffer takes what it has room for of the current chunk. *)
Definition take_chunk (chunk : bytes) (room : Z) : handle bytes :=
  let amt := Z.min (len chunk) room in
  let slice := take (Z.to_nat amt) chunk in
  modify (λ h, h <| current_read_chunk := Some (drop (Z.to_nat amt) chunk) |>);;
  modify (λ h, h <| pending_read_credit ::= λ c, sat_add 64 c amt |>);;
  send_credit;;
  mret slice.

(** The loop of [poll_read]: a turn that goes on takes a chunk from the channel. *)
Fixpoint read_loop (fuel : nat) (termination : Termination) (room : Z) : handle (poll (IoError + bytes)) :=
  chunk ← gets (λ h, current_read_chunk h);
  match chunk with
  | Some ((_ :: _) as chunk) =>
      slice ← take_chunk chunk room;
      mret (Ready (inr slice))
  | _ =>
      modify (λ h, h <| current_read_chunk := None |>);;
      r ← poll_recv;
      match r with
      | Ready (Some bytes) =>
          modify (λ h, h <| current_read_chunk := Some bytes |>);;
          match fuel with O => lift Panic | S fuel => read_loop fuel termination room end
      | Ready None =>
          mret (Ready (match termination_io_error termination with
                       | Some (kind, e) => inl (IoSource kind e)
                       | None => inr []
                       end))
      | Pending => mret Pending
      end
  end.

(** [poll_read] into a buffer with [room] bytes left: the bytes put into it. *)
Definition poll_read (termination : Termination) (room : Z) : handle (poll (IoError + bytes)) :=
  ty ← gets zs_stream_type;
  if bool_decide (ty = UnidirectionalOut) then mret (Ready (inr []))
  else
    credit ← gets pending_read_credit;
    act_when (0 <? credit) send_credit;;
    n ← gets (λ h, length (receiver h));
    read_loop n termination room.

(** [let _ = self.actor_tx.send(m).await]. *)
Definition post_if_open (m : ActorMessage.t) : handle unit :=
  ok ← consult sender_ready;
  act_when ok (post m;; skip).

(** A chunk goes to the application, and its credit to the actor. *)
Definition hand_out (chunk : bytes) : handle (poll (option bytes)) :=
  id ← gets zs_stream_id;
  post_if_open (ActorMessage.StreamDataRead id (len chunk));;
  mret (Ready (Some chunk)).

(** The next chunk of the channel. *)
Definition next_chunk : handle (poll (option bytes)) :=
  r ← poll_recv;
  match r with
  | Ready (Some chunk) => hand_out chunk
  | Ready None =>
      t ← consult load_termination;
      match termination_error t with Some e => fail_with e | None => mret (Ready None) end
  | Pending => mret Pending
  end.

(** [recv_result], up to the [await] of the next chunk: [Pending] when there is none yet. *)
Definition recv_result : handle (poll (option bytes)) :=
  ty ← gets zs_stream_type;
  if bool_decide (ty = UnidirectionalOut) then mret (Ready None)
  else
    chunk ← gets (λ h, current_read_chunk h);
    modify (λ h, h <| current_read_chunk := None |>);;
    match chunk with
    | Some ((_ :: _) as chunk) => hand_out chunk
    | _ => next_chunk
    end.

(** [recv]: [recv_result().await.ok().flatten()]. *)
Definition recv : handle (poll (option bytes)) :=
  r ← attempt recv_result;
  mret (match r with Ok x => x | _ => Ready None end).

(** ** The end of a stream *)

(** [close]. *)
Definition close : handle unit :=
  id ← gets zs_stream_id;
  post_if_open (ActorMessage.CloseStream id).

(** [reset]. *)
Definition reset (error_code : Z) : handle unit :=
  id ← gets zs_stream_id;
  ok ← consult sender_ready;
  if (ok : bool) then post (ActorMessage.ResetStream id error_code);; skip
  else fail_with ActorFailed.

(** [Drop::drop]. *)
Definition drop_handle : handle unit :=
  id ← gets zs_stream_id;
  post_if_open (ActorMessage.CloseStream id).
End handle.
