(* ===== verification/StreamWrites.v ===== *)
(** * The stream handle: what is written is what is sent

    The bytes [poll_write] accepted are, in order and each once, those the actor has taken,
    the chunk that is waiting to be taken and the staging buffer. *)

From stdpp Require Import strings.
From S2P Require Import Prelude Errors Effects Config StreamType Cookie Termination Connection Actor ActFacts StreamHandle.

Section writes.
Context `{SE : StreamEnv}.

(** What a message contributes to the stream: its data, if the actor takes it. *)
Definition taken (i : nat) (m : ActorMessage.t) : bytes :=
  match m, answer i with
  | ActorMessage.OutgoingData _ data, Accepted => data
  | _, _ => []
  end.

(** The bytes of the stream the actor has taken, or will take of the messages it has. *)
Definition transmitted (h : ZtStream) : bytes := mjoin (imap taken (posted h)).

(** The chunk the handle has to send again. *)
Definition outstanding (h : ZtStream) : bytes :=
  match write_state h with
  | Idle => []
  | Sending rx chunk => match answer rx with Accepted => [] | _ => chunk end
  | Blocked chunk | Pacing chunk => chunk
  end.

(** The bytes [acc] went through the handle. *)
Definition holds (acc : bytes) (h : ZtStream) : Prop :=
  transmitted h ++ outstanding h ++ write_buffer h = acc.

(** ** Steps of a method *)

Lemma consult_bind {A B} (f : nat → A) (k : A → handle B) h :
  (consult f ≫= k) h = k (f (zs_questions h)) (h <| zs_questions ::= S |>).
Proof. done. Qed.
Lemma gets_bind {A B} (f : ZtStream → A) (k : A → handle B) h : (gets f ≫= k) h = k (f h) h.
Proof. done. Qed.
Lemma modify_bind {B} f (k : unit → handle B) h : (modify f ≫= k) h = k tt (f h).
Proof. done. Qed.
Lemma poll_future_bind {B} f (k : bool → handle B) h :
  (poll_future f ≫= k) h
  = if f (zs_questions h) then k true (h <| zs_questions ::= S |>)
    else k false (h <| zs_questions ::= S |> <| waker := true |>).
Proof.
  unfold poll_future, mbind, act_bind, consult, act_when, register_waker, modify, skip, mret, act_ret.
  by destruct (f _).
Qed.

(** ** Messages *)

Lemma transmitted_post l m : mjoin (imap taken (l ++ [m])) = mjoin (imap taken l) ++ taken (length l) m.
Proof.
  rewrite imap_app. cbn [imap]. rewrite Nat.add_0_r, join_app. cbn. by rewrite app_nil_r.
Qed.

(** Sending a chunk moves it from the handle to the actor, or leaves it outstanding. *)
Lemma sending_holds acc h chunk rest :
  transmitted h ++ chunk ++ rest = acc → write_buffer h = rest →
  holds acc ((rx ← post_data chunk; set_write_state (Sending rx chunk)) h).2.
Proof.
  intros <- <-. change (mjoin (imap taken (posted h ++ [ActorMessage.OutgoingData (zs_stream_id h) chunk]))
    ++ match answer (length (posted h)) with Accepted => [] | _ => chunk end ++ write_buffer h
    = transmitted h ++ chunk ++ write_buffer h).
  rewrite transmitted_post, <- app_assoc. f_equal. unfold taken. by destruct (answer _).
Qed.

(** ** The state machine *)

(** A run that ends without an error keeps the bytes together. *)
Definition turns_to (acc : bytes) (r : res Turn * ZtStream) : Prop :=
  match r.1 with Ok (Again | Waits) => holds acc r.2 | _ => True end.

Lemma resend_holds acc chunk h :
  transmitted h ++ chunk ++ write_buffer h = acc → turns_to acc (resend chunk h).
Proof.
  intros H. unfold resend. rewrite consult_bind. destruct (sender_ready _); [|exact H].
  set (h1 := h <| zs_questions ::= S |>). exact (sending_holds acc h1 chunk (write_buffer h) H eq_refl).
Qed.

Lemma drive_turn_holds acc what h : holds acc h → turns_to acc (drive_turn what (write_state h) h).
Proof.
  intros H0. pose proof H0 as H. unfold holds, outstanding in H. unfold drive_turn.
  destruct (write_state h) as [|rx chunk|chunk|chunk]; [exact H0|rewrite poll_future_bind..].
  - destruct (answer_ready _); [|exact H0]. by destruct (answer rx) as [|[]|].
  - destruct (notified _); [by apply resend_holds|exact H0].
  - destruct (slept _); [by apply resend_holds|exact H0].
Qed.

Lemma drive_turn_buffer b what s : preserves (λ h, write_buffer h = b) (drive_turn what s).
Proof. unfold drive_turn, resend, poll_future, post_data, set_write_state, register_waker. walk; by intros h <-. Qed.

Lemma drive_holds acc b fuel h :
  holds acc h → write_buffer h = b →
  match drive fuel h with
  | (Ok Again, h') => holds acc h' ∧ write_state h' = Idle ∧ write_buffer h' = b
  | (Ok Waits, h') => holds acc h'
  | _ => True
  end.
Proof.
  revert h. induction fuel as [|fuel IH]; intros h H Hb; cbn [drive]; rewrite gets_bind.
  { destruct (write_state h) eqn:E; [exact (conj H (conj E Hb))|exact I..]. }
  pose proof (drive_turn_holds acc "Write failed" h H) as T.
  pose proof (drive_turn_buffer b "Write failed" (write_state h) h Hb) as B.
  destruct (write_state h) eqn:E; [exact (conj H (conj E Hb))|unfold mbind, act_bind..];
    destruct (drive_turn _ _ h) as [[[]| |] h']; try done; by apply IH.
Qed.

(** ** Staging *)

Lemma dispatch_holds acc n h : outstanding h = [] → holds acc h → holds acc (dispatch n h).2.
Proof.
  intros Ho H. unfold holds in H. rewrite Ho in H. unfold dispatch. rewrite gets_bind, modify_bind.
  set (h1 := h <| write_buffer ::= _ |>). apply (sending_holds acc h1 _ (drop n (write_buffer h))); [|done].
  change (transmitted h ++ take n (write_buffer h) ++ drop n (write_buffer h) = acc). by rewrite take_drop.
Qed.

(** Whether a write may be staged without sending two chunks at once. *)
Definition calm (mtu : Z) (buf : bytes) (h : ZtStream) : Prop :=
  len (write_buffer h) < chunk_size mtu ∨ len (write_buffer h) + len buf < 2 * chunk_size mtu.

(** Staging bytes behind what is there. *)
Lemma stage_holds acc x h : holds acc h → holds (acc ++ x) (h <| write_buffer ::= λ b, b ++ x |>).
Proof. unfold holds. intros <-. by rewrite <- !app_assoc. Qed.

Lemma stage_write_holds acc size buf h :
  holds acc h → (outstanding h = [] ∨ len (write_buffer h) + len buf < size) →
  ∃ n h', stage_write size buf h = (Ok n, h') ∧ holds (acc ++ take (Z.to_nat n) buf) h'.
Proof.
  intros H Hc. unfold stage_write. rewrite gets_bind. cbv zeta. set (n := Z.min _ _). rewrite modify_bind, gets_bind.
  pose proof (stage_holds acc (take (Z.to_nat n) buf) h H) as H1. set (h1 := h <| write_buffer ::= _ |>) in *.
  exists n. destruct (size <=? len (write_buffer h1)) eqn:F; [|by exists h1]. cbn [act_when]. to_prop.
  assert (outstanding h = []) as Ho.
  { destruct Hc as [|Hc]; [done|]. change (write_buffer h1) with (write_buffer h ++ take (Z.to_nat n) buf) in F.
    rewrite len_app, len_take in F. pose proof (len_nonneg buf). lia. }
  unfold mbind at 1, act_bind at 1. rewrite consult_bind. set (h2 := h1 <| zs_questions ::= S |>).
  destruct (sender_ready _); cbn [act_when]; [|by exists h2].
  pose proof (dispatch_holds (acc ++ take (Z.to_nat n) buf) (Z.to_nat size) h2 Ho H1) as H2.
  rewrite (surjective_pairing (dispatch (Z.to_nat size) h2)). by eexists.
Qed.

Lemma buffer_write_holds acc mtu buf h :
  holds acc h → write_state h = Idle → calm mtu buf h →
  match buffer_write mtu buf h with
  | (Ok (Ready (inr n)), h') => holds (acc ++ take (Z.to_nat n) buf) h'
  | (Ok Pending, h') => holds acc h'
  | _ => False
  end.
Proof.
  intros H Hs Hc. assert (outstanding h = []) as Ho by (unfold outstanding; by rewrite Hs).
  unfold buffer_write. rewrite gets_bind. destruct (chunk_size mtu <=? len (write_buffer h)) eqn:F; to_prop.
  2: { unfold mbind at 1, act_bind at 1. cbn [mret act_ret negb].
       destruct (stage_write_holds acc (chunk_size mtu) buf h) as (n & h' & E & H'); [done|by left|].
       by rewrite (act_bind_ok _ _ _ _ _ E). }
  unfold mbind at 1, act_bind at 1. rewrite consult_bind. set (h1 := h <| zs_questions ::= S |>).
  destruct (sender_ready _); [|exact H]. destruct Hc as [Hc|Hc]; [lia|].
  pose proof (dispatch_holds acc (Z.to_nat (chunk_size mtu)) h1 Ho H) as H1.
  set (h2 := (dispatch (Z.to_nat (chunk_size mtu)) h1).2) in *.
  assert (write_buffer h2 = drop (Z.to_nat (chunk_size mtu)) (write_buffer h)) as B by done.
  assert (dispatch (Z.to_nat (chunk_size mtu)) h1 = (Ok tt, h2)) as D by done.
  rewrite (act_bind_ok _ _ _ _ _ D). cbn [mret act_ret negb].
  destruct (stage_write_holds acc (chunk_size mtu) buf h2) as (n & h' & E & H'); [done| |].
  { right. rewrite B, len_drop. pose proof (len_nonneg (write_buffer h)). lia. }
  by rewrite (act_bind_ok _ _ _ _ _ E).
Qed.

(** ** Flushing and closing *)

Lemma flush_loop_holds acc fuel h :
  holds acc h →
  match flush_loop fuel h with
  | (Ok (Ready (inr _)), h') => holds acc h' ∧ transmitted h' = acc
  | (Ok Pending, h') => holds acc h'
  | _ => True
  end.
Proof.
  revert h. induction fuel as [|fuel IH]; intros h H; cbn [flush_loop]; rewrite !gets_bind;
    pose proof (drive_turn_holds acc "Flush failed" h H) as T; pose proof H as H0; unfold holds, outstanding in H0;
    destruct (write_state h) eqn:E;
    try (destruct (len (write_buffer h) =? 0) eqn:L;
      [to_prop; apply len_0_nil in L; rewrite L, !app_nil_r in H0; exact (conj H H0)|]); try exact I.
  - rewrite <- H0 in H. unfold mbind at 1, act_bind at 1. rewrite consult_bind. set (h1 := h <| zs_questions ::= S |>).
    destruct (sender_ready _); [|by subst acc]. rewrite gets_bind.
    assert (outstanding h1 = []) as Ho by (unfold outstanding; change (write_state h1) with (write_state h); by rewrite E).
    pose proof (dispatch_holds acc (length (write_buffer h1)) h1 Ho) as D. rewrite <- H0 in D. specialize (D H).
    rewrite H0 in D. set (h2 := (dispatch (length (write_buffer h1)) h1).2) in D. exact (IH h2 D).
  - unfold mbind, act_bind. destruct (drive_turn _ _ h) as [[[]| |] h']; try done. by apply IH.
  - unfold mbind, act_bind. destruct (drive_turn _ _ h) as [[[]| |] h']; try done. by apply IH.
  - unfold mbind, act_bind. destruct (drive_turn _ _ h) as [[[]| |] h']; try done. by apply IH.
Qed.

(** Steps that leave the writer alone. *)
Ltac unwritten := walk; try (let H := fresh in intros ? H; exact H).

(** Messages without data change nothing for the writer. *)
Lemma post_holds acc m : (∀ i, taken i m = []) → preserves (holds acc) (post m).
Proof.
  intros Hm h H. unfold holds. change (mjoin (imap taken (posted h ++ [m])) ++ outstanding h ++ write_buffer h = acc).
  rewrite transmitted_post, Hm, app_nil_r. exact H.
Qed.
Lemma post_read_holds acc id n : preserves (holds acc) (post (ActorMessage.StreamDataRead id n)).
Proof. by apply post_holds. Qed.
Lemma post_close_holds acc id : preserves (holds acc) (post (ActorMessage.CloseStream id)).
Proof. by apply post_holds. Qed.
#[local] Hint Resolve post_read_holds post_close_holds : preserves.

Lemma poll_recv_holds acc : preserves (holds acc) poll_recv.
Proof. intros h H. unfold poll_recv. destruct (receiver h); [by destruct (receiver_open h)|exact H]. Qed.
#[local] Hint Resolve poll_recv_holds : preserves.

Lemma send_credit_holds acc : preserves (holds acc) send_credit.
Proof. unfold send_credit. unwritten. Qed.
#[local] Hint Resolve send_credit_holds : preserves.

Lemma read_loop_holds acc fuel t room : preserves (holds acc) (read_loop fuel t room).
Proof. induction fuel as [|fuel IH]; cbn [read_loop]; unfold take_chunk; unwritten. Qed.
#[local] Hint Resolve read_loop_holds : preserves.

Lemma poll_read_holds acc t room : preserves (holds acc) (poll_read t room).
Proof. unfold poll_read. walk. Qed.

Lemma recv_result_holds acc : preserves (holds acc) recv_result.
Proof. unfold recv_result, next_chunk, hand_out, post_if_open. unwritten. Qed.

(** ** Runs of a handle *)

(** A handle in use: polls to write, flush, shut down and read in any order, none of which
    returned an error, and the chunks of the actor arriving; with the bytes [poll_write]
    accepted.  Writes that stage a second full chunk behind a full buffer are left out. *)
Inductive writes : ZtStream → bytes → Prop :=
  | writes_new id ty timeout : writes (new_handle id ty timeout) []
  | writes_write h acc fuel closed t mtu buf n h' :
      writes h acc → calm mtu buf h →
      poll_write fuel closed t mtu buf h = (Ok (Ready (inr n)), h') → writes h' (acc ++ take (Z.to_nat n) buf)
  | writes_write_pending h acc fuel closed t mtu buf h' :
      writes h acc → calm mtu buf h →
      poll_write fuel closed t mtu buf h = (Ok Pending, h') → writes h' acc
  | writes_flush h acc fuel h' : writes h acc → poll_flush fuel h = (Ok (Ready (inr tt)), h') → writes h' acc
  | writes_flush_pending h acc fuel h' : writes h acc → poll_flush fuel h = (Ok Pending, h') → writes h' acc
  | writes_shutdown h acc fuel h' : writes h acc → poll_shutdown fuel h = (Ok (Ready (inr tt)), h') → writes h' acc
  | writes_shutdown_pending h acc fuel h' : writes h acc → poll_shutdown fuel h = (Ok Pending, h') → writes h' acc
  | writes_read h acc t room : writes h acc → writes (poll_read t room h).2 acc
  | writes_recv h acc : writes h acc → writes (recv_result h).2 acc
  | writes_arrival h acc chunk : writes h acc → writes (h <| receiver ::= λ l, l ++ [chunk] |>) acc
  | writes_eof h acc : writes h acc → writes (h <| receiver_open := false |>) acc.

Lemma poll_write_holds acc fuel closed t mtu buf h :
  holds acc h → calm mtu buf h →
  match poll_write fuel closed t mtu buf h with
  | (Ok (Ready (inr n)), h') => holds (acc ++ take (Z.to_nat n) buf) h'
  | (Ok Pending, h') => holds acc h'
  | _ => True
  end.
Proof.
  intros H Hc. unfold poll_write. rewrite gets_bind. destruct (bool_decide _); [exact I|]. destruct closed; [exact I|].
  pose proof (drive_holds acc (write_buffer h) fuel h H eq_refl) as D. unfold mbind, act_bind.
  destruct (drive fuel h) as [[[| |e]| |] h1]; try done. destruct D as (H1 & S1 & B1).
  assert (calm mtu buf h1) as C1 by (unfold calm; by rewrite B1).
  pose proof (buffer_write_holds acc mtu buf h1 H1 S1 C1) as W.
  by destruct (buffer_write mtu buf h1) as [[[[]|]| |] h2].
Qed.

Lemma poll_flush_holds acc fuel h :
  holds acc h →
  match poll_flush fuel h with
  | (Ok (Ready (inr _)), h') => holds acc h' ∧ transmitted h' = acc
  | (Ok Pending, h') => holds acc h'
  | _ => True
  end.
Proof.
  intros H. unfold poll_flush. rewrite gets_bind. destruct (bool_decide _); [exact I|]. by apply flush_loop_holds.
Qed.

Lemma poll_shutdown_holds acc fuel h :
  holds acc h →
  match poll_shutdown fuel h with
  | (Ok (Ready (inr _) | Pending), h') => holds acc h'
  | _ => True
  end.
Proof.
  intros H. unfold poll_shutdown. rewrite gets_bind. destruct (bool_decide _); [exact I|].
  pose proof (poll_flush_holds acc fuel h H) as F. unfold mbind at 1, act_bind at 1.
  destruct (poll_flush fuel h) as [[[[]|]| |] h1]; try done. destruct F as [F _].
  rewrite consult_bind. set (h2 := h1 <| zs_questions ::= S |>). destruct (sender_ready _); [|exact F].
  rewrite gets_bind. exact (post_close_holds acc (zs_stream_id h2) h2 F).
Qed.

Lemma writes_holds h acc : writes h acc → holds acc h.
Proof.
  induction 1 as [|h acc fuel closed t mtu buf n h' _ IH C E|h acc fuel closed t mtu buf h' _ IH C E|
    h acc fuel h' _ IH E|h acc fuel h' _ IH E|h acc fuel h' _ IH E|h acc fuel h' _ IH E| | | |].
  - done.
  - pose proof (poll_write_holds acc fuel closed t mtu buf h IH C) as W. by rewrite E in W.
  - pose proof (poll_write_holds acc fuel closed t mtu buf h IH C) as W. by rewrite E in W.
  - pose proof (poll_flush_holds acc fuel h IH) as W. rewrite E in W. by destruct W.
  - pose proof (poll_flush_holds acc fuel h IH) as W. by rewrite E in W.
  - pose proof (poll_shutdown_holds acc fuel h IH) as W. by rewrite E in W.
  - pose proof (poll_shutdown_holds acc fuel h IH) as W. by rewrite E in W.
  - by apply poll_read_holds.
  - by apply recv_result_holds.
  - done.
  - done.
Qed.
End writes.

(** ** The theorems *)


(** An actor whose channel is full at first, and which refuses the first message once. *)
Definition busy_env : StreamEnv := {|
  sender_ready n := (0 <? Z.of_nat n);
  answer_ready _ := true;
  answer i := match i with O => Refused CongestionWindowFull | _ => Accepted end;
  notified _ := true;
  slept _ := true;
  load_closed _ := false;
  load_termination _ := None;
|}.

Definition fresh_handle : ZtStream := new_handle 2 Bidirectional 1000.


