(* ===== verification/StreamReads.v ===== *)
(** * The stream handle: what arrives is what is read

    The bytes an application reads are, in order and each once, the chunks the actor
    delivered; and the actor gets credit for exactly the bytes that were read. *)

From stdpp Require Import strings.
From S2P Require Import Prelude Errors Effects Config StreamType Cookie Termination Connection Actor ActFacts StreamHandle.
From S2P Require Import StreamWrites.

(** The bytes in the handle that were not read yet. *)
Definition unread (h : ZtStream) : bytes := default [] (current_read_chunk h) ++ mjoin (receiver h).

(** The bytes the actor was told are read, and those it is still to be told. *)
Definition credit_of (m : ActorMessage.t) : Z :=
  match m with ActorMessage.StreamDataRead _ n => n | _ => 0 end.
Definition credited (h : ZtStream) : Z := foldr (λ m n, credit_of m + n) 0 (posted h).
Definition credit (h : ZtStream) : Z := credited h + pending_read_credit h.

Section reads.
Context `{SE : StreamEnv}.

Lemma credit_post m l : foldr (λ m n, credit_of m + n) 0 (l ++ [m]) = foldr (λ m n, credit_of m + n) 0 l + credit_of m.
Proof. induction l as [|x l IH]; simpl; [lia|]. rewrite IH. lia. Qed.

(** Credit is not negative, and does not reach the width of its counter with [n] bytes more. *)
Definition credit_ok (n : Z) (h : ZtStream) : Prop :=
  0 ≤ credited h ∧ 0 ≤ pending_read_credit h ∧ credit h + n < 2 ^ 64.

(** What reading does not change when it takes no bytes. *)
Definition same_unread (h h' : ZtStream) : Prop :=
  unread h' = unread h ∧ credit h' = credit h ∧ receiver_open h' = receiver_open h
  ∧ (0 ≤ credited h ∧ 0 ≤ pending_read_credit h → 0 ≤ credited h' ∧ 0 ≤ pending_read_credit h').

Lemma send_credit_spec h : ∃ h', send_credit h = (Ok tt, h') ∧ same_unread h h' ∧ receiver h' = receiver h.
Proof.
  unfold send_credit. rewrite consult_bind. destruct (sender_ready _); cbn [act_when].
  - eexists. split; [reflexivity|]. split; [|done]. unfold same_unread. split_and!; [done| |done|].
    + change (foldr (λ m n, credit_of m + n) 0 (posted h ++ [ActorMessage.StreamDataRead (zs_stream_id h) (pending_read_credit h)])
        + 0 = credit h). rewrite credit_post. cbn [credit_of]. unfold credit, credited. lia.
    + change (0 ≤ credited h ∧ 0 ≤ pending_read_credit h →
        0 ≤ foldr (λ m n, credit_of m + n) 0 (posted h ++ [ActorMessage.StreamDataRead (zs_stream_id h) (pending_read_credit h)])
        ∧ 0 ≤ 0). rewrite credit_post. cbn [credit_of]. unfold credited. lia.
  - by eexists.
Qed.

(** What a poll of [read_loop] does with the unread bytes. *)
Definition read_result (room : Z) (h : ZtStream) (r : res (poll (IoError + bytes)) * ZtStream) : Prop :=
  match r with
  | (Ok (Ready (inr slice)), h') =>
      slice ++ unread h' = unread h ∧ credit h' = credit h + len slice ∧ receiver_open h' = receiver_open h
      ∧ (0 ≤ credited h' ∧ 0 ≤ pending_read_credit h')
      ∧ (0 < room → slice = [] → unread h = [] ∧ receiver_open h = false)
  | (Ok (Ready (inl _)), h') => same_unread h h' ∧ unread h = [] ∧ receiver_open h = false
  | (Ok Pending, h') => same_unread h h' ∧ unread h = [] ∧ waker h' = true
  | _ => False
  end.

Lemma take_chunk_spec h chunk room :
  0 ≤ room → credit_ok (len (unread h)) h → current_read_chunk h = Some chunk →
  ∃ slice h', take_chunk chunk room h = (Ok slice, h')
    ∧ slice ++ unread h' = unread h ∧ credit h' = credit h + len slice ∧ receiver_open h' = receiver_open h
    ∧ (0 ≤ credited h' ∧ 0 ≤ pending_read_credit h') ∧ (0 < room → slice = [] → chunk = []).
Proof.
  intros Hr (C1 & C2 & C3) Hc. unfold take_chunk. rewrite !modify_bind. set (amt := Z.min (len chunk) room).
  set (h1 := upd _ _ (upd _ _ h)). destruct (send_credit_spec h1) as (h2 & E & (U & Cr & O & N) & _).
  assert (unread h = chunk ++ mjoin (receiver h)) as Eu by (unfold unread; by rewrite Hc).
  pose proof (len_nonneg chunk) as L. assert (len (take (Z.to_nat amt) chunk) = amt) as La by (rewrite len_take; lia).
  assert (credit h1 = credit h + amt ∧ credited h1 = credited h ∧ 0 ≤ pending_read_credit h1) as (Ec & Ed & Ep).
  { change (credited h + sat_add 64 (pending_read_credit h) amt = credited h + pending_read_credit h + amt
      ∧ credited h = credited h ∧ 0 ≤ sat_add 64 (pending_read_credit h) amt).
    rewrite Eu, len_app in C3. pose proof (len_nonneg (mjoin (receiver h))). unfold sat_add, u_max. unfold credit in C3. lia. }
  exists (take (Z.to_nat amt) chunk), h2. rewrite (act_bind_ok _ _ _ _ _ E). split_and!.
  - done.
  - rewrite U, Eu. change (unread h1) with (drop (Z.to_nat amt) chunk ++ mjoin (receiver h)). by rewrite app_assoc, take_drop.
  - rewrite Cr, Ec, La. done.
  - done.
  - apply N. lia.
  - apply N. lia.
  - intros Hp Hs. rewrite Hs, len_nil in La. apply len_0_nil. lia.
Qed.

(** The bytes that are there do not depend on how they are cut into chunks. *)
Lemma read_result_same room h h1 r :
  same_unread h h1 → 0 ≤ credited h ∧ 0 ≤ pending_read_credit h → read_result room h1 r → read_result room h r.
Proof.
  intros (U & C & O & N) H0. specialize (N H0). destruct r as [[[[e|slice]|]|e|] h']; cbn; rewrite <- ?U, <- ?C, <- ?O; try done.
  - intros ((U' & C' & O' & N') & E & Op). unfold same_unread. rewrite <- U, <- C, <- O. naive_solver.
  - intros ((U' & C' & O' & N') & E & Op). unfold same_unread. rewrite <- U, <- C, <- O. naive_solver.
Qed.

Lemma poll_recv_bind {B} (k : poll (option bytes) → handle B) h :
  (poll_recv ≫= k) h
  = match receiver h with
    | chunk :: l => k (Ready (Some chunk)) (h <| receiver := l |>)
    | [] => if receiver_open h then k Pending (h <| waker := true |>) else k (Ready None) h
    end.
Proof. unfold mbind, act_bind, poll_recv. destruct (receiver h); [|done]. by destruct (receiver_open h). Qed.

(** With no current chunk the next one is fetched; [next] reads from it. *)
Lemma fetch_spec t room h (next : handle (poll (IoError + bytes))) :
  default [] (current_read_chunk h) = [] → 0 ≤ room → credit_ok (len (unread h)) h →
  (∀ chunk l, receiver h = chunk :: l → ∀ h1, receiver h1 = l → credit_ok (len (unread h1)) h1 → read_result room h1 (next h1)) →
  read_result room h
    ((modify (λ h, h <| current_read_chunk := None |>);;
      r ← poll_recv;
      match r with
      | Ready (Some bytes) => modify (λ h, h <| current_read_chunk := Some bytes |>);; next
      | Ready None =>
          mret (Ready (match termination_io_error t with
                       | Some (kind, e) => inl (IoSource kind e)
                       | None => inr []
                       end))
      | Pending => mret Pending
      end) h).
Proof.
  intros Ec Hr (C1 & C2 & C3) IH. rewrite modify_bind, poll_recv_bind. set (h1 := h <| current_read_chunk := None |>).
  change (receiver h1) with (receiver h). change (receiver_open h1) with (receiver_open h).
  assert (unread h = mjoin (receiver h)) as Eu by (unfold unread; by rewrite Ec).
  destruct (receiver h) as [|chunk l] eqn:Er.
  - assert (unread h1 = unread h) as U1 by exact (eq_trans (f_equal mjoin Er) (eq_sym Eu)).
    assert (same_unread h h1) as S1 by done. destruct (receiver_open h) eqn:Eo; [exact (conj S1 (conj Eu eq_refl))|].
    destruct (termination_io_error t) as [[kind e]|]; [exact (conj S1 (conj Eu Eo))|].
    assert (credit h1 = credit h + 0) as C1' by (rewrite Z.add_0_r; done).
    exact (conj U1 (conj C1' (conj eq_refl (conj (conj C1 C2) (λ _ _, conj Eu Eo))))).
  - rewrite modify_bind. set (h2 := upd _ _ (upd _ _ h1)).
    assert (unread h2 = unread h) as U2 by by rewrite Eu.
    apply (read_result_same room h h2); [done|done|]. apply (IH chunk l eq_refl h2 eq_refl).
    unfold credit_ok. rewrite U2. done.
Qed.

Lemma read_loop_spec fuel t room h :
  (length (receiver h) ≤ fuel)%nat → 0 ≤ room → credit_ok (len (unread h)) h →
  read_result room h (read_loop fuel t room h).
Proof.
  revert h. induction fuel as [|fuel IH]; intros h Hf Hr Hc; cbn [read_loop]; rewrite gets_bind;
    destruct (current_read_chunk h) as [[|b chunk]|] eqn:Ec.
  all: try (destruct (take_chunk_spec h (b :: chunk) room Hr Hc Ec) as (slice & h' & E & U & C & O & N & Z);
    rewrite (act_bind_ok _ _ _ _ _ E); cbn; split_and!; [done|done|done|apply N|apply N|intros Hp Hs; by specialize (Z Hp Hs)]).
  all: apply fetch_spec; [by rewrite Ec|done|done|]; intros chunk l El h1 E1 C1; rewrite El in Hf; cbn in Hf;
    first [lia | apply IH; [rewrite E1; lia|done|done]].
Qed.

(** ** The writer leaves the reader alone *)

Definition read_view (h : ZtStream) : option bytes * list bytes * bool * Z * Z :=
  (current_read_chunk h, receiver h, receiver_open h, pending_read_credit h, credited h).

Lemma post_view v m : credit_of m = 0 → preserves (λ h, read_view h = v) (post m).
Proof.
  intros Hm h <-. unfold read_view. change (posted (post m h).2) with (posted h ++ [m]).
  unfold credited at 1. change (posted (post m h).2) with (posted h ++ [m]). rewrite credit_post, Hm, Z.add_0_r. done.
Qed.
Lemma post_data_view v chunk : preserves (λ h, read_view h = v) (post_data chunk).
Proof. unfold post_data. walk. by apply post_view. Qed.
Lemma post_close_view v id : preserves (λ h, read_view h = v) (post (ActorMessage.CloseStream id)).
Proof. by apply post_view. Qed.
#[local] Hint Resolve post_data_view post_close_view : preserves.

Ltac unseen := walk; try (let H := fresh in intros ? H; exact H).

Lemma drive_turn_view v what s : preserves (λ h, read_view h = v) (drive_turn what s).
Proof. unfold drive_turn, resend, poll_future, set_write_state, register_waker. unseen. Qed.
#[local] Hint Resolve drive_turn_view : preserves.
Lemma dispatch_view v n : preserves (λ h, read_view h = v) (dispatch n).
Proof. unfold dispatch, set_write_state. unseen. Qed.
#[local] Hint Resolve dispatch_view : preserves.
Lemma drive_view v fuel : preserves (λ h, read_view h = v) (drive fuel).
Proof. induction fuel; cbn [drive]; unseen. Qed.
#[local] Hint Resolve drive_view : preserves.
Lemma poll_write_view v fuel closed t mtu buf : preserves (λ h, read_view h = v) (poll_write fuel closed t mtu buf).
Proof. unfold poll_write, buffer_write, stage_write, register_waker. unseen. Qed.
Lemma flush_loop_view v fuel : preserves (λ h, read_view h = v) (flush_loop fuel).
Proof. induction fuel; cbn [flush_loop]; unfold register_waker; unseen. Qed.
#[local] Hint Resolve flush_loop_view : preserves.
Lemma poll_flush_view v fuel : preserves (λ h, read_view h = v) (poll_flush fuel).
Proof. unfold poll_flush. unseen. Qed.
#[local] Hint Resolve poll_flush_view : preserves.
Lemma poll_shutdown_view v fuel : preserves (λ h, read_view h = v) (poll_shutdown fuel).
Proof. unfold poll_shutdown, register_waker. unseen. Qed.

(** ** Runs of a handle *)

(** A handle in use, with the bytes that arrived and the bytes that were read. *)
Inductive reads : ZtStream → bytes → bytes → Prop :=
  | reads_new id ty timeout : reads (new_handle id ty timeout) [] []
  | reads_arrival h arr got chunk :
      reads h arr got → receiver_open h = true → reads (h <| receiver ::= λ l, l ++ [chunk] |>) (arr ++ chunk) got
  | reads_eof h arr got : reads h arr got → reads (h <| receiver_open := false |>) arr got
  | reads_poll h arr got t room slice h' :
      reads h arr got → 0 ≤ room → poll_read t room h = (Ok (Ready (inr slice)), h') → reads h' arr (got ++ slice)
  | reads_poll_pending h arr got t room h' :
      reads h arr got → 0 ≤ room → poll_read t room h = (Ok Pending, h') → reads h' arr got
  | reads_poll_error h arr got t room e h' :
      reads h arr got → 0 ≤ room → poll_read t room h = (Ok (Ready (inl e)), h') → reads h' arr got
  | reads_recv h arr got chunk h' :
      reads h arr got → sender_ready (zs_questions h) = true →
      recv_result h = (Ok (Ready (Some chunk)), h') → reads h' arr (got ++ chunk)
  | reads_recv_nothing h arr got r h' :
      reads h arr got → (∀ chunk, r ≠ Ok (Ready (Some chunk))) → recv_result h = (r, h') → reads h' arr got
  | reads_write h arr got fuel closed t mtu buf : reads h arr got → reads (poll_write fuel closed t mtu buf h).2 arr got
  | reads_flush h arr got fuel : reads h arr got → reads (poll_flush fuel h).2 arr got
  | reads_shutdown h arr got fuel : reads h arr got → reads (poll_shutdown fuel h).2 arr got.

(** The invariant of a handle that has read [got] of [arr]. *)
Definition read_ok (h : ZtStream) (arr got : bytes) : Prop :=
  got ++ unread h = arr ∧ credit h = len got ∧ 0 ≤ credited h ∧ 0 ≤ pending_read_credit h.

Lemma read_ok_view h h' arr got : read_view h' = read_view h → read_ok h arr got → read_ok h' arr got.
Proof.
  intros [= E1 E2 E3 E4 E5]. unfold read_ok, unread, credit. by rewrite E1, E2, E4, E5.
Qed.

(** [poll_read] on a stream that can be read. *)
Lemma poll_read_spec t room h arr got :
  0 ≤ room → read_ok h arr got → len arr < 2 ^ 64 →
  match poll_read t room h with
  | (Ok (Ready (inr slice)), h') => read_ok h' arr (got ++ slice)
      ∧ (0 < room → slice = [] → zs_stream_type h ≠ UnidirectionalOut → got = arr ∧ receiver_open h = false)
  | (Ok (Ready (inl _)), h') => read_ok h' arr got
  | (Ok Pending, h') => read_ok h' arr got ∧ got = arr ∧ waker h' = true
  | _ => False
  end.
Proof.
  intros Hr (E & C & N1 & N2) Hl. unfold poll_read. rewrite gets_bind. case_bool_decide as Ht.
  { split; [by unfold read_ok; rewrite app_nil_r|]. intros _ _ N. by destruct N. }
  rewrite gets_bind.
  assert (∃ h1, (act_when (0 <? pending_read_credit h) send_credit : handle unit) h = (Ok tt, h1) ∧ same_unread h h1)
    as (h1 & E1 & S1).
  { destruct (_ <? _); [|by exists h]. destruct (send_credit_spec h) as (h1 & E1 & S1 & _). by exists h1. }
  rewrite (act_bind_ok _ _ _ _ _ E1), gets_bind. destruct S1 as (U & C' & O & N). destruct N as [N1' N2']; [done|].
  rewrite <- E, len_app in Hl.
  pose proof (read_loop_spec (length (receiver h1)) t room h1 (le_n _) Hr) as R. rewrite U in R.
  assert (credit_ok (len (unread h)) h1) as K by (split_and!; [done|done|by rewrite C', C]). specialize (R K).
  destruct (read_loop _ t room h1) as [[[[e|slice]|]|e|] h2]; unfold read_result in R.
  - destruct R as ((U2 & C2 & _ & N3) & _). unfold read_ok. rewrite U2, U, C2. naive_solver lia.
  - destruct R as (U2 & C2 & O2 & N3 & Z). split.
    + unfold read_ok. rewrite <- app_assoc, U2, U, len_app. split_and!; [done|by rewrite C2, C', C|apply N3|apply N3].
    + intros Hp Hs _. destruct (Z Hp Hs) as [Z1 Z2]. rewrite U in Z1. rewrite Z1, app_nil_r in E. by rewrite <- O.
  - destruct R as ((U2 & C2 & _ & N3) & Z & Wk). unfold read_ok. rewrite U2, U, C2.
    rewrite U in Z. rewrite Z, app_nil_r in *. naive_solver lia.
  - done.
  - done.
Qed.

(** A whole chunk is handed out, and its credit posted. *)
Lemma hand_out_spec h chunk arr got :
  got ++ chunk ++ unread h = arr → credit h = len got → 0 ≤ credited h → 0 ≤ pending_read_credit h →
  ∃ h', hand_out chunk h = (Ok (Ready (Some chunk)), h')
    ∧ (sender_ready (zs_questions h) = true → read_ok h' arr (got ++ chunk)).
Proof.
  intros E C N1 N2. unfold hand_out, post_if_open. rewrite gets_bind. unfold mbind at 1, act_bind at 1.
  rewrite consult_bind. destruct (sender_ready _); [|by eexists; split; [reflexivity|]].
  set (h' := (h <| zs_questions ::= S |>) <| posted ::= λ l, l ++ [ActorMessage.StreamDataRead (zs_stream_id h) (len chunk)] |>).
  exists h'. split; [reflexivity|]. intros _.
  assert (credited h' = credited h + len chunk) as Ec.
  { unfold credited at 1. change (posted h') with (posted h ++ [ActorMessage.StreamDataRead (zs_stream_id h) (len chunk)]).
    by rewrite credit_post. }
  unfold read_ok, credit. rewrite Ec, <- app_assoc, len_app. pose proof (len_nonneg chunk).
  split_and!; [exact E| |lia|exact N2].
  change (credited h + len chunk + pending_read_credit h = len got + len chunk). rewrite <- C. unfold credit. lia.
Qed.

Definition recv_outcome (h : ZtStream) (arr got : bytes) (r : res (poll (option bytes)) * ZtStream) : Prop :=
  match r with
  | (Ok (Ready (Some chunk)), h') => sender_ready (zs_questions h) = true → read_ok h' arr (got ++ chunk)
  | (_, h') => read_ok h' arr got
  end.

Lemma next_chunk_spec h arr got :
  default [] (current_read_chunk h) = [] → read_ok h arr got → recv_outcome h arr got (next_chunk h).
Proof.
  intros Ec R. pose proof R as (E & C & N1 & N2). unfold next_chunk. rewrite poll_recv_bind.
  unfold unread in E. rewrite Ec in E. destruct (receiver h) as [|chunk l] eqn:Er.
  - destruct (receiver_open h); [exact R|]. rewrite consult_bind. by destruct (termination_error _).
  - set (h1 := h <| receiver := l |>). destruct (hand_out_spec h1 chunk arr got) as (h' & -> & H'); [|done..].
    unfold unread. change (current_read_chunk h1) with (current_read_chunk h). by rewrite Ec.
Qed.

Lemma recv_result_spec h arr got : read_ok h arr got → recv_outcome h arr got (recv_result h).
Proof.
  intros R. pose proof R as (E & C & N1 & N2). unfold recv_result. rewrite gets_bind. destruct (bool_decide _); [exact R|].
  rewrite gets_bind, modify_bind. set (h1 := h <| current_read_chunk := None |>).
  assert (default [] (current_read_chunk h) = [] → recv_outcome h arr got (next_chunk h1)) as Next.
  { intros Ec. unfold unread in E. rewrite Ec in E. by apply (next_chunk_spec h1). }
  destruct (current_read_chunk h) as [[|b chunk]|] eqn:Ec; [by apply Next| |by apply Next].
  unfold unread in E. rewrite Ec in E. destruct (hand_out_spec h1 (b :: chunk) arr got) as (h' & -> & H'); done.
Qed.

Lemma reads_ok h arr got : reads h arr got → len arr < 2 ^ 64 → read_ok h arr got.
Proof.
  induction 1 as [|h arr got chunk _ IH Ho|h arr got _ IH|h arr got t room slice h' _ IH Hr E|h arr got t room h' _ IH Hr E|
    h arr got t room e h' _ IH Hr E|h arr got chunk h' _ IH Hs E|h arr got r h' _ IH Hn E| | |]; intros Hl.
  - done.
  - rewrite len_app in Hl. pose proof (len_nonneg chunk). destruct IH as (E & C & N); [lia|].
    split; [|done]. change (unread _) with (default [] (current_read_chunk h) ++ mjoin (receiver h ++ [chunk])).
    rewrite join_app, <- E. unfold unread. cbn. by rewrite app_nil_r, <- !app_assoc.
  - by apply IH.
  - pose proof (poll_read_spec t room h arr got Hr (IH Hl) Hl) as P. rewrite E in P. by destruct P.
  - pose proof (poll_read_spec t room h arr got Hr (IH Hl) Hl) as P. rewrite E in P. by destruct P.
  - pose proof (poll_read_spec t room h arr got Hr (IH Hl) Hl) as P. by rewrite E in P.
  - pose proof (recv_result_spec h arr got (IH Hl)) as P. rewrite E in P. by apply P.
  - pose proof (recv_result_spec h arr got (IH Hl)) as P. rewrite E in P. destruct r as [[[chunk|]|]| |]; try done. by destruct (Hn chunk).
  - eapply read_ok_view; [|by apply IHreads]. by apply poll_write_view.
  - eapply read_ok_view; [|by apply IHreads]. by apply poll_flush_view.
  - eapply read_ok_view; [|by apply IHreads]. by apply poll_shutdown_view.
Qed.
End reads.

(** ** The theorem *)

(** C18: What a handle gives to the application is a prefix of what the actor delivered: the rest
    is in the handle, in order.  The flow-control credit the actor was sent, with the credit
    that waits for room in its channel, is exactly the number of bytes read.  A poll always
    returns; [Pending] means that nothing is left and the task will be woken, and end of file
    (no bytes for a buffer with room) that all that arrived was read and nothing
    more can arrive. *)
Theorem reads_are_delivered `{SE : StreamEnv} (h : ZtStream) (arr got : bytes) :
  reads h arr got → len arr < 2 ^ 64 →
  got ++ unread h = arr ∧ credited h + pending_read_credit h = len got
  ∧ (∀ t room, 0 < room → zs_stream_type h ≠ UnidirectionalOut →
      match poll_read t room h with
      | (Ok (Ready (inr slice)), _) => slice = [] → got = arr ∧ receiver_open h = false
      | (Ok (Ready (inl _)), _) => True
      | (Ok Pending, h') => got = arr ∧ waker h' = true
      | _ => False
      end).
Proof.
  intros R Hl. pose proof (reads_ok h arr got R Hl) as K. pose proof K as (E & C & _). split_and!; [done|done|].
  intros t room Hr Ht. assert (0 ≤ room) as Hr0 by lia. pose proof (poll_read_spec t room h arr got Hr0 K Hl) as P.
  destruct (poll_read t room h) as [[[[e|slice]|]|e|] h']; [done| |by destruct P|done|done].
  destruct P as [_ P]. intros Hs. by apply P.
Qed.

Lemma reads_are_delivered_witness :
  let h := (@poll_read busy_env None 3 (fresh_handle <| receiver := [[1; 2; 3; 4]; [5]] |>)).2 in
  [1; 2; 3] ++ unread h = [1; 2; 3; 4; 5] ∧ credited h + pending_read_credit h = 3.
Proof.
  cut (let h := (@poll_read busy_env None 3 (fresh_handle <| receiver := [[1; 2; 3; 4]; [5]] |>)).2 in
    [1; 2; 3] ++ unread h = [1; 2; 3; 4; 5] ∧ credited h + pending_read_credit h = len [1; 2; 3]
    ∧ (∀ t room, 0 < room → zs_stream_type h ≠ UnidirectionalOut →
      match @poll_read busy_env t room h with
      | (Ok (Ready (inr slice)), _) => slice = [] → [1; 2; 3] = [1; 2; 3; 4; 5] ∧ receiver_open h = false
      | (Ok (Ready (inl _)), _) => True
      | (Ok Pending, h') => [1; 2; 3] = [1; 2; 3; 4; 5] ∧ waker h' = true
      | _ => False
      end)); [intros (E & C & _); exact (conj E C)|].
  apply (@reads_are_delivered busy_env _ [1; 2; 3; 4; 5] ([] ++ [1; 2; 3])); [|by vm_compute].
  eapply (@reads_poll busy_env (fresh_handle <| receiver := [[1; 2; 3; 4]; [5]] |>) [1; 2; 3; 4; 5] [] None 3);
    [|lia|vm_compute; reflexivity].
  exact (@reads_arrival busy_env _ _ _ [5] (@reads_arrival busy_env _ _ _ [1; 2; 3; 4]
    (@reads_new busy_env 2 Bidirectional 1000) eq_refl) eq_refl).
Defined.
