(* ===== verification/StreamSends.v ===== *)
(** * The stream handle: sending without staging, and waking

    [send] and [send_bytes] hand the actor the same chunks and stop at the first error; a poll
    that waits has registered its waker, but for one path. *)

From stdpp Require Import strings.
From S2P Require Import Prelude Errors Effects Config StreamType Cookie Termination Connection Actor ActFacts StreamHandle.
From S2P Require Import StreamWrites.

Definition is_waits (r : Turn) : bool := match r with Waits => true | _ => false end.
Definition is_pending {A} (r : poll A) : bool := match r with Pending => true | Ready _ => false end.

Section sends.
Context `{SE : StreamEnv}.

(** ** Chunks *)

Lemma chunk_size_pos mtu : 512 ≤ chunk_size mtu.
Proof. unfold chunk_size. lia. Qed.

Lemma join_chunks fuel n data : (1 ≤ n)%nat → (length data ≤ fuel)%nat → mjoin (chunks fuel n data) = data.
Proof.
  intros Hn. revert data. induction fuel as [|fuel IH]; intros [|b data] Hl; try done; [cbn in Hl; lia|].
  cbn [chunks]. change (mjoin (?x :: ?l)) with (x ++ mjoin l). rewrite IH; [apply take_drop|].
  rewrite length_drop. cbn in *. lia.
Qed.

(** The loop of [send_bytes] cuts the data as [chunks] does. *)
Lemma send_bytes_loop_chunks turns fuel size data h :
  1 ≤ size → (length data ≤ turns)%nat →
  send_bytes_loop turns fuel size data h = send_chunks fuel (chunks turns (Z.to_nat size) data) h.
Proof.
  intros Hs. revert data h. induction turns as [|turns IH]; intros [|b data] h Hl; try done; [cbn in Hl; lia|].
  cbn [send_bytes_loop chunks send_chunks]. set (d := b :: data) in *.
  assert ((if size <? len d then (take (Z.to_nat size) d, drop (Z.to_nat size) d) else (d, []))
    = (take (Z.to_nat size) d, drop (Z.to_nat size) d)) as ->.
  { destruct (size <? len d) eqn:E; [done|]. to_prop. unfold len in E. rewrite take_ge, drop_ge by lia. done. }
  unfold mbind, act_bind. destruct (send_chunk fuel _ h) as [[[]| |] h']; [|done..].
  apply IH. rewrite length_drop. subst d. cbn in *. lia.
Qed.

(** ** What is sent *)

Lemma post_data_bind {B} chunk (k : nat → handle B) h :
  (post_data chunk ≫= k) h
  = k (length (posted h)) (h <| posted ::= λ l, l ++ [ActorMessage.OutgoingData (zs_stream_id h) chunk] |>).
Proof. done. Qed.

Lemma transmitted_data h id chunk :
  transmitted (h <| posted ::= λ l, l ++ [ActorMessage.OutgoingData id chunk] |>)
  = transmitted h ++ match answer (length (posted h)) with Accepted => chunk | _ => [] end.
Proof. exact (transmitted_post (posted h) (ActorMessage.OutgoingData id chunk)). Qed.

(** [send_chunk] hands the chunk over once when it succeeds, and not at all otherwise. *)
Lemma send_chunk_spec fuel chunk h :
  match send_chunk fuel chunk h with
  | (Ok _, h') => transmitted h' = transmitted h ++ chunk
  | (_, h') => transmitted h' = transmitted h
  end.
Proof.
  revert h. induction fuel as [|fuel IH]; intros h; cbn [send_chunk]; rewrite consult_bind; destruct (load_closed _);
    try done; rewrite consult_bind; destruct (sender_ready _); try done; cbn [negb]; rewrite post_data_bind;
    match goal with |- context [answer _] => set (h1 := upd posted _ _) end;
    pose proof (transmitted_data h (zs_stream_id h) chunk) as T;
    change (answer (length _)) with (answer (length (posted h)));
    destruct (answer (length (posted h))) as [|e|]; rewrite ?app_nil_r in T; try exact T;
    destruct e; try exact T; rewrite ?consult_bind; try (destruct (notified _); [|exact T]); try exact T.
  all: match goal with |- match send_chunk _ _ ?h2 with _ => _ end => specialize (IH h2) end.
  all: destruct (send_chunk fuel chunk _) as [[]]; rewrite IH; [f_equal|..]; exact T.
Qed.

(** The chunks handed over are a prefix of all of them. *)
Lemma send_chunks_spec fuel l h :
  ∃ k, (k ≤ length l)%nat ∧ transmitted (send_chunks fuel l h).2 = transmitted h ++ mjoin (take k l)
    ∧ ((send_chunks fuel l h).1 = Ok tt → k = length l).
Proof.
  revert h. induction l as [|chunk l IH]; intros h; cbn [send_chunks].
  { exists 0%nat. by rewrite app_nil_r. }
  pose proof (send_chunk_spec fuel chunk h) as C. unfold mbind, act_bind.
  destruct (send_chunk fuel chunk h) as [[[]|e|] h1]; cbn [fst snd].
  - destruct (IH h1) as (k & Hk & T & F). exists (S k). cbn [length take]. split; [lia|]. split.
    + rewrite T, C. change (mjoin (?x :: ?y)) with (x ++ mjoin y). by rewrite app_assoc.
    + intros E. by rewrite (F E).
  - exists 0%nat. rewrite C, app_nil_r. split_and!; [lia|done|done].
  - exists 0%nat. rewrite C, app_nil_r. split_and!; [lia|done|done].
Qed.

(** ** Returning *)

(** A refusal after which the chunk is sent again. *)
Definition again (a : Answer) : bool :=
  match a with Refused FlowControlBlocked | Refused CongestionWindowFull | Refused (PacingBlocked _) => true | _ => false end.

(** Once the actor stops refusing for lack of window, a chunk goes through. *)
Lemma send_chunk_returns fuel chunk h n :
  (∀ i, (n ≤ i)%nat → again (answer i) = false) → (n ≤ length (posted h) + fuel)%nat →
  (send_chunk fuel chunk h).1 ≠ Panic
  ∧ (length (posted h) ≤ length (posted (send_chunk fuel chunk h).2))%nat.
Proof.
  intros Hn. revert h. induction fuel as [|fuel IH]; intros h Hf; cbn [send_chunk]; rewrite consult_bind; destruct (load_closed _);
    try (split; [done|exact (le_n _)]); rewrite consult_bind; destruct (sender_ready _);
    try (split; [done|exact (le_n _)]); cbn [negb]; rewrite post_data_bind;
    set (h1 := upd posted _ _);
    assert (length (posted h1) = S (length (posted h))) as L1
      by (change (posted h1) with (posted h ++ [ActorMessage.OutgoingData (zs_stream_id h) chunk]); rewrite length_app; cbn; lia);
    assert (length (posted h) ≤ length (posted h1))%nat as L2 by lia;
    pose proof (Hn (length (posted h))) as Ha; change (answer (length _)) with (answer (length (posted h)));
    destruct (answer (length (posted h))) as [|e|]; try (split; [done|exact L2]).
  - destruct e; try (split; [done|exact L2]); discriminate Ha; lia.
  - assert (∀ h2, posted h2 = posted h1 → (send_chunk fuel chunk h2).1 ≠ Panic
      ∧ (length (posted h) ≤ length (posted (send_chunk fuel chunk h2).2))%nat) as Next.
    { intros h2 E2. destruct (IH h2) as [P L]; [rewrite E2, L1; lia|]. rewrite E2, L1 in L. split; [done|lia]. }
    destruct e; rewrite ?consult_bind; try (split; [done|exact L2]); try (by apply Next);
      (destruct (notified _); [by apply Next|]); (split; [done|exact L2]).
Qed.

Lemma send_chunks_return fuel l h n :
  (∀ i, (n ≤ i)%nat → again (answer i) = false) → (n ≤ length (posted h) + fuel)%nat →
  (send_chunks fuel l h).1 ≠ Panic.
Proof.
  intros Hn. revert h. induction l as [|chunk l IH]; intros h Hf; [done|]. cbn [send_chunks].
  destruct (send_chunk_returns fuel chunk h n Hn Hf) as [P L]. unfold mbind, act_bind.
  destruct (send_chunk fuel chunk h) as [[[]|e|] h1]; cbn [fst snd] in *; [|done..]. apply IH. lia.
Qed.

Lemma send_spec fuel mtu data h :
  ∃ sent, sent `prefix_of` data ∧ transmitted (send fuel mtu data h).2 = transmitted h ++ sent
    ∧ ((send fuel mtu data h).1 = Ok tt → sent = data).
Proof.
  unfold send. rewrite gets_bind. destruct (bool_decide _).
  { exists []. split_and!; [apply prefix_nil|by rewrite app_nil_r|done]. }
  set (l := chunks _ _ data). pose proof (chunk_size_pos mtu).
  assert (mjoin l = data) as Ej by (apply join_chunks; lia).
  destruct (send_chunks_spec fuel l h) as (k & Hk & T & F). exists (mjoin (take k l)). split_and!; [|done|].
  - exists (mjoin (drop k l)). by rewrite <- join_app, take_drop.
  - intros E. by rewrite (F E), firstn_all.
Qed.

Lemma send_bytes_send fuel mtu data h : send_bytes fuel mtu data h = send fuel mtu data h.
Proof.
  unfold send_bytes, send. rewrite !gets_bind. destruct (bool_decide _); [done|]. pose proof (chunk_size_pos mtu).
  apply send_bytes_loop_chunks; lia.
Qed.

Lemma send_returns fuel mtu data h n :
  (∀ i, (n ≤ i)%nat → again (answer i) = false) → (n ≤ length (posted h) + fuel)%nat →
  (send fuel mtu data h).1 ≠ Panic.
Proof.
  intros Hn Hf. unfold send. rewrite gets_bind. destruct (bool_decide _); [done|]. by eapply send_chunks_return.
Qed.

(** ** Wakers *)

(** The poll waits for nothing that would wake it: the channel refused to take a chunk again. *)
Definition asleep (h : ZtStream) : Prop :=
  (∃ chunk, write_state h = Pacing chunk) ∧ ∃ q, zs_questions h = S q ∧ sender_ready q = false.

(** A poll that waits is woken, or asleep. *)
Definition waits_well {A} (waiting : A → bool) (r : res A * ZtStream) : Prop :=
  match r with (Ok x, h') => waiting x = true → waker h' = true ∨ asleep h' | _ => True end.

Lemma resend_wakes chunk h : waits_well is_waits (resend chunk h).
Proof.
  unfold resend. rewrite consult_bind. destruct (sender_ready _) eqn:E; [done|]. intros _. right.
  split; [by eexists|]. exists (zs_questions h). by split.
Qed.

Lemma drive_turn_wakes what s h : waits_well is_waits (drive_turn what s h).
Proof.
  unfold drive_turn. destruct s as [|rx chunk|chunk|chunk]; [done|rewrite poll_future_bind..].
  - destruct (answer_ready _); [|by left]. by destruct (answer rx) as [|[]|].
  - destruct (notified _); [apply resend_wakes|by left].
  - destruct (slept _); [apply resend_wakes|by left].
Qed.

Lemma flush_loop_wakes fuel h : waits_well is_pending (flush_loop fuel h).
Proof.
  revert h. induction fuel as [|fuel IH]; intros h; cbn [flush_loop]; rewrite !gets_bind;
    pose proof (drive_turn_wakes "Flush failed" (write_state h) h) as T;
    destruct (write_state h); try (destruct (_ =? _); [done|]); try done.
  - unfold mbind at 1, act_bind at 1. rewrite consult_bind. destruct (sender_ready _); [apply IH|by left].
  - unfold mbind, act_bind. destruct (drive_turn _ _ h) as [[[]| |] h']; first [done | apply IH].
  - unfold mbind, act_bind. destruct (drive_turn _ _ h) as [[[]| |] h']; first [done | apply IH].
  - unfold mbind, act_bind. destruct (drive_turn _ _ h) as [[[]| |] h']; first [done | apply IH].
Qed.

Lemma drive_wakes fuel h : waits_well is_waits (drive fuel h).
Proof.
  revert h. induction fuel as [|fuel IH]; intros h; cbn [drive]; rewrite !gets_bind;
    pose proof (drive_turn_wakes "Write failed" (write_state h) h) as T; destruct (write_state h); try done;
    unfold mbind, act_bind; destruct (drive_turn _ _ h) as [[[]| |] h']; first [done | apply IH].
Qed.

Lemma poll_write_wakes fuel closed t mtu buf h : waits_well is_pending (poll_write fuel closed t mtu buf h).
Proof.
  unfold poll_write. rewrite gets_bind. destruct (bool_decide _); [done|]. destruct closed; [done|].
  pose proof (drive_wakes fuel h) as D. unfold mbind at 1, act_bind at 1. destruct (drive fuel h) as [[[]| |] h1]; try done.
  assert (∀ h2, waits_well is_pending ((written ← stage_write (chunk_size mtu) buf; mret (Ready (@inr IoError Z written))) h2)) as Staged.
  { intros h2. unfold mbind, act_bind. by destruct (stage_write _ _ h2) as [[]]. }
  unfold buffer_write. rewrite gets_bind. destruct (_ <=? _); unfold mbind at 1, act_bind at 1; [|apply Staged].
  rewrite consult_bind. destruct (sender_ready _); [apply Staged|by left].
Qed.
End sends.

(** ** The theorems *)

(** C21: [send] gives the actor exactly the data, in order and once, when it succeeds, and a prefix
    of it when it fails, whatever was refused and sent again in between; the zero-copy
    [send_bytes] does the same, step for step; and both return when the actor refuses
    only finitely many messages for lack of a window. *)
Theorem send_exact `{SE : StreamEnv} (fuel : nat) (mtu : Z) (data : bytes) (h : ZtStream) :
  (∃ sent, sent `prefix_of` data ∧ transmitted (send fuel mtu data h).2 = transmitted h ++ sent
    ∧ ((send fuel mtu data h).1 = Ok tt → sent = data))
  ∧ send_bytes fuel mtu data h = send fuel mtu data h
  ∧ (∀ n, (∀ i, (n ≤ i)%nat → again (answer i) = false) → (n ≤ length (posted h) + fuel)%nat →
      (send fuel mtu data h).1 ≠ Panic).
Proof.
  split_and!; [apply send_spec|apply send_bytes_send|]. intros n. apply send_returns.
Qed.

(** The actor refuses a chunk, opens its window, and has no room for messages then. *)
Definition full_env : StreamEnv := {|
  sender_ready n := match n with 3%nat => false | _ => true end;
  answer_ready _ := true;
  answer _ := Refused CongestionWindowFull;
  notified _ := true;
  slept _ := false;
  load_closed _ := false;
  load_termination _ := None;
|}.

(** C30: A write or flush that returns [Pending] has registered its waker, or it is asleep: it
    replaced the future that woke it by a timer it does not poll.  The latter happens: when the
    window opens but the actor's channel is full, a flush returns [Pending] with no
    waker registered anywhere, and nothing wakes the task again. *)
Theorem pending_without_waker :
  (∀ `{SE : StreamEnv} (h : ZtStream) (fuel : nat) (closed : bool) (t : Termination) (mtu : Z) (buf : bytes),
    waits_well is_pending (poll_write fuel closed t mtu buf h) ∧ waits_well is_pending (poll_flush fuel h))
  ∧ (let h := fresh_handle <| write_buffer := [1; 2; 3] |> in
     ∃ h', @poll_flush full_env 9 h = (Ok Pending, h') ∧ waker h' = false ∧ write_state h' = Pacing [1; 2; 3]).
Proof.
  split.
  - intros SE h fuel closed t mtu buf. split; [apply poll_write_wakes|]. unfold poll_flush. rewrite gets_bind.
    destruct (bool_decide _); [done|]. apply flush_loop_wakes.
  - intros h. exists (@poll_flush full_env 9 h).2. split_and!; by vm_compute.
Qed.
