(* ===== verification/PacketSender.v ===== *)
(** * Sending packets (src/src/transport/actor/packet_sender.rs)

    Every packet the actor sends is a header, one frame (padded so that the header
    protection has its sample), the AEAD tag, and header protection over the whole; all but
    acknowledgements and path probes are remembered until acknowledged. *)

From stdpp Require Import strings.
From Stdlib Require Import SpecFloat.
From S2P Require Import Prelude Errors Effects Buf Config StreamType Frames Packet PacketNumber HeaderProtection.
From S2P Require Import Bitmap AckTracker Unacked Cookie KeyDerivation CryptoContext Float Congestion Connection Actor.

(** SHA-256 and Ed25519 signatures: third-party code. *)
Class Sha256 := { sha256 : bytes → bytes }.
Class Ed25519 := {
  (** [SigningKey::verifying_key] *)
  ed_public : bytes → bytes;
  ed_sign : bytes → bytes → bytes;
  (** [VerifyingKey::from_bytes] *)
  ed_valid_key : bytes → bool;
  ed_verify : bytes → bytes → bytes → bool;
}.

(** Digests have 32 bytes; the keys and signatures of a signing key are accepted. *)
Class Sha256Laws `{Sha256} : Prop := { sha256_array m : array_ok 32 (sha256 m) }.
Class Ed25519Laws `{Ed25519} : Prop := {
  ed_public_array sk : array_ok 32 (ed_public sk);
  ed_sign_array sk m : array_ok 64 (ed_sign sk m);
  ed_valid_public sk : ed_valid_key (ed_public sk) = true;
  ed_verify_sign sk m : ed_verify (ed_public sk) m (ed_sign sk m) = true;
}.

Section sender.
Context `{BC : BytesCrate} `{HK : Hkdf} `{AE : Aead} `{CC : ChaCha20} `{LM : Libm} `{EV : Env}.
Context `{SH : Sha256} `{ED : Ed25519}.

(** [note_packet_sent]. *)
Definition note_packet_sent : act unit := λ a,
  let c := conn a in
  if negb (bool_decide (state c = Active)) then (Ok tt, a)
  else match crypto c with
       | None => (Ok tt, a)
       | Some k =>
           let c := c <| packets_since_key_update ::= λ n, sat_add 64 n 1 |> in
           let c :=
             if key_update_packet_interval (config a) <=? packets_since_key_update c then
               let c := c <| crypto := Some (rotate_keys k) |> in
               let c := c <| current_key_epoch ::= λ n, sat_add 64 n 1 |> in
               c <| packets_since_key_update := 0 |>
             else c in
           (Ok tt, a <| conn := c |>)
       end.

(** [sendmsg_vectored], on the concatenation of its slices.  A buffer of more than
    [isize::MAX] bytes does not exist: its allocation panics. *)
Definition sendmsg_vectored (buf : bytes) : act unit := λ a,
  let total_len := len buf in
  let c := conn a in
  if 2 ^ 63 <=? total_len then (Panic, a)
  else if negb (on_client a) && bool_decide (state c = Handshaking)
     && (wrap 64 (3 * Z.max (bytes_received c) 1) <? wrap 64 (bytes_sent c + total_len))
  then (Ok tt, a)
  else
    let r := socket_send (questions a) (addr c) buf in
    let a := a <| questions ::= S |> in
    match r with
    | None =>
        let a := a <| outbox ::= λ o, o ++ [(addr c, buf)] |> in
        (Ok tt, a <| conn ::= λ c, c <| bytes_sent ::= λ n, wrap 64 (n + total_len) |> |>)
    | Some WouldBlock => (Err (Io WouldBlock ""), a <| socket_blocked := true |>)
    | Some kind => (Err (Io kind ""), a)
    end.

(** The length of the packet number of a packet numbered [pn]. *)
Definition pn_length (c : ZtConnection) (pn : Z) : Z :=
  let lowest_unacked := default pn (head (Window.keys (unacked_packets c))) in
  (truncate_pn pn (sat_sub lowest_unacked 1)).2.

(** The short header of a packet. *)
Definition short_header (p_type : PacketType.t) (pn : Z) (a : Actor) : PacketHeader.t :=
  PacketHeader.mk p_type false 0 (dcid (conn a)) [] pn (current_key_phase a) (pn_length (conn a) pn).

(** [if p_len < min_payload { Frame::Padding(pad).encode(&mut packet) }]. *)
Definition pad_packet (pn_len h_len : Z) (packet : bytes) : bytes :=
  let p_len := len packet - h_len in
  let min_payload := sat_sub 4 pn_len in
  if p_len <? min_payload then Frame.encode (Frame.Padding (min_payload - p_len)) packet else packet.

(** Encryption in place behind the [h_len] header bytes, the tag, header protection. *)
Definition protect_packet (k : CryptoContext) (pn h_len : Z) (packet : bytes) : res bytes :=
  let aad := take (Z.to_nat h_len) packet in
  let payload := drop (Z.to_nat h_len) packet in
  '(payload, tag) ← encrypt_in_place k pn aad payload;
  let packet := aad ++ payload ++ tag in
  offset ← PacketHeader.get_pn_offset packet;
  match offset with
  | Some offset => ctx_apply_header_protection k packet (Z.to_nat offset)
  | None => Ok packet
  end.

(** [self.state.crypto.as_mut().ok_or(ZtError::Unauthorized)?]. *)
Definition get_crypto : act CryptoContext := λ a, (ok_or (crypto (conn a)) Unauthorized, a).

(** A packet that was sent is remembered and counted as in flight. *)
Definition track_packet (pn : Z) (payload : UnackedPayload.t) (sent_at retries : Z) (is_mtu_probe : bool)
    (sent_bytes : Z) (c : ZtConnection) : ZtConnection :=
  c <| unacked_packets ::= Window.insert pn (mkUnackedPacket payload sent_at retries is_mtu_probe sent_bytes) |>.

(** [local_window = initial_max_data - total buffered], saturating. *)
Definition refresh_local_window : act unit :=
  modify (λ a, a <| conn ::= λ c, c <| local_window :=
    sat_sub (cfg_initial_max_data (config a)) (get_total_buffered_bytes c) |> |>).

(** The next size to probe, if the search has not converged. *)
Definition probe_target (c : ZtConnection) : option Z :=
  if mtu_max c <=? wrap 64 (mtu_min c + 10) then None
  else Some (mtu_min c + (mtu_max c - mtu_min c) / 2).

(** [send_mtu_probe]. *)
Definition send_mtu_probe : act unit :=
  active ← gets (λ a, bool_decide (state (conn a) = Active));
  if negb active then skip
  else
    target ← gets (λ a, probe_target (conn a));
    match target with
    | None => skip
    | Some target_size =>
        pn ← next_pn;
        refresh_local_window;;
        header ← gets (short_header PacketType.MtuProbe pn);
        packet ← lift (PacketHeader.encode header []);
        let header_len := len packet in
        let packet := Frame.encode (Frame.Padding (sat_sub target_size (header_len + 16))) packet in
        k ← get_crypto;
        packet ← lift (protect_packet k pn header_len packet);
        let sent_bytes := len packet in
        r ← attempt (sendmsg_vectored packet);
        if negb (is_ok r) then skip
        else
          t ← now;
          on_conn (track_packet pn (UnackedPayload.MtuProbe target_size) t 0 true sent_bytes);;
          on_conn (λ c, c <| bytes_in_flight ::= λ b, sat_add 64 b sent_bytes |>);;
          on_conn (λ c, c <| mtu_probes ::= <[pn := target_size]> |>);;
          note_packet_sent
    end.

(** [flush_acks]. *)
Definition flush_acks : act unit :=
  none ← gets (λ a, pending_acks a =? 0);
  if (none : bool) then skip
  else
    pn ← next_pn;
    refresh_local_window;;
    header ← gets (short_header PacketType.Data pn);
    packet ← lift (PacketHeader.encode header []);
    let header_len := len packet in
    ack_ranges ← gets (λ a, conn_get_ack_ranges (conn a));
    received_at ← gets (λ a, largest_acked_received_at (conn a));
    ack_delay ← match received_at with
                | None => mret 0
                | Some t => t' ← now; mret (wrap 64 (as_micros (duration_since t' t)))
                end;
    frame ← gets (λ a, Frame.Ack (default 0 (highest_processed (ack_tracker (conn a))))
                         (wrap 32 (local_window (conn a))) ack_delay ack_ranges);
    let packet := pad_packet (PacketHeader.pn_len header) header_len (Frame.encode frame packet) in
    k ← get_crypto;
    packet ← lift (protect_packet k pn header_len packet);
    r ← attempt (sendmsg_vectored packet);
    act_when (is_ok r) note_packet_sent;;
    modify (λ a, a <| pending_acks := 0 |>).

(** [process_outgoing_data]. *)
Definition process_outgoing_data (stream_id : Z) (data : bytes) : act unit := λ a,
  let to_send_len := len data in
  let c := conn a in
  if remote_window c <? to_send_len then (Err FlowControlBlocked, a)
  else match streams c !! stream_id with
  | None => (Err ActorFailed, a)
  | Some stream =>
      match send_stopped_error stream with
      | Some error_code => (Err (StreamReset stream_id error_code), a)
      | None =>
          if bool_decide (stream_type stream = UnidirectionalIn) then
            (Err (InvalidPacket "cannot send on a receive-only stream"), a)
          else if tx_window stream <? to_send_len then (Err FlowControlBlocked, a)
          else if cwnd (cc c) <? bytes_in_flight c + to_send_len + queued_bytes c then
            (Err CongestionWindowFull, a)
          else
            let start := next_tx_offset stream in
            let stream := stream <| next_tx_offset ::= λ o, wrap 64 (o + to_send_len) |> in
            let stream := stream <| tx_window ::= λ w, w - to_send_len |> in
            let c := c <| streams ::= <[stream_id := stream]> |> in
            let c := c <| conn_tx_offset ::= λ o, sat_add 64 o to_send_len |> in
            let c := c <| remote_window ::= λ w, w - to_send_len |> in
            let payload := UnackedPayload.Stream stream_id (stream_type stream) start data in
            let c := c <| unpaced_queue ::= λ q, q ++ [(payload, 0)] |> in
            let c := c <| queued_bytes ::= λ q, q + to_send_len |> in
            (Ok tt, a <| conn := c |>)
      end
  end.

(** [send_initial_packet_internal]. *)
Definition send_initial_packet_internal (cookie_opt : option bytes) (retries : Z) : act unit :=
  pn ← next_pn;
  h ← gets (λ a, PacketHeader.mk PacketType.Initial true PROTOCOL_VERSION (dcid (conn a)) (scid (conn a))
                   pn false (pn_length (conn a) pn));
  p ← lift (PacketHeader.encode h []);
  let h_len := len p in
  local_parameters ← gets (λ a, from_config (config a));
  transcript ← gets (λ a, be_bytes 4 PROTOCOL_VERSION ++ scid (conn a) ++ dcid (conn a) ++ public_key a
                            ++ default [] cookie_opt ++ transcript_bytes local_parameters);
  on_conn (λ c, match cookie_opt with Some ck => c <| cookie := Some ck |> | None => c end);;
  let transcript_hash := sha256 transcript in
  key ← gets ed_signing_key;
  signature ← lift (match key with Some sk => Ok (ed_sign sk transcript_hash) | None => Panic end);
  frame ← gets (λ a, Frame.Handshake (public_key a) (ed_public_key a) transcript_hash signature (alpn a));
  let p := Frame.encode frame p in
  let p := Frame.encode (Frame.TransportParameters local_parameters) p in
  let p := match cookie_opt with Some ck => Frame.encode (Frame.Cookie ck) p | None => p end in
  let pad_len := sat_sub 1200 (len p + 16) in
  let p := if 0 <? pad_len then Frame.encode (Frame.Padding pad_len) p else p in
  k ← gets (λ a, initial (dcid (conn a)) true);
  frozen ← lift (protect_packet k pn h_len p);
  on_conn (λ c, c <| handshake_packet := Some frozen |>);;
  _ ← attempt (sendmsg_vectored frozen);
  t ← now;
  on_conn (track_packet pn (UnackedPayload.Initial cookie_opt) t retries false (len frozen));;
  on_conn (λ c, c <| bytes_in_flight ::= λ b, wrap 64 (b + len frozen) |>);;
  note_packet_sent.

(** [send_initial_packet]. *)
Definition send_initial_packet (cookie_opt : option bytes) : act unit :=
  send_initial_packet_internal cookie_opt 0.

(** The frame of a payload; [h_len] is the length of the header before it. *)
Definition payload_frame (payload : UnackedPayload.t) (h_len : Z) : res Frame.t :=
  match payload with
  | UnackedPayload.Initial _ => Panic  (* unreachable!() *)
  | UnackedPayload.Stream stream_id ty offset data => Ok (Frame.Stream stream_id ty offset data)
  | UnackedPayload.MtuProbe target_size => Ok (Frame.Padding (sat_sub target_size (h_len + 16)))
  | UnackedPayload.StreamClose stream_id final_size => Ok (Frame.StreamClose stream_id final_size)
  | UnackedPayload.MaxStreamData stream_id max_data => Ok (Frame.MaxStreamData stream_id max_data)
  | UnackedPayload.ResetStream stream_id error_code final_size =>
      Ok (Frame.ResetStream stream_id error_code final_size)
  | UnackedPayload.Close => Ok Frame.ConnectionClose
  | UnackedPayload.ConnectionCloseV2 error_code reason => Ok (Frame.ConnectionCloseV2 error_code reason)
  | UnackedPayload.Datagram data => Ok (Frame.Datagram data)
  end.

Definition is_probe (payload : UnackedPayload.t) : bool :=
  match payload with UnackedPayload.MtuProbe _ => true | _ => false end.

(** [send_payload_with_retries], for every payload but an Initial packet. *)
Definition send_protected_payload (payload : UnackedPayload.t) (retries : Z) : act unit :=
  pn ← next_pn;
  header ← gets (short_header PacketType.Data pn);
  packet ← lift (PacketHeader.encode header []);
  let h_len := len packet in
  frame ← lift (payload_frame payload h_len);
  let packet := pad_packet (PacketHeader.pn_len header) h_len (Frame.encode frame packet) in
  k ← get_crypto;
  frozen ← lift (protect_packet k pn h_len packet);
  let packet_len := len frozen in
  sendmsg_vectored frozen;;
  act_when (0 <? retries) (on_conn (λ c, c <| packets_retransmitted ::= λ n, sat_add 64 n 1 |>));;
  t ← now;
  on_conn (track_packet pn payload t retries (is_probe payload) packet_len);;
  on_conn (λ c, c <| bytes_in_flight ::= λ b, wrap 64 (b + packet_len) |>);;
  note_packet_sent.

(** [send_payload_with_retries]. *)
Definition send_payload_with_retries (payload : UnackedPayload.t) (retries : Z) : act unit :=
  match payload with
  | UnackedPayload.Initial cookie_opt => send_initial_packet_internal cookie_opt retries
  | _ => send_protected_payload payload retries
  end.

(** [self.state.unpaced_queue.push_front(..)]. *)
Definition queue_front (payload : UnackedPayload.t) (retries : Z) : act unit :=
  on_conn (λ c, c <| unpaced_queue ::= λ q, (payload, retries) :: q |>).

(** [retransmit_payload]. *)
Definition retransmit_payload (payload : UnackedPayload.t) (retries : Z) : act unit :=
  r ← attempt (send_payload_with_retries payload retries);
  act_when (negb (is_ok r)) (queue_front payload retries).

(** [send_payload]. *)
Definition send_payload (payload : UnackedPayload.t) : act unit :=
  r ← attempt (send_payload_with_retries payload 0);
  act_when (negb (is_ok r)) (queue_front payload 0).

(** [send_datagram_payload]. *)
Definition send_datagram_payload (data : bytes) : act unit := send_payload (UnackedPayload.Datagram data).

(** [self.state.streams.get(&stream_id).map_or(0, |stream| stream.next_tx_offset)]. *)
Definition final_size_of (stream_id : Z) (c : ZtConnection) : Z :=
  from_option next_tx_offset 0 (streams c !! stream_id).

(** [send_stream_close]. *)
Definition send_stream_close (stream_id : Z) : act unit :=
  final_size ← gets (λ a, final_size_of stream_id (conn a));
  send_payload (UnackedPayload.StreamClose stream_id final_size).

(** [initiate_close]. *)
Definition initiate_close : act unit :=
  on_conn (λ c, c <| state := Closing |>);;
  send_payload UnackedPayload.Close.

(** [reset_stream]. *)
Definition reset_stream (stream_id error_code : Z) : act unit :=
  final_size ← gets (λ a, final_size_of stream_id (conn a));
  send_payload (UnackedPayload.ResetStream stream_id error_code final_size).

(** [initiate_close_with_error]. *)
Definition initiate_close_with_error (error_code : Z) (reason : bytes) : act unit :=
  on_conn (λ c, c <| state := Closing |>);;
  send_payload (UnackedPayload.ConnectionCloseV2 error_code reason).

(** [send_frame_immediate]. *)
Definition send_frame_immediate (frame : Frame.t) (to_addr : SocketAddr) : act unit :=
  pn ← next_pn;
  header ← gets (short_header PacketType.Data pn);
  packet ← lift (PacketHeader.encode header []);
  let h_len := len packet in
  let packet := pad_packet (PacketHeader.pn_len header) h_len (Frame.encode frame packet) in
  k ← get_crypto;
  frozen ← lift (protect_packet k pn h_len packet);
  old_addr ← gets (λ a, addr (conn a));
  on_conn (λ c, c <| addr := to_addr |>);;
  r ← attempt (sendmsg_vectored frozen);
  on_conn (λ c, c <| addr := old_addr |>);;
  lift r.
End sender.
