(* ===== verification/Retransmit.v ===== *)
(** * Pacing and retransmission (src/src/transport/actor/packet_sender.rs,
    [flush_pacing_queue] and [handle_retransmits]) *)

From stdpp Require Import strings.
From Stdlib Require Import SpecFloat.
From S2P Require Import Prelude Errors Effects Buf Config Unacked Cookie KeyDerivation CryptoContext HeaderProtection.
From S2P Require Import Float Congestion Connection Actor PacketSender.

#[export] Instance upd_up_retries : Upd up_retries := ltac:(derive_upd up_retries).
#[export] Instance upd_up_sent_at : Upd up_sent_at := ltac:(derive_upd up_sent_at).

Set Primitive Projections.
(** What the scan of [handle_retransmits] collects. *)
Record RtoScan := mkRtoScan {
  to_retransmit : list Z;
  to_drop : list Z;
  failed_probe_targets : list Z;
  blackhole_detected : bool;
  timed_out : bool;
}.
Unset Primitive Projections.

#[export] Instance upd_to_retransmit : Upd to_retransmit := ltac:(derive_upd to_retransmit).
#[export] Instance upd_to_drop : Upd to_drop := ltac:(derive_upd to_drop).
#[export] Instance upd_failed_probe_targets : Upd failed_probe_targets :=
  ltac:(derive_upd failed_probe_targets).
#[export] Instance upd_blackhole_detected : Upd blackhole_detected := ltac:(derive_upd blackhole_detected).
#[export] Instance upd_timed_out : Upd timed_out := ltac:(derive_upd timed_out).

(** [(rto * backoff_multiplier).min(Duration::from_secs(10))]. *)
Definition packet_rto (rto retries : Z) : Z :=
  let shifted := if retries <? 32 then Z.shiftl 1 retries else 64 in
  let backoff_multiplier := Z.min shifted 64 in
  Z.min (rto * backoff_multiplier) (from_secs 10).

Definition is_datagram (p : UnackedPayload.t) : bool :=
  match p with UnackedPayload.Datagram _ => true | _ => false end.

(** The body of the loop over [unacked_packets.iter_mut()]: the packet as it is left. *)
Definition rto_one (now rto pn : Z) (up : UnackedPacket) (s : RtoScan) : UnackedPacket * RtoScan :=
  if packet_rto rto (up_retries up) <? duration_since now (up_sent_at up) then
    if up_is_mtu_probe up || is_datagram (up_payload up) then
      let s := match up_payload up with
               | UnackedPayload.MtuProbe target_size =>
                   s <| failed_probe_targets ::= λ l, l ++ [target_size] |>
               | _ => s
               end in
      (up, s <| to_drop ::= λ l, l ++ [pn] |>)
    else
      let up := up <| up_retries ::= λ r, wrap 32 (r + 1) |> in
      if 10 <? up_retries up then (up, s <| timed_out := true |>)
      else
        let s := if 3 <? up_retries up then s <| blackhole_detected := true |> else s in
        let up := up <| up_sent_at := now |> in
        let s := s <| to_drop ::= λ l, l ++ [pn] |> in
        (up, s <| to_retransmit ::= λ l, l ++ [pn] |>)
  else (up, s).

(** The loop: it stops at a packet out of retries. *)
Fixpoint rto_scan (now rto base : Z) (d : list (option UnackedPacket)) (s : RtoScan)
    : list (option UnackedPacket) * RtoScan :=
  match d with
  | [] => ([], s)
  | None :: d => let '(d', s') := rto_scan now rto (base + 1) d s in (None :: d', s')
  | Some up :: d =>
      let '(up, s) := rto_one now rto base up s in
      if timed_out s then (Some up :: d, s)
      else let '(d', s') := rto_scan now rto (base + 1) d s in (Some up :: d', s')
  end.

Section retransmit.
Context `{BC : BytesCrate} `{HK : Hkdf} `{AE : Aead} `{CC : ChaCha20} `{LM : Libm} `{EV : Env}.
Context `{SH : Sha256} `{ED : Ed25519}.

(** The body of [for &pn in &to_drop]; the payloads to resend are collected. *)
Definition drop_one (retransmit : list Z) (st : ZtConnection * list (UnackedPayload.t * Z)) (pn : Z)
    : ZtConnection * list (UnackedPayload.t * Z) :=
  let '(c, resend) := st in
  let '(r, w) := Window.remove pn (unacked_packets c) in
  let c := c <| unacked_packets := w |> in
  match r with
  | Some up =>
      let c := c <| bytes_in_flight ::= λ b, sat_sub b (up_sent_bytes up) |> in
      if up_is_mtu_probe up then (c <| mtu_probes ::= delete pn |>, resend)
      else if bool_decide (pn ∈ retransmit) then (c, resend ++ [(up_payload up, up_retries up)])
      else (c, resend)
  | None => (c, resend)
  end.

(** [for (payload, retries) in payloads_to_resend { .. }]. *)
Fixpoint retransmit_all (l : list (UnackedPayload.t * Z)) : act unit :=
  match l with
  | [] => skip
  | (payload, retries) :: l => _ ← attempt (retransmit_payload payload retries); retransmit_all l
  end.

(** [handle_retransmits]. *)
Definition handle_retransmits : act unit :=
  t ← now;
  rto ← gets (λ a, Z.max (rtt (conn a) + rttvar (conn a) * 4) (from_millis 50));
  scan ← (λ a,
    let w := unacked_packets (conn a) in
    let '(d, s) := rto_scan t rto (base_pn w) (deque w) (mkRtoScan [] [] [] false false) in
    (Ok s, a <| conn ::= λ c, c <| unacked_packets := mkUnackedWindow (base_pn w) d (uw_len w) |> |>)) : act RtoScan;
  if timed_out scan then
    _ ← attempt initiate_close;
    fail_with Timeout
  else
    on_conn (λ c, foldl (flip record_mtu_probe_failure) c (failed_probe_targets scan));;
    on_conn (λ c, if blackhole_detected scan && (base_mtu c <? mtu c) then (recover_mtu_blackhole c).2 else c);;
    payloads_to_resend ← (λ a,
      let '(c, l) := foldl (drop_one (to_retransmit scan)) (conn a, []) (to_drop scan) in
      (Ok l, a <| conn := c |>)) : act (list (UnackedPayload.t * Z));
    act_when (negb (len payloads_to_resend =? 0))
      (on_conn (λ c, c <| packets_lost ::= λ n, sat_add 64 n (len payloads_to_resend) |>);;
       t' ← now;
       on_conn (λ c, c <| cc ::= on_congestion_event (rtt c) t' |>);;
       retransmit_all payloads_to_resend);;
    act_when (negb (len (to_drop scan) =? 0)) (on_conn signal_all).

(** The errors that end the connection during a paced send. *)
Definition is_fatal (e : ZtError) : bool :=
  match e with Unauthorized | Crypto _ | PacketNumberOverflow => true | _ => false end.

(** What [flush_pacing_queue] does when a paced send failed with [e]. *)
Definition paced_send_failed (e : ZtError) : act (option Z) := λ a,
  if socket_blocked a then (Ok None, a)
  else if is_fatal e then (Ok None, a <| conn ::= λ c, c <| state := Closed |> |>)
  else match unpaced_queue (conn a) with
       | (p, r) :: q =>
           let r_val := wrap 32 (r + 1) in
           let a := a <| conn ::= λ c, c <| unpaced_queue := (p, r_val) :: q |> |> in
           if 10 <? r_val then (Ok None, a <| conn ::= λ c, c <| state := Closed |> |>)
           else (Ok (Some (from_millis (Z.shiftl 1 r_val))), a)
       | [] => (Ok (Some (from_millis 1)), a)
       end.

(** The front of the queue was sent: it is popped. *)
Definition pop_sent (payload_len : Z) : act unit :=
  on_conn (λ c, c <| unpaced_queue ::= tail |>);;
  on_conn (λ c, c <| queued_bytes ::= λ q, sat_sub q payload_len |>).

(** The loop of [flush_pacing_queue]; every turn that continues pops the queue. *)
Fixpoint pacing_loop (fuel : nat) (rate : f64) : act (option Z) :=
  front ← gets (λ a, head (unpaced_queue (conn a)));
  match fuel, front with
  | _, None => mret None
  | O, Some _ => lift Panic
  | S fuel, Some (payload, retries) =>
      let payload_len := UnackedPayload.payload_len payload in
      let l := f_of payload_len in
      tokens ← gets (λ a, pacing_tokens (conn a));
      if f_ge tokens l then
        r ← attempt (send_payload_with_retries payload retries);
        match r with
        | Err e => paced_send_failed e
        | _ =>
            pop_sent payload_len;;
            on_conn (λ c, c <| pacing_tokens ::= λ t, f_sub t l |>);;
            pacing_loop fuel rate
        end
      else
        let deficit := f_sub l tokens in
        let wait_secs := f_div deficit rate in
        if f_lt wait_secs (f_lit 1 1000) then
          r ← attempt (send_payload_with_retries payload retries);
          match r with
          | Err e => paced_send_failed e
          | _ =>
              pop_sent payload_len;;
              on_conn (λ c, c <| pacing_tokens := f_of 0 |>);;
              pacing_loop fuel rate
          end
        else
          d ← lift (from_secs_f64 wait_secs);
          mret (Some d)
  end.

(** [flush_pacing_queue]. *)
Definition flush_pacing_queue : act (option Z) :=
  blocked ← gets socket_blocked;
  if (blocked : bool) then mret None
  else
    t ← now;
    rate ← gets (λ a, f_div (f_mul (f_of (cwnd (cc (conn a)))) (f_lit 125 100))
                        (f_max (as_secs_f64 (rtt (conn a))) (f_lit 1 100000)));
    on_conn (λ c,
      match last_pacing_update c with
      | Some last =>
          let elapsed := as_secs_f64 (duration_since t last) in
          let tokens := f_add (pacing_tokens c) (f_mul rate elapsed) in
          let max_burst := f_of (wrap 64 (mtu c * 10)) in
          c <| pacing_tokens := if f_gt tokens max_burst then max_burst else tokens |>
      | None => c <| last_pacing_update := Some t |>
      end);;
    on_conn (λ c, c <| last_pacing_update := Some t |>);;
    n ← gets (λ a, length (unpaced_queue (conn a)));
    pacing_loop n rate.
End retransmit.
