(* ===== verification/Utf8.v ===== *)
(** * UTF-8 ([String::from_utf8_lossy])

    The close reason of a peer is shown as text: every maximal ill-formed piece of the byte
    string is replaced by U+FFFD. *)

From S2P Require Import Prelude.

(** For a lead byte of a multi-byte sequence: the range of its second byte, and the number
    of further continuation bytes. *)
Definition utf8_lead (b : Z) : option (Z * Z * nat) :=
  if (0xC2 <=? b) && (b <=? 0xDF) then Some (0x80, 0xBF, 0%nat)
  else if b =? 0xE0 then Some (0xA0, 0xBF, 1%nat)
  else if b =? 0xED then Some (0x80, 0x9F, 1%nat)
  else if (0xE1 <=? b) && (b <=? 0xEF) then Some (0x80, 0xBF, 1%nat)
  else if b =? 0xF0 then Some (0x90, 0xBF, 2%nat)
  else if (0xF1 <=? b) && (b <=? 0xF3) then Some (0x80, 0xBF, 2%nat)
  else if b =? 0xF4 then Some (0x80, 0x8F, 2%nat)
  else None.

(** Reads the second byte and [n] continuation bytes: the bytes read and the rest; the flag
    says whether the sequence is complete. *)
Fixpoint utf8_tail (lo hi : Z) (n : nat) (s : bytes) : bytes * bytes * bool :=
  match s with
  | b :: s' =>
      if (lo <=? b) && (b <=? hi) then
        match n with
        | O => ([b], s', true)
        | S n => let '(t, r, ok) := utf8_tail 0x80 0xBF n s' in (b :: t, r, ok)
        end
      else ([], s, false)
  | [] => ([], [], false)
  end.

Definition REPLACEMENT : bytes := [0xEF; 0xBF; 0xBD].

Fixpoint utf8_lossy_loop (fuel : nat) (s : bytes) : bytes :=
  match fuel, s with
  | S fuel, b :: s' =>
      if b <? 0x80 then b :: utf8_lossy_loop fuel s'
      else match utf8_lead b with
           | Some (lo, hi, n) =>
               let '(t, r, ok) := utf8_tail lo hi n s' in
               (if ok then b :: t else REPLACEMENT) ++ utf8_lossy_loop fuel r
           | None => REPLACEMENT ++ utf8_lossy_loop fuel s'
           end
  | _, _ => []
  end.

(** [String::from_utf8_lossy]; one turn consumes at least one byte. *)
Definition from_utf8_lossy (s : bytes) : bytes := utf8_lossy_loop (length s) s.

Example utf8_examples :
  from_utf8_lossy [104; 105] = [104; 105]
  ∧ from_utf8_lossy [0xC3; 0xA9; 0xE2; 0x82; 0x21] = [0xC3; 0xA9; 0xEF; 0xBF; 0xBD; 0x21].
Proof. by vm_compute. Qed.
