(* ===== verification/HandshakeHandler.v ===== *)
(** * The client side of the handshake (src/src/transport/actor/handshake_handler.rs) *)

From stdpp Require Import strings.
From S2P Require Import Prelude Errors Effects Buf Config Frames Packet HeaderProtection Unacked Cookie.
From S2P Require Import KeyDerivation CryptoContext Float Congestion Connection Actor PacketSender.

(** X25519: [PublicKey::from] of a secret, and [diffie_hellman] of a secret and a public key. *)
Class X25519 := {
  x_public : bytes → bytes;
  diffie_hellman : bytes → bytes → bytes;
}.
Class X25519Laws `{X25519} : Prop := {
  x_public_array a : array_ok 32 (x_public a);
  dh_commutes a b : diffie_hellman a (x_public b) = diffie_hellman b (x_public a);
}.

(** keypair.rs, [generate_keypair], given the random secret. *)
Definition generate_keypair `{X25519} (secret : bytes) : bytes * bytes := (secret, x_public secret).

(** keypair.rs, [compute_shared_secret]. *)
Definition compute_shared_secret `{X25519} (my_secret their_public : bytes) : bytes :=
  diffie_hellman my_secret their_public.

(** endpoint.rs, [verify_peer_key]: without a callback every key is accepted. *)
Definition verify_peer_key (verifier : option (bytes → bool)) (key : bytes) : bool :=
  match verifier with None => true | Some f => f key end.

Section handshake.
Context `{BC : BytesCrate} `{HK : Hkdf} `{AE : Aead} `{CC : ChaCha20} `{LM : Libm} `{EV : Env}.
Context `{SH : Sha256} `{ED : Ed25519} `{XD : X25519}.

(** The frames a handshake response must carry. *)
Record Response := mkResponse {
  rs_handshake : option (bytes * bytes * bytes * bytes * bytes);
  rs_parameters : option TransportParameters;
}.

(** The loop over the frames of the response; each frame consumes at least one byte. *)
Fixpoint read_response (fuel : nat) (r : Response) (s : bytes) : res Response :=
  if len s =? 0 then Ok r
  else match fuel with
  | O => Panic
  | S fuel =>
      match Frame.decode s with
      | (Ok (Frame.Handshake public_key ed_public_key transcript_hash signature alpn), s) =>
          read_response fuel
            (mkResponse (Some (public_key, ed_public_key, transcript_hash, signature, alpn)) (rs_parameters r)) s
      | (Ok (Frame.TransportParameters parameters), s) =>
          match rs_parameters r with
          | Some _ => Err (InvalidPacket "duplicate transport parameters")
          | None =>
              p ← params_validate parameters;
              read_response fuel (mkResponse (rs_handshake r) (Some p)) s
          end
      | (Ok _, s) => read_response fuel r s
      | (Err e, _) => Err e
      | (Panic, _) => Panic
      end
  end.

(** The transcript a response must authenticate. *)
Definition response_transcript (a : Actor) (new_dcid pk_bytes : bytes) (remote : TransportParameters) : bytes :=
  be_bytes 4 PROTOCOL_VERSION ++ scid (conn a) ++ dcid (conn a) ++ public_key a
    ++ default [] (cookie (conn a)) ++ transcript_bytes (from_config (config a))
    ++ new_dcid ++ pk_bytes ++ transcript_bytes remote.

(** The client becomes active with the keys and limits that were agreed. *)
Definition establish (header : PacketHeader.t) (shared : bytes) (remote : TransportParameters)
    (from : SocketAddr) (a : Actor) (c : ZtConnection) : ZtConnection :=
  let c := c <| dcid := PacketHeader.scid header |> in
  let c := c <| crypto := Some (from_shared_secret shared (scid c) (dcid c) (psk a) true) |> in
  let c := c <| addr := from |> in
  let c := c <| peer_max_streams := tp_max_streams remote |> in
  let c := c <| peer_initial_stream_window := tp_initial_stream_window remote |> in
  let c := c <| remote_window := tp_initial_max_data remote |> in
  let c := c <| peer_max_datagram_size := tp_max_datagram_size remote |> in
  let c := c <| idle_timeout := Z.min (cfg_idle_timeout (config a)) (from_millis (tp_idle_timeout_ms remote)) |> in
  c <| state := Active |>.

(** [handle_handshake_response]. *)
Definition handle_handshake_response (header : PacketHeader.t) (payload aad : bytes) (from : SocketAddr)
    : act unit :=
  if negb (PacketHeader.version header =? PROTOCOL_VERSION) then fail_with (InvalidPacket "Unsupported version")
  else
    let k := initial (PacketHeader.dcid header) true in
    if len payload <? 16 then skip
    else
      let tag := drop (length payload - 16) payload in
      let payload := take (length payload - 16) payload in
      payload ← lift (decrypt_in_place k (PacketHeader.packet_number header) aad payload tag false);
      r ← lift (read_response (length payload) (mkResponse None None) payload);
      '(pk_bytes, remote_ed_pk_bytes, transcript_hash, remote_sig_bytes, remote_alpn) ←
        lift (ok_or (rs_handshake r) (Crypto "No handshake"));
      remote_parameters ←
        lift (ok_or (rs_parameters r) (InvalidPacket "No transport parameters in Handshake"));
      expected_alpn ← gets alpn;
      if negb (bool_decide (remote_alpn = expected_alpn)) then fail_with (Crypto "ALPN negotiation failed")
      else
        expected_hash ← gets (λ a, sha256 (response_transcript a (PacketHeader.scid header) pk_bytes remote_parameters));
        if negb (bool_decide (expected_hash = transcript_hash)) then fail_with (Crypto "Invalid Transcript Hash")
        else if negb (ed_valid_key remote_ed_pk_bytes) then fail_with (Crypto "Invalid EdPK")
        else if negb (ed_verify remote_ed_pk_bytes expected_hash remote_sig_bytes) then fail_with (Crypto "Invalid Sig")
        else
          verifier ← gets peer_key_verifier;
          if negb (verify_peer_key verifier remote_ed_pk_bytes) then fail_with Unauthorized
          else
            secret_opt ← gets ephemeral_secret;
            modify (λ a, a <| ephemeral_secret := None |>);;
            secret ← lift (ok_or secret_opt (Crypto "Ephemeral secret already consumed"));
            let shared := compute_shared_secret secret pk_bytes in
            modify (λ a, a <| conn ::= establish header shared remote_parameters from a |>);;
            t ← now;
            on_conn (conn_mark_processed (PacketHeader.packet_number header) t);;
            on_conn (λ c, c <| unacked_packets ::= Window.clear |>);;
            on_conn (λ c, c <| bytes_in_flight := 0 |>);;
            modify (λ a, a <| handshake_waiter := false |>).

(** [handle_retry_packet]. *)
Definition handle_retry_packet (header : PacketHeader.t) (payload : bytes) (from : SocketAddr) : act unit :=
  send_initial_packet (Some payload).
End handshake.
