(* ===== verification/ConnFrame.v ===== *)
(** * What a connection's bookkeeping leaves alone

    Frame lemmas for the operations that only touch packets in flight, round-trip and
    congestion state and the MTU search. *)

From S2P Require Import Prelude Errors Effects Config Unacked Float Congestion Connection AckHandling Actor PacketSender Retransmit.

(** The streams up to the permits of their writers. *)
Definition unsignalled (m : gmap Z StreamState) : gmap Z StreamState :=
  (λ s, s <| window_opened := false |>) <$> m.

(** What acknowledgement processing, retransmission bookkeeping and MTU probing leave alone. *)
Record untouched (c c' : ZtConnection) : Prop := {
  un_addr : addr c' = addr c;
  un_dcid : dcid c' = dcid c;
  un_state : state c' = state c;
  un_next : next_packet_number c' = next_packet_number c;
  un_crypto : crypto c' = crypto c;
  un_received : bytes_received c' = bytes_received c;
  un_sent : bytes_sent c' = bytes_sent c;
  un_queue : unpaced_queue c' = unpaced_queue c;
  un_queued : queued_bytes c' = queued_bytes c;
  un_replay : replay_window c' = replay_window c;
  un_tracker : ack_tracker c' = ack_tracker c;
  un_epoch : current_key_epoch c' = current_key_epoch c;
  un_limit : local_max_streams c' = local_max_streams c;
  un_base : base_mtu c' = base_mtu c;
  un_streams : unsignalled (streams c') = unsignalled (streams c);
}.

Lemma untouched_refl c : untouched c c.
Proof. done. Qed.

Lemma untouched_trans c1 c2 c3 : untouched c1 c2 → untouched c2 c3 → untouched c1 c3.
Proof. intros [] []. split; congruence. Qed.

Lemma untouched_signal c : untouched c (signal_all c).
Proof.
  split; try done. change (unsignalled (signal_window_opened <$> streams c) = unsignalled (streams c)).
  unfold unsignalled. rewrite <- map_fmap_compose. by apply map_fmap_ext.
Qed.

Lemma untouched_fold {B X} (f : ZtConnection * B → X → ZtConnection * B) l :
  (∀ c b x, untouched c (f (c, b) x).1) → ∀ c b, untouched c (foldl f (c, b) l).1.
Proof.
  intros H. induction l as [|x l IH]; intros c b; [done|]. cbn [foldl].
  specialize (H c b x). destruct (f (c, b) x) as [c1 b1]. by eapply untouched_trans.
Qed.

Section untouched.
Context `{LM : Libm}.

Lemma untouched_probe_failure t c : untouched c (record_mtu_probe_failure t c).
Proof. done. Qed.
Lemma untouched_probe_success t c : untouched c (record_mtu_probe_success t c).
Proof. unfold record_mtu_probe_success. by destruct (_ <? _). Qed.
Lemma untouched_blackhole c : untouched c (recover_mtu_blackhole c).2.
Proof. unfold recover_mtu_blackhole. by destruct (_ <=? _). Qed.
Lemma untouched_drop l c b pn : untouched c (drop_one l (c, b) pn).1.
Proof.
  unfold drop_one. destruct (Window.remove _ _) as [[up|] w]; [|done].
  destruct (up_is_mtu_probe up); [done|]. by destruct (bool_decide _).
Qed.
Lemma untouched_probe_acked pn up c : untouched c (probe_acked pn up c).
Proof.
  unfold probe_acked. destruct (up_is_mtu_probe up); [|done]. destruct (_ && _); [|done].
  by eapply untouched_trans, untouched_probe_success.
Qed.
Lemma untouched_sack_one t c b pn : untouched c (sack_one t (c, b) pn).1.
Proof.
  unfold sack_one. destruct (Window.remove _ _) as [[up|] w]; [|done].
  by eapply untouched_trans, untouched_probe_acked.
Qed.
Lemma untouched_cumulative t c b pn : untouched c (cumulative_one t (c, b) pn).1.
Proof. unfold cumulative_one. by destruct (Window.remove _ _) as [[up|] w]. Qed.
Lemma untouched_sack t c b r : untouched c (sack_range t (c, b) r).1.
Proof.
  unfold sack_range. destruct r as [lo hi]. destruct (_ <=? _); [|done].
  apply untouched_fold. apply untouched_sack_one.
Qed.
Lemma untouched_lose c b pn : untouched c (lose_one (c, b) pn).1.
Proof.
  unfold lose_one. destruct (Window.remove _ _) as [[up|] w]; [|done].
  destruct (up_is_mtu_probe up), (up_payload up); done.
Qed.
Lemma untouched_finish ws d t a ld c c' : finish_ack ws d t a ld c = Ok c' → untouched c c'.
Proof.
  unfold finish_ack. set (c1 := if ld then _ else _). assert (untouched c c1) as S1 by (by destruct ld).
  clearbody c1. set (c2 := c1 <| bytes_in_flight ::= _ |>). assert (untouched c1 c2) as S2 by done. clearbody c2.
  set (c3 := update_rtt _ _ _). assert (untouched c2 c3) as S3.
  { unfold c3, update_rtt. destruct (sample_rtt a); [|done]. by destruct (negb _). }
  clearbody c3. intros E. apply (untouched_trans _ c3); [by eapply untouched_trans, S3; eapply untouched_trans|].
  assert (∀ c4, untouched c3 c4 → ∀ b : bool, untouched c3 (if b then signal_all c4 else c4)) as Sg.
  { intros c4 U []; [|done]. eapply untouched_trans, untouched_signal. done. }
  destruct (0 <? bytes_acked a).
  - destruct (on_packet_acked (bytes_acked a) (rtt c3) t (cc c3)) as [k| |]; [|done..].
    injection E as <-. by apply Sg.
  - injection E as <-. by apply Sg.
Qed.
Lemma untouched_ack la ws d rs t t' c l c' : handle_ack la ws d rs t t' c = Ok (l, c') → untouched c c'.
Proof.
  unfold handle_ack.
  pose proof (untouched_fold (sack_range t) rs (untouched_sack t) c (mkAckAcc 0 0 None)) as S1.
  destruct (foldl (sack_range t) _ _) as [c1 a1]. cbn [fst] in S1.
  set (ks := keys_below _ _).
  pose proof (untouched_fold (cumulative_one t) ks (untouched_cumulative t) c1 a1) as S2.
  destruct (foldl (cumulative_one t) _ _) as [c2 a2]. cbn [fst] in S2.
  destruct (mul_f64 _ _) as [sc| |]; cbn [mbind res_bind]; [|done..].
  set (ls := find_lost _ _ _ _). set (c3 := c2 <| packets_lost ::= _ |>).
  pose proof (untouched_fold lose_one ls untouched_lose c3 (mkLossAcc false [])) as S3.
  assert (untouched c2 c3) as S3' by done. apply (untouched_trans _ _ _ S3') in S3. clearbody c3.
  destruct (foldl lose_one _ _) as [c4 l4]. cbn [fst] in S3.
  destruct (finish_ack _ _ _ _ _ _) as [c5| |] eqn:F; cbn; [|done..]. intros [= <- <-].
  apply untouched_finish in F. eapply untouched_trans; [exact S1|]. eapply untouched_trans; [exact S2|].
  eapply untouched_trans; [exact S3|exact F].
Qed.

Lemma untouched_probe_failures l c : untouched c (foldl (flip record_mtu_probe_failure) c l).
Proof.
  revert c. induction l as [|t l IH]; intros c; [done|]. cbn [foldl flip].
  eapply untouched_trans; [apply untouched_probe_failure|apply IH].
Qed.
End untouched.

