(* ===== verification/IncomingHandler.v ===== *)
(** * Receiving packets (src/src/transport/actor/incoming_handler.rs)

    [process_incoming_packet] takes a datagram through header protection, packet-number
    expansion, replay protection, key selection and decryption, and hands the frames to
    [handle_frame]; [forward_stream_data] moves ordered stream data to the application and
    opens the flow-control window. *)

From stdpp Require Import strings.
From S2P Require Import Prelude Errors Effects Buf Config StreamType Frames Packet PacketNumber HeaderProtection.
From S2P Require Import Bitmap ReplayWindow AckTracker Unacked StreamBuffer BufferProps Cookie KeyDerivation.
From S2P Require Import CryptoContext Float Congestion Termination Utf8 Connection AckHandling Actor PacketSender Retransmit.
From S2P Require Import HandshakeHandler.

#[export] Existing Instance PacketHeader.upd_packet_number.

Section incoming.
Context `{BC : BytesCrate} `{HK : Hkdf} `{AE : Aead} `{CC : ChaCha20} `{LM : Libm} `{EV : Env}.
Context `{SH : Sha256} `{ED : Ed25519} `{XD : X25519}.

(** Update of one stream, when it exists. *)
Definition on_stream (id : Z) (f : StreamState → StreamState) : act unit :=
  on_conn (λ c, c <| streams ::= alter f id |>).

(** [let _ = self.initiate_close(); return Err(InvalidPacket(msg))]. *)
Definition close_with {A} (msg : string) : act A :=
  _ ← attempt initiate_close;
  fail_with (InvalidPacket msg).

(** ** Delivery to the application *)

(** [while let Some(app_tx) = stream.app_tx.as_ref()]: each turn moves one run of contiguous
    bytes to the application's channel, if it has room. *)
Fixpoint deliver_loop (fuel : nat) (s : StreamState) : act StreamState :=
  if negb (app_tx s) then mret s
  else
    permit ← try_channel;
    if negb permit then mret s
    else
      match fuel with
      | O => lift Panic
      | S fuel =>
          '(chunk, b) ← lift (read_contiguous (receive_buffer s));
          let s := s <| receive_buffer := b |> in
          match chunk with
          | None => mret s
          | Some chunk => deliver_loop fuel (s <| app_data ::= λ d, d ++ [chunk] |>)
          end
      end.

(** The bytes the application has read are no longer buffered. *)
Definition consume (consumed : Z) (s : StreamState) : StreamState :=
  let s := s <| buffered_bytes ::= λ b, sat_sub b consumed |> in
  s <| expected_rx_offset ::= λ o, sat_add 64 o consumed |>.

(** [if final_rx_offset.is_some_and(|f| read_head >= f) { app_tx.take(); }]. *)
Definition finish_stream (s : StreamState) : StreamState :=
  match final_rx_offset s with
  | Some final_size => if final_size <=? read_head (receive_buffer s) then s <| app_tx := false |> else s
  | None => s
  end.

(** The auto-tuning of the receive window: the new window, when it should grow. *)
Definition autotune (consumed : Z) (s : StreamState) : act (StreamState * option Z) :=
  if 0 <? consumed then
    let s := s <| bytes_read_in_epoch ::= λ n, sat_add 64 n consumed |> in
    if window_size s / 2 <=? bytes_read_in_epoch s then
      t ← now;
      let elapsed := duration_since t (last_window_update s) in
      round_trip ← gets (λ a, rtt (conn a));
      max_window ← gets (λ a, max_stream_window (config a));
      let new_window := Z.min (wrap 64 (window_size s * 2)) max_window in
      let grown := if (elapsed <? round_trip * 2) && (window_size s <? new_window)
                   then Some new_window else None in
      let s := s <| bytes_read_in_epoch := 0 |> in
      t' ← now;
      mret (s <| last_window_update := t' |>, grown)
    else mret (s, None)
  else mret (s, None).

(** The window grows if the connection's buffer limit allows it. *)
Definition scale_up (stream_id current_window_size new_window : Z) : act unit :=
  current_total ← gets (λ a, total_allocated_buffer_size (conn a));
  let added_size := new_window - current_window_size in
  limit ← gets (λ a, max_connection_buffer (config a));
  if sat_add 64 current_total added_size <=? limit then
    stream ← gets (λ a, streams (conn a) !! stream_id);
    match stream with
    | Some s =>
        b ← lift (resize new_window (receive_buffer s));
        on_stream stream_id (λ s, s <| receive_buffer := b |> <| window_size := new_window |>)
    | None => skip
    end
  else skip.

(** [forward_stream_data]. *)
Definition forward_stream_data (stream_id bytes_read : Z) : act unit :=
  stream ← gets (λ a, streams (conn a) !! stream_id);
  match stream with
  | None => skip
  | Some s =>
      let consumed := Z.min bytes_read (buffered_bytes s) in
      let s := consume consumed s in
      s ← deliver_loop (S (length (received_ranges (receive_buffer s)))) s;
      let s := finish_stream s in
      let current_window_size := window_size s in
      '(s, grown) ← autotune consumed s;
      on_stream stream_id (λ _, s);;
      match grown with
      | Some new_window => scale_up stream_id current_window_size new_window
      | None => skip
      end;;
      stream ← gets (λ a, streams (conn a) !! stream_id);
      match stream with
      | None => skip
      | Some s =>
          let max_data := wrap 64 (expected_rx_offset s + window_size s) in
          if (0 <? consumed) && (window_size s / 4 <=? sat_sub max_data (last_sent_max_data s)) then
            on_stream stream_id (λ s, s <| last_sent_max_data := max_data |>);;
            retransmit_payload (UnackedPayload.MaxStreamData stream_id max_data) 0
          else skip
      end
  end.

(** ** Frames *)

(** [self.pending_acks += 1]. *)
Definition count_ack : act unit := modify (λ a, a <| pending_acks ::= λ n, wrap 32 (n + 1) |>).

(** [if self.pending_acks >= 10 { let _ = self.flush_acks(); }]. *)
Definition flush_if_due : act unit :=
  due ← gets (λ a, 10 <=? pending_acks a);
  if (due : bool) then (_ ← attempt flush_acks; skip) else skip.

(** A stream the peer opens: parity and limit are checked, the application is told. *)
Definition open_peer_stream (id : Z) (local_stream_type : StreamType) : act unit :=
  client ← gets on_client;
  let expected_parity := if (client : bool) then 1 else 0 in
  if negb (id mod 2 =? expected_parity) then close_with "Invalid stream id parity"
  else
    peer_opened_streams ← gets (λ a,
      Z.of_nat (size (filter (λ '(i, _), i mod 2 = expected_parity) (streams (conn a)))));
    limit ← gets (λ a, local_max_streams (conn a));
    if limit <=? peer_opened_streams then fail_with (TooManyStreams limit)
    else
      t ← now;
      receive_window ← gets (λ a, cfg_initial_stream_window (config a));
      transmit_window ← gets (λ a, peer_initial_stream_window (conn a));
      on_conn (λ c, c <| streams ::= <[id := new_stream local_stream_type receive_window transmit_window t]> |>);;
      ok ← try_channel;
      if (ok : bool) then modify (λ a, a <| incoming_streams ::= λ l, l ++ [id] |>)
      else
        on_conn (λ c, c <| streams ::= delete id |>);;
        _ ← attempt initiate_close;
        fail_with (Io OtherKind "Application dropped connection handle").

(** [Frame::Stream]: the data is buffered behind the checks of the stream's limits. *)
Definition receive_stream_data (id offset : Z) (data : bytes) (local_stream_type : StreamType) : act unit :=
  stream ← gets (λ a, streams (conn a) !! id);
  match stream with
  | None => skip
  | Some s =>
      if negb (bool_decide (stream_type s = local_stream_type)) then
        close_with "stream type changed during transmission"
      else
        total_allocated ← gets (λ a, total_allocated_buffer_size (conn a));
        limit ← gets (λ a, max_connection_buffer (config a));
        if (allocated_size (receive_buffer s) =? 0)
           && (limit <? sat_add 64 total_allocated (window_size s)) then
          close_with "Connection receive-buffer limit exceeded"
        else
          end_offset ← lift (ok_or (checked_add 64 offset (len data)) (InvalidPacket "Stream offset overflow"));
          if match final_rx_offset s with Some final_size => final_size <? end_offset | None => false end then
            close_with "stream data exceeds declared final size"
          else
            on_stream id (λ s, s <| highest_rx_offset ::= Z.max end_offset |>);;
            if end_offset <=? read_head (receive_buffer s) then count_ack
            else
              let receive_limit := sat_add 64 (expected_rx_offset s) (window_size s) in
              if receive_limit <? end_offset then close_with "Stream flow-control limit exceeded"
              else
                '(added, b) ← lift (write_stream_data offset data (receive_buffer s));
                match added with
                | None =>
                    on_stream id (λ s, s <| receive_buffer := b |>);;
                    close_with "Stream receive window exceeded"
                | Some added =>
                    on_stream id (λ s, s <| receive_buffer := b |>
                                         <| buffered_bytes ::= λ n, sat_add 64 n added |>);;
                    forward_stream_data id 0;;
                    count_ack;;
                    flush_if_due
                end
  end.

(** [Frame::Stream]. *)
Definition handle_stream (id : Z) (ty : StreamType) (offset : Z) (data : bytes) : act unit :=
  local_stream_type ← lift (ok_or (for_peer ty) (InvalidPacket "peer sent a receive-only stream type"));
  known ← gets (λ a, bool_decide (is_Some (streams (conn a) !! id)));
  act_when (negb known) (open_peer_stream id local_stream_type);;
  receive_stream_data id offset data local_stream_type.

(** [Frame::Ack]. *)
Definition handle_ack_frame (largest_acked window_size ack_delay : Z) (ack_ranges : list (Z * Z)) : act unit :=
  next ← gets (λ a, next_packet_number (conn a));
  if (next =? 0) || (next - 1 <? largest_acked)
     || existsb (λ '(start, end_), (end_ <? start) || (largest_acked <? end_)) ack_ranges then
    close_with "ACK acknowledges an unsent packet number"
  else
    t_sample ← now;
    t ← now;
    fast_retransmits ← (λ a,
      match handle_ack largest_acked window_size ack_delay ack_ranges t_sample t (conn a) with
      | Ok (l, c) => (Ok l, a <| conn := c |>)
      | Err e => (Err e, a)
      | Panic => (Panic, a)
      end) : act (list (UnackedPayload.t * Z));
    retransmit_all fast_retransmits.

(** The end of the connection, as the peer announced it. *)
Definition peer_closed (reason : TerminationReason.t) : act unit :=
  on_conn (λ c,
    let c := c <| termination ::= termination_set reason |> in
    let c := c <| streams ::= fmap (λ s, s <| stream_termination ::= termination_set reason |>) |> in
    let c := c <| state := Closed |> in
    let c := c <| is_closed := true |> in
    signal_all c).

(** [Frame::StreamClose]. *)
Definition handle_stream_close (id final_size : Z) : act unit :=
  stream ← gets (λ a, streams (conn a) !! id);
  match stream with
  | None => skip
  | Some s =>
      if (final_size <? highest_rx_offset s)
         || match final_rx_offset s with Some existing => negb (existing =? final_size) | None => false end
      then close_with "inconsistent stream final size"
      else
        on_stream id (λ s, s <| final_rx_offset := Some final_size |>);;
        forward_stream_data id 0
  end.

(** [Frame::MaxStreamData]. *)
Definition raise_stream_window (max_data : Z) (s : StreamState) : StreamState :=
  let new_window := sat_sub max_data (next_tx_offset s) in
  let old_window := tx_window s in
  let s := s <| tx_window := new_window |> in
  if old_window <? new_window then signal_window_opened s else s.

(** [Frame::MaxData]. *)
Definition raise_window (max_data : Z) (c : ZtConnection) : ZtConnection :=
  let new_window := sat_sub max_data (conn_tx_offset c) in
  let old_window := remote_window c in
  let c := c <| remote_window := new_window |> in
  if old_window <? new_window then signal_all c else c.

(** [Frame::MaxStreams]. *)
Definition raise_streams (max_streams : Z) (c : ZtConnection) : ZtConnection :=
  if peer_max_streams c <? max_streams then signal_all (c <| peer_max_streams := max_streams |>) else c.

(** [Frame::PathResponse]. *)
Definition handle_path_response (data : bytes) (from : SocketAddr) : act unit :=
  modify (λ a,
    if bool_decide (path_validation_token a = Some data) && bool_decide (pending_validation_addr a = Some from) then
      let a := a <| conn ::= λ c, c <| addr := from |> |> in
      let a := a <| pending_validation_addr := None |> in
      let a := a <| path_validation_token := None |> in
      let a := a <| path_validation_sent_at := None |> in
      a <| path_validation_retries := 0 |>
    else a).

(** [Frame::ResetStream]. *)
Definition handle_reset_stream (stream_id error_code final_size : Z) : act unit :=
  stream ← gets (λ a, streams (conn a) !! stream_id);
  match stream with
  | Some s =>
      if final_size <? highest_rx_offset s then close_with "reset final size is smaller than received data"
      else
        on_stream stream_id (λ s, signal_window_opened
          (s <| stream_termination ::= termination_set (TerminationReason.StreamReset stream_id error_code) |>))
  | None => skip
  end;;
  on_conn (λ c, c <| streams ::= delete stream_id |>).

(** [Frame::Datagram]: dropped when the application's channel is full. *)
Definition handle_datagram (data : bytes) : act unit :=
  ok ← try_channel;
  act_when ok (modify (λ a, a <| datagrams ::= λ l, l ++ [data] |>)).

(** [Frame::PathChallenge]. *)
Definition handle_path_challenge (data : bytes) (from : SocketAddr) : act unit :=
  _ ← attempt (send_frame_immediate (Frame.PathResponse data) from);
  skip.

(** [Frame::Ping]. *)
Definition handle_ping : act unit := count_ack;; flush_if_due.

(** [Frame::StopSending]: only the transmit half stops. *)
Definition handle_stop_sending (stream_id error_code : Z) : act unit :=
  on_stream stream_id (λ s, signal_window_opened (s <| send_stopped_error := Some error_code |>));;
  reset_stream stream_id error_code.

(** [Frame::ConnectionCloseV2]. *)
Definition handle_connection_close (error_code : Z) (reason : bytes) : act unit :=
  peer_closed (TerminationReason.ConnectionClosed error_code (from_utf8_lossy reason)).

(** [handle_frame]. *)
Definition handle_frame (frame : Frame.t) (from : SocketAddr) : act unit :=
  match frame with
  | Frame.Stream id ty offset data => handle_stream id ty offset data
  | Frame.Ack largest_acked window_size ack_delay ack_ranges =>
      handle_ack_frame largest_acked window_size ack_delay ack_ranges
  | Frame.ConnectionClose =>
      peer_closed (TerminationReason.ConnectionClosed 0 (str "peer closed connection"))
  | Frame.StreamClose id final_size => handle_stream_close id final_size
  | Frame.MaxStreamData id max_data => on_stream id (raise_stream_window max_data)
  | Frame.MaxData max_data => on_conn (raise_window max_data)
  | Frame.Datagram data => handle_datagram data
  | Frame.MaxStreams max_streams => on_conn (raise_streams max_streams)
  | Frame.PathChallenge data => handle_path_challenge data from
  | Frame.PathResponse data => handle_path_response data from
  | Frame.Ping => handle_ping
  | Frame.ResetStream stream_id error_code final_size => handle_reset_stream stream_id error_code final_size
  | Frame.StopSending stream_id error_code => handle_stop_sending stream_id error_code
  | Frame.ConnectionCloseV2 error_code reason => handle_connection_close error_code reason
  | _ => skip
  end.

(** [while payload_bytes.remaining() > 0 { .. }]: each frame consumes at least one byte. *)
Fixpoint handle_frames (fuel : nat) (s : bytes) (from : SocketAddr) : act unit :=
  if len s =? 0 then skip
  else match fuel with
  | O => lift Panic
  | S fuel =>
      match Frame.decode s with
      | (Ok frame, s) => handle_frame frame from;; handle_frames fuel s from
      | (Err _, _) => skip
      | (Panic, _) => lift Panic
      end
  end.

(** ** Packets *)

(** Header protection of a received packet is removed with the connection's key, or with the
    initial key of its destination for a long header. *)
Definition unprotect (data : bytes) (is_short_header : bool) (c : ZtConnection) : res bytes :=
  offset ← PacketHeader.get_pn_offset data;
  if is_short_header then
    match crypto c with
    | Some k =>
        match offset with
        | Some offset => ctx_remove_header_protection k data (Z.to_nat offset)
        | None => Ok data
        end
    | None => Err Unauthorized
    end
  else
    dcid ← extract_dcid_fast data;
    match offset, dcid with
    | Some offset, Some dcid =>
        first ← at_index data 0;
        if negb (is_retry_byte first) then
          ctx_remove_header_protection (initial dcid true) data (Z.to_nat offset)
        else Ok data
    | _, _ => Ok data
    end.

(** The header, the bytes it is authenticated by, and the encrypted payload. *)
Definition split_packet (data : bytes) : res (PacketHeader.t * bytes * bytes) :=
  offset ← PacketHeader.get_pn_offset data;
  offset ← ok_or offset (InvalidPacket "Malformed header offset");
  first ← at_index data 0;
  let pn_len := Z.land first 0x03 + 1 in
  let header_len := offset + pn_len in
  if len data <? header_len then Err (InvalidPacket "Header truncated")
  else
    header ← (PacketHeader.decode (take (Z.to_nat header_len) data)).1;
    Ok (header, take (Z.to_nat header_len) data, drop (Z.to_nat header_len) data).

(** Which key opens the packet. *)
Inductive KeyChoice := CurrentKey | PrevKey | NextKey.

Definition choose_key (header : PacketHeader.t) (is_short_header : bool) (highest : Z) (c : ZtConnection) : KeyChoice :=
  let expected_kp := negb (current_key_epoch c mod 2 =? 0) in
  if is_short_header && negb (Bool.eqb (PacketHeader.key_phase header) expected_kp) then
    if highest <=? PacketHeader.packet_number header then NextKey else PrevKey
  else CurrentKey.

(** Decryption; a packet under the next keys moves the connection to them. *)
Definition decrypt_payload (header : PacketHeader.t) (choice : KeyChoice) (k : CryptoContext)
    (aad payload tag : bytes) : act bytes :=
  let pn := PacketHeader.packet_number header in
  match choice with
  | NextKey =>
      '(pt, k') ← lift (trial_decrypt_and_rotate k pn aad payload tag);
      on_conn (λ c, c <| crypto := Some k' |>);;
      on_conn (λ c, c <| current_key_epoch ::= λ e, wrap 64 (e + 1) |>);;
      on_conn (λ c, c <| packets_since_key_update := 0 |>);;
      mret pt
  | PrevKey => lift (decrypt_in_place k pn aad payload tag true)
  | CurrentKey => lift (decrypt_in_place k pn aad payload tag false)
  end.

(** The address of an authenticated packet: a new one is challenged. *)
Definition check_path (from : SocketAddr) : act unit :=
  st ← gets (λ a, state (conn a));
  known ← gets (λ a, bool_decide (addr (conn a) = from));
  if bool_decide (st = Active) && negb known then
    pending ← gets (λ a, bool_decide (pending_validation_addr a = Some from));
    if (pending : bool) then skip
    else
      token ← get_token;
      modify (λ a, a <| pending_validation_addr := Some from |>);;
      modify (λ a, a <| path_validation_token := Some token |>);;
      t ← now;
      modify (λ a, a <| path_validation_sent_at := Some t |>);;
      modify (λ a, a <| path_validation_retries := 0 |>);;
      _ ← attempt (send_frame_immediate (Frame.PathChallenge token) from);
      skip
  else act_when (bool_decide (st = Handshaking)) (on_conn (λ c, c <| addr := from |>)).

(** A protected packet of an established connection: decrypt, update the path, record the
    packet number, handle the frames. *)
Definition receive_protected (header : PacketHeader.t) (choice : KeyChoice) (aad payload : bytes)
    (from : SocketAddr) : act unit :=
  k ← get_crypto;
  if len payload <? 16 then skip
  else
    let tag := drop (length payload - 16) payload in
    let payload := take (length payload - 16) payload in
    payload ← decrypt_payload header choice k aad payload tag;
    modify (λ a, if bool_decide (state (conn a) = Handshaking) && negb (on_client a)
                 then a <| conn ::= λ c, c <| state := Active |> |> else a);;
    check_path from;;
    t ← now;
    on_conn (conn_mark_processed (PacketHeader.packet_number header) t);;
    handle_frames (length payload) payload from.

(** [header.p_type == PacketType::Initial]. *)
Definition is_initial (header : PacketHeader.t) : bool :=
  match PacketHeader.p_type header with PacketType.Initial => true | _ => false end.

(** The [match header.p_type] on a packet whose number is expanded: replays are dropped. *)
Definition dispatch_packet (header : PacketHeader.t) (is_short_header : bool) (highest : Z)
    (aad payload : bytes) (from : SocketAddr) : act unit :=
  c ← gets conn;
  client ← gets on_client;
  if conn_is_replay c (PacketHeader.packet_number header) then skip
  else
    let choice := choose_key header is_short_header highest c in
    match PacketHeader.p_type header with
    | PacketType.Handshake =>
        act_when (bool_decide (state c = Handshaking)) (handle_handshake_response header payload aad from)
    | PacketType.Retry =>
        act_when (bool_decide (state c = Handshaking)) (handle_retry_packet header payload from)
    | PacketType.Data | PacketType.MtuProbe | PacketType.Close =>
        act_when (bool_decide (state c = Active) || (bool_decide (state c = Handshaking) && negb client))
          (receive_protected header choice aad payload from)
    | PacketType.Initial => skip
    end.

(** [process_incoming_packet]. *)
Definition process_incoming_packet (data : bytes) (from : SocketAddr) : act unit :=
  on_conn (λ c, c <| bytes_received ::= λ n, wrap 64 (n + len data) |>);;
  let is_short_header := match data with b :: _ => Z.land b 0x80 =? 0 | [] => false end in
  c ← gets conn;
  data ← lift (unprotect data is_short_header c);
  '(header, aad, payload) ← lift (split_packet data);
  client ← gets on_client;
  if is_initial header && negb client then
    match handshake_packet c with
    | Some hs => _ ← attempt (sendmsg_vectored hs); skip
    | None => skip
    end
  else
    let highest := default 0 (highest_processed (replay_window c)) in
    let header := header <| PacketHeader.packet_number ::=
      λ pn, expand_pn pn (PacketHeader.pn_len header) highest |> in
    dispatch_packet header is_short_header highest aad payload from.
End incoming.

(** The handlers of the small frames, for proofs by cases on the frame. *)
Ltac unfold_handle_frame :=
  unfold handle_frame, handle_datagram, handle_path_challenge, handle_ping, handle_stop_sending, handle_connection_close.
