(* ===== verification/EventLoop.v ===== *)
(** * The event loop of a connection (src/src/transport/actor/event_loop.rs)

    The actor waits for a message, one of its timers or a writable socket, handles it, and
    sets its timers again.  [turn] is one round of [tokio::select!] for the branch that was
    taken; [run] is the life of the task, over the events in the order they are taken. *)

From stdpp Require Import strings pretty.
From Stdlib Require Import SpecFloat.
From S2P Require Import Prelude Errors Effects Buf Config StreamType Frames Unacked Cookie KeyDerivation CryptoContext.
From S2P Require Import HeaderProtection Float Congestion Termination Connection Actor StreamHandle PacketSender.
From S2P Require Import Retransmit HandshakeHandler IncomingHandler.

(** [SLEEP_FOREVER]: a year. *)
Definition SLEEP_FOREVER : Z := from_secs (86400 * 365).

Set Primitive Projections.
(** stats.rs, [struct ConnectionStats]. *)
Record ConnectionStats := mkConnectionStats {
  st_rtt : Z;
  st_rttvar : Z;
  st_cwnd : Z;
  st_bytes_in_flight : Z;
  st_bytes_sent : Z;
  st_bytes_received : Z;
  st_active_streams : Z;
  st_key_epoch : Z;
  st_mtu : Z;
  st_cc_algorithm : CongestionControlAlgorithm;
  st_packets_lost : Z;
  st_packets_retransmitted : Z;
  st_mtu_probe_successes : Z;
  st_mtu_probe_failures : Z;
  st_mtu_blackhole_recoveries : Z;
}.

(** The deadlines of the loop's timers. *)
Record Timers := mkTimers {
  rto_deadline : Z;
  idle_deadline : Z;
  ack_deadline : Z;
  mtu_probe_deadline : Z;
  pacing_deadline : Z;
  path_validation_deadline : Z;
}.
Unset Primitive Projections.

#[export] Instance upd_rto_deadline : Upd rto_deadline := ltac:(derive_upd rto_deadline).
#[export] Instance upd_idle_deadline : Upd idle_deadline := ltac:(derive_upd idle_deadline).
#[export] Instance upd_ack_deadline : Upd ack_deadline := ltac:(derive_upd ack_deadline).
#[export] Instance upd_mtu_probe_deadline : Upd mtu_probe_deadline := ltac:(derive_upd mtu_probe_deadline).
#[export] Instance upd_pacing_deadline : Upd pacing_deadline := ltac:(derive_upd pacing_deadline).
#[export] Instance upd_path_validation_deadline : Upd path_validation_deadline :=
  ltac:(derive_upd path_validation_deadline).

(** The branches of [tokio::select!]. *)
Inductive Event :=
  | Message (m : ActorMessage.t)
  | DelayedAck
  | Rto
  | MtuProbeTimer
  | PacingTimer
  | SocketWritable
  | PathValidation
  | IdleTimer.

(** What is sent back on the [respond_to] channel of a message. *)
Inductive Reply :=
  | RepUnit (r : res unit)
  | RepMtu (mtu : Z)
  | RepStream (r : res ZtStream)
  | RepStats (s : ConnectionStats).

(** How a branch ends: at the end of the loop body, with [continue], or with [break]. *)
Inductive Flow := Next (unacked_changed : bool) | Continue | Break.

(** A branch is taken when its future is ready. *)
Definition enabled (ev : Event) (t : Z) (tm : Timers) (a : Actor) : bool :=
  match ev with
  | Message _ => true
  | DelayedAck => ack_deadline tm <=? t
  | Rto => rto_deadline tm <=? t
  | MtuProbeTimer => mtu_probe_deadline tm <=? t
  | PacingTimer => pacing_deadline tm <=? t
  | SocketWritable => socket_blocked a
  | PathValidation => path_validation_deadline tm <=? t
  | IdleTimer => idle_deadline tm <=? t
  end.

(** [get_next_rto_deadline]. *)
Definition get_next_rto_deadline (c : ZtConnection) : option Z :=
  let rto := Z.max (rtt c + rttvar c * 4) (from_millis 50) in
  foldl (λ min_deadline '(_, up),
    let deadline := up_sent_at up + packet_rto rto (up_retries up) in
    match min_deadline with
    | Some min => if deadline <? min then Some deadline else min_deadline
    | None => Some deadline
    end) None (Window.iter (unacked_packets c)).

(** The streams this end has opened. *)
Definition opened_count (a : Actor) : Z :=
  let local_parity := if on_client a then 0 else 1 in
  Z.of_nat (size (filter (λ '(id, _), id mod 2 = local_parity) (streams (conn a)))).

(** The largest datagram the path and the peer take. *)
Definition max_datagram_payload (c : ZtConnection) : Z := Z.min (sat_sub (mtu c) 64) (peer_max_datagram_size c).

Section event_loop.
Context `{BC : BytesCrate} `{HK : Hkdf} `{AE : Aead} `{CC : ChaCha20} `{LM : Libm} `{EV : Env}.
Context `{SH : Sha256} `{ED : Ed25519} `{XD : X25519}.

(** The snapshot [GetStats] answers with. *)
Definition stats_of (a : Actor) : ConnectionStats :=
  let c := conn a in
  {| st_rtt := rtt c; st_rttvar := rttvar c; st_cwnd := cwnd (cc c);
     st_bytes_in_flight := bytes_in_flight c; st_bytes_sent := bytes_sent c;
     st_bytes_received := bytes_received c; st_active_streams := Z.of_nat (size (streams c));
     st_key_epoch := current_key_epoch c; st_mtu := mtu c; st_cc_algorithm := cc_algorithm (config a);
     st_packets_lost := packets_lost c; st_packets_retransmitted := packets_retransmitted c;
     st_mtu_probe_successes := mtu_probe_successes c; st_mtu_probe_failures := mtu_probe_failures c;
     st_mtu_blackhole_recoveries := mtu_blackhole_recoveries c |}.

(** [update_rto_timer]. *)
Definition update_rto_timer (tm : Timers) : act Timers :=
  deadline ← gets (λ a, get_next_rto_deadline (conn a));
  match deadline with
  | Some d => mret (tm <| rto_deadline := d |>)
  | None => t ← now; mret (tm <| rto_deadline := t + SLEEP_FOREVER |>)
  end.

(** The macro [reset_pacing!]. *)
Definition reset_pacing (tm : Timers) : act Timers :=
  wait ← flush_pacing_queue;
  t ← now;
  mret (tm <| pacing_deadline := t + default SLEEP_FOREVER wait |>).

(** What the handler of a message leaves: the flow, the timers and the answer. *)
Abbreviation handled := (act (Flow * Timers * option Reply)).

(** The common end of a branch that sent or queued packets. *)
Definition paced (tm : Timers) (r : option Reply) : handled :=
  tm ← reset_pacing tm;
  mret (Next true, tm, r).

(** [ActorMessage::IncomingPacket]. *)
Definition on_packet (data : bytes) (from : SocketAddr) (tm : Timers) : handled :=
  _ ← attempt (process_incoming_packet data from);
  pending ← gets pending_acks;
  tm ← (if 0 <? pending then
          t ← now;
          let next_ack := t + from_millis 25 in
          mret (if next_ack <? ack_deadline tm then tm <| ack_deadline := next_ack |> else tm)
        else mret tm);
  paced tm None.

(** [ActorMessage::OpenStream]. *)
Definition on_open_stream (ty : StreamType) (tm : Timers) : handled :=
  if bool_decide (ty = UnidirectionalIn) then
    mret (Continue, tm, Some (RepStream (Err (InvalidPacket "receive-only streams are created by the peer"))))
  else
    opened ← gets opened_count;
    limit ← gets (λ a, peer_max_streams (conn a));
    if limit <=? opened then
      to_addr ← gets (λ a, addr (conn a));
      _ ← attempt (send_frame_immediate (Frame.StreamsBlocked limit) to_addr);
      mret (Continue, tm, Some (RepStream (Err (TooManyStreams limit))))
    else
      stream_id ← gets next_stream_id;
      match checked_add 32 stream_id 2 with
      | None => mret (Continue, tm, Some (RepStream (Err ConnectionIdExhausted)))
      | Some next =>
          modify (λ a, a <| next_stream_id := next |>);;
          t ← now;
          receive_window ← gets (λ a, cfg_initial_stream_window (config a));
          transmit_window ← gets (λ a, peer_initial_stream_window (conn a));
          on_conn (λ c, c <| streams ::= <[stream_id := new_stream ty receive_window transmit_window t]> |>);;
          timeout ← gets (λ a, idle_timeout (conn a));
          mret (Next false, tm, Some (RepStream (Ok (new_handle stream_id ty timeout))))
      end.

(** [ActorMessage::StreamDataRead]. *)
Definition on_data_read (stream_id bytes_read : Z) (tm : Timers) : handled :=
  _ ← attempt (forward_stream_data stream_id bytes_read);
  act_when (0 <? bytes_read)
    (modify (λ a, a <| pending_acks ::= λ n, Z.max n 1 |>);;
     _ ← attempt flush_acks;
     skip);;
  tm ← reset_pacing tm;
  mret (Next (0 <? bytes_read), tm, None).

(** [ActorMessage::SendDatagram]. *)
Definition on_send_datagram (data : bytes) (tm : Timers) : handled :=
  limit ← gets (λ a, max_datagram_payload (conn a));
  if limit <? len data then
    mret (Next false, tm, Some (RepUnit (Err (InvalidPacket ("Datagram payload exceeds current path limit (" +:+ pretty limit +:+ " bytes)")))))
  else
    full ← gets (λ a, cwnd (cc (conn a)) <? sat_add 64 (bytes_in_flight (conn a)) (len data));
    if (full : bool) then mret (Next false, tm, Some (RepUnit (Err CongestionWindowFull)))
    else
      result ← attempt (send_datagram_payload data);
      paced tm (Some (RepUnit result)).

(** The timer of a connection that is closing. *)
Definition close_timer (tm : Timers) : act Timers :=
  t ← now;
  mret (tm <| idle_deadline := t + from_secs 5 |>).

(** [match msg]. *)
Definition on_message (m : ActorMessage.t) (tm : Timers) : handled :=
  match m with
  | ActorMessage.IncomingPacket data from => on_packet data from tm
  | ActorMessage.OutgoingData stream_id data =>
      modify (λ a, a <| last_active_stream_id := stream_id |>);;
      result ← attempt (process_outgoing_data stream_id data);
      paced tm (Some (RepUnit result))
  | ActorMessage.GetMtu =>
      m ← gets (λ a, mtu (conn a));
      mret (Next false, tm, Some (RepMtu m))
  | ActorMessage.CloseStream stream_id =>
      _ ← attempt (send_stream_close stream_id);
      on_conn (λ c, c <| streams ::= delete stream_id |>);;
      paced tm None
  | ActorMessage.ResetStream stream_id error_code =>
      _ ← attempt (reset_stream stream_id error_code);
      on_conn (λ c, c <| streams ::= delete stream_id |>);;
      paced tm None
  | ActorMessage.OpenStream ty => on_open_stream ty tm
  | ActorMessage.SetHandshakePacket hs =>
      on_conn (λ c, c <| handshake_packet := Some hs |>);;
      mret (Next false, tm, None)
  | ActorMessage.StreamDataRead stream_id bytes_read => on_data_read stream_id bytes_read tm
  | ActorMessage.GetStats =>
      s ← gets stats_of;
      mret (Next false, tm, Some (RepStats s))
  | ActorMessage.Close =>
      _ ← attempt initiate_close;
      tm ← close_timer tm;
      paced tm None
  | ActorMessage.CloseWithError error_code reason =>
      _ ← attempt (initiate_close_with_error error_code reason);
      tm ← close_timer tm;
      paced tm None
  | ActorMessage.SendDatagram data => on_send_datagram data tm
  end.

(** The branch of the path validation timer: the challenge is sent again, or given up. *)
Definition on_path_validation : act unit :=
  more ← gets (λ a, path_validation_retries a <? max_path_validation_retries (config a));
  if (more : bool) then
    pending ← gets pending_validation_addr;
    token ← gets path_validation_token;
    match pending, token with
    | Some to_addr, Some token =>
        modify (λ a, a <| path_validation_retries ::= λ n, wrap 32 (n + 1) |>);;
        t ← now;
        modify (λ a, a <| path_validation_sent_at := Some t |>);;
        _ ← attempt (send_frame_immediate (Frame.PathChallenge token) to_addr);
        skip
    | _, _ => skip
    end
  else
    modify (λ a, a <| pending_validation_addr := None |>);;
    modify (λ a, a <| path_validation_token := None |>);;
    modify (λ a, a <| path_validation_sent_at := None |>);;
    modify (λ a, a <| path_validation_retries := 0 |>).

(** The branch of the idle timer. *)
Definition on_idle : act unit :=
  on_conn (λ c,
    if bool_decide (state c = Closing) then c
    else
      let c := c <| termination ::= termination_set TerminationReason.IdleTimeout |> in
      c <| streams ::= fmap (λ s, s <| stream_termination ::= termination_set TerminationReason.IdleTimeout |>) |>).

(** The branch of the delayed acknowledgement. *)
Definition on_delayed_ack (tm : Timers) : handled :=
  pending ← gets (λ a, 0 <? pending_acks a);
  act_when pending (_ ← attempt flush_acks; skip);;
  t ← now;
  mret (Next pending, tm <| ack_deadline := t + SLEEP_FOREVER |>, None).

(** The branch of the retransmission timer: a packet that was sent too often ends the loop. *)
Definition on_rto (tm : Timers) : handled :=
  r ← attempt handle_retransmits;
  if is_ok r then paced tm None else mret (Break, tm, None).

(** The branch of the MTU probe. *)
Definition on_mtu_probe (tm : Timers) : handled :=
  _ ← attempt send_mtu_probe;
  t ← now;
  interval ← gets (λ a, mtu_probe_interval (config a));
  mret (Next true, tm <| mtu_probe_deadline := t + interval |>, None).

(** The branch of a socket that can be written to again. *)
Definition on_writable (tm : Timers) : handled :=
  modify (λ a, a <| socket_blocked := false |>);;
  paced tm None.

(** The branches of [tokio::select!]. *)
Definition on_event (ev : Event) (tm : Timers) : handled :=
  match ev with
  | Message m =>
      t ← now;
      timeout ← gets (λ a, idle_timeout (conn a));
      on_message m (tm <| idle_deadline := t + timeout |>)
  | DelayedAck => on_delayed_ack tm
  | Rto => on_rto tm
  | MtuProbeTimer => on_mtu_probe tm
  | PacingTimer => paced tm None
  | SocketWritable => on_writable tm
  | PathValidation =>
      on_path_validation;;
      mret (Next false, tm, None)
  | IdleTimer =>
      on_idle;;
      mret (Break, tm, None)
  end.

(** The end of the loop body: the path validation timer and the retransmission timer. *)
Definition after_event (unacked_changed : bool) (tm : Timers) : act Timers :=
  sent_at ← gets path_validation_sent_at;
  tm ← match sent_at with
       | None =>
           t ← now;
           mret (tm <| path_validation_deadline := t + SLEEP_FOREVER |>)
       | Some sent_at =>
           round_trip ← gets (λ a, Z.max (rtt (conn a)) (from_millis 50));
           mret (tm <| path_validation_deadline := sent_at + round_trip * 2 |>)
       end;
  if (unacked_changed : bool) then update_rto_timer tm else mret tm.

(** One round of the loop; without timers the loop has ended. *)
Definition turn (ev : Event) (tm : Timers) : act (option Timers * option Reply) :=
  '(flow, tm, reply) ← on_event ev tm;
  match flow with
  | Next unacked_changed => tm ← after_event unacked_changed tm; mret (Some tm, reply)
  | Continue => mret (Some tm, reply)
  | Break => mret (None, reply)
  end.

(** What follows the loop: the streams learn that the connection is closed. *)
Definition after_loop : act unit :=
  on_conn (λ c, c <| is_closed := true |>);;
  on_conn signal_all.

(** One iteration: a closed connection drops what it receives and ends, and a branch that is
    not ready is not taken.  Without timers the task has ended. *)
Definition round (ev : Event) (tm : Timers) : act (option Timers * option Reply) :=
  closed ← gets (λ a, bool_decide (state (conn a) = Closed));
  if (closed : bool) then after_loop;; mret (None, None)
  else
    t ← now;
    ready ← gets (enabled ev t tm);
    if negb ready then mret (Some tm, None)
    else
      '(next, reply) ← turn ev tm;
      match next with
      | None => after_loop;; mret (None, reply)
      | Some tm => mret (Some tm, reply)
      end.

(** The loop over the events: the answers, and whether the task has ended. *)
Fixpoint run_loop (evs : list Event) (tm : Timers) : act (list Reply * bool) :=
  match evs with
  | [] => mret ([], false)
  | ev :: evs =>
      '(next, reply) ← round ev tm;
      match next with
      | None => mret (option_list reply, true)
      | Some tm =>
          '(replies, ended) ← run_loop evs tm;
          mret (option_list reply ++ replies, ended)
      end
  end.

(** The deadlines the loop starts with. *)
Definition first_timers : act Timers :=
  t0 ← now; round_trip ← gets (λ a, rtt (conn a));
  t1 ← now; idle ← gets (λ a, idle_timeout (conn a));
  t2 ← now;
  t3 ← now; interval ← gets (λ a, mtu_probe_interval (config a));
  t4 ← now;
  t5 ← now;
  mret (mkTimers (t0 + round_trip) (t1 + idle) (t2 + SLEEP_FOREVER) (t3 + interval)
          (t4 + SLEEP_FOREVER) (t5 + SLEEP_FOREVER)).

(** The part of [run] before the loop: a client sends its first packet. *)
Definition start : act Timers :=
  tm ← first_timers;
  greet ← gets (λ a, on_client a && bool_decide (state (conn a) = Handshaking));
  act_when greet (_ ← attempt (send_initial_packet None); skip);;
  mret tm.

(** [run]. *)
Definition run (evs : list Event) : act (list Reply * bool) :=
  tm ← start;
  run_loop evs tm.
End event_loop.

(** The branches of the timers, for proofs by cases on the event. *)
Ltac unfold_timers := unfold on_delayed_ack, on_rto, on_mtu_probe, on_writable.
