(* ===== verification/Engine.v ===== *)
(** * The interface of the cryptography (src/src/crypto/mod.rs)

    A connection holds its keys behind the trait [CryptoEngine].  The trait is a class here, with
    [CryptoContext] as its instance; what the connection relies on is a contract for two paired
    engines, and a client of the interface, the choice of keys by the phase bit of a header
    (incoming_handler.rs), is verified against the contract alone. *)

From stdpp Require Import strings.
From S2P Require Import Prelude Errors Effects Buf Config StreamType Frames Packet HeaderProtection.
From S2P Require Import Unacked StreamBuffer Cookie KeyDerivation CryptoContext CryptoFacts Float Congestion.
From S2P Require Import Termination Connection AckHandling Actor ActFacts PacketSender Retransmit HandshakeHandler IncomingHandler.

(** ** The trait *)

(** [trait CryptoEngine]: methods with [&mut self] return the engine afterwards. *)
Class CryptoEngine (E : Type) := {
  engine_encrypt_in_place : E → Z → bytes → bytes → res (bytes * bytes);
  engine_decrypt_in_place : E → Z → bytes → bytes → bytes → bool → res bytes;
  engine_trial_decrypt_and_rotate : E → Z → bytes → bytes → bytes → res (bytes * E);
  engine_apply_header_protection : E → bytes → nat → res bytes;
  engine_remove_header_protection : E → bytes → nat → res bytes;
  engine_rotate_keys : E → E;
  engine_epoch : E → Z;
}.

(** [impl CryptoEngine for CryptoContext]. *)
#[export] Instance context_engine `{HK : Hkdf} `{AE : Aead} `{CC : ChaCha20} : CryptoEngine CryptoContext := {|
  engine_encrypt_in_place := encrypt_in_place;
  engine_decrypt_in_place := decrypt_in_place;
  engine_trial_decrypt_and_rotate := trial_decrypt_and_rotate;
  engine_apply_header_protection := ctx_apply_header_protection;
  engine_remove_header_protection := ctx_remove_header_protection;
  engine_rotate_keys := rotate_keys;
  engine_epoch := epoch;
|}.

(** ** The contract *)

(** Two engines, the first in epoch [m] and the second in epoch [n]: what the first encrypts
    the second opens with its current keys in the same epoch, with the ones it keeps when it is one
    epoch ahead, and by rotating when it is one epoch behind. *)
Class EnginePair {E} `{CryptoEngine E} (paired : nat → nat → E → E → Prop) : Prop := {
  pair_epochs m n a b : paired m n a b → engine_epoch a = Z.of_nat m ∧ engine_epoch b = Z.of_nat n;
  pair_rotate m n a b : paired m n a b → Z.of_nat m + 2 < 2 ^ 64 → paired (S m) n (engine_rotate_keys a) b;
  pair_current n a b pn aad pt ct tag :
    paired n n a b → engine_encrypt_in_place a pn aad pt = Ok (ct, tag) →
    engine_decrypt_in_place b pn aad ct tag false = Ok pt;
  pair_prev n a b pn aad pt ct tag :
    paired n (S n) a b → engine_encrypt_in_place a pn aad pt = Ok (ct, tag) →
    engine_decrypt_in_place b pn aad ct tag true = Ok pt;
  pair_next n a b pn aad pt ct tag :
    paired (S n) n a b → Z.of_nat n + 2 < 2 ^ 64 → engine_encrypt_in_place a pn aad pt = Ok (ct, tag) →
    ∃ b', engine_trial_decrypt_and_rotate b pn aad ct tag = Ok (pt, b') ∧ paired (S n) (S n) a b';
}.

(** The contexts of the two ends of a connection keep it. *)
#[export] Instance context_pair `{HK : Hkdf} `{AL : AeadLaws} `{CC : ChaCha20} root role :
  EnginePair (λ m n a b, in_epoch root role m a ∧ in_epoch root (negb role) n b).
Proof.
  split.
  - intros m n a b [[] []]. done.
  - intros m n a b [A B] Hm. split; [by apply rotate_in_epoch|done].
  - intros n a b pn aad pt ct tag [A B]. by eapply open_same_epoch.
  - intros n a b pn aad pt ct tag [A B]. by eapply open_prev_epoch.
  - intros n a b pn aad pt ct tag [A B] Hn E. destruct (open_next_epoch _ _ _ _ _ _ _ _ _ _ Hn A B E) as (b' & ? & ?). by exists b'.
Qed.

(** ** A client: the choice of keys *)

(** A packet: its number, the phase bit of its header, and what is encrypted. *)
Record Sealed := mkSealed { sl_pn : Z; sl_phase : bool; sl_aad : bytes; sl_ct : bytes; sl_tag : bytes }.

Definition phase_of (epoch : Z) : bool := negb (epoch mod 2 =? 0).

Section client.
Context {E} `{EG : CryptoEngine E}.

(** [choose_key] and the decryption it leads to, for any engine: the plaintext, the engine and
    the connection's epoch afterwards. *)
Definition open_sealed (b : E) (key_epoch highest : Z) (p : Sealed) : res (bytes * E * Z) :=
  if negb (Bool.eqb (sl_phase p) (phase_of key_epoch)) then
    if highest <=? sl_pn p then
      '(pt, b) ← engine_trial_decrypt_and_rotate b (sl_pn p) (sl_aad p) (sl_ct p) (sl_tag p);
      Ok (pt, b, wrap 64 (key_epoch + 1))
    else
      pt ← engine_decrypt_in_place b (sl_pn p) (sl_aad p) (sl_ct p) (sl_tag p) true;
      Ok (pt, b, key_epoch)
  else
    pt ← engine_decrypt_in_place b (sl_pn p) (sl_aad p) (sl_ct p) (sl_tag p) false;
    Ok (pt, b, key_epoch).

(** What is sent: associated data and plaintext, whether the packet arrives, and whether the sender
    rotates its keys after it ([note_packet_sent]). *)
Record Sending := mkSending { sd_aad : bytes; sd_pt : bytes; sd_arrives : bool; sd_rotates : bool }.

(** The packets that arrive. *)
Fixpoint seal_all (a : E) (pn : Z) (l : list Sending) : res (list Sealed) :=
  match l with
  | [] => Ok []
  | s :: l =>
      '(ct, tag) ← engine_encrypt_in_place a pn (sd_aad s) (sd_pt s);
      rest ← seal_all (if sd_rotates s then engine_rotate_keys a else a) (pn + 1) l;
      let p := mkSealed pn (phase_of (engine_epoch a)) (sd_aad s) ct tag in
      Ok (if sd_arrives s then p :: rest else rest)
  end.

Fixpoint open_all (b : E) (key_epoch highest : Z) (l : list Sealed) : res (list bytes) :=
  match l with
  | [] => Ok []
  | p :: l =>
      '(pt, b, key_epoch) ← open_sealed b key_epoch highest p;
      pts ← open_all b key_epoch (Z.max highest (sl_pn p)) l;
      Ok (pt :: pts)
  end.

(** Of each epoch of the sender a packet arrives before the next one begins; [behind] when
    none of the current epoch has arrived yet. *)
Fixpoint keeps_up (behind : bool) (l : list Sending) : bool :=
  match l with
  | [] => true
  | s :: l =>
      let behind := behind && negb (sd_arrives s) in
      if sd_rotates s then negb behind && keeps_up true l else keeps_up behind l
  end.

Context (paired : nat → nat → E → E → Prop) {PR : EnginePair paired}.

Lemma phase_flip n : negb (Bool.eqb (phase_of (Z.of_nat (S n))) (phase_of (Z.of_nat n))) = true.
Proof.
  unfold phase_of. rewrite Nat2Z.inj_succ. unfold Z.succ. rewrite <- Zplus_mod_idemp_l.
  pose proof (Z.mod_pos_bound (Z.of_nat n) 2 ltac:(lia)). assert (Z.of_nat n mod 2 = 0 ∨ Z.of_nat n mod 2 = 1) as [->| ->] by lia; done.
Qed.

(** A packet of the receiver's epoch or of the next one opens, and the receiver is then in the sender's epoch. *)
Lemma open_follows m n a b pn highest aad pt ct tag :
  paired m n a b → (m = n ∨ m = S n) → Z.of_nat m + 1 < 2 ^ 64 → highest ≤ pn →
  engine_encrypt_in_place a pn aad pt = Ok (ct, tag) →
  ∃ b', open_sealed b (Z.of_nat n) highest (mkSealed pn (phase_of (Z.of_nat m)) aad ct tag) = Ok (pt, b', Z.of_nat m)
    ∧ paired m m a b'.
Proof.
  intros P [->| ->] Hm Hh Ee; unfold open_sealed; cbn [sl_pn sl_phase sl_aad sl_ct sl_tag].
  - rewrite Bool.eqb_reflx. cbn [negb]. rewrite (pair_current n a b _ _ _ _ _ P Ee). by exists b.
  - rewrite phase_flip. replace (highest <=? pn) with true by lia.
    destruct (pair_next n a b _ _ _ _ _ P ltac:(lia) Ee) as (b' & -> & P'). exists b'. split; [|done].
    cbn. do 2 f_equal. unfold wrap. rewrite Z.mod_small; lia.
Qed.

Lemma conversation l m n a b pn highest ps :
  paired m n a b → (m = n ∨ m = S n) → keeps_up (negb (bool_decide (m = n))) l = true →
  Z.of_nat m + len l + 2 < 2 ^ 64 → highest ≤ pn → seal_all a pn l = Ok ps →
  open_all b (Z.of_nat n) highest ps = Ok (sd_pt <$> filter (λ s, sd_arrives s = true) l).
Proof.
  revert m n a b pn highest ps. induction l as [|s l IH]; intros m n a b pn highest ps P Hmn K Hm Hh Es; cbn in Es.
  { by injection Es as <-. }
  destruct (engine_encrypt_in_place a pn (sd_aad s) (sd_pt s)) as [[ct tag]|e|] eqn:Ee; [|done..]. cbn in Es.
  set (a' := if sd_rotates s then engine_rotate_keys a else a) in *.
  destruct (seal_all a' (pn + 1) l) as [rest|e|] eqn:Er; [|done..]. cbn in Es. injection Es as <-.
  destruct (pair_epochs m n a b P) as [-> _]. cbn [keeps_up] in K.
  assert (Z.of_nat m + 1 + len l + 2 < 2 ^ 64) as Hm' by (rewrite len_cons in Hm; lia). pose proof (len_nonneg l).
  set (m' := if sd_rotates s then S m else m).
  assert (∀ k b', paired m k a b' → paired m' k a' b') as Pr.
  { intros k b' P'. unfold a', m'. destruct (sd_rotates s); [|done]. apply pair_rotate; [done|lia]. }
  destruct (sd_arrives s) eqn:Ea.
  - destruct (open_follows m n a b pn highest _ _ _ _ P Hmn ltac:(lia) Hh Ee) as (b' & Eo & P').
    rewrite filter_cons_True by done. cbn [open_all fmap list_fmap]. rewrite Eo. cbn [mbind res_bind sl_pn].
    rewrite (IH m' m a' b' (pn + 1) (Z.max highest pn) rest); [done|by apply Pr| | | |lia|done].
    all: unfold m'; cbn [negb] in K; rewrite andb_false_r in K; destruct (sd_rotates s); cbn [negb andb] in K; try lia.
    + by rewrite bool_decide_false by lia.
    + by rewrite bool_decide_true by done.
  - rewrite filter_cons_False by (by rewrite Ea). cbn [negb] in K. rewrite andb_true_r in K.
    apply (IH m' n a' b (pn + 1) highest rest); [by apply Pr| | | |lia|done].
    all: unfold m'; destruct (sd_rotates s); try lia; try done; apply andb_true_iff in K as [K1 K2]; rewrite negb_involutive in K1;
      apply bool_decide_eq_true_1 in K1; first [lia|by rewrite bool_decide_false by lia].
Qed.
End client.

(** ** The connection's key choice *)

(** The actor's choice and decryption are the client's, for the context behind the interface. *)
Lemma actor_opens `{BC : BytesCrate} `{HK : Hkdf} `{AE : Aead} `{CC : ChaCha20} `{LM : Libm} `{EV : Env}
    `{SH : Sha256} `{ED : Ed25519} `{XD : X25519} (h : PacketHeader.t) (aad ct tag : bytes) (highest : Z) (k : CryptoContext) (a : Actor) :
  (decrypt_payload h (choose_key h true highest (conn a)) k aad ct tag a).1
  = ('(pt, _, _) ← open_sealed k (current_key_epoch (conn a)) highest
       (mkSealed (PacketHeader.packet_number h) (PacketHeader.key_phase h) aad ct tag); Ok pt).
Proof.
  unfold choose_key, open_sealed. cbn [sl_pn sl_phase sl_aad sl_ct sl_tag andb]. fold (phase_of (current_key_epoch (conn a))).
  unfold decrypt_payload. cbv zeta. set (pn := PacketHeader.packet_number h).
  change (engine_trial_decrypt_and_rotate k pn aad ct tag) with (trial_decrypt_and_rotate k pn aad ct tag).
  change (engine_decrypt_in_place k pn aad ct tag) with (decrypt_in_place k pn aad ct tag).
  destruct (negb _); [destruct (_ <=? _)|].
  - unfold lift, mbind, act_bind. by destruct (trial_decrypt_and_rotate k pn aad ct tag) as [[pt k']|e|].
  - unfold lift. by destruct (decrypt_in_place k pn aad ct tag true).
  - unfold lift. by destruct (decrypt_in_place k pn aad ct tag false).
Qed.


(** Five packets, of which the second and the fourth are lost; the sender rotates its keys after the first and the third. *)
Definition sample_sendings : list Sending :=
  [mkSending [1] [10; 11] true true; mkSending [1] [12] false false; mkSending [1] [13] true true;
   mkSending [1] [14] false false; mkSending [1] [15; 16] true false].
Definition sample_keys (client : bool) : CryptoContext :=
  from_shared_secret (HK := CryptoFacts.hkdf_model) (zeros 32) (if client then [1; 2] else [3; 4]) (if client then [3; 4] else [1; 2]) None client.
Definition sample_sealed : list Sealed :=
  match seal_all (EG := context_engine (HK := CryptoFacts.hkdf_model) (AE := CryptoFacts.aead_model) (CC := chacha20_model)) (sample_keys true) 0 sample_sendings with
  | Ok ps => ps
  | _ => []
  end.

