(* ===== verification/StreamView.v ===== *)
(** * Predicates on the streams of an actor

    Most methods of the actor do not touch its streams, except for the permits of their
    writers.  A predicate that reads only the streams and a few constants is preserved by
    all of them, and by the event loop when the stream operations preserve it. *)

From stdpp Require Import strings.
From S2P Require Import Prelude Errors Effects Buf Config StreamType Frames Packet HeaderProtection.
From S2P Require Import Unacked StreamBuffer Cookie KeyDerivation CryptoContext Float Congestion.
From S2P Require Import Termination Connection AckHandling ConnFrame Actor ActFacts PacketSender Retransmit HandshakeHandler.
From S2P Require Import IncomingHandler EventLoop.

(** What the predicates may read. *)
Definition stream_facts (a : Actor) : gmap Z StreamState * ZtConfig * bool * Z * Z :=
  (unsignalled (streams (conn a)), config a, on_client a, next_stream_id a, local_max_streams (conn a)).

Class StreamView (I : Actor → Prop) : Prop :=
  stream_view a a' : stream_facts a' = stream_facts a → I a → I a'.

(** A write elsewhere. *)
Ltac quietly :=
  intros; match goal with H : ?I ?a |- ?I _ => eapply (stream_view (I := I) a); [|exact H] end; first [done | idtac].
Ltac quiet := walk; try (by quietly).

Section quiet.
Context `{BC : BytesCrate} `{HK : Hkdf} `{AE : Aead} `{CC : ChaCha20} `{LM : Libm} `{EV : Env}.
Context `{SH : Sha256} `{ED : Ed25519} `{XD : X25519}.
Context (I : Actor → Prop) {V : StreamView I}.

Lemma quiet_untouched a c : untouched (conn a) c → I a → I (a <| conn := c |>).
Proof.
  intros U Ia. quietly. unfold stream_facts. change (conn (a <| conn := c |>)) with c.
  by rewrite (un_streams _ _ U), (un_limit _ _ U).
Qed.
Lemma quiet_on_conn f : (∀ c, untouched c (f c)) → preserves I (on_conn f).
Proof. intros H a Ia. by apply (quiet_untouched a (f (conn a))). Qed.
Lemma quiet_signal : preserves I (on_conn signal_all).
Proof. apply quiet_on_conn. apply untouched_signal. Qed.
#[local] Hint Resolve quiet_signal : preserves.

Lemma quiet_sendmsg buf : preserves I (sendmsg_vectored buf).
Proof.
  intros a Ia. unfold sendmsg_vectored. destruct (_ <=? _); [done|]. destruct (_ && _ && _); [done|].
  by destruct (socket_send _ _ _) as [[]|]; quietly.
Qed.
Lemma quiet_note : preserves I note_packet_sent.
Proof.
  intros a Ia. unfold note_packet_sent. destruct (negb _); [done|]. destruct (crypto (conn a)); [|done].
  by destruct (_ <=? _); quietly.
Qed.
Lemma quiet_get_crypto : preserves I get_crypto.
Proof. by intros a. Qed.
#[local] Hint Resolve quiet_sendmsg quiet_note quiet_get_crypto : preserves.

Lemma quiet_flush_acks : preserves I flush_acks.
Proof. unfold flush_acks, refresh_local_window, now. quiet. Qed.
Lemma quiet_send_mtu_probe : preserves I send_mtu_probe.
Proof. unfold send_mtu_probe, refresh_local_window, now. quiet. Qed.
Lemma quiet_send_initial ck r : preserves I (send_initial_packet_internal ck r).
Proof. unfold send_initial_packet_internal, now. quiet. intros a Ia. destruct ck; by quietly. Qed.
#[local] Hint Resolve quiet_flush_acks quiet_send_initial : preserves.
Lemma quiet_send q r : preserves I (send_payload_with_retries q r).
Proof. unfold send_payload_with_retries, send_protected_payload, now. quiet. Qed.
Lemma quiet_send_frame_immediate f to : preserves I (send_frame_immediate f to).
Proof. unfold send_frame_immediate. quiet. Qed.
#[local] Hint Resolve quiet_send quiet_send_frame_immediate : preserves.
Lemma quiet_retransmit q r : preserves I (retransmit_payload q r).
Proof. unfold retransmit_payload, queue_front. quiet. Qed.
Lemma quiet_send_payload q : preserves I (send_payload q).
Proof. unfold send_payload, queue_front. quiet. Qed.
#[local] Hint Resolve quiet_retransmit quiet_send_payload : preserves.
Lemma quiet_retransmit_all l : preserves I (retransmit_all l).
Proof. induction l as [|[q r] l IH]; cbn [retransmit_all]; quiet. Qed.
Lemma quiet_initiate_close : preserves I initiate_close.
Proof. unfold initiate_close. quiet. Qed.
Lemma quiet_close_error e r : preserves I (initiate_close_with_error e r).
Proof. unfold initiate_close_with_error. quiet. Qed.
Lemma quiet_stream_close id : preserves I (send_stream_close id).
Proof. unfold send_stream_close. quiet. Qed.
Lemma quiet_reset_stream id e : preserves I (reset_stream id e).
Proof. unfold reset_stream. quiet. Qed.
#[local] Hint Resolve quiet_retransmit_all quiet_initiate_close quiet_reset_stream : preserves.
Lemma quiet_close_with {A} msg : preserves I (close_with msg : act A).
Proof. unfold close_with. quiet. Qed.
#[local] Hint Resolve quiet_close_with : preserves.

Lemma quiet_handle_ack_frame la ws d rs : preserves I (handle_ack_frame la ws d rs).
Proof.
  unfold handle_ack_frame, now. quiet. intros a Ia.
  destruct (handle_ack _ _ _ _ _ _ _) as [[l c]| |] eqn:E; [|done..]. apply untouched_ack in E. by apply quiet_untouched.
Qed.

Lemma quiet_paced_send_failed e : preserves I (paced_send_failed e).
Proof.
  intros a Ia. unfold paced_send_failed. destruct (socket_blocked a); [done|]. destruct (is_fatal e); [by quietly|].
  destruct (unpaced_queue (conn a)) as [|[q r] l]; [done|]. destruct (10 <? _); by quietly.
Qed.
#[local] Hint Resolve quiet_paced_send_failed : preserves.
Lemma quiet_pacing_loop fuel rate : preserves I (pacing_loop fuel rate).
Proof. induction fuel as [|fuel IH]; cbn [pacing_loop]; unfold pop_sent; quiet. Qed.
#[local] Hint Resolve quiet_pacing_loop : preserves.
Lemma quiet_flush_pacing_queue : preserves I flush_pacing_queue.
Proof.
  unfold flush_pacing_queue, now. quiet. intros a Ia.
  match goal with |- I (upd _ ?f _) => apply (quiet_untouched a (f (conn a))); [|done] end.
  cbv beta. by destruct (last_pacing_update (conn a)).
Qed.

Lemma quiet_handle_retransmits : preserves I handle_retransmits.
Proof.
  unfold handle_retransmits, now.
  apply preserves_bind; [quiet|intros t]. apply preserves_bind; [walk|intros rto].
  apply preserves_bind; [|intros scan].
  { intros a Ia. destruct (rto_scan _ _ _ _ _) as [d s]. by quietly. }
  destruct (timed_out scan); [quiet|].
  apply preserves_bind; [apply quiet_on_conn; intros; apply untouched_probe_failures|intros _].
  apply preserves_bind; [apply quiet_on_conn; intros c; destruct (_ && _); [apply untouched_blackhole|done]|intros _].
  apply preserves_bind; [|intros l].
  { intros a Ia. pose proof (untouched_fold _ (to_drop scan) (untouched_drop (to_retransmit scan)) (conn a) []) as U.
    destruct (foldl _ _ _) as [c l]. by apply quiet_untouched. }
  quiet.
Qed.
#[local] Hint Resolve quiet_handle_ack_frame quiet_flush_pacing_queue quiet_handle_retransmits quiet_send_mtu_probe
  quiet_close_error quiet_stream_close : preserves.

(** ** Frames *)

Lemma quiet_raise_window n : preserves I (on_conn (raise_window n)).
Proof.
  apply quiet_on_conn. intros c. unfold raise_window. destruct (_ <? _); [|done]. by eapply untouched_trans, untouched_signal.
Qed.
Lemma quiet_raise_streams n : preserves I (on_conn (raise_streams n)).
Proof.
  apply quiet_on_conn. intros c. unfold raise_streams. destruct (_ <? _); [|done]. by eapply untouched_trans, untouched_signal.
Qed.
Lemma quiet_path_response data from : preserves I (handle_path_response data from).
Proof. intros a Ia. unfold handle_path_response. cbn. destruct (_ && _); by quietly. Qed.

(** ** Packets *)

Lemma quiet_mark_processed pn t : preserves I (on_conn (conn_mark_processed pn t)).
Proof.
  intros a Ia. set (c := conn_mark_processed pn t (conn a)).
  assert (streams c = streams (conn a) ∧ local_max_streams c = local_max_streams (conn a)) as [Es El].
  { subst c. unfold conn_mark_processed. by case_match. }
  quietly. unfold stream_facts. change (conn (on_conn (conn_mark_processed pn t) a).2) with c. by rewrite Es, El.
Qed.
#[local] Hint Resolve quiet_mark_processed : preserves.
Lemma quiet_handshake_response h p aad from : preserves I (handle_handshake_response h p aad from).
Proof. unfold handle_handshake_response, now. quiet. Qed.
Lemma quiet_check_path from : preserves I (check_path from).
Proof. unfold check_path, get_token, now. quiet. Qed.
Lemma quiet_decrypt h k c aad p tag : preserves I (decrypt_payload h k c aad p tag).
Proof. unfold decrypt_payload. quiet. Qed.
#[local] Hint Resolve quiet_handshake_response quiet_check_path quiet_decrypt : preserves.

(** A predicate every frame preserves is preserved by every packet. *)
Context (Hf : ∀ f from, preserves I (handle_frame f from)).

Lemma quiet_handle_frames fuel s from : preserves I (handle_frames fuel s from).
Proof.
  revert s. induction fuel as [|fuel IH]; intros s; cbn [handle_frames]; walk.
Qed.
#[local] Hint Resolve quiet_handle_frames : preserves.

Lemma quiet_receive_protected h k aad p from : preserves I (receive_protected h k aad p from).
Proof. unfold receive_protected, now. quiet. intros a Ia. destruct (_ && _); by quietly. Qed.
#[local] Hint Resolve quiet_receive_protected : preserves.

Lemma quiet_packet data from : preserves I (process_incoming_packet data from).
Proof. unfold process_incoming_packet, dispatch_packet, handle_retry_packet, send_initial_packet. quiet. Qed.
#[local] Hint Resolve quiet_packet : preserves.

(** ** The event loop *)

Context (Hread : ∀ id n, preserves I (forward_stream_data id n)).
Context (Hwrite : ∀ id data, preserves I (process_outgoing_data id data)).
Context (Hopen : ∀ ty tm, preserves I (on_open_stream ty tm)).
Context (Hclose : ∀ id, preserves I (on_conn (λ c, c <| streams ::= delete id |>))).
Context (Hidle : preserves I on_idle).

Lemma quiet_turn ev tm : preserves I (turn ev tm).
Proof.
  unfold turn. apply preserves_bind.
  - destruct ev as [[]| | | | | | |]; cbn [on_event on_message]; unfold_timers;
      unfold on_packet, on_data_read, on_send_datagram, close_timer, paced, reset_pacing, send_datagram_payload,
        on_path_validation, now; quiet.
  - intros [[flow tm'] reply]. unfold after_event, update_rto_timer, now. quiet.
Qed.
#[local] Hint Resolve quiet_turn : preserves.

Lemma quiet_round ev tm : preserves I (round ev tm).
Proof. unfold round, after_loop, now. quiet. Qed.
#[local] Hint Resolve quiet_round : preserves.

Lemma quiet_run_loop evs tm : preserves I (run_loop evs tm).
Proof. revert tm. induction evs as [|ev evs IH]; intros tm; cbn [run_loop]; quiet. Qed.
#[local] Hint Resolve quiet_run_loop : preserves.

Lemma quiet_run evs : preserves I (run evs).
Proof. unfold run, start, first_timers, send_initial_packet, now. quiet. Qed.
End quiet.

#[export] Hint Resolve quiet_signal quiet_sendmsg quiet_note quiet_get_crypto quiet_flush_acks quiet_send_initial quiet_send
  quiet_send_frame_immediate quiet_retransmit quiet_send_payload quiet_retransmit_all quiet_initiate_close quiet_reset_stream
  quiet_close_with quiet_paced_send_failed quiet_pacing_loop quiet_handle_ack_frame quiet_flush_pacing_queue
  quiet_handle_retransmits quiet_send_mtu_probe quiet_close_error quiet_stream_close quiet_raise_window
  quiet_raise_streams quiet_path_response : preserves.
