(* ===== verification/Endpoint.v ===== *)
(** * The endpoint: state and effects (src/src/transport/endpoint.rs)

    [ZtEndpoint] owns the socket, the identity and the routing table; it is shared by the
    router tasks, the handshake tasks, the actors of its connections and the application.
    Its methods are computations on its state ([ep]).  The tasks it spawned are part of the
    state: an actor with the messages in its channel, and a handshake that is under way.

    The clock, the random numbers and the socket are an oracle ([EndpointEnv]). *)

From stdpp Require Import strings.
From S2P Require Import Prelude Errors Effects Buf Config StreamType Frames Packet HeaderProtection Unacked Cookie.
From S2P Require Import KeyDerivation CryptoContext Float Congestion Connection Actor PacketSender Retransmit.
From S2P Require Import HandshakeHandler IncomingHandler EventLoop.

Class EndpointEnv := {
  (** [OsRng] and [thread_rng().fill]: the given number of random bytes. *)
  ep_random : nat → nat → bytes;
  (** [thread_rng().gen_ratio(1, 128)]. *)
  ep_coin : nat → bool;
  (** The time since the process started. *)
  ep_clock : nat → Z;
  (** [UdpSocket::try_send_to]: [None] is success. *)
  ep_socket : nat → SocketAddr → bytes → option IoErrorKind;
}.

(** [MAX_ACTIVE_CONNECTIONS], the permits of [handshake_semaphore], and the capacities of the
    channels of an actor and of accepted connections. *)
Definition MAX_ACTIVE_CONNECTIONS : Z := 1000.
Definition HANDSHAKE_PERMITS : Z := 256.
Definition MAILBOX_CAPACITY : Z := 1024.
Definition ACCEPT_CAPACITY : Z := 1024.

(** A connection handle: the connection id, and the task whose channels it holds. *)
Record ConnectionHandle := mkConnectionHandle { handle_cid : bytes; handle_task : nat }.

Set Primitive Projections.
(** A spawned actor: the connection id it is routed by, the timers of its loop once it runs,
    and its channel, which is open as long as the task is alive. *)
Record Task := mkTask {
  task_scid : bytes;
  task_actor : Actor;
  task_timers : option Timers;
  mailbox : list ActorMessage.t;
  alive : bool;
}.

(** What a handshake has established about the client when it starts to change the endpoint. *)
Record Authentic := mkAuthentic {
  au_header : PacketHeader.t;
  au_public_key : bytes;
  au_cookie : option bytes;
  au_parameters : TransportParameters;
  au_time : Z;
  au_hmac : option bytes;
  au_size : Z;
}.

(** A spawned handshake task. *)
Inductive Attempt :=
  | Arrived (data : bytes) (from : SocketAddr)
  | Checked (au : Authentic) (from : SocketAddr).

(** [struct ZtEndpoint], its tasks, the caches of its routers, and what it put on the socket. *)
Record Endpoint := mkEndpoint {
  ep_config : ZtConfig;
  ep_alpn : bytes;
  ep_signing_key : bytes;
  ep_public_key : bytes;
  ep_psk : option bytes;
  cookie_key : bytes;
  ep_verifier : option (bytes → bool);
  routing_table : gmap bytes nat;
  replay_filter : gmap bytes Z;
  accept_queue : list ConnectionHandle;
  permits : Z;
  tasks : list Task;
  attempts : list Attempt;
  caches : list (gmap bytes nat);
  sent : list (SocketAddr * bytes);
  ep_questions : nat;
}.
Unset Primitive Projections.

#[export] Instance upd_task_actor : Upd task_actor := ltac:(derive_upd task_actor).
#[export] Instance upd_task_timers : Upd task_timers := ltac:(derive_upd task_timers).
#[export] Instance upd_mailbox : Upd mailbox := ltac:(derive_upd mailbox).
#[export] Instance upd_alive : Upd alive := ltac:(derive_upd alive).
#[export] Instance upd_ep_alpn : Upd ep_alpn := ltac:(derive_upd ep_alpn).
#[export] Instance upd_ep_verifier : Upd ep_verifier := ltac:(derive_upd ep_verifier).
#[export] Instance upd_routing_table : Upd routing_table := ltac:(derive_upd routing_table).
#[export] Instance upd_replay_filter : Upd replay_filter := ltac:(derive_upd replay_filter).
#[export] Instance upd_accept_queue : Upd accept_queue := ltac:(derive_upd accept_queue).
#[export] Instance upd_permits : Upd permits := ltac:(derive_upd permits).
#[export] Instance upd_tasks : Upd tasks := ltac:(derive_upd tasks).
#[export] Instance upd_attempts : Upd attempts := ltac:(derive_upd attempts).
#[export] Instance upd_caches : Upd caches := ltac:(derive_upd caches).
#[export] Instance upd_sent : Upd sent := ltac:(derive_upd sent).
#[export] Instance upd_ep_questions : Upd ep_questions := ltac:(derive_upd ep_questions).

Abbreviation ep := (stm Endpoint).

(** ** Binding *)

(** The configurations of [bind] and [bind_with_config]. *)
Definition config_with (psk : option bytes) (cc_algo : CongestionControlAlgorithm) : ZtConfig :=
  let d := config_default in
  mkZtConfig (connect_timeout d) (cfg_idle_timeout d) (max_concurrent_streams d) (cfg_alpn d)
    (cfg_initial_stream_window d) (max_stream_window d) (cfg_initial_max_data d)
    (max_connection_buffer d) (cfg_mtu_min d) (cfg_mtu_max d) (mtu_probe_interval d)
    (cookie_max_age_ms d) (key_update_packet_interval d) psk
    (max_path_validation_retries d) cc_algo.

(** The endpoint [bind_with_zt_config] builds, given the keys it draws and the number of cores,
    each of which runs a router.  The setup of the sockets is not modelled. *)
Definition new_endpoint `{Ed25519} (cores : nat) (signing_key cookie_key : bytes) (config : ZtConfig) : Endpoint :=
  {| ep_config := config; ep_alpn := cfg_alpn config; ep_signing_key := signing_key;
     ep_public_key := ed_public signing_key; ep_psk := cfg_psk config; cookie_key := cookie_key;
     ep_verifier := None; routing_table := ∅; replay_filter := ∅; accept_queue := [];
     permits := HANDSHAKE_PERMITS; tasks := []; attempts := [];
     caches := replicate (Nat.max 1 cores) ∅; sent := []; ep_questions := 0 |}.

(** [bind_with_zt_config]. *)
Definition bind_with_zt_config `{Ed25519} (cores : nat) (signing_key cookie_key : bytes) (config : ZtConfig)
    : res Endpoint :=
  _ ← config_validate config;
  Ok (new_endpoint cores signing_key cookie_key config).

(** [set_alpn]: an invalid name is ignored. *)
Definition set_alpn (alpn : bytes) : ep unit :=
  if (len alpn =? 0) || (u_max 8 <? len alpn) then skip
  else modify (λ e, e <| ep_alpn := alpn |>).

(** [set_peer_key_verifier]. *)
Definition set_peer_key_verifier (verifier : option (bytes → bool)) : ep unit :=
  modify (λ e, e <| ep_verifier := verifier |>).

(** ** Primitives *)

Section primitives.
Context `{EE : EndpointEnv}.

(** Ask the outside, and count the question. *)
Definition ep_ask {A} (f : nat → A) : ep A := λ e, (Ok (f (ep_questions e)), e <| ep_questions ::= S |>).
Definition random_bytes (n : nat) : ep bytes := ep_ask (λ q, ep_random q n).
Definition millis : ep Z := ep_ask (λ q, current_time_millis (ep_clock q)).
Definition instant : ep Z := ep_ask ep_clock.

(** [if let Err(e) = endpoint.socket.try_send_to(..) { log }]. *)
Definition send_to (to : SocketAddr) (data : bytes) : ep unit :=
  r ← ep_ask (λ q, ep_socket q to data);
  act_when (match r with None => true | Some _ => false end)
    (modify (λ e, e <| sent ::= λ l, l ++ [(to, data)] |>)).
End primitives.

(** [!tx.is_closed()]. *)
Definition is_open (i : nat) : ep bool := gets (λ e, match tasks e !! i with Some t => alive t | None => false end).

(** [tx.try_send(m)]: whether the channel is open and has room. *)
Definition try_post (i : nat) (m : ActorMessage.t) : ep bool := λ e,
  match tasks e !! i with
  | Some t =>
      if alive t && (len (mailbox t) <? MAILBOX_CAPACITY) then
        (Ok true, e <| tasks ::= <[i := t <| mailbox ::= λ l, l ++ [m] |>]> |>)
      else (Ok false, e)
  | None => (Ok false, e)
  end.

(** A new actor, with its channel. *)
Definition spawn (scid : bytes) (a : Actor) : ep nat := λ e,
  (Ok (length (tasks e)), e <| tasks ::= λ l, l ++ [mkTask scid a None [] true] |>).

(** The actor is dropped: its channel closes. *)
Definition kill (i : nat) : ep unit := λ e,
  match tasks e !! i with
  | Some t => (Ok tt, e <| tasks ::= <[i := t <| alive := false |>]> |>)
  | None => (Ok tt, e)
  end.
