(* ===== verification/ServerHandshake.v ===== *)
(** * The server side of the handshake (src/src/transport/handshake.rs)

    [handle_handshake] answers an Initial packet: without a valid cookie with a Retry packet,
    otherwise, when the client's signature is good, with a Handshake packet and a new connection.
    It has two parts.  The first ([authenticate]) decides about the packet and only reads the
    endpoint, apart from purging old cookies.  The second ([enroll_client]) claims the cookie and
    creates the connection.  Tasks run in parallel: other tasks change the endpoint between the
    two parts. *)

From stdpp Require Import strings.
From S2P Require Import Prelude Errors Effects Buf Config StreamType Frames Packet HeaderProtection Unacked Cookie.
From S2P Require Import KeyDerivation CryptoContext Float Congestion Connection Actor PacketSender Retransmit.
From S2P Require Import HandshakeHandler IncomingHandler EventLoop Endpoint.

Section handshake.
Context `{BC : BytesCrate} `{HK : Hkdf} `{AE : Aead} `{CC : ChaCha20} `{LM : Libm} `{HM : Hmac}.
Context `{SH : Sha256} `{ED : Ed25519} `{XD : X25519} `{EE : EndpointEnv}.

(** ** The Initial packet *)

(** Header protection is removed with the initial key of the destination. *)
Definition unprotect_initial (data : bytes) : res bytes :=
  offset ← PacketHeader.get_pn_offset data;
  match offset with
  | Some offset =>
      dcid ← extract_dcid_fast data;
      match dcid with
      | Some dcid => ctx_remove_header_protection (initial dcid false) data (Z.to_nat offset)
      | None => Ok data
      end
  | None => Ok data
  end.

(** The header and the decrypted payload; [None] when the packet is dropped. *)
Definition open_initial (data : bytes) : res (option (PacketHeader.t * bytes)) :=
  if len data <? 1200 then Ok None
  else
    data ← unprotect_initial data;
    match PacketHeader.decode data with
    | (Err _, _) => Ok None
    | (Panic, _) => Panic
    | (Ok header, payload) =>
        let aad := take (length data - length payload) data in
        if negb (PacketHeader.is_long header) || negb (is_initial header) then Ok None
        else if negb (PacketHeader.version header =? PROTOCOL_VERSION) then Ok None
        else if len payload <? 16 then Ok None
        else
          let tag := drop (length payload - 16) payload in
          let payload := take (length payload - 16) payload in
          match decrypt_in_place (initial (PacketHeader.dcid header) false) (PacketHeader.packet_number header)
                  aad payload tag false with
          | Ok payload => Ok (Some (header, payload))
          | Err _ => Ok None
          | Panic => Panic
          end
    end.

(** The frames of an Initial packet the handshake looks at. *)
Record InitialFrames := mkInitialFrames {
  in_handshake : option (bytes * bytes * bytes * bytes * bytes);
  in_cookie : option bytes;
  in_parameters : option TransportParameters;
}.

(** The loop over the frames; each consumes at least one byte. *)
Fixpoint read_initial (fuel : nat) (r : InitialFrames) (s : bytes) : res InitialFrames :=
  if len s =? 0 then Ok r
  else match fuel with
  | O => Panic
  | S fuel =>
      match Frame.decode s with
      | (Ok (Frame.Handshake public_key ed_public_key transcript_hash signature alpn), s) =>
          read_initial fuel (mkInitialFrames (Some (public_key, ed_public_key, transcript_hash, signature, alpn))
                               (in_cookie r) (in_parameters r)) s
      | (Ok (Frame.Cookie c), s) => read_initial fuel (mkInitialFrames (in_handshake r) (Some c) (in_parameters r)) s
      | (Ok (Frame.TransportParameters parameters), s) =>
          p ← params_validate parameters;
          match in_parameters r with
          | Some _ => Err (InvalidPacket "duplicate transport parameters")
          | None => read_initial fuel (mkInitialFrames (in_handshake r) (in_cookie r) (Some p)) s
          end
      | (Ok _, s) => read_initial fuel r s
      | (Err _, _) => Ok r
      | (Panic, _) => Panic
      end
  end.

(** ** Retry *)

(** [send_retry]. *)
Definition send_retry (to : SocketAddr) (client_scid : bytes) (pn : Z) (cookie_bytes : bytes) : ep unit :=
  let retry_header := PacketHeader.mk PacketType.Retry true PROTOCOL_VERSION client_scid [] pn false 1 in
  buf ← lift (PacketHeader.encode retry_header []);
  send_to to (buf ++ cookie_bytes).

(** The bytes a replayed cookie is recognised by. *)
Definition cookie_hmac (cookie : bytes) : option bytes :=
  if len cookie =? 40 then Some (take 32 (drop 8 cookie)) else None.

(** The transcript the client signs. *)
Definition client_transcript (header : PacketHeader.t) (pk_bytes : bytes) (cookie : option bytes)
    (remote : TransportParameters) : bytes :=
  be_bytes 4 PROTOCOL_VERSION ++ PacketHeader.scid header ++ PacketHeader.dcid header ++ pk_bytes
    ++ default [] cookie ++ transcript_bytes remote.

(** [retain]: the cookies that are too old to be accepted again are forgotten. *)
Definition purge (current_time max_age : Z) (m : gmap bytes Z) : gmap bytes Z :=
  filter (λ '(_, timestamp), sat_sub current_time timestamp ≤ max_age) m.

(** The checks on a client that proved its address: protocol, replay, transcript, signature and
    identity. *)
Definition check_client (header : PacketHeader.t) (hs : bytes * bytes * bytes * bytes * bytes)
    (cookie : option bytes) (remote : TransportParameters) (current_time size : Z) : ep (option Authentic) :=
  let '(pk_bytes, remote_ed_pk_bytes, remote_transcript_hash, remote_sig_bytes, remote_alpn) := hs in
  expected_alpn ← gets ep_alpn;
  if negb (bool_decide (remote_alpn = expected_alpn)) then fail_with (InvalidPacket "ALPN negotiation failed")
  else
    let hmac := cookie ≫= cookie_hmac in
    purging ← ep_ask ep_coin;
    max_age ← gets (λ e, cookie_max_age_ms (ep_config e));
    act_when purging (modify (λ e, e <| replay_filter ::= purge current_time max_age |>));;
    replayed ← gets (λ e, match hmac with Some h => bool_decide (is_Some (replay_filter e !! h)) | None => false end);
    if (replayed : bool) then mret None
    else if negb (ed_valid_key remote_ed_pk_bytes) then fail_with (Crypto "Invalid Ed25519 Public Key")
    else
      let expected_hash := sha256 (client_transcript header pk_bytes cookie remote) in
      if negb (bool_decide (expected_hash = remote_transcript_hash)) then fail_with (Crypto "Invalid Transcript Hash")
      else if negb (ed_verify remote_ed_pk_bytes expected_hash remote_sig_bytes) then
        fail_with (Crypto "Invalid Handshake Signature")
      else
        verifier ← gets ep_verifier;
        if negb (verify_peer_key verifier remote_ed_pk_bytes) then fail_with Unauthorized
        else mret (Some (mkAuthentic header pk_bytes cookie remote current_time hmac size)).

(** The first part of [handle_handshake]: [None] when the packet is dropped or answered with a
    Retry packet. *)
Definition authenticate (data : bytes) (from : SocketAddr) : ep (option Authentic) :=
  opened ← lift (open_initial data);
  match opened with
  | None => mret None
  | Some (header, payload) =>
      r ← lift (read_initial (length payload) (mkInitialFrames None None None) payload);
      hs ← lift (ok_or (in_handshake r) (InvalidPacket "No handshake frame in Initial"));
      remote ← lift (ok_or (in_parameters r) (InvalidPacket "No transport parameters in Initial"));
      current_time ← millis;
      key ← gets (λ e, cookie_key e);
      max_age ← gets (λ e, cookie_max_age_ms (ep_config e));
      let is_cookie_valid :=
        match in_cookie r with
        | Some c => verify_retry_cookie key from (PacketHeader.scid header) c current_time max_age
        | None => false
        end in
      if negb is_cookie_valid then
        send_retry from (PacketHeader.scid header) (PacketHeader.packet_number header)
          (make_retry_cookie key from (PacketHeader.scid header) current_time);;
        mret None
      else check_client header hs (in_cookie r) remote current_time (len data)
  end.

(** ** The connection *)

(** [handshake_replay_filter.entry(cookie_hmac)]: whether the cookie was not used before. *)
Definition claim (hmac : option bytes) (current_time : Z) : ep bool := λ e,
  match hmac with
  | Some h =>
      match replay_filter e !! h with
      | Some _ => (Ok false, e)
      | None => (Ok true, e <| replay_filter ::= <[h := current_time]> |>)
      end
  | None => (Ok true, e)
  end.

(** A connection id that is not in use, within the given number of tries. *)
Fixpoint fresh_scid (tries : nat) : ep bytes :=
  match tries with
  | O => fail_with ConnectionIdExhausted
  | S tries =>
      scid ← random_bytes 8;
      used ← gets (λ e, bool_decide (is_Some (routing_table e !! scid)));
      if (used : bool) then fresh_scid tries else mret scid
  end.

(** The connection, and the number of the Handshake packet. *)
Definition accept_connection (config : ZtConfig) (psk : option bytes) (au : Authentic) (from : SocketAddr)
    (scid shared : bytes) (now : Z) : res (Z * ZtConnection) :=
  let header := au_header au in
  let remote := au_parameters au in
  let c := new_with_config from scid (PacketHeader.scid header) config in
  let c := c <| peer_max_streams := tp_max_streams remote |> in
  let c := c <| peer_initial_stream_window := tp_initial_stream_window remote |> in
  let c := c <| remote_window := tp_initial_max_data remote |> in
  let c := c <| peer_max_datagram_size := tp_max_datagram_size remote |> in
  let c := c <| idle_timeout := Z.min (cfg_idle_timeout config) (from_millis (tp_idle_timeout_ms remote)) |> in
  let c := c <| bytes_received := au_size au |> in
  let '(handshake_pn, c) := get_next_packet_number c in
  handshake_pn ← handshake_pn;
  let c := conn_mark_processed (PacketHeader.packet_number header) now c in
  let c := c <| state := Handshaking |> in
  Ok (handshake_pn, c <| crypto := Some (from_shared_secret shared scid (PacketHeader.scid header) psk false) |>).

(** The transcript the server signs. *)
Definition server_transcript (au : Authentic) (scid public : bytes) (local : TransportParameters) : bytes :=
  client_transcript (au_header au) (au_public_key au) (au_cookie au) (au_parameters au)
    ++ scid ++ public ++ transcript_bytes local.

(** Encryption in place and header protection, where a failure leaves the bytes as they are. *)
Definition protect_lenient (k : CryptoContext) (pn : Z) (aad payload : bytes) : res bytes :=
  buf ← match encrypt_in_place k pn aad payload with
        | Ok (ct, tag) => Ok (aad ++ ct ++ tag)
        | Err _ => Ok (aad ++ payload ++ zeros 16)
        | Panic => Panic
        end;
  offset ← PacketHeader.get_pn_offset buf;
  match offset with
  | Some offset =>
      match ctx_apply_header_protection k buf (Z.to_nat offset) with
      | Ok buf => Ok buf
      | Err _ => Ok buf
      | Panic => Panic
      end
  | None => Ok buf
  end.

(** The Handshake packet. *)
Definition handshake_bytes (e : Endpoint) (au : Authentic) (scid public : bytes) (handshake_pn : Z) : res bytes :=
  let client_scid := PacketHeader.scid (au_header au) in
  let hs_header := PacketHeader.mk PacketType.Handshake true PROTOCOL_VERSION client_scid scid handshake_pn false 1 in
  buf ← PacketHeader.encode hs_header [];
  let local := from_config (ep_config e) in
  let transcript_hash := sha256 (server_transcript au scid public local) in
  let frame := Frame.Handshake public (ep_public_key e) transcript_hash (ed_sign (ep_signing_key e) transcript_hash)
                 (ep_alpn e) in
  let payload := Frame.encode (Frame.TransportParameters local) (Frame.encode frame []) in
  protect_lenient (initial client_scid false) handshake_pn buf payload.

(** [RoutingTableGuard]: a panic takes the connection out of the routing table. *)
Definition guarded {A} (scid : bytes) (m : ep A) : ep A := λ e,
  match m e with
  | (Panic, e) => (Panic, e <| routing_table ::= delete scid |>)
  | r => r
  end.

(** The connection is offered to the application, and the client gets its answer. *)
Definition announce (au : Authentic) (from : SocketAddr) (i : nat) (scid public : bytes) (handshake_pn : Z) : ep unit :=
  room ← gets (λ e, len (accept_queue e) <? ACCEPT_CAPACITY);
  if negb room then
    kill i;;
    modify (λ e, e <| routing_table ::= delete scid |>)
  else
    modify (λ e, e <| accept_queue ::= λ l, l ++ [mkConnectionHandle scid i] |>);;
    hs_bytes ← (λ e, (handshake_bytes e au scid public handshake_pn, e)) : ep bytes;
    _ ← try_post i (ActorMessage.SetHandshakePacket hs_bytes);
    send_to from hs_bytes.

(** The actor of an accepted connection. *)
Definition server_actor (e : Endpoint) (c : ZtConnection) (scid : bytes) : Actor :=
  new_actor (ep_config e) (ep_alpn e) c (ep_public_key e) None None (ep_public_key e)
    (ep_psk e) (ep_verifier e) false scid false.

(** The key exchange, the connection and its actor. *)
Definition open_connection (au : Authentic) (from : SocketAddr) : ep unit :=
  secret ← random_bytes 32;
  let '(ephemeral_secret, ephemeral_public) := generate_keypair secret in
  let shared := compute_shared_secret ephemeral_secret (au_public_key au) in
  scid ← fresh_scid 10;
  t ← instant;
  '(handshake_pn, new_conn) ←
    (λ e, (accept_connection (ep_config e) (ep_psk e) au from scid shared t, e)) : ep (Z * ZtConnection);
  actor ← gets (λ e, server_actor e new_conn scid);
  i ← spawn scid actor;
  modify (λ e, e <| routing_table ::= <[scid := i]> |>);;
  guarded scid (announce au from i scid ephemeral_public handshake_pn).

(** The second part of [handle_handshake]. *)
Definition enroll_client (au : Authentic) (from : SocketAddr) : ep unit :=
  first ← claim (au_hmac au) (au_time au);
  if negb first then skip else open_connection au from.

(** [handle_handshake]. *)
Definition handle_handshake (data : bytes) (from : SocketAddr) : ep unit :=
  au ← authenticate data from;
  match au with
  | None => skip
  | Some au => enroll_client au from
  end.
End handshake.
