(* ===== verification/Router.v ===== *)
(** * The endpoint at work (src/src/transport/endpoint.rs, src/src/stream/connection_handle.rs)

    The router hands each datagram to the actor of its connection, or starts a handshake;
    the application opens, uses and closes connections by messages to their actors.  [serve] is
    one step of the whole endpoint: the router tasks, the handshake tasks, the actors and the
    application interleave in any order.

    Calls that wait for the actor are steps at the moment they complete; what the actor
    answers is an argument.  [Pending] stands for a call that waits for room in the channel. *)

From stdpp Require Import strings.
From S2P Require Import Prelude Errors Effects Buf Config StreamType Frames Packet HeaderProtection Unacked Cookie.
From S2P Require Import KeyDerivation CryptoContext Float Congestion Connection Termination Actor StreamHandle PacketSender.
From S2P Require Import Retransmit HandshakeHandler IncomingHandler EventLoop Endpoint ServerHandshake.

Section router.
Context `{BC : BytesCrate} `{HK : Hkdf} `{AE : Aead} `{CC : ChaCha20} `{LM : Libm} `{HM : Hmac}.
Context `{SH : Sha256} `{ED : Ed25519} `{XD : X25519} `{EE : EndpointEnv}.

(** ** Datagrams *)

(** The size of the receive buffer: longer datagrams are cut off. *)
Definition recv_buf_size (config : ZtConfig) : Z := Z.min (sat_add 64 (cfg_mtu_max config) 256) 65535.

(** The cache of the router [r]. *)
Definition on_cache (r : nat) (f : gmap bytes nat → gmap bytes nat) : ep unit :=
  modify (λ e, e <| caches ::= alter f r |>).

(** [local_routing_table]: whether the packet was handed over. *)
Definition route_cached (r : nat) (dcid data : bytes) (from : SocketAddr) : ep bool :=
  cached ← gets (λ e, caches e !! r ≫= λ m, m !! dcid);
  match cached with
  | None => mret false
  | Some i =>
      open ← is_open i;
      if negb open then on_cache r (delete dcid);; mret false
      else
        ok ← try_post i (ActorMessage.IncomingPacket data from);
        if (ok : bool) then mret true
        else on_cache r (delete dcid);; mret false
  end.

(** A packet of no connection: an Initial packet starts a handshake, if there is a permit. *)
Definition start_handshake (data : bytes) (from : SocketAddr) : ep unit :=
  let is_initial := (1200 <=? len data) && match data with b :: _ => negb (Z.land b 0x80 =? 0) | [] => false end in
  act_when is_initial
    (count ← gets (λ e, Z.of_nat (size (routing_table e)));
     if MAX_ACTIVE_CONNECTIONS <=? count then skip
     else
       free ← gets (λ e, 0 <? permits e);
       act_when free
         (modify (λ e, e <| permits ::= λ n, n - 1 |>);;
          modify (λ e, e <| attempts ::= λ l, l ++ [Arrived data from] |>))).

(** One datagram in the loop of [start_router]. *)
Definition route (r : nat) (datagram : bytes) (from : SocketAddr) : ep unit :=
  size ← gets (λ e, recv_buf_size (ep_config e));
  let data := take (Z.to_nat size) datagram in
  dcid ← lift (extract_dcid_fast data);
  match dcid with
  | None => skip
  | Some dcid =>
      routed ← route_cached r dcid data from;
      if (routed : bool) then skip
      else
        entry ← gets (λ e, routing_table e !! dcid);
        match entry with
        | Some i =>
            open ← is_open i;
            if negb open then modify (λ e, e <| routing_table ::= delete dcid |>)
            else
              on_cache r (insert dcid i);;
              _ ← try_post i (ActorMessage.IncomingPacket data from);
              skip
        | None => start_handshake data from
        end
  end.

(** ** Handshake tasks *)

(** The task ends and its permit is returned, also when it panicked. *)
Definition finish_attempt (j : nat) (e : Endpoint) : Endpoint :=
  e <| attempts ::= delete j |> <| permits ::= λ n, n + 1 |>.

(** A handshake task runs its next part. *)
Definition step_attempt (j : nat) : ep unit := λ e,
  match attempts e !! j with
  | None => (Ok tt, e)
  | Some (Arrived data from) =>
      match authenticate data from e with
      | (Ok (Some au), e) => (Ok tt, e <| attempts ::= <[j := Checked au from]> |>)
      | (_, e) => (Ok tt, finish_attempt j e)
      end
  | Some (Checked au from) => (Ok tt, finish_attempt j (enroll_client au from e).2)
  end.

(** ** Actors *)

(** The environments of the actors, by task. *)
Context (envs : nat → Env).

(** The actor of task [i] runs [m]: it continues with new timers, or ends and takes its
    connection out of the routing table.  A panic ends the task only. *)
Definition on_task (i : nat) (m : act (option Timers)) : ep unit := λ e,
  match tasks e !! i with
  | None => (Ok tt, e)
  | Some t =>
      match m (task_actor t) with
      | (Ok (Some tm), a) => (Ok tt, e <| tasks ::= <[i := t <| task_actor := a |> <| task_timers := Some tm |>]> |>)
      | (Ok None, a) =>
          (Ok tt, e <| tasks ::= <[i := t <| task_actor := a |> <| alive := false |>]> |>
                    <| routing_table ::= delete (task_scid t) |>)
      | (_, a) => (Ok tt, e <| tasks ::= <[i := t <| task_actor := a |> <| alive := false |>]> |>)
      end
  end.

(** A task starts, takes the next message from its channel, or follows another event. *)
Definition step_task (i : nat) (ev : option Event) : ep unit := λ e,
  match tasks e !! i with
  | Some t =>
      if negb (alive t) then (Ok tt, e)
      else
        match task_timers t, ev, mailbox t with
        | None, _, _ => on_task i (tm ← start (EV := envs i); mret (Some tm)) e
        | Some tm, None, m :: l =>
            on_task i ('(tm, _) ← round (EV := envs i) (Message m) tm; mret tm)
              (e <| tasks ::= <[i := t <| mailbox := l |>]> |>)
        | Some tm, None, [] => (Ok tt, e)
        | Some tm, Some (Message _), _ => (Ok tt, e)
        | Some tm, Some ev, _ => on_task i ('(tm, _) ← round (EV := envs i) ev tm; mret tm) e
        end
  | None => (Ok tt, e)
  end.

(** ** The application *)

(** [tx.send(m).await]: [Pending] until there is room, [false] when the channel is closed. *)
Definition post (i : nat) (m : ActorMessage.t) : ep (poll bool) :=
  open ← is_open i;
  if negb open then mret (Ready false)
  else
    ok ← try_post i m;
    mret (if (ok : bool) then Ready true else Pending).

(** The call looks its connection up, sends the message and waits for the answer. *)
Definition request {A} (cid : bytes) (m : ActorMessage.t) (lost : ZtError) (reply : option (res A)) : ep (poll A) :=
  entry ← gets (λ e, routing_table e !! cid);
  match entry with
  | None => fail_with ActorFailed
  | Some i =>
      ok ← post i m;
      match ok with
      | Pending => mret Pending
      | Ready false => fail_with lost
      | Ready true => x ← lift (default (Err ActorFailed) reply); mret (Ready x)
      end
  end.

Definition send_failed : ZtError := Io OtherKind "Actor send failed".

(** [get_mtu]: 1200 without an answer. *)
Definition get_mtu (cid : bytes) (reply : option Z) : ep (poll Z) :=
  entry ← gets (λ e, routing_table e !! cid);
  match entry with
  | None => mret (Ready 1200)
  | Some i =>
      ok ← post i ActorMessage.GetMtu;
      mret (match ok with
            | Pending => Pending
            | Ready false => Ready 1200
            | Ready true => Ready (default 1200 reply)
            end)
  end.

(** [send], [get_stats], [send_datagram], [open_stream_with_type] and [open_stream]. *)
Definition ep_send (cid : bytes) (stream_id : Z) (data : bytes) (reply : option (res unit)) : ep (poll unit) :=
  request cid (ActorMessage.OutgoingData stream_id data) send_failed reply.
Definition get_stats (cid : bytes) (reply : option ConnectionStats) : ep (poll ConnectionStats) :=
  request cid ActorMessage.GetStats ActorFailed (Ok <$> reply).
Definition send_datagram (cid data : bytes) (reply : option (res unit)) : ep (poll unit) :=
  request cid (ActorMessage.SendDatagram data) send_failed reply.
Definition open_stream_with_type (cid : bytes) (ty : StreamType) (reply : option (res ZtStream)) : ep (poll ZtStream) :=
  request cid (ActorMessage.OpenStream ty) ActorFailed reply.
Definition open_stream (cid : bytes) (reply : option (res ZtStream)) : ep (poll ZtStream) :=
  open_stream_with_type cid Bidirectional reply.

(** [close_stream]. *)
Definition close_stream (cid : bytes) (stream_id : Z) : ep (poll unit) :=
  entry ← gets (λ e, routing_table e !! cid);
  match entry with
  | None => mret (Ready tt)
  | Some i =>
      ok ← post i (ActorMessage.CloseStream stream_id);
      mret (match ok with Pending => Pending | Ready _ => Ready tt end)
  end.

(** [routing_table.remove(cid)], then the message to the actor it named. *)
Definition unroute (cid : bytes) : ep (option nat) := λ e,
  (Ok (routing_table e !! cid), e <| routing_table ::= delete cid |>).

(** [close]. *)
Definition ep_close (cid : bytes) : ep (poll unit) :=
  entry ← unroute cid;
  match entry with
  | None => mret (Ready tt)
  | Some i =>
      ok ← post i ActorMessage.Close;
      mret (match ok with Pending => Pending | Ready _ => Ready tt end)
  end.

(** [close_with_error]. *)
Definition ep_close_with_error (cid : bytes) (error_code : Z) (reason : bytes) : ep (poll unit) :=
  if 1024 <? len reason then fail_with (InvalidPacket "connection close reason exceeds 1024 bytes")
  else
    entry ← unroute cid;
    match entry with
    | None => mret (Ready tt)
    | Some i =>
        ok ← post i (ActorMessage.CloseWithError error_code reason);
        match ok with
        | Pending => mret Pending
        | Ready false => fail_with ActorFailed
        | Ready true => mret (Ready tt)
        end
    end.

(** [accept]. *)
Definition accept : ep (poll ConnectionHandle) := λ e,
  match accept_queue e with
  | h :: l => (Ok (Ready h), e <| accept_queue := l |>)
  | [] => (Ok Pending, e)
  end.

(** The actor of an outgoing connection. *)
Definition client_actor (e : Endpoint) (to : SocketAddr) (scid dcid secret : bytes) : Actor :=
  let conn := (new_with_config to scid dcid (ep_config e)) <| state := Handshaking |> in
  let '(ephemeral_secret, ephemeral_public) := generate_keypair secret in
  new_actor (ep_config e) (ep_alpn e) conn ephemeral_public (Some ephemeral_secret)
    (Some (ep_signing_key e)) (ed_public (ep_signing_key e)) (ep_psk e) (ep_verifier e) true scid true.

(** [connect], up to the wait for the handshake. *)
Definition connect (to : SocketAddr) : ep (bytes * nat) :=
  scid ← random_bytes 8;
  dcid ← random_bytes 8;
  secret ← random_bytes 32;
  actor ← gets (λ e, client_actor e to scid dcid secret);
  i ← spawn scid actor;
  modify (λ e, e <| routing_table ::= <[scid := i]> |>);;
  mret (scid, i).

(** The end of [connect]: the handle when the handshake was reported in time. *)
Definition connected (scid : bytes) (i : nat) (in_time : bool) : ep ConnectionHandle :=
  if in_time then mret (mkConnectionHandle scid i)
  else
    modify (λ e, e <| routing_table ::= delete scid |>);;
    fail_with Timeout.

(** ** The connection handle *)

(** [incoming_streams.recv()] and [incoming_datagrams.recv()]: what the actor put into the
    channel, and its reason for the end when the channel is closed and empty. *)
Definition handle_recv {A} (h : ConnectionHandle) (get : Actor → list A) (set : list A → Actor → Actor)
    : ep (poll (option A)) := λ e,
  match tasks e !! handle_task h with
  | None => (Ok Pending, e)
  | Some t =>
      match get (task_actor t) with
      | x :: l => (Ok (Ready (Some x)), e <| tasks ::= <[handle_task h := t <| task_actor ::= set l |>]> |>)
      | [] =>
          if alive t then (Ok Pending, e)
          else match termination_error (termination (conn (task_actor t))) with
               | Some err => (Err err, e)
               | None => (Ok (Ready None), e)
               end
      end
  end.

(** [accept_stream_result] (the identifier of the stream) and [recv_datagram_result]. *)
Definition accept_stream_result (h : ConnectionHandle) : ep (poll (option Z)) :=
  handle_recv h incoming_streams (λ l a, a <| incoming_streams := l |>).
Definition recv_datagram_result (h : ConnectionHandle) : ep (poll (option bytes)) :=
  handle_recv h datagrams (λ l a, a <| datagrams := l |>).

(** [accept_stream] and [recv_datagram]: an error is the end. *)
Definition or_end {A} (m : ep (poll (option A))) : ep (poll (option A)) :=
  r ← attempt m;
  mret (match r with Ok x => x | _ => Ready None end).
Definition accept_stream (h : ConnectionHandle) : ep (poll (option Z)) := or_end (accept_stream_result h).
Definition recv_datagram (h : ConnectionHandle) : ep (poll (option bytes)) := or_end (recv_datagram_result h).

(** The calls a handle passes to its endpoint. *)
Definition handle_open_stream (h : ConnectionHandle) (ty : StreamType) := open_stream_with_type (handle_cid h) ty.
Definition handle_close (h : ConnectionHandle) := ep_close (handle_cid h).
Definition handle_close_with_error (h : ConnectionHandle) := ep_close_with_error (handle_cid h).
Definition handle_send_datagram (h : ConnectionHandle) := send_datagram (handle_cid h).
Definition handle_stats (h : ConnectionHandle) := get_stats (handle_cid h).

(** ** The endpoint *)

(** A step of one of the tasks of the endpoint, or a call of the application: by connection id,
    or from a handle that holds the channel of the actor ([Post]). *)
Inductive Step :=
  | Datagram (r : nat) (data : bytes) (from : SocketAddr)
  | HandshakeTask (j : nat)
  | ActorTask (i : nat) (ev : option Event)
  | Request (cid : bytes) (m : ActorMessage.t)
  | Post (i : nat) (m : ActorMessage.t)
  | CloseConnection (cid : bytes) (m : ActorMessage.t)
  | Accept
  | AcceptStream (h : ConnectionHandle)
  | RecvDatagram (h : ConnectionHandle)
  | Connect (to : SocketAddr)
  | ConnectFailed (scid : bytes) (i : nat)
  | SetAlpn (alpn : bytes)
  | SetVerifier (verifier : option (bytes → bool)).

(** The messages of the application. *)
Definition is_request (m : ActorMessage.t) : bool :=
  match m with
  | ActorMessage.OutgoingData _ _ | ActorMessage.GetMtu | ActorMessage.CloseStream _ | ActorMessage.ResetStream _ _
  | ActorMessage.OpenStream _ | ActorMessage.StreamDataRead _ _ | ActorMessage.SendDatagram _ | ActorMessage.GetStats
  | ActorMessage.Close | ActorMessage.CloseWithError _ _ => true
  | ActorMessage.IncomingPacket _ _ | ActorMessage.SetHandshakePacket _ => false
  end.

Definition forget {A} (m : ep A) : ep unit := λ e, (Ok tt, (m e).2).

Definition serve (s : Step) : ep unit :=
  match s with
  | Datagram r data from => forget (route r data from)
  | HandshakeTask j => step_attempt j
  | ActorTask i ev => step_task i ev
  | Request cid m => if is_request m then forget (request (A := unit) cid m ActorFailed None) else skip
  | Post i m => if is_request m then forget (post i m) else skip
  | CloseConnection cid (ActorMessage.CloseWithError code reason) => forget (ep_close_with_error cid code reason)
  | CloseConnection cid _ => forget (ep_close cid)
  | Accept => forget accept
  | AcceptStream h => forget (accept_stream h)
  | RecvDatagram h => forget (recv_datagram h)
  | Connect to => forget (connect to)
  | ConnectFailed scid i => forget (connected scid i false)
  | SetAlpn alpn => set_alpn alpn
  | SetVerifier verifier => set_peer_key_verifier verifier
  end.

(** A run of the endpoint. *)
Definition serve_all (ss : list Step) (e : Endpoint) : Endpoint := foldl (λ e s, (serve s e).2) e ss.
End router.
