(* ===== verification/Sockets.v ===== *)
(** * The sockets of an endpoint (src/src/transport/endpoint.rs)

    [bind_with_zt_config] opens one socket per core and starts a router on each; the loop of
    a router ([start_router]) receives datagrams in batches and hands them to [route].  The system
    is an oracle: the answer to each call, and what each receive brings. *)

From stdpp Require Import strings.
From S2P Require Import Prelude Errors Effects Buf Config StreamType Frames Packet HeaderProtection Unacked Cookie.
From S2P Require Import KeyDerivation CryptoContext Float Congestion Connection Termination Actor StreamHandle PacketSender.
From S2P Require Import Retransmit HandshakeHandler IncomingHandler EventLoop Endpoint ServerHandshake Router.

(** ** Binding *)

(** The calls for socket [i], in a build for Unix; [StartRouter] is [tokio::spawn] of its router. *)
Inductive Syscall :=
  | NewSocket (i : nat) (v6 : bool)
  | SetReusePort (i : nat)
  | SetRecvBuffer (i : nat) (size : Z)
  | SetSendBuffer (i : nat) (size : Z)
  | SetNonblocking (i : nat)
  | BindSocket (i : nat) (addr : SocketAddr)
  | LocalAddr (i : nat)
  | FromStd (i : nat)
  | StartRouter (i : nat).

Class SystemEnv := {
  (** [str::parse::<SocketAddr>], with the text of its error. *)
  parse_addr : string → SocketAddr + string;
  (** The error of a call, given the calls before it. *)
  sys_error : list Syscall → Syscall → option (IoErrorKind * string);
  (** The address a bound socket reports; [None] when it is not an internet address. *)
  sys_addr : list Syscall → nat → option SocketAddr;
}.

Definition is_v6 (a : SocketAddr) : bool := match sa_ip a with V6 _ => true | V4 _ => false end.

Section binding.
Context `{ED : Ed25519} `{SE : SystemEnv}.

(** The calls so far. *)
Abbreviation sys := (stm (list Syscall)).

(** A call, with [?]. *)
Definition sys_call (c : Syscall) : sys unit := λ l,
  (match sys_error l c with None => Ok tt | Some (kind, msg) => Err (Io kind msg) end, l ++ [c]).

(** A size that is set where possible: [2 * 1024 * 1024], or else [256 * 1024]. *)
Definition set_buffer (c : Z → Syscall) : sys unit :=
  r ← attempt (sys_call (c (2 * 1024 * 1024)));
  act_when (negb (is_ok r)) (_ ← attempt (sys_call (c (256 * 1024))); skip).

(** The buffers and the address of a socket. *)
Definition set_up_socket (i : nat) (addr : SocketAddr) : sys unit :=
  set_buffer (SetRecvBuffer i);;
  set_buffer (SetSendBuffer i);;
  sys_call (SetNonblocking i);;
  sys_call (BindSocket i addr).

(** [std_socket.local_addr()?.as_socket().ok_or_else(..)?]. *)
Definition actual_addr (i : nat) : sys SocketAddr :=
  addr ← gets (λ l, sys_addr l i);
  sys_call (LocalAddr i);;
  lift (ok_or addr (Io OtherKind "Failed to resolve local socket addr")).

(** The main socket; that its port cannot be shared is not an error. *)
Definition open_main_socket (addr : SocketAddr) : sys SocketAddr :=
  sys_call (NewSocket 0 (is_v6 addr));;
  _ ← attempt (sys_call (SetReusePort 0));
  set_up_socket 0 addr;;
  actual ← actual_addr 0;
  sys_call (FromStd 0);;
  mret actual.

(** The socket of another router, bound to the same address, and its task. *)
Definition open_task_socket (v6 : bool) (actual : SocketAddr) (i : nat) : sys unit :=
  sys_call (NewSocket i v6);;
  sys_call (SetReusePort i);;
  set_up_socket i actual;;
  sys_call (FromStd i);;
  modify (λ l, l ++ [StartRouter i]).

(** [for _ in 1..cores { .. }]. *)
Fixpoint open_task_sockets (v6 : bool) (actual : SocketAddr) (l : list nat) : sys unit :=
  match l with
  | [] => skip
  | i :: l => open_task_socket v6 actual i;; open_task_sockets v6 actual l
  end.

(** [bind_with_zt_config], given the keys it draws and the number of cores. *)
Definition bind_address (addr : string) (cores : nat) (signing_key cookie_key : bytes) (config : ZtConfig)
    : sys Endpoint :=
  lift (config_validate config);;
  socket_addr ← lift (match parse_addr addr with
                      | inl a => Ok a
                      | inr e => Err (Io OtherKind ("Invalid address: " +:+ e))
                      end);
  actual ← open_main_socket socket_addr;
  let endpoint := new_endpoint cores signing_key cookie_key config in
  modify (λ l, l ++ [StartRouter 0]);;
  open_task_sockets (is_v6 socket_addr) actual (seq 1 (cores - 1));;
  mret endpoint.

(** [local_addr]. *)
Definition local_addr : sys SocketAddr :=
  addr ← gets (λ l, sys_addr l 0);
  sys_call (LocalAddr 0);;
  lift (ok_or addr (Io OtherKind "invalid argument")).
End binding.

(** The routers that were started. *)
Definition routers (l : list Syscall) : list nat := omap (λ c, match c with StartRouter i => Some i | _ => None end) l.

(** ** The loop of a router *)

(** What a call to receive brings: a datagram and its sender, or an error. *)
Abbreviation received := (bytes * SocketAddr + IoErrorKind)%type.

(** Where the loop is: how many datagrams into its batch, and whether it waits in [recv_from]
    for the first of a batch; otherwise it calls [try_recv_from]. *)
Record RouterState := mkRouterState { processed : Z; waiting : bool }.

(** A batch begins. *)
Definition new_batch : RouterState := mkRouterState 0 false.

(** The loop after a receive; [None] when the task returns. *)
Definition router_next (s : RouterState) (x : received) : option RouterState :=
  match x with
  | inl _ => Some (if processed s + 1 <? 64 then mkRouterState (processed s + 1) false else new_batch)
  | inr kind =>
      if waiting s then None
      else match kind with
      | WouldBlock => Some (if processed s =? 0 then mkRouterState 0 true else new_batch)
      | ConnectionReset => Some s
      | _ => None
      end
  end.

(** A turn of the loop, or a step of another task or of the application in between. *)
Inductive Turn := Receives (x : received) | Others (s : Step).

Section router_loop.
Context `{BC : BytesCrate} `{HK : Hkdf} `{AE : Aead} `{CC : ChaCha20} `{LM : Libm} `{HM : Hmac}.
Context `{SH : Sha256} `{ED : Ed25519} `{XD : X25519} `{EE : EndpointEnv}.
Context (envs : nat → Env).

(** [start_router] for router [r], over what its calls to receive bring: the state the loop is left in, [None]
    when the task has returned. *)
Fixpoint router_loop (r : nat) (s : RouterState) (ts : list Turn) : ep (option RouterState) :=
  match ts with
  | [] => mret (Some s)
  | Others st :: ts => serve envs st;; router_loop r s ts
  | Receives x :: ts =>
      match x with inl (data, from) => route r data from | inr _ => skip end;;
      match router_next s x with
      | Some s => router_loop r s ts
      | None => mret None
      end
  end.
End router_loop.
