(* ===== verification/ActorRun.v ===== *)
(** * Runs of the actor

    Instances of the third-party interfaces and of the environment, and actors to run. *)

From stdpp Require Import strings.
From S2P Require Import Prelude Errors Effects Buf Cookie KeyDerivation CryptoContext HeaderProtection Float Congestion.
From S2P Require Import Connection Actor PacketSender Retransmit HandshakeHandler IncomingHandler EventLoop CryptoFacts Config.

(** The bytes of the datagrams among the events. *)
Definition received_bytes (evs : list Event) : Z :=
  foldr (λ ev n, match ev with Message (ActorMessage.IncomingPacket data _) => len data | _ => 0 end + n) 0 evs.

(** ** Instances, to run the actor *)

Definition env_model : Env := {|
  clock n := Z.of_nat n * 1000000;
  socket_send _ _ _ := None;
  random_token _ := [1; 2; 3; 4; 5; 6; 7; 8];
  channel_ready _ := true;
|}.
Definition sha256_model : Sha256 := {| sha256 m := be_bytes 32 (be_val m) |}.
Definition ed25519_model : Ed25519 := {|
  ed_public key := be_bytes 32 (be_val key);
  ed_sign key m := be_bytes 64 (be_val (be_bytes 32 (be_val key) ++ m));
  ed_valid_key _ := true;
  ed_verify key m s := bool_decide (s = be_bytes 64 (be_val (key ++ m)));
|}.
Definition x25519_model : X25519 := {|
  x_public a := be_bytes 32 (be_val a);
  diffie_hellman a b := be_bytes 32 (be_val (be_bytes 32 (be_val a)) * be_val b);
|}.

Lemma be_bytes_array n v : array_ok (Z.of_nat n) (be_bytes n v).
Proof. split; [apply be_bytes_ok|apply len_be_bytes]. Qed.
Lemma sha256_model_laws : @Sha256Laws sha256_model.
Proof. split. intros. apply (be_bytes_array 32). Qed.
Lemma ed25519_model_laws : @Ed25519Laws ed25519_model.
Proof. split; intros; [apply (be_bytes_array 32)|apply (be_bytes_array 64)|done|by apply bool_decide_eq_true]. Qed.
Lemma x25519_model_laws : @X25519Laws x25519_model.
Proof. split; intros; [apply (be_bytes_array 32)|]. cbn. by rewrite Z.mul_comm. Qed.

Definition sample_addr : SocketAddr := mkSocketAddr (V4 [127; 0; 0; 1]) 4433.

(** A server that has answered an Initial packet of 1200 bytes. *)
Definition sample_server : Actor :=
  new_actor config_default [122] (let c := new_connection sample_addr [1; 1] [2; 2] in
    c <| crypto := Some (@from_shared_secret hkdf_model [9] [1; 1] [2; 2] None false) |>
      <| bytes_received := 1200 |>)
    (zeros 32) None None (zeros 32) None None false [1; 1] false.

(** A client and a server right after their handshake. *)
Definition sample_end (client : bool) : Actor :=
  let mine := if client then [2; 2] else [1; 1] in
  let theirs := if client then [1; 1] else [2; 2] in
  new_actor config_default [122] (let c := new_connection sample_addr mine theirs in
    c <| crypto := Some (@from_shared_secret hkdf_model [9] mine theirs None client) |> <| state := Active |>)
    (zeros 32) None None (zeros 32) None None false mine client.
