(* ===== verification/EndpointProps.v ===== *)
(** * What an endpoint guarantees over all its tasks

    Routers, handshakes, actors and the application interleave in any order.  Packets reach
    only the connection they name, the number of connections is bounded, and a retry cookie
    opens at most one connection. *)

From stdpp Require Import strings.
From S2P Require Import Prelude Errors Effects Buf Config StreamType Frames Packet HeaderProtection Unacked Cookie.
From S2P Require Import KeyDerivation CryptoContext Float Congestion Connection Termination Actor ActFacts StreamHandle PacketSender.
From S2P Require Import Retransmit HandshakeHandler IncomingHandler EventLoop Endpoint ServerHandshake Router.
From S2P Require Import ActorRun.

(** ** Calls of the application

    A predicate that reads only what the calls do not write is preserved by them. *)

Section api.
Context `{BC : BytesCrate} `{HK : Hkdf} `{AE : Aead} `{CC : ChaCha20} `{LM : Libm} `{HM : Hmac}.
Context `{SH : Sha256} `{ED : Ed25519} `{XD : X25519} `{EE : EndpointEnv}.
Context (envs : nat → Env).

Definition is_call (s : Step) : bool :=
  match s with Datagram _ _ _ | HandshakeTask _ | ActorTask _ _ | Connect _ => false | _ => true end.

(** What accepting a connection and the setters leave alone. *)
Definition core (e : Endpoint) :=
  (routing_table e, caches e, tasks e, attempts e, permits e, (replay_filter e, cookie_key e, ep_config e, ep_questions e)).

Context (I : Endpoint → Prop).
Context (Hcore : ∀ e e', core e' = core e → I e → I e').
Context (Hpost : ∀ i m, is_request m = true → preserves I (try_post i m)).
Context (Hdel : ∀ d, preserves I (modify (λ e, e <| routing_table ::= delete d |>))).
Context (Hrecv : ∀ A h (g : Actor → list A) set, preserves I (handle_recv h g set)).

Lemma post_preserves i m : is_request m = true → preserves I (post i m).
Proof. intros H. pose proof (Hpost i m H). unfold post, is_open. walk. Qed.

Lemma forget_preserves {A} (m : ep A) : preserves I m → preserves I (forget m).
Proof. intros H e. apply (H e). Qed.

Lemma call_preserves s : is_call s = true → preserves I (serve envs s).
Proof.
  pose proof post_preserves as Hp. pose proof Hrecv.
  destruct s as [r data from|j|i ev|cid m|i m|cid m| |h|h|to|scid i|alpn|v]; cbn [serve is_call]; try done; intros _.
  - destruct (is_request m) eqn:Hm; [|walk]. apply forget_preserves. unfold request.
    assert (∀ i, preserves I (post i m)) by (intros; by apply Hp). walk.
  - destruct (is_request m) eqn:Hm; [|walk]. apply forget_preserves. by apply Hp.
  - assert (∀ c, preserves I (unroute c)) by (intros c e; apply (Hdel c)).
    assert (∀ i, preserves I (post i ActorMessage.Close)) by (intros; by apply Hp).
    assert (∀ i c r, preserves I (post i (ActorMessage.CloseWithError c r))) by (intros; by apply Hp).
    destruct m; apply forget_preserves; unfold ep_close, ep_close_with_error; walk.
  - intros e Ie. unfold forget, accept. destruct (accept_queue e); [done|]. by apply (Hcore e).
  - apply forget_preserves. unfold accept_stream, or_end, accept_stream_result. walk.
  - apply forget_preserves. unfold recv_datagram, or_end, recv_datagram_result. walk.
  - apply forget_preserves. unfold connected. walk.
  - unfold set_alpn. walk. intros e. by apply Hcore.
  - unfold set_peer_key_verifier. walk. intros e. by apply Hcore.
Qed.
End api.

Section routing.
Context `{BC : BytesCrate} `{HK : Hkdf} `{AE : Aead} `{CC : ChaCha20} `{LM : Libm} `{HM : Hmac}.
Context `{SH : Sha256} `{ED : Ed25519} `{XD : X25519} `{EE : EndpointEnv}.
Context (envs : nat → Env).

(** ** Routing *)

(** The packets in the channel of a task name its connection. *)
Definition good_box (t : Task) : Prop :=
  ∀ data from, ActorMessage.IncomingPacket data from ∈ mailbox t → extract_dcid_fast data = Ok (Some (task_scid t)).

Definition names (e : Endpoint) (d : bytes) (i : nat) : Prop := ∃ t, tasks e !! i = Some t ∧ task_scid t = d.

(** The routing table and the caches name tasks by their connection ids. *)
Record routed (e : Endpoint) : Prop := {
  ro_table d i : routing_table e !! d = Some i → names e d i;
  ro_cache r m d i : caches e !! r = Some m → m !! d = Some i → names e d i;
  ro_box i t : tasks e !! i = Some t → good_box t;
}.

Lemma routed_set i t t' e :
  tasks e !! i = Some t → task_scid t' = task_scid t → good_box t' → routed e →
  routed (e <| tasks ::= <[i := t']> |>).
Proof.
  intros Ht Hs Hg [R C B]. set (e' := e <| tasks ::= _ |>).
  assert (tasks e' = <[i := t']> (tasks e)) as Et by done. apply lookup_lt_Some in Ht as Hlt.
  assert (∀ d j, names e d j → names e' d j) as N.
  { intros d j (t0 & Hj & <-). unfold names. rewrite Et. destruct (decide (j = i)) as [->|].
    - exists t'. rewrite list_lookup_insert_eq by done. split; [done|]. congruence.
    - exists t0. by rewrite list_lookup_insert_ne. }
  split; [intros d j H; by apply N, R|intros r m d j H1 H2; by eapply N, C|].
  intros j t0. rewrite Et. destruct (decide (j = i)) as [->|].
  - rewrite list_lookup_insert_eq by done. by intros [= <-].
  - rewrite list_lookup_insert_ne by done. apply B.
Qed.


Lemma routed_spawn scid a : preserves routed (spawn scid a).
Proof.
  intros e [R C B]. set (e' := (spawn scid a e).2).
  assert (tasks e' = tasks e ++ [mkTask scid a None [] true]) as Et by done.
  assert (∀ d j, names e d j → names e' d j) as N.
  { intros d j (t0 & Hj & <-). exists t0. rewrite Et. split; [by apply lookup_app_l_Some|done]. }
  split; [intros d j H; by apply N, R|intros r m d j H1 H2; by eapply N, C|].
  intros j t. rewrite Et. intros [H|[_ H]]%lookup_app_Some; [by eapply B|].
  apply list_lookup_singleton_Some in H as [_ <-]. intros data from H. by apply not_elem_of_nil in H.
Qed.

Lemma routed_kill i : preserves routed (kill i).
Proof.
  intros e Ro. unfold kill. destruct (tasks e !! i) as [t|] eqn:Ht; [|done].
  apply (routed_set i t); [done|done|exact (ro_box _ Ro i t Ht)|done].
Qed.

Lemma routed_post i m e :
  routed e → (∀ data from, m = ActorMessage.IncomingPacket data from →
    ∃ d, extract_dcid_fast data = Ok (Some d) ∧ names e d i) → routed (try_post i m e).2.
Proof.
  intros Ro Hm. unfold try_post. destruct (tasks e !! i) as [t|] eqn:Ht; [|done]. destruct (_ && _); [|done].
  apply (routed_set i t); [done|done| |done]. intros data from [H|H]%elem_of_app; [exact (ro_box _ Ro i t Ht data from H)|].
  apply list_elem_of_singleton in H. destruct (Hm data from (eq_sym H)) as (d & -> & t' & Ht' & <-).
  rewrite Ht in Ht'. by injection Ht' as <-.
Qed.

(** Changes elsewhere. *)
Lemma routed_same e e' :
  routing_table e' = routing_table e → caches e' = caches e → tasks e' = tasks e → routed e → routed e'.
Proof. intros E1 E2 E3 [R C B]. split; unfold names; rewrite ?E1, ?E2, ?E3; done. Qed.
Lemma routed_ask {A} (f : nat → A) : preserves routed (ep_ask f).
Proof. intros e. by apply routed_same. Qed.
Lemma routed_send_to to data : preserves routed (send_to to data).
Proof. unfold send_to. pose proof (@routed_ask). walk. intros e. by apply routed_same. Qed.
Lemma routed_unroute d : preserves routed (modify (λ e, e <| routing_table ::= delete d |>)).
Proof.
  intros e [R C B]. split; [|done..]. intros d' i. change (delete d (routing_table e) !! d' = Some i → names e d' i).
  intros [_ H]%lookup_delete_Some. by apply R.
Qed.
Lemma routed_uncache r d : preserves routed (on_cache r (delete d)).
Proof.
  intros e [R C B]. split; [done| |done]. intros r' m d' i. change (alter (delete d) r (caches e) !! r' = Some m → m !! d' = Some i → names e d' i).
  destruct (decide (r' = r)) as [->|]; [|rewrite list_lookup_alter_ne by done; apply C].
  rewrite list_lookup_alter_eq, fmap_Some. intros (m0 & H & ->) [_ H2]%lookup_delete_Some. by eapply C.
Qed.
Lemma routed_cache r d i e : names e d i → routed e → routed (on_cache r (insert d i) e).2.
Proof.
  intros N [R C B]. split; [done| |done]. intros r' m d' j.
  change (alter (insert d i) r (caches e) !! r' = Some m → m !! d' = Some j → names e d' j).
  destruct (decide (r' = r)) as [->|]; [|rewrite list_lookup_alter_ne by done; apply C].
  rewrite list_lookup_alter_eq, fmap_Some. intros (m0 & H & ->) [[-> ->]|[_ H2]]%lookup_insert_Some; [done|by eapply C].
Qed.
Lemma routed_add scid i e : names e scid i → routed e → routed (e <| routing_table ::= <[scid := i]> |>).
Proof.
  intros N [R C B]. split; [|done..]. intros d j. change (<[scid := i]> (routing_table e) !! d = Some j → names e d j).
  intros [[-> ->]|[_ H]]%lookup_insert_Some; [done|by apply R].
Qed.
#[local] Hint Resolve routed_spawn routed_kill routed_ask routed_send_to routed_unroute routed_uncache : preserves.

(** *** The operations *)

Lemma routed_try_post i m : (∀ data from, m ≠ ActorMessage.IncomingPacket data from) → preserves routed (try_post i m).
Proof. intros H e Ro. apply routed_post; [done|]. intros data from ->. by destruct (H data from). Qed.

Lemma routed_route_cached r d data from e :
  extract_dcid_fast data = Ok (Some d) → routed e → routed (route_cached r d data from e).2.
Proof.
  intros Hd Ro. unfold route_cached. erewrite act_bind_ok by reflexivity. cbv beta.
  destruct (caches e !! r ≫= λ m, m !! d) as [i|] eqn:Hi; [|done].
  apply bind_Some in Hi as (m & Hm & Hi). pose proof (ro_cache _ Ro r m d i Hm Hi) as N.
  erewrite act_bind_ok by reflexivity. cbv beta. destruct (negb _).
  { pose proof (routed_uncache r d). assert (preserves routed (on_cache r (delete d);; mret false)) as P by walk. by apply P. }
  apply (leads_bind_post (eq e)); [intros ? <-|intros []; walk|done]. apply routed_post; [done|].
  intros data' from' [= <- <-]. by exists d.
Qed.

Lemma routed_route r data from : preserves routed (route r data from).
Proof.
  intros e Ro. unfold route. erewrite act_bind_ok by reflexivity. cbv beta. set (d := take _ _). clearbody d.
  destruct (extract_dcid_fast d) as [[dcid|]| |] eqn:Hd; [|done..]. erewrite act_bind_ok by reflexivity. cbv beta iota.
  apply (leads_bind_post (eq e)); [intros ? <-; by apply routed_route_cached| |done].
  intros routed0. destruct routed0; [walk|]. apply preserves_gets_bind. intros e1 Ro1.
  destruct (routing_table e1 !! dcid) as [i|] eqn:Hi.
  - erewrite act_bind_ok by reflexivity. cbv beta. destruct (negb _); [by apply routed_unroute|].
    pose proof (ro_table _ Ro1 _ _ Hi) as N. erewrite act_bind_ok by reflexivity.
    set (e2 := e1 <| caches ::= _ |>). assert (routed e2) as Ro2 by by apply (routed_cache r dcid i e1).
    apply (leads_bind_post (eq e2)); [intros ? <-|intros ?; walk|done]. apply routed_post; [done|].
    intros d' f' [= <- <-]. exists dcid. done.
  - unfold start_handshake. match goal with |- routed (?m e1).2 => assert (preserves routed m) as P; [walk; intros e2; by apply routed_same|by apply P] end.
Qed.

Lemma routed_authenticate data from : preserves routed (authenticate data from).
Proof.
  unfold authenticate, millis, send_retry, check_client. walk; intros e; by apply routed_same.
Qed.

Lemma routed_fresh_scid n : preserves routed (fresh_scid n).
Proof. induction n as [|n IH]; cbn [fresh_scid]; unfold random_bytes; walk. Qed.

Lemma routed_claim h t : preserves routed (claim h t).
Proof. intros e Ro. unfold claim. destruct h as [h|]; [|done]. destruct (_ !! _); [done|]. by apply (routed_same e). Qed.
#[local] Hint Resolve routed_authenticate routed_fresh_scid routed_claim : preserves.

Lemma routed_state {A} (f : Endpoint → res A) : preserves routed (λ e, (f e, e)).
Proof. by intros e. Qed.
#[local] Hint Resolve routed_state : preserves.

Lemma routed_announce au from i scid pk pn : preserves routed (announce au from i scid pk pn).
Proof.
  assert (∀ hs, preserves routed (try_post i (ActorMessage.SetHandshakePacket hs))) by (intros; by apply routed_try_post).
  unfold announce. walk. intros e. by apply routed_same.
Qed.

Lemma routed_guarded {A} scid (m : ep A) : preserves routed m → preserves routed (guarded scid m).
Proof.
  intros H e Ro. unfold guarded. specialize (H e Ro). destruct (m e) as [[]e']; [done..|]. by apply routed_unroute.
Qed.

(** A new task enters the routing table. *)
Lemma routed_register {A} scid a (k : nat → ep A) :
  (∀ i, preserves routed (k i)) →
  preserves routed (i ← spawn scid a; modify (λ e, e <| routing_table ::= <[scid := i]> |>);; k i).
Proof.
  intros Hk e Ro. do 2 erewrite act_bind_ok by reflexivity. apply Hk. apply routed_add; [|by apply (routed_spawn scid a)].
  exists (mkTask scid a None [] true). split; [|done]. by apply list_lookup_middle.
Qed.

Ltac walk_register :=
  repeat match goal with
  | |- preserves _ (mbind _ (spawn _ _)) => apply routed_register; intros ?
  | _ => walk_step
  end.

Lemma routed_enroll au from : preserves routed (enroll_client au from).
Proof.
  unfold enroll_client, open_connection, random_bytes, instant. walk_register.
  apply routed_guarded, routed_announce.
Qed.
#[local] Hint Resolve routed_enroll : preserves.

Lemma routed_step_attempt j : preserves routed (step_attempt j).
Proof.
  intros e Ro. unfold step_attempt. destruct (attempts e !! j) as [[data from|au from]|]; [| |done].
  - pose proof (routed_authenticate data from e Ro) as Ro1. destruct (authenticate data from e) as [[[au|]| |] e1];
      by apply (routed_same e1).
  - by apply (routed_same (enroll_client au from e).2), (routed_enroll au from).
Qed.

Lemma routed_on_task i m : preserves routed (on_task i m).
Proof.
  intros e Ro. unfold on_task. destruct (tasks e !! i) as [t|] eqn:Ht; [|done].
  pose proof (ro_box _ Ro i t Ht) as B.
  destruct (m (task_actor t)) as [[[tm|]| |] a]; [|apply (routed_unroute (task_scid t))|..];
    by apply (routed_set i t).
Qed.

Lemma routed_step_task i ev : preserves routed (step_task envs i ev).
Proof.
  intros e Ro. unfold step_task. destruct (tasks e !! i) as [t|] eqn:Ht; [|done]. destruct (negb _); [done|].
  destruct (task_timers t) as [tm|]; [|by apply routed_on_task].
  destruct ev as [[]|]; [done|by apply routed_on_task..|].
  destruct (mailbox t) as [|m l] eqn:Hl; [done|]. apply routed_on_task, (routed_set i t); [done|done| |done].
  intros data from H. apply (ro_box _ Ro i t Ht data from). rewrite Hl. by right.
Qed.

Lemma routed_handle_recv {A} h (g : Actor → list A) set : preserves routed (handle_recv h g set).
Proof.
  intros e Ro. unfold handle_recv. destruct (tasks e !! handle_task h) as [t|] eqn:Ht; [|done].
  destruct (g (task_actor t)); [destruct (alive t); [done|by destruct (termination_error _)]|].
  apply (routed_set (handle_task h) t); [done|done|exact (ro_box _ Ro _ t Ht)|done].
Qed.

Lemma routed_connect to : preserves routed (connect to).
Proof. unfold connect, random_bytes, generate_keypair. walk_register. Qed.

Lemma routed_serve s : preserves routed (serve envs s).
Proof.
  destruct (is_call s) eqn:Hs.
  - apply call_preserves; [|intros i m Hm; apply routed_try_post; by intros ?? ->|apply routed_unroute|apply @routed_handle_recv|done].
    intros e e' [= E1 E2 E3 _ _ _ _ _ _]. by apply routed_same.
  - destruct s; try done; cbn [serve].
    + apply forget_preserves, routed_route.
    + apply routed_step_attempt.
    + apply routed_step_task.
    + apply forget_preserves, routed_connect.
Qed.

Lemma routed_serve_all ss e : routed e → routed (serve_all envs ss e).
Proof. revert e. induction ss as [|s ss IH]; intros e Ro; [done|]. apply IH. by apply (routed_serve s). Qed.
End routing.

(** ** The number of connections *)

Section limit.
Context `{BC : BytesCrate} `{HK : Hkdf} `{AE : Aead} `{CC : ChaCha20} `{LM : Libm} `{HM : Hmac}.
Context `{SH : Sha256} `{ED : Ed25519} `{XD : X25519} `{EE : EndpointEnv}.
Context (envs : nat → Env).

Section fits.
Context (A : list Attempt) (P : Z).

(** The handshakes under way are [A], [P] permits are free, and there are at most [k] connections. *)
Definition fits (k : Z) (e : Endpoint) : Prop :=
  attempts e = A ∧ permits e = P ∧ Z.of_nat (size (routing_table e)) ≤ k.

Lemma fits_same k e e' :
  attempts e' = attempts e → permits e' = permits e → routing_table e' = routing_table e → fits k e → fits k e'.
Proof. unfold fits. by intros -> -> ->. Qed.
Lemma fits_delete k d : preserves (fits k) (modify (λ e, e <| routing_table ::= delete d |>)).
Proof.
  intros e (HA & HP & HS). split_and!; [done|done|]. change (Z.of_nat (size (delete d (routing_table e))) ≤ k).
  etrans; [|exact HS]. apply inj_le, map_subseteq_size, delete_subseteq.
Qed.
Lemma fits_insert k d i : leads (fits k) (fits (k + 1)) (modify (λ e, e <| routing_table ::= <[d := i]> |>)).
Proof.
  intros e (HA & HP & HS). split_and!; [done|done|]. change (Z.of_nat (size (<[d := i]> (routing_table e))) ≤ k + 1).
  rewrite map_size_insert. destruct (_ !! _); unfold Datatypes.id; lia.
Qed.
Lemma fits_ask {B} k (f : nat → B) : preserves (fits k) (ep_ask f).
Proof. intros e. by apply fits_same. Qed.
Lemma fits_try_post k i m : preserves (fits k) (try_post i m).
Proof. intros e F. unfold try_post. destruct (tasks e !! i); [|done]. destruct (_ && _); by apply (fits_same k e). Qed.
Lemma fits_spawn k scid a : preserves (fits k) (spawn scid a).
Proof. intros e. by apply fits_same. Qed.
Lemma fits_kill k i : preserves (fits k) (kill i).
Proof. intros e F. unfold kill. destruct (tasks e !! i); by apply (fits_same k e). Qed.
Lemma fits_on_task k i m : preserves (fits k) (on_task i m).
Proof.
  intros e F. unfold on_task. destruct (tasks e !! i) as [t|]; [|done].
  destruct (m (task_actor t)) as [[[tm|]| |] a]; [|apply (fits_delete k (task_scid t))|..]; by apply (fits_same k e).
Qed.
Lemma fits_state {B} k (f : Endpoint → res B) : preserves (fits k) (λ e, (f e, e)).
Proof. by intros e. Qed.
#[local] Hint Resolve fits_delete fits_ask fits_try_post fits_spawn fits_kill fits_on_task fits_state : preserves.

Lemma fits_send_to k to data : preserves (fits k) (send_to to data).
Proof. unfold send_to. walk. intros e. by apply fits_same. Qed.
Lemma fits_fresh_scid k n : preserves (fits k) (fresh_scid n).
Proof. induction n as [|n IH]; cbn [fresh_scid]; unfold random_bytes; walk. Qed.
Lemma fits_claim k h t : preserves (fits k) (claim h t).
Proof. intros e F. unfold claim. destruct h as [h|]; [|done]. destruct (_ !! _); [done|]. by apply (fits_same k e). Qed.
#[local] Hint Resolve fits_send_to fits_fresh_scid fits_claim : preserves.

Lemma fits_authenticate k data from : preserves (fits k) (authenticate data from).
Proof. unfold authenticate, millis, send_retry, check_client. walk; intros e; by apply fits_same. Qed.

Lemma fits_announce k au from i scid pk pn : preserves (fits k) (announce au from i scid pk pn).
Proof. unfold announce. walk. intros e. by apply fits_same. Qed.

Lemma fits_mono k k' e : k ≤ k' → fits k e → fits k' e.
Proof. intros H (? & ? & ?). split_and!; [done|done|lia]. Qed.

(** A new task enters the routing table. *)
Lemma fits_register {B} k scid a (K : nat → ep B) :
  (∀ i, preserves (fits (k + 1)) (K i)) →
  leads (fits k) (fits (k + 1)) (i ← spawn scid a; modify (λ e, e <| routing_table ::= <[scid := i]> |>);; K i).
Proof.
  intros Hk e F. do 2 erewrite act_bind_ok by reflexivity. apply Hk. apply (fits_insert k scid). by apply (fits_spawn k scid a).
Qed.

Lemma fits_enroll k au from : leads (fits k) (fits (k + 1)) (enroll_client au from).
Proof.
  assert (∀ e, fits k e → fits (k + 1) e) as M by (intros e; apply fits_mono; lia).
  unfold enroll_client, open_connection, random_bytes, instant, generate_keypair. apply leads_bind_pre; [done|walk|intros first].
  destruct (negb first); [apply leads_preserves; [done|walk]|].
  apply leads_bind_pre; [done|walk|intros secret]. apply leads_bind_pre; [done|walk|intros scid].
  apply leads_bind_pre; [done|walk|intros t]. apply leads_bind_pre; [done|walk|intros [pn c]].
  apply leads_bind_pre; [done|walk|intros a]. apply fits_register. intros i.
  intros e F. unfold guarded. pose proof (fits_announce (k + 1) au from i scid (x_public secret) pn e F) as F1.
  destruct (announce au from i scid (x_public secret) pn e) as [[]e']; [done..|]. by apply (fits_delete (k + 1)).
Qed.
End fits.
#[local] Hint Resolve fits_delete fits_ask fits_try_post fits_spawn fits_kill fits_on_task fits_state fits_send_to : preserves.

(** The connections an endpoint can come to serve: those below the limit, and one for each handshake
    that was started below it. *)
Definition MOST_CONNECTIONS : Z := MAX_ACTIVE_CONNECTIONS - 1 + HANDSHAKE_PERMITS.

Definition limited (n : Z) (e : Endpoint) : Prop :=
  permits e = HANDSHAKE_PERMITS - len (attempts e) ∧ 0 ≤ permits e
  ∧ Z.of_nat (size (routing_table e)) + len (attempts e) ≤ MOST_CONNECTIONS + n.

Lemma limited_grow {B} n c (m : ep B) :
  (∀ A P k, leads (fits A P k) (fits A P (k + c)) m) → leads (limited n) (limited (n + c)) m.
Proof.
  intros H e (H1 & H2 & H3).
  destruct (H (attempts e) (permits e) (MOST_CONNECTIONS + n - len (attempts e)) e) as (E1 & E2 & E3).
  { split_and!; [done|done|lia]. }
  unfold limited. rewrite E1, E2. split_and!; [done|done|lia].
Qed.
Lemma limited_keep {B} n (m : ep B) : (∀ A P k, preserves (fits A P k) m) → preserves (limited n) m.
Proof.
  intros H e L. pose proof (limited_grow n 0 m) as G. rewrite Z.add_0_r in G. apply G; [|done].
  intros A P k. rewrite Z.add_0_r. apply H.
Qed.

Lemma limited_start_handshake n data from : 0 ≤ n → preserves (limited n) (start_handshake data from).
Proof.
  intros Hn e (H1 & H2 & H3). unfold start_handshake, act_when. destruct (_ && _); [|done].
  erewrite act_bind_ok by reflexivity. cbv beta.
  destruct (Z.leb_spec MAX_ACTIVE_CONNECTIONS (Z.of_nat (size (routing_table e)))); [done|].
  erewrite act_bind_ok by reflexivity. cbv beta. destruct (Z.ltb_spec 0 (permits e)); [|done].
  erewrite act_bind_ok by reflexivity.
  change (permits e - 1 = HANDSHAKE_PERMITS - len (attempts e ++ [Arrived data from]) ∧ 0 ≤ permits e - 1
    ∧ Z.of_nat (size (routing_table e)) + len (attempts e ++ [Arrived data from]) ≤ MOST_CONNECTIONS + n).
  rewrite len_app. change (len [Arrived data from]) with 1.
  unfold MOST_CONNECTIONS, HANDSHAKE_PERMITS, MAX_ACTIVE_CONNECTIONS in *. lia.
Qed.

Lemma limited_route n r data from : 0 ≤ n → preserves (limited n) (route r data from).
Proof.
  intros Hn. pose proof (limited_start_handshake n). unfold route.
  apply preserves_bind; [walk|intros size]. apply preserves_bind; [walk|intros [dcid|]]; [|walk].
  apply preserves_bind; [|intros []; [walk|]].
  { apply limited_keep. intros A P k. unfold route_cached, is_open, on_cache. walk; intros e; by apply fits_same. }
  apply preserves_bind; [walk|intros [i|]]; [|by walk].
  apply limited_keep. intros A P k. unfold is_open, on_cache. walk; intros e; by apply fits_same.
Qed.

Lemma limited_finish n j x e : attempts e !! j = Some x → limited (n + 1) e → limited n (finish_attempt j e).
Proof.
  intros Hj (H1 & H2 & H3). pose proof (length_delete _ _ (mk_is_Some _ _ Hj)) as Hl. apply lookup_lt_Some in Hj.
  change (permits e + 1 = HANDSHAKE_PERMITS - len (delete j (attempts e)) ∧ 0 ≤ permits e + 1
    ∧ Z.of_nat (size (routing_table e)) + len (delete j (attempts e)) ≤ MOST_CONNECTIONS + n).
  unfold len in *. lia.
Qed.

Lemma limited_step_attempt n j : preserves (limited n) (step_attempt j).
Proof.
  intros e L. unfold step_attempt. destruct (attempts e !! j) as [[data from|au from]|] eqn:Hj; [| |done].
  - pose proof (fits_authenticate (attempts e) (permits e) (Z.of_nat (size (routing_table e))) data from e) as F.
    destruct L as (H1 & H2 & H3). destruct (authenticate data from e) as [r e1]. destruct F as (E1 & E2 & E3); [done|]. cbn in E1, E2, E3.
    assert (limited n e1) as L1 by (unfold limited; rewrite E1, E2; split_and!; [done|done|lia]).
    assert (limited n (finish_attempt j e1)) as L2.
    { apply (limited_finish n j (Arrived data from)); [by rewrite E1|]. destruct L1 as (? & ? & ?). split_and!; [done|done|lia]. }
    destruct r as [[au|]| |]; [|done..]. destruct L1 as (G1 & G2 & G3).
    change (permits e1 = HANDSHAKE_PERMITS - len (<[j := Checked au from]> (attempts e1)) ∧ 0 ≤ permits e1
      ∧ Z.of_nat (size (routing_table e1)) + len (<[j := Checked au from]> (attempts e1)) ≤ MOST_CONNECTIONS + n).
    unfold len in *. by rewrite length_insert.
  - destruct L as (H1 & H2 & H3).
    destruct (fits_enroll (attempts e) (permits e) (Z.of_nat (size (routing_table e))) au from e) as (E1 & E2 & E3); [done|].
    apply (limited_finish n j (Checked au from)); [by rewrite E1|]. unfold limited. rewrite E1, E2. split_and!; [done|done|lia].
Qed.

(** The connections the application opens itself. *)
Definition connects (s : Step) : Z := match s with Connect _ => 1 | _ => 0 end.

Lemma fits_step_task A P k i ev : preserves (fits A P k) (step_task envs i ev).
Proof.
  intros e F. unfold step_task. destruct (tasks e !! i) as [t|]; [|done]. destruct (negb _); [done|].
  destruct (task_timers t) as [tm|]; [|by apply fits_on_task].
  destruct ev as [[]|]; [done|by apply fits_on_task..|].
  destruct (mailbox t); [done|]. apply fits_on_task. by apply (fits_same _ _ k e).
Qed.

Lemma fits_connect A P k to : leads (fits A P k) (fits A P (k + 1)) (connect to).
Proof.
  assert (∀ e, fits A P k e → fits A P (k + 1) e) as M by (intros e; apply fits_mono; lia).
  unfold connect, random_bytes, generate_keypair.
  do 4 (apply leads_bind_pre; [done|walk|intros ?]). apply fits_register. intros i. walk.
Qed.

Lemma fits_handle_recv A P k {B} h (g : Actor → list B) set : preserves (fits A P k) (handle_recv h g set).
Proof.
  intros e F. unfold handle_recv. destruct (tasks e !! handle_task h) as [t|] eqn:Ht; [|done].
  destruct (g (task_actor t)); [destruct (alive t); [done|by destruct (termination_error _)]|]. by apply (fits_same _ _ k e).
Qed.

Lemma limited_serve n s : 0 ≤ n → leads (limited n) (limited (n + connects s)) (serve envs s).
Proof.
  intros Hn. destruct (is_call s) eqn:Hs.
  - replace (n + connects s) with n by (destruct s; cbn; lia || done). apply limited_keep. intros A P k.
    apply call_preserves; [|intros; apply fits_try_post|apply fits_delete|intros; apply fits_handle_recv|done].
    intros e e' [= E1 _ _ E2 E3 _ _ _ _]. by apply fits_same.
  - destruct s; try done; cbn [serve connects]; rewrite ?Z.add_0_r.
    + intros e. by apply (limited_route n).
    + apply limited_step_attempt.
    + apply limited_keep. intros. apply fits_step_task.
    + apply limited_grow. intros A P k e. apply (fits_connect A P k to).
Qed.

Lemma limited_serve_all n ss e :
  0 ≤ n → limited n e → limited (n + foldr (λ s k, connects s + k) 0 ss) (serve_all envs ss e).
Proof.
  revert n e. induction ss as [|s ss IH]; intros n e Hn L; cbn [foldr]; [by rewrite Z.add_0_r|].
  rewrite Z.add_assoc. apply IH; [destruct s; cbn; lia|]. by apply (limited_serve n s).
Qed.
End limit.

(** ** The theorems *)

Definition endpoint_env_model : EndpointEnv := {|
  ep_random q n := be_bytes n (Z.of_nat q + 1);
  ep_coin _ := false;
  ep_clock q := Z.of_nat q * 1000000;
  ep_socket _ _ _ := None;
|}.

(** An endpoint that was just bound. *)
Definition sample_endpoint : Endpoint :=
  default (mkEndpoint config_default [] [] [] None [] None ∅ ∅ [] 0 [] [] [] [] 0)
    (match @bind_with_zt_config ed25519_model 2 [7] [9] config_default with Ok e => Some e | _ => None end).

Lemma sample_endpoint_bound : @bind_with_zt_config ed25519_model 2 [7] [9] config_default = Ok sample_endpoint.
Proof. reflexivity. Qed.

(** C17: A packet reaches only the connection it names.  However the routers, handshakes, actors and
    calls of the application interleave after an endpoint was bound, every packet in the channel of an
    actor carries the connection id of that actor: neither the routing table nor the
    routers' caches ever lead to another connection. *)
Theorem packets_reach_their_connection `{BC : BytesCrate} `{HK : Hkdf} `{AE : Aead} `{CC : ChaCha20} `{LM : Libm}
    `{HM : Hmac} `{SH : Sha256} `{ED : Ed25519} `{XD : X25519} `{EE : EndpointEnv} (envs : nat → Env)
    (cores : nat) (sk ck : bytes) (cfg : ZtConfig) (e : Endpoint) (ss : list Step) (i : nat) (t : Task)
    (data : bytes) (from : SocketAddr) :
  bind_with_zt_config cores sk ck cfg = Ok e →
  tasks (serve_all envs ss e) !! i = Some t → ActorMessage.IncomingPacket data from ∈ mailbox t →
  extract_dcid_fast data = Ok (Some (task_scid t)).
Proof.
  intros Hb Ht Hm. eapply (ro_box (serve_all envs ss e)); [|done..]. apply routed_serve_all.
  unfold bind_with_zt_config in Hb. destruct (config_validate cfg); [|done..]. injection Hb as <-.
  split; cbn; [intros d j; by rewrite lookup_empty| |done].
  intros r m d j [-> _]%lookup_replicate. by rewrite lookup_empty.
Qed.

(** C19: The number of connections.  Over any run of an endpoint, at most 256 handshakes are under way, and the routing table
    has at most 1255 entries more than the application opened connections itself: the limit of
    1000 is checked when a handshake starts, and each of the 256 that may have started below
    it can still add a connection. *)
Theorem connection_limit `{BC : BytesCrate} `{HK : Hkdf} `{AE : Aead} `{CC : ChaCha20} `{LM : Libm}
    `{HM : Hmac} `{SH : Sha256} `{ED : Ed25519} `{XD : X25519} `{EE : EndpointEnv} (envs : nat → Env)
    (cores : nat) (sk ck : bytes) (cfg : ZtConfig) (e : Endpoint) (ss : list Step) :
  bind_with_zt_config cores sk ck cfg = Ok e →
  let e' := serve_all envs ss e in
  len (attempts e') ≤ 256
  ∧ Z.of_nat (size (routing_table e')) ≤ 1255 + Z.of_nat (length (filter (λ s, connects s = 1) ss)).
Proof.
  intros Hb e'. assert (limited 0 e) as L.
  { unfold bind_with_zt_config in Hb. destruct (config_validate cfg); [|done..]. by injection Hb as <-. }
  apply (limited_serve_all envs 0 ss) in L as (H1 & H2 & H3); [|done]. fold e' in H1, H2, H3.
  assert (foldr (λ s k, connects s + k) 0 ss = Z.of_nat (length (filter (λ s, connects s = 1) ss))) as <-.
  { clear. induction ss as [|s ss IH]; [done|]. cbn [foldr]. rewrite filter_cons, IH. case_decide; destruct s; cbn [connects length] in *; lia. }
  pose proof (len_nonneg (attempts e')). unfold MOST_CONNECTIONS, HANDSHAKE_PERMITS, MAX_ACTIVE_CONNECTIONS in *. lia.
Qed.

(** A client's endpoint that received a packet of its connection. *)
Definition sample_steps : list Step :=
  [Connect sample_addr; Datagram 1 (0 :: 8 :: be_bytes 8 1 ++ [5; 6; 7]) sample_addr].

Lemma packets_reach_their_connection_witness :
  let e := @serve_all bytes_model CryptoFacts.hkdf_model CryptoFacts.aead_model chacha20_model libm_model hmac_model
    sha256_model ed25519_model x25519_model endpoint_env_model (λ _, env_model) sample_steps sample_endpoint in
  ∃ t, tasks e !! 0%nat = Some t ∧ extract_dcid_fast (0 :: 8 :: be_bytes 8 1 ++ [5; 6; 7]) = Ok (Some (task_scid t)).
Proof.
  intros e. destruct (tasks e !! 0%nat) as [t|] eqn:Ht; [|exfalso; revert Ht; by vm_compute].
  exists t. split; [done|].
  apply (@packets_reach_their_connection bytes_model CryptoFacts.hkdf_model CryptoFacts.aead_model chacha20_model libm_model hmac_model
    sha256_model ed25519_model x25519_model endpoint_env_model (λ _, env_model) 2 [7] [9] config_default sample_endpoint
    sample_steps 0 t _ sample_addr); [reflexivity|done|].
  assert (mailbox <$> tasks e !! 0%nat = Some [ActorMessage.IncomingPacket (0 :: 8 :: be_bytes 8 1 ++ [5; 6; 7]) sample_addr]) as H
    by (vm_compute; reflexivity).
  rewrite Ht in H. injection H as Hm.
  exact (eq_ind_r (λ l, ActorMessage.IncomingPacket _ sample_addr ∈ l) (list_elem_of_here _ _) Hm).
Defined.

Lemma connection_limit_witness :
  let e := @serve_all bytes_model CryptoFacts.hkdf_model CryptoFacts.aead_model chacha20_model libm_model hmac_model
    sha256_model ed25519_model x25519_model endpoint_env_model (λ _, env_model) sample_steps sample_endpoint in
  Z.of_nat (size (routing_table e)) ≤ 1255 + 1.
Proof.
  apply (@connection_limit bytes_model CryptoFacts.hkdf_model CryptoFacts.aead_model chacha20_model libm_model hmac_model
    sha256_model ed25519_model x25519_model endpoint_env_model (λ _, env_model) 2 [7] [9] config_default sample_endpoint
    sample_steps). reflexivity.
Defined.
