(* ===== verification/RetryOnce.v ===== *)
(** * A retry cookie opens at most one connection

    The server remembers the MACs of the cookies it has used, and forgets them when no cookie of that age
    is accepted any more.  Handshakes run in parallel, so that two of them may check the same
    cookie before either claims it; the claim decides. *)

From stdpp Require Import strings.
From S2P Require Import Prelude Errors Effects Buf Config StreamType Frames Packet HeaderProtection Unacked Cookie.
From S2P Require Import KeyDerivation CryptoContext Float Congestion Connection Termination Actor ActFacts StreamHandle PacketSender.
From S2P Require Import Retransmit HandshakeHandler IncomingHandler EventLoop Endpoint ServerHandshake Router.
From S2P Require Import ActorRun EndpointProps.

(** The cookie a step claims, when it gets past the claim. *)
Definition claimed (s : Step) (e : Endpoint) : list bytes :=
  match s with
  | HandshakeTask j =>
      match attempts e !! j with
      | Some (Checked au _) =>
          match au_hmac au ≫= λ h, replay_filter e !! h with
          | None => [default [] (au_cookie au)]
          | Some _ => []
          end
      | _ => []
      end
  | _ => []
  end.

Section once.
Context `{BC : BytesCrate} `{HK : Hkdf} `{AE : Aead} `{CC : ChaCha20} `{LM : Libm} `{HM : Hmac}.
Context `{SH : Sha256} `{ED : Ed25519} `{XD : X25519} `{EE : EndpointEnv}.
Context (envs : nat → Env).

(** The claims of a run. *)
Fixpoint claims (ss : list Step) (e : Endpoint) : list bytes :=
  match ss with [] => [] | s :: ss => claimed s e ++ claims ss (serve envs s e).2 end.

(** The time of the next look at the clock. *)
Definition now_ms (e : Endpoint) : Z := current_time_millis (ep_clock (ep_questions e)).

(** A handshake that claims its cookie does so within half the life of a cookie after it was checked. *)
Definition prompt (s : Step) (e : Endpoint) : Prop :=
  match s with
  | HandshakeTask j =>
      match attempts e !! j with
      | Some (Checked au _) => 2 * (now_ms e - au_time au) ≤ cookie_max_age_ms (ep_config e)
      | _ => True
      end
  | _ => True
  end.
Fixpoint all_prompt (ss : list Step) (e : Endpoint) : Prop :=
  match ss with [] => True | s :: ss => prompt s e ∧ all_prompt ss (serve envs s e).2 end.

Context (Hmono : ∀ q, ep_clock q ≤ ep_clock (S q)) (Hfirst : 0 ≤ ep_clock 0).
Context (Hclock : ∀ q, as_millis (ep_clock q) < 2 ^ 64).
Context (max_age : Z) (Hage : 0 ≤ max_age).

Lemma clock_mono q q' : (q ≤ q')%nat → ep_clock q ≤ ep_clock q'.
Proof. induction 1 as [|q' _ IH]; [done|]. etrans; [exact IH|apply Hmono]. Qed.

Lemma millis_at q : current_time_millis (ep_clock q) = as_millis (ep_clock q) ∧ 0 ≤ as_millis (ep_clock q).
Proof.
  pose proof (Hclock q). pose proof (clock_mono 0 q (Nat.le_0_l q)). unfold current_time_millis, wrap, as_millis in *.
  assert (0 ≤ ep_clock q / 1000000) by (apply Z.div_pos; lia). rewrite Z.mod_small by lia. lia.
Qed.

Lemma millis_mono q q' : (q ≤ q')%nat → current_time_millis (ep_clock q) ≤ current_time_millis (ep_clock q').
Proof.
  intros H%clock_mono. destruct (millis_at q) as [-> _], (millis_at q') as [-> _]. unfold as_millis. by apply Z.div_le_mono.
Qed.

(** The server accepts the cookie at time [t]: it was made at most [max_age] before. *)
Definition fresh_at (ck : bytes) (t : Z) : Prop := be_val (take 8 ck) ≤ t ∧ t - be_val (take 8 ck) ≤ max_age.

(** ** The invariant

    [L] lists the claims with the times of their handshakes. *)

Definition au_ok (L : list (bytes * Z)) (e : Endpoint) (au : Authentic) : Prop :=
  ∃ ck h, au_cookie au = Some ck ∧ cookie_hmac ck = Some h ∧ au_hmac au = Some h
    ∧ fresh_at ck (au_time au) ∧ au_time au ≤ now_ms e
    ∧ ∀ t, (ck, t) ∈ L → 2 * (au_time au - t) ≤ max_age.

(** A used cookie is in the filter, or too old at the given time. *)
Definition remembered (ck : bytes) (t now : Z) (m : gmap bytes Z) : Prop :=
  (∃ h, cookie_hmac ck = Some h ∧ m !! h = Some t) ∨ t + max_age < now.

Record once (L : list (bytes * Z)) (e : Endpoint) : Prop := {
  on_nodup : NoDup L.*1;
  on_seen ck t : (ck, t) ∈ L → fresh_at ck t ∧ remembered ck t (now_ms e) (replay_filter e);
  on_checked au from : Checked au from ∈ attempts e → au_ok L e au;
  on_age : cookie_max_age_ms (ep_config e) = max_age;
}.

Lemma au_ok_later L e e' au : (ep_questions e ≤ ep_questions e')%nat → au_ok L e au → au_ok L e' au.
Proof.
  intros Hq%millis_mono (ck & h & H1 & H2 & H3 & H4 & H5 & H6). exists ck, h.
  do 3 (split; [done|]). split; [exact H4|]. split; [|done]. unfold now_ms in *. lia.
Qed.

(** Steps that neither claim nor check a cookie. *)
Lemma once_still L e e' :
  replay_filter e' = replay_filter e → (∀ au from, Checked au from ∈ attempts e' → Checked au from ∈ attempts e) →
  ep_config e' = ep_config e → (ep_questions e ≤ ep_questions e')%nat →
  once L e → once L e'.
Proof.
  intros E1 E2 E4 Hq [N S C A]. split; [done| | |congruence].
  - intros ck t [M [H|H]]%S; (split; [done|]); rewrite E1; [by left|right]. pose proof (millis_mono _ _ Hq). unfold now_ms in *. lia.
  - intros au from H%E2%C. by eapply au_ok_later.
Qed.

Lemma once_ask {B} L (f : nat → B) : preserves (once L) (ep_ask f).
Proof. intros e. apply once_still; try done. exact (Nat.le_succ_diag_r _). Qed.

(** What the first part of a handshake leaves. *)
Definition checked (L : list (bytes * Z)) (A : list Attempt) (x : res (option Authentic) * Endpoint) : Prop :=
  once L x.2 ∧ attempts x.2 = A ∧ ∀ au, x.1 = Ok (Some au) → au_ok L x.2 au.

Lemma checked_skip L e r : once L e → (∀ au, r ≠ Ok (Some au)) → checked L (attempts e) (r, e).
Proof. intros O H. split_and!; [done|done|]. intros au E. by destruct (H au). Qed.

Lemma once_purge L c e :
  once L e → c ≤ now_ms e → (∀ ck t, (ck, t) ∈ L → remembered ck t c (replay_filter e)) →
  once L (e <| replay_filter ::= purge c max_age |>)
  ∧ ∀ ck t, (ck, t) ∈ L → remembered ck t c (purge c max_age (replay_filter e)).
Proof.
  intros [N S C A] Hc Hs.
  assert (∀ ck t, (ck, t) ∈ L → remembered ck t c (purge c max_age (replay_filter e))) as Hs'.
  { intros ck t Hin. destruct (Hs ck t Hin) as [(h & Hh & H)|H]; [|by right].
    unfold purge. destruct (decide (sat_sub c t ≤ max_age)) as [Hle|Hle].
    - left. exists h. split; [done|]. by apply map_lookup_filter_Some.
    - right. unfold sat_sub in Hle. lia. }
  split; [|done]. split; [done| |done|done]. intros ck t Hin. split; [by apply S|].
  destruct (Hs' ck t Hin) as [H|H]; [by left|right]. change (now_ms (e <| replay_filter ::= _ |>)) with (now_ms e). lia.
Qed.

Lemma once_check_client L e header hs ck h remote c size :
  once L e → c ≤ now_ms e → (∀ ck t, (ck, t) ∈ L → remembered ck t c (replay_filter e)) →
  cookie_hmac ck = Some h → fresh_at ck c →
  checked L (attempts e) (check_client header hs (Some ck) remote c size e).
Proof.
  intros O Hc Hs Hh Hm. unfold check_client. destruct hs as [[[[pk epk] th] sg] al].
  erewrite act_bind_ok by reflexivity. destruct (negb _); [by apply checked_skip|].
  erewrite act_bind_ok by reflexivity. set (e1 := e <| ep_questions ::= S |>).
  assert (once L e1) as O1 by by apply (once_ask L ep_coin).
  assert (c ≤ now_ms e1) as Hc1 by (etrans; [exact Hc|apply millis_mono, Nat.le_succ_diag_r]).
  erewrite act_bind_ok by reflexivity. rewrite (on_age _ _ O1 : cookie_max_age_ms (ep_config e1) = max_age).
  set (e2 := if ep_coin (ep_questions e) then e1 <| replay_filter ::= purge c max_age |> else e1).
  assert (once L e2 ∧ c ≤ now_ms e2 ∧ attempts e2 = attempts e
    ∧ ∀ ck t, (ck, t) ∈ L → remembered ck t c (replay_filter e2)) as (O2 & Hc2 & Ea & Hs2).
  { subst e2. destruct (ep_coin (ep_questions e)); [|done]. destruct (once_purge L c e1 O1 Hc1 Hs) as [O2 Hs2]. done. }
  erewrite act_bind_ok; [|instantiate (1 := e2); instantiate (1 := tt); subst e2; by destruct (ep_coin (ep_questions e))].
  rewrite <- Ea. clearbody e2. clear e1 O1 Hc1 Ea. erewrite act_bind_ok by reflexivity. cbn [mbind option_bind]. rewrite Hh.
  destruct (replay_filter e2 !! h) as [t|] eqn:Hl; [by apply checked_skip|].
  rewrite bool_decide_false by (by intros [? ?]).
  destruct (negb _); [by apply checked_skip|]. destruct (negb _); [by apply checked_skip|].
  destruct (negb _); [by apply checked_skip|]. erewrite act_bind_ok by reflexivity. destruct (negb _); [by apply checked_skip|].
  split_and!; [done|done|]. intros au [= <-]. exists ck, h. do 3 (split; [done|]). split; [exact Hm|]. split; [exact Hc2|].
  intros t Hin. exfalso. destruct (Hs2 ck t Hin) as [(h' & Hh' & Hl2)|Hlt]; [congruence|].
  destruct (on_seen _ _ O2 ck t Hin) as [[? ?] _]. destruct Hm. lia.
Qed.

Lemma once_send_to L to data : preserves (once L) (send_to to data).
Proof. unfold send_to. pose proof (@once_ask). walk. intros e. by apply once_still. Qed.
Lemma send_to_attempts to data e : ∃ e', send_to to data e = (Ok tt, e') ∧ attempts e' = attempts e.
Proof. unfold send_to. erewrite act_bind_ok by reflexivity. by destruct (ep_socket _ _ _); eexists. Qed.

Lemma verify_fresh key from scid ck now :
  verify_retry_cookie key from scid ck now max_age = true → ∃ h, cookie_hmac ck = Some h ∧ fresh_at ck now.
Proof.
  unfold verify_retry_cookie, cookie_hmac, fresh_at. destruct (Z.eqb_spec (len ck) 40) as [L|]; [|done]. cbn [negb].
  destruct ((now <? _) || _) eqn:E; [done|]. to_prop. intros _. eexists. split; [done|]. lia.
Qed.

Lemma once_authenticate L e data from : once L e → checked L (attempts e) (authenticate data from e).
Proof.
  intros O. unfold authenticate. destruct (open_initial data) as [[[header payload]|]| |]; [|by apply checked_skip..].
  erewrite act_bind_ok by reflexivity. cbv beta iota.
  destruct (read_initial _ _ payload) as [r| |]; [|by apply checked_skip..]. erewrite act_bind_ok by reflexivity. cbv beta.
  destruct (in_handshake r) as [hs|]; [|by apply checked_skip]. erewrite act_bind_ok by reflexivity. cbv beta.
  destruct (in_parameters r) as [remote|]; [|by apply checked_skip]. erewrite act_bind_ok by reflexivity. cbv beta.
  erewrite act_bind_ok by reflexivity. cbv beta. set (e1 := e <| ep_questions ::= S |>). set (c := current_time_millis _).
  assert (once L e1) as O1 by by apply (once_ask L ep_coin).
  assert (c ≤ now_ms e1) as Hc1 by (apply millis_mono, Nat.le_succ_diag_r).
  do 2 erewrite act_bind_ok by reflexivity. cbv beta.
  rewrite (on_age _ _ O1 : cookie_max_age_ms (ep_config e1) = max_age). set (key := cookie_key e1). clearbody key.
  destruct (match in_cookie r with Some _ => _ | None => _ end) eqn:Hv.
  - destruct (in_cookie r) as [ck|]; [|done]. cbn [negb].
    destruct (verify_fresh _ _ _ _ _ Hv) as (h & Hh & Hm).
    change (attempts e) with (attempts e1). apply (once_check_client L e1 header hs ck h); [done..| |done|done].
    intros ck' t Hin. by destruct (on_seen _ _ O ck' t Hin) as [_ H].
  - cbn [negb]. unfold send_retry. destruct (PacketHeader.encode _ _) as [buf| |]; [|by apply checked_skip..].
    destruct (send_to_attempts from (buf ++ make_retry_cookie key from (PacketHeader.scid header) c) e1) as (e2 & E & Ea).
    pose proof (once_send_to L from (buf ++ make_retry_cookie key from (PacketHeader.scid header) c) e1 O1) as O2.
    rewrite E in O2. erewrite act_bind_ok; [|erewrite act_bind_ok by reflexivity; exact E].
    change (attempts e) with (attempts e1). rewrite <- Ea. by apply checked_skip.
Qed.

(** A claim that succeeds is the first. *)
Lemma once_claim L e au from ck h :
  once L e → Checked au from ∈ attempts e → au_cookie au = Some ck → au_hmac au = Some h →
  2 * (now_ms e - au_time au) ≤ max_age → replay_filter e !! h = None →
  once ((ck, au_time au) :: L) (e <| replay_filter ::= <[h := au_time au]> |>).
Proof.
  intros O Hin Hck Hh Hp Hl. destruct (on_checked _ _ O au from Hin) as (ck' & h' & Hck' & Hm & Hh' & Hf & Hle & Ht).
  rewrite Hh in Hh'. injection Hh' as <-. rewrite Hck in Hck'. injection Hck' as <-. destruct O as [N S C A].
  assert (∀ t, (ck, t) ∉ L) as Hnew.
  { intros t Hint. specialize (Ht t Hint). destruct (S ck t Hint) as [_ [(h' & ? & ?)|?]]; [congruence|]. lia. }
  set (e' := e <| replay_filter ::= _ |>). split; [| | |done].
  - cbn. constructor; [|done]. intros ([ck' t] & -> & Hin')%list_elem_of_fmap. by apply (Hnew t).
  - intros ck' t [[= -> ->]|Hin']%elem_of_cons; [split; [done|]; left; exists h; split; [done|apply lookup_insert_eq]|].
    destruct (S ck' t Hin') as [Hm' [(h' & Hh' & Hs)|Hs]]; (split; [done|]); [left|by right]. exists h'. split; [done|].
    change (<[h := au_time au]> (replay_filter e) !! h' = Some t). rewrite lookup_insert_ne; [done|]. congruence.
  - intros au' from' Hin'. destruct (C au' from' Hin') as (ck' & h' & H1 & H2 & H3 & H4 & H5 & H6). exists ck', h'.
    do 3 (split; [done|]). split; [exact H4|]. split; [exact H5|].
    intros t [[= -> ->]|Hint]%elem_of_cons; [|by apply H6]. change (now_ms e') with (now_ms e) in *. lia.
Qed.

(** *** The other steps *)

Section quiet.
Context (L : list (bytes * Z)).

Lemma once_same e e' : core e' = core e → once L e → once L e'.
Proof. intros [= E1 E2 E3 E4 E5 E6 E7 E8 E9]. apply once_still; [done|by rewrite E4|done|by rewrite E9]. Qed.
Lemma once_try_post i m : preserves (once L) (try_post i m).
Proof. intros e O. unfold try_post. destruct (tasks e !! i); [|done]. destruct (_ && _); by apply (once_still L e). Qed.
Lemma once_delete d : preserves (once L) (modify (λ e, e <| routing_table ::= delete d |>)).
Proof. intros e. by apply once_still. Qed.
Lemma once_handle_recv {A} h (g : Actor → list A) set : preserves (once L) (handle_recv h g set).
Proof.
  intros e O. unfold handle_recv. destruct (tasks e !! handle_task h) as [t|]; [|done].
  destruct (g (task_actor t)); [destruct (alive t); [done|by destruct (termination_error _)]|]. by apply (once_still L e).
Qed.
Lemma once_spawn scid a : preserves (once L) (spawn scid a).
Proof. intros e. by apply once_still. Qed.
Lemma once_kill i : preserves (once L) (kill i).
Proof. intros e O. unfold kill. destruct (tasks e !! i); by apply (once_still L e). Qed.
Lemma once_on_task i m : preserves (once L) (on_task i m).
Proof.
  intros e O. unfold on_task. destruct (tasks e !! i) as [t|]; [|done].
  by destruct (m (task_actor t)) as [[[tm|]| |] a]; apply (once_still L e).
Qed.
Lemma once_state {B} (f : Endpoint → res B) : preserves (once L) (λ e, (f e, e)).
Proof. by intros e. Qed.
#[local] Hint Resolve once_ask once_send_to once_try_post once_delete once_spawn once_kill once_on_task once_state : preserves.

Lemma once_route r data from : preserves (once L) (route r data from).
Proof.
  unfold route, route_cached, is_open, on_cache, start_handshake. walk; intros e; apply once_still; try done.
  intros au f' [Hin|Hin]%elem_of_app; [done|]. by apply list_elem_of_singleton in Hin.
Qed.
Lemma once_step_task i ev : preserves (once L) (step_task envs i ev).
Proof.
  intros e O. unfold step_task. destruct (tasks e !! i) as [t|]; [|done]. destruct (negb _); [done|].
  destruct (task_timers t) as [tm|]; [|by apply once_on_task].
  destruct ev as [[]|]; [done|by apply once_on_task..|].
  destruct (mailbox t); [done|]. apply once_on_task. by apply (once_still L e).
Qed.
Lemma once_connect to : preserves (once L) (connect to).
Proof. unfold connect, random_bytes, generate_keypair. walk; intros e; by apply once_still. Qed.
Lemma once_fresh_scid n : preserves (once L) (fresh_scid n).
Proof. induction n as [|n IH]; cbn [fresh_scid]; unfold random_bytes; walk. Qed.
#[local] Hint Resolve once_fresh_scid : preserves.

(** The second part of a handshake behind the claim. *)
Lemma once_guarded {A} scid (m : ep A) : preserves (once L) m → preserves (once L) (guarded scid m).
Proof. intros Hm e O. unfold guarded. specialize (Hm e O). destruct (m e) as [[]e']; [done..|]. by apply once_delete. Qed.
Lemma once_announce au from i scid pk pn : preserves (once L) (announce au from i scid pk pn).
Proof. unfold announce. walk. intros e. by apply once_still. Qed.
#[local] Hint Resolve once_announce : preserves.

Lemma once_open_connection au from : preserves (once L) (open_connection au from).
Proof.
  unfold open_connection, random_bytes, instant, generate_keypair. walk; [|by apply once_guarded, once_announce].
  intros e. by apply once_still.
Qed.
End quiet.

Lemma once_finish L j e : once L e → once L (finish_attempt j e).
Proof. apply once_still; try done. intros au from. apply (list_subseteq_delete j (attempts e)). Qed.

Lemma once_step_arrived L j e data from :
  once L e → attempts e !! j = Some (Arrived data from) → once L (step_attempt j e).2.
Proof.
  intros O Hj. unfold step_attempt. rewrite Hj. destruct (once_authenticate L e data from O) as (O1 & Ea & Hau).
  destruct (authenticate data from e) as [r e1]. cbn [fst snd] in O1, Ea, Hau. pose proof (once_finish L j e1 O1) as O2.
  destruct r as [[au|]| |]; [|done..]. specialize (Hau au eq_refl). destruct O1 as [N S C A].
  split; [done|exact S| |done]. intros au' f' Hin.
  change (Checked au' f' ∈ <[j := Checked au from]> (attempts e1)) in Hin.
  apply list_elem_of_lookup in Hin as [k [(-> & [= -> ->] & _)|(_ & Hk)]%list_lookup_insert_Some]; [done|].
  by eapply C, list_elem_of_lookup_2.
Qed.

Lemma once_step_checked L j e au from :
  once L e → attempts e !! j = Some (Checked au from) → 2 * (now_ms e - au_time au) ≤ max_age →
  ∃ L', L'.*1 = claimed (HandshakeTask j) e ++ L.*1 ∧ once L' (step_attempt j e).2.
Proof.
  intros O Hj Hp. pose proof (list_elem_of_lookup_2 _ _ _ Hj) as Hin.
  destruct (on_checked _ _ O au from Hin) as (ck & h & Hck & _ & Hh & _).
  unfold step_attempt, claimed, enroll_client. rewrite Hj, Hh, Hck. cbn [mbind option_bind default].
  assert (claim (Some h) (au_time au) e = match replay_filter e !! h with
    | Some _ => (Ok false, e) | None => (Ok true, e <| replay_filter ::= <[h := au_time au]> |>) end) as E by done.
  destruct (replay_filter e !! h) as [t|] eqn:Hl; rewrite (act_bind_ok _ _ _ _ _ E).
  - exists L. split; [done|]. by apply once_finish.
  - exists ((ck, au_time au) :: L). split; [done|]. apply once_finish, once_open_connection. by eapply once_claim.
Qed.

(** The claims of a step are new. *)
Lemma once_serve L s e :
  once L e → prompt s e → ∃ L', L'.*1 = claimed s e ++ L.*1 ∧ once L' (serve envs s e).2.
Proof.
  intros O Hp. destruct (is_call s) eqn:Hs.
  - exists L. split; [by destruct s|]. apply (call_preserves envs (once L)); [|intros; apply once_try_post|apply once_delete
      |intros; apply once_handle_recv|done|done]. apply once_same.
  - destruct s as [r data from|j|i ev| | | | | | |to| | |]; try done; cbn [serve].
    + exists L. split; [done|]. by apply (once_route L r data from).
    + destruct (attempts e !! j) as [[data from|au from]|] eqn:Hj.
      * exists L. split; [cbn; by rewrite Hj|]. by eapply once_step_arrived.
      * cbn [prompt] in Hp. rewrite Hj in Hp. apply (once_step_checked L j e au from O Hj). rewrite <- (on_age _ _ O). exact Hp.
      * exists L. split; [cbn; by rewrite Hj|]. unfold step_attempt. by rewrite Hj.
    + exists L. split; [done|]. by apply once_step_task.
    + exists L. split; [done|]. by apply (once_connect L to).
Qed.

Lemma once_serve_all L ss e : once L e → all_prompt ss e → NoDup (claims ss e ++ L.*1).
Proof.
  revert L e. induction ss as [|s ss IH]; intros L e O Hp; cbn [claims]; [exact (on_nodup _ _ O)|].
  destruct Hp as [Hs Hp]. destruct (once_serve L s e O Hs) as (L' & EL & O').
  specialize (IH L' _ O' Hp). rewrite EL in IH.
  by rewrite (Permutation_app_comm (claimed s e)), <- app_assoc.
Qed.
End once.

(** C12: A retry cookie is good for one connection.  Over any run of an endpoint, however its
    handshake tasks interleave, no two of them get past the claim of the same cookie: two of
    them may check it, but one claims it, and the server forgets a used cookie only when it
    is too old to be accepted.  This holds as long as no task is held up between the check and the
    claim for more than half the life of a cookie. *)
Theorem cookie_used_once `{BC : BytesCrate} `{HK : Hkdf} `{AE : Aead} `{CC : ChaCha20} `{LM : Libm}
    `{HM : Hmac} `{SH : Sha256} `{ED : Ed25519} `{XD : X25519} `{EE : EndpointEnv} (envs : nat → Env)
    (cores : nat) (sk ck : bytes) (cfg : ZtConfig) (e : Endpoint) (ss : list Step) :
  (∀ q, 0 ≤ ep_clock q ≤ ep_clock (S q)) → (∀ q, as_millis (ep_clock q) < 2 ^ 64) →
  0 ≤ cookie_max_age_ms cfg → bind_with_zt_config cores sk ck cfg = Ok e →
  all_prompt envs ss e → NoDup (claims envs ss e).
Proof.
  intros Hclock Hms Hage Hb Hp. rewrite <- (app_nil_r (claims envs ss e)).
  apply (once_serve_all envs (λ q, proj2 (Hclock q)) (proj1 (Hclock 0%nat)) Hms (cookie_max_age_ms cfg) Hage []); [|done].
  unfold bind_with_zt_config in Hb. destruct (config_validate cfg); [|done..]. injection Hb as <-.
  split; [constructor|intros h t []%not_elem_of_nil|intros au from []%not_elem_of_nil|done].
Qed.

(** ** A run with a replayed cookie *)

#[local] Existing Instances bytes_model CryptoFacts.hkdf_model CryptoFacts.aead_model chacha20_model libm_model hmac_model.
#[local] Existing Instances sha256_model ed25519_model x25519_model.

(** A clock that stops after a second. *)
#[local] Instance retry_env : EndpointEnv := {|
  ep_random q n := be_bytes n (Z.of_nat q + 1);
  ep_coin _ := false;
  ep_clock q := Z.of_nat (Nat.min q 1000) * 1000000;
  ep_socket _ _ _ := None;
|}.
Abbreviation sample_serve := (serve_all (λ _, env_model)).

Definition last_outgoing (e : Endpoint) : bytes :=
  match last (sent e), tasks e with
  | Some (_, d), _ => d
  | None, t :: _ => match last (outbox (task_actor t)) with Some (_, d) => d | None => [] end
  | None, [] => []
  end.

(** The client connects, gets a Retry packet, and answers with the cookie. *)
Definition retry_client : Endpoint := sample_serve [Connect sample_addr; ActorTask 0 None] sample_endpoint.
Definition retry_server : Endpoint :=
  sample_serve [Datagram 0 (last_outgoing retry_client) sample_addr; HandshakeTask 0] sample_endpoint.
Definition retry_initial : bytes := Eval vm_compute in
  last_outgoing (sample_serve [Datagram 0 (last_outgoing retry_server) sample_addr; ActorTask 0 None] retry_client).

(** The answer arrives twice; both copies are checked before one of them claims the cookie. *)
Definition replay_steps : list Step :=
  [Datagram 0 retry_initial sample_addr; Datagram 1 retry_initial sample_addr;
   HandshakeTask 0; HandshakeTask 1; HandshakeTask 1; HandshakeTask 0].

Lemma cookie_used_once_witness :
  length (claims (λ _, env_model) replay_steps sample_endpoint) = 1%nat
  ∧ NoDup (claims (λ _, env_model) replay_steps sample_endpoint).
Proof.
  split; [vm_compute; reflexivity|].
  apply (cookie_used_once (λ _, env_model) 2 [7] [9] config_default).
  - intros q. cbn. lia.
  - intros q. cbn [ep_clock retry_env]. unfold as_millis. rewrite Z.div_mul by done. lia.
  - vm_compute. discriminate.
  - reflexivity.
  - vm_compute. repeat split; discriminate.
Defined.
