(* ===== verification/Pipeline.v ===== *)
(** * From the sender's payload to the receiver's handler

    A packet built by the sender is opened by the receiver: header protection, header,
    decryption and frame decoding undo what the sender did. *)

From stdpp Require Import strings.
From S2P Require Import Prelude Errors Effects Buf Config StreamType Frames FrameFacts FrameSafety FrameProps Packet PacketFacts.
From S2P Require Import PacketNumber HeaderProtection Bitmap ReplayWindow AckTracker Unacked Cookie KeyDerivation.
From S2P Require Import CryptoContext CryptoFacts Float Congestion Connection Actor ActFacts PacketSender HandshakeHandler IncomingHandler ActorRun.

(** ** The wire *)

Section wire.
Context `{BL : BytesLaws} `{HK : Hkdf} `{AL : AeadLaws} `{CC : ChaCha20}.

(** The position of the packet number. *)
Abbreviation pn_at h := (S (length (header_mid h))).

(** Protection keeps everything between the first byte and the packet number, and the form
    bit of the first byte. *)
Lemma protected_shape h b r key wire :
  apply_header_protection ([b] ++ header_mid h ++ r) (pn_at h) key = Ok wire →
  ∃ b' r', wire = [b'] ++ header_mid h ++ r' ∧ is_long_byte b' = is_long_byte b.
Proof.
  intros A. destruct (apply_first_byte _ _ _ _ b (le_n_S _ _ (Nat.le_0_l _)) A eq_refl) as [m Hm].
  destruct (apply_keeps _ _ _ _ A) as [L K]. destruct wire as [|b' w]; [done|].
  exists b', (drop (length (header_mid h)) w). cbn in Hm. split; [|rewrite Hm; apply first_mask_form].
  cbn [app]. f_equal. rewrite <- (take_drop (length (header_mid h)) w) at 1. f_equal.
  apply list_eq. intros j. destruct (decide (j < length (header_mid h))%nat) as [Hj|Hj].
  - rewrite lookup_take_lt, <- (lookup_app_l (header_mid h) r) by done. apply (K (S j)). lia.
  - rewrite lookup_take_ge, (proj2 (lookup_ge_None _ _)) by lia. done.
Qed.

Lemma pn_offset_header h r :
  header_ok h → PacketHeader.get_pn_offset (header_bytes h ++ r) = Ok (Some (1 + len (header_mid h))).
Proof.
  intros HO. unfold header_bytes. rewrite <- !app_assoc. apply shortcuts_agree; [done|]. by apply first_byte_ok.
Qed.

(** The sender's half, taken apart. *)
Lemma protect_inv k pn h pt wire :
  header_ok h → protect_packet k pn (len (header_bytes h)) (header_bytes h ++ pt) = Ok wire →
  ∃ ct tag, encrypt_in_place k pn (header_bytes h) pt = Ok (ct, tag)
    ∧ length ct = length pt ∧ length tag = 16%nat
    ∧ apply_header_protection (header_bytes h ++ ct ++ tag) (pn_at h) (tx_hp_key k) = Ok wire.
Proof.
  intros HO P. unfold protect_packet, len in P. rewrite Nat2Z.id, take_app_length, drop_app_length in P.
  destruct (encrypt_in_place k pn (header_bytes h) pt) as [[ct tag]| |] eqn:E; [|done..].
  cbn [mbind res_bind] in P. exists ct, tag. split; [done|].
  pose proof E as [L1 L2]%ok_or_Ok%aead_lengths. do 2 (split; [done|]).
  rewrite pn_offset_header in P by done. cbn [mbind res_bind] in P.
  replace (Z.to_nat (1 + len (header_mid h))) with (pn_at h) in P by (unfold len; lia).
  exact P.
Qed.

(** Removing the protection with the receiver's key. *)
Lemma unprotect_protected h r key wire c k :
  header_ok h → PacketHeader.is_long h = false →
  apply_header_protection (header_bytes h ++ r) (pn_at h) key = Ok wire →
  crypto c = Some k → rx_hp_key k = key →
  (match wire with b :: _ => Z.land b 0x80 =? 0 | [] => false end) = true
  ∧ unprotect wire true c = Ok (header_bytes h ++ r).
Proof.
  intros HO HS A Hk Hkey. unfold header_bytes in A. rewrite <- !app_assoc in A.
  pose proof (first_byte_ok h HO) as (_&F&_).
  destruct (protected_shape _ _ _ _ _ A) as (b' & r' & -> & Hb). unfold is_long_byte in Hb.
  rewrite F, HS in Hb. split; [by apply negb_false_iff in Hb|].
  unfold unprotect. destruct (shortcuts_agree h b' r' HO) as [_ ->]; [congruence|].
  cbn [mbind res_bind]. rewrite Hk. unfold ctx_remove_header_protection. rewrite Hkey.
  replace (Z.to_nat (1 + len (header_mid h))) with (pn_at h) by (unfold len; lia).
  unfold header_bytes. rewrite <- !app_assoc. by apply hp_apply_remove; [lia|].
Qed.

Lemma len_header_bytes h : header_ok h → len (header_bytes h) = 1 + len (header_mid h) + PacketHeader.pn_len h.
Proof.
  intros HO. pose proof (ho_pn_len h HO). unfold header_bytes, pn_bytes.
  rewrite !len_app, len_be_bytes. change (len [first_byte h]) with 1. lia.
Qed.

(** The header, the additional data and the payload come apart again. *)
Lemma split_header_bytes h r :
  header_ok h →
  split_packet (header_bytes h ++ r)
  = Ok (h <| PacketHeader.packet_number ::= λ pn, pn mod 256 ^ PacketHeader.pn_len h |>, header_bytes h, r).
Proof.
  intros HO. pose proof (first_byte_ok h HO) as FB. pose proof FB as (_&F&P&_).
  pose proof (len_header_bytes h HO) as L. pose proof (len_nonneg r).
  unfold split_packet. set (d := header_bytes h ++ r).
  assert (PacketHeader.get_pn_offset d = Ok (Some (1 + len (header_mid h)))) as -> by by apply pn_offset_header.
  cbn [mbind res_bind ok_or]. assert (at_index d 0 = Ok (first_byte h)) as -> by by apply (at_index_app []).
  cbn [mbind res_bind]. rewrite P, <- L. subst d.
  replace (len (header_bytes h ++ r) <? len (header_bytes h)) with false by len_lia.
  unfold len at 1 2 3. rewrite Nat2Z.id, take_app_length, drop_app_length.
  pose proof (decode_header_bytes h (first_byte h) [] HO FB) as D. rewrite app_nil_r in D.
  fold (header_bytes h) in D. by rewrite D.
Qed.
End wire.

(** ** The receiver *)

Section receiver.
Context `{BL : BytesLaws} `{HK : Hkdf} `{AL : AeadLaws} `{CC : ChaCha20} `{LM : Libm} `{EV : Env}.
Context `{SH : Sha256} `{ED : Ed25519} `{XD : X25519}.

Lemma pad_packet_bytes n hb fb :
  1 ≤ n ≤ 4 → ∃ j, Z.of_nat j ≤ 4 ∧ pad_packet n (len hb) (hb ++ fb) = hb ++ fb ++ replicate j 0.
Proof.
  intros Hn. unfold pad_packet. pose proof (len_nonneg fb). unfold sat_sub.
  rewrite len_app. case_match eqn:E; [|exists 0%nat; by rewrite app_nil_r]. to_prop.
  rewrite encode_bytes; [|unfold frame_typed, u_ok; lia].
  eexists. rewrite <- app_assoc. split; [|reflexivity]. lia.
Qed.

(** A frame and the padding behind it have the effect of the frame. *)
Lemma handle_frames_padded f j from fuel a :
  frame_typed f → wire_exact f → is_padding f = false → Z.of_nat j ≤ 4 →
  (length (frame_bytes f) + j ≤ fuel)%nat →
  handle_frames fuel (frame_bytes f ++ replicate j 0) from a = handle_frame f from a.
Proof.
  intros T W P Hj Hf. pose proof (frame_bytes_nonempty f W) as L.
  destruct fuel as [|fuel]; [unfold len in L; lia|]. cbn [handle_frames].
  replace (len (frame_bytes f ++ replicate j 0) =? 0) with false by (rewrite len_app; pose proof (len_nonneg (replicate j 0)); lia).
  rewrite decode_frame_bytes by (done || by intros n ->).
  unfold mbind, act_bind. destruct (handle_frame f from a) as [[[]|e|] a'] eqn:E; [|done..].
  destruct j as [|j]; [by destruct fuel|]. destruct fuel as [|fuel]; [unfold len in L; lia|]. cbn [handle_frames].
  pose proof (decode_frame_bytes (Frame.Padding (Z.of_nat (S j))) []) as D. rewrite app_nil_r in D.
  cbn [frame_bytes] in D. rewrite Nat2Z.id in D.
  rewrite D by (done || unfold frame_typed, u_ok, wire_exact; lia). by destruct fuel.
Qed.

(** A receiver that follows a key update. *)
Definition rekeyed (k : option CryptoContext) (c : ZtConnection) : ZtConnection :=
  match k with
  | Some k => c <| crypto := Some k |> <| current_key_epoch ::= λ e, wrap 64 (e + 1) |>
                <| packets_since_key_update := 0 |>
  | None => c
  end.

(** The receiver with the packet [pn] accepted, before its frames are handled. *)
Definition accepted (pn size : Z) (k : option CryptoContext) (b : Actor) : Actor :=
  let b := b <| conn ::= λ c, rekeyed k (c <| bytes_received ::= λ n, wrap 64 (n + size) |>) |> in
  b <| questions ::= S |> <| conn ::= conn_mark_processed pn (clock (questions b)) |>.

Definition highest_of (b : Actor) : Z := default 0 (highest_processed (replay_window (conn b))).

(** The connection [b] is established in epoch [n], the sender's keys [k] are of epoch [m],
    and the two epochs are at most one apart; a packet of the older of them is older
    than the newest packet received, one of the newer is not. *)
Record can_open (root : bytes) (role : bool) (m n : nat) (k : CryptoContext) (pn : Z) (b : Actor) : Prop := {
  co_sender : in_epoch root role m k;
  co_receiver : ∃ k', crypto (conn b) = Some k' ∧ in_epoch root (negb role) n k';
  co_epoch : current_key_epoch (conn b) = Z.of_nat n;
  co_state : state (conn b) = Active;
  co_near : m = n ∨ (m = S n ∧ highest_of b ≤ pn ∧ Z.of_nat n + 2 < 2 ^ 64) ∨ (n = S m ∧ pn < highest_of b);
  co_fresh : conn_is_replay (conn b) pn = false;
}.

Lemma odd_neq n :
  Bool.eqb (negb (Z.of_nat n mod 2 =? 0)) (negb (Z.of_nat (S n) mod 2 =? 0)) = false
  ∧ Bool.eqb (negb (Z.of_nat (S n) mod 2 =? 0)) (negb (Z.of_nat n mod 2 =? 0)) = false.
Proof.
  pose proof (Z.mod_pos_bound (Z.of_nat n) 2). replace (Z.of_nat (S n)) with (Z.of_nat n + 1) by lia.
  rewrite <- Z.add_mod_idemp_l by done. assert (Z.of_nat n mod 2 = 0 ∨ Z.of_nat n mod 2 = 1) as [->| ->] by lia; done.
Qed.

(** The key phase bit picks the key that opens the packet. *)
Lemma decrypt_near root role m n k pn b h aad pt ct tag k' c :
  can_open root role m n k pn b → in_epoch root (negb role) n k' →
  PacketHeader.packet_number h = pn → PacketHeader.key_phase h = negb (Z.of_nat m mod 2 =? 0) →
  current_key_epoch c = Z.of_nat n → encrypt_in_place k pn aad pt = Ok (ct, tag) →
  ∃ new, (∀ a, decrypt_payload h (choose_key h true (highest_of b) c) k' aad ct tag a
      = (Ok pt, a <| conn ::= rekeyed new |>))
    ∧ from_option (in_epoch root (negb role) (S n)) (m ≠ S n) new.
Proof.
  intros [S _ _ _ [<-|[(->&Hh&Hn)|(->&Hh)]] _] D <- Hk He E; unfold choose_key; rewrite Hk, He.
  - exists None. split; [|cbn; lia]. intros a. rewrite eqb_reflx. cbn [negb andb decrypt_payload].
    by rewrite (open_same_epoch _ _ _ _ _ _ _ _ _ _ S D E).
  - destruct (open_next_epoch _ _ _ _ _ _ _ _ _ _ Hn S D E) as (d & Ed & Dd).
    exists (Some d). split; [|done]. intros a.
    rewrite (proj2 (odd_neq n)). cbn [negb andb].
    replace (highest_of b <=? _) with true by lia. cbn [decrypt_payload]. by rewrite Ed.
  - exists None. split; [|cbn; lia]. intros a. rewrite (proj1 (odd_neq m)). cbn [negb andb].
    replace (highest_of b <=? _) with false by lia. cbn [decrypt_payload].
    by rewrite (open_prev_epoch _ _ _ _ _ _ _ _ _ _ S D E).
Qed.

(** An established receiver, at the address it knows, on a decrypted packet. *)
Lemma receive_decrypted h choice aad ct tag pt from a k new f j :
  crypto (conn a) = Some k → length tag = 16%nat → length ct = length pt →
  (∀ a, decrypt_payload h choice k aad ct tag a = (Ok pt, a <| conn ::= rekeyed new |>)) →
  state (conn a) = Active → addr (conn a) = from →
  frame_typed f → wire_exact f → is_padding f = false → Z.of_nat j ≤ 4 →
  pt = frame_bytes f ++ replicate j 0 →
  receive_protected h choice aad (ct ++ tag) from a
  = handle_frame f from
      (let a := a <| conn ::= rekeyed new |> in
       a <| questions ::= S |>
         <| conn ::= conn_mark_processed (PacketHeader.packet_number h) (clock (questions a)) |>).
Proof.
  intros Hk Lt Lc D Ha Hf T W P Hj Hp. unfold receive_protected, get_crypto.
  unfold mbind at 1, act_bind at 1. rewrite Hk. cbn [ok_or].
  assert ((len (ct ++ tag) <? 16) = false) as ->. 
  { apply Z.ltb_ge. unfold len. rewrite length_app. clear -Lt. lia. }
  replace (length (ct ++ tag) - 16)%nat with (length ct) by (rewrite length_app; lia).
  rewrite take_app_length, drop_app_length. unfold mbind at 1, act_bind at 1. rewrite D.
  set (a1 := a <| conn ::= rekeyed new |>).
  assert (state (conn a1) = Active ∧ addr (conn a1) = from) as [S1 A1].
  { subst a1 from. destruct a, new; cbn in *; done. }
  unfold mbind at 1, act_bind at 1, modify. rewrite S1. rewrite bool_decide_false by done. cbn [andb].
  assert (check_path from a1 = (Ok tt, a1)) as C.
  { unfold check_path, mbind at 1, act_bind at 1, gets at 1. rewrite S1. unfold mbind at 1, act_bind at 1, gets at 1.
    rewrite A1, !bool_decide_true by done. cbn [negb andb]. by rewrite bool_decide_false. }
  unfold mbind at 1, act_bind at 1. rewrite C. subst pt.
  apply handle_frames_padded; [done..|]. by rewrite length_app, length_replicate.
Qed.

(** The receiver's side: a sealed packet reaches its handler. *)
Lemma receive_sealed root role m n k b h f j from wire :
  let pn := PacketHeader.packet_number h in
  can_open root role m n k pn b → addr (conn b) = from →
  header_ok h → PacketHeader.p_type h = PacketType.Data →
  PacketHeader.key_phase h = negb (Z.of_nat m mod 2 =? 0) →
  u_ok 64 (highest_of b) → in_window pn (PacketHeader.pn_len h) (highest_of b) →
  frame_typed f → wire_exact f → is_padding f = false → Z.of_nat j ≤ 4 →
  protect_packet k pn (len (header_bytes h)) (header_bytes h ++ frame_bytes f ++ replicate j 0) = Ok wire →
  ∃ new, process_incoming_packet wire from b = handle_frame f from (accepted pn (len wire) new b)
    ∧ from_option (in_epoch root (negb role) (S n)) (m ≠ S n) new.
Proof.
  intros pn CO Hf HO Ht Hk Hu Hw T W P Hj (ct & tag & E & Lc & Lt & A)%protect_inv; [|done].
  destruct (co_receiver _ _ _ _ _ _ _ CO) as (k' & Hk' & D).
  assert (PacketHeader.is_long h = false) as Hs by (by rewrite (ho_form h HO), Ht).
  assert (rx_hp_key k' = tx_hp_key k) as Hhp.
  { destruct (ie_hp _ _ _ _ D) as [_ ->], (ie_hp _ _ _ _ (co_sender _ _ _ _ _ _ _ CO)) as [-> _].
    by rewrite hp_keys_mirror. }
  unfold process_incoming_packet. erewrite act_bind_ok by reflexivity.
  set (b1 := b <| conn ::= _ |>). assert (crypto (conn b1) = Some k') as Hk1 by done.
  destruct (unprotect_protected h (ct ++ tag) (tx_hp_key k) wire (conn b1) k' HO Hs A Hk1 Hhp) as [-> U].
  erewrite act_bind_ok by reflexivity. erewrite act_bind_ok by exact (f_equal (λ r, (r, b1)) U).
  rewrite split_header_bytes by done. erewrite act_bind_ok by reflexivity. cbv beta iota.
  erewrite act_bind_ok by reflexivity. unfold is_initial.
  change (PacketHeader.p_type (upd _ _ h)) with (PacketHeader.p_type h). rewrite Ht. cbn [andb].
  set (h' := upd _ _ (upd _ _ h)). assert (h' = h) as ->.
  { pose proof (ho_pn_len h HO). pose proof (ho_pn h HO).
    change h' with (h <| PacketHeader.packet_number :=
      expand_pn (pn mod 256 ^ PacketHeader.pn_len h) (PacketHeader.pn_len h) (highest_of b) |>).
    by rewrite expand_pn_spec. }
  unfold dispatch_packet. do 2 erewrite act_bind_ok by reflexivity.
  change (conn_is_replay (conn b1)) with (conn_is_replay (conn b)).
  change (state (conn b1)) with (state (conn b)).
  fold pn. rewrite (co_fresh _ _ _ _ _ _ _ CO), Ht, (co_state _ _ _ _ _ _ _ CO).
  rewrite bool_decide_true by done. cbn [orb act_when].
  destruct (decrypt_near root role m n k pn b h (header_bytes h) _ ct tag k' (conn b1) CO D eq_refl Hk
    (co_epoch _ _ _ _ _ _ _ CO) E) as (new & Hd & Hnew).
  exists new. split; [|done].
  exact (receive_decrypted h _ _ ct tag _ from b1 k' new f j Hk1 Lt Lc Hd (co_state _ _ _ _ _ _ _ CO) Hf
    T W P Hj eq_refl).
Qed.
End receiver.

(** ** The sender *)

Section sender.
Context `{BL : BytesLaws} `{HK : Hkdf} `{AL : AeadLaws} `{CC : ChaCha20} `{LM : Libm} `{EV : Env}.
Context `{SH : Sha256} `{ED : Ed25519} `{XD : X25519}.

(** The lowest packet number the sender has in flight. *)
Definition lowest_unacked (c : ZtConnection) (pn : Z) : Z := default pn (head (Window.keys (unacked_packets c))).

(** The receiver expands the truncated number when it knows the packets below the oldest one in
    flight, and has not run too far ahead. *)
Lemma pn_length_window c pn highest :
  u_ok 64 pn → u_ok 64 highest → 0 ≤ lowest_unacked c pn ≤ highest + 2 → pn - lowest_unacked c pn < 2 ^ 31 - 1 →
  lowest_unacked c pn ≤ pn → highest ≤ pn + 126 →
  1 ≤ pn_length c pn ≤ 4 ∧ in_window pn (pn_length c pn) highest.
Proof.
  unfold u_ok. intros Hp Hh Hl Hd Hle Hr. unfold pn_length. fold (lowest_unacked c pn).
  set (la := sat_sub (lowest_unacked c pn) 1). destruct (truncate_pn pn la) as [t n] eqn:E. cbn [snd].
  apply truncate_pn_spec in E as (Hn & _ & Hw); [|unfold u_ok; lia|unfold la, sat_sub; lia..].
  split; [done|]. unfold in_window, sat_add, u_max.
  assert (256 ^ n / 2 * 2 = 256 ^ n ∧ 128 ≤ 256 ^ n / 2) as [HW H128].
  { assert (n = 1 ∨ n = 2 ∨ n = 3 ∨ n = 4) as [->|[->|[->| ->]]] by lia; done. }
  set (W := 256 ^ n / 2) in *. clearbody W. unfold la, sat_sub in Hw. lia.
Qed.

(** What a successful send did. *)
Lemma send_inv p r a a' :
  send_protected_payload p r a = (Ok tt, a') → state (conn a) = Active → cid_ok (dcid (conn a)) →
  u_ok 64 (next_packet_number (conn a)) → 1 ≤ pn_length (conn a) (next_packet_number (conn a)) ≤ 4 →
  let h := short_header PacketType.Data (next_packet_number (conn a)) a in
  ∃ k f wire, crypto (conn a) = Some k ∧ payload_frame p (len (header_bytes h)) = Ok f
    ∧ outbox a' = outbox a ++ [(addr (conn a), wire)]
    ∧ protect_packet k (PacketHeader.packet_number h) (len (header_bytes h))
        (pad_packet (PacketHeader.pn_len h) (len (header_bytes h)) (Frame.encode f (header_bytes h))) = Ok wire.
Proof.
  intros E Ha Hc Hp Hn h. assert (header_ok h) as HO by (split; cbn; done).
  unfold send_protected_payload in E. apply bind_Ok_inv in E as (pn & a1 & E1 & E).
  apply next_pn_inv in E1 as [-> Ea].
  assert (outbox a1 = outbox a ∧ addr (conn a1) = addr (conn a) ∧ crypto (conn a1) = crypto (conn a)
    ∧ state (conn a1) = Active) as (O1 & A1 & C1 & S1) by (by rewrite Ea).
  apply bind_Ok_inv in E as (h1 & ? & [= <- <-] & E).
  assert (short_header PacketType.Data (next_packet_number (conn a)) a1 = h) as Eh by (by rewrite Ea).
  rewrite Eh in E. clear Ea Eh.
  apply bind_Ok_inv in E as (hb & ? & [= E2 <-] & E). rewrite encode_header_bytes in E2 by done.
  injection E2 as <-. apply bind_Ok_inv in E as (f & ? & [= E3 <-] & E).
  apply bind_Ok_inv in E as (k & ? & [= E4%ok_or_Ok <-] & E).
  apply bind_Ok_inv in E as (wire & ? & [= E5 <-] & E).
  exists k, f, wire. split; [congruence|]. split; [done|]. split; [|done].
  apply bind_Ok_inv in E as ([] & a2 & E6 & E).
  assert (outbox a2 = outbox a1 ++ [(addr (conn a1), wire)]) as O2.
  { unfold sendmsg_vectored in E6. case_match; [done|]. rewrite S1, bool_decide_false, andb_false_r in E6 by done.
    cbn [andb] in E6. destruct (socket_send _ _ _) as [[]|]; try done. injection E6 as <-. by destruct a1. }
  match type of E with ?m a2 = _ => assert (preserves (λ x, outbox x = outbox a2) m) as K end.
  { unfold now. walk; try by intros ? <-. intros ? <-. unfold note_packet_sent. by repeat case_match. }
  specialize (K a2 eq_refl). rewrite E in K. cbn [snd] in K. congruence.
Qed.
End sender.

(** ** The theorem *)

Section delivery.
Context `{BL : BytesLaws} `{HK : Hkdf} `{AL : AeadLaws} `{CC : ChaCha20} `{LM : Libm} `{EV : Env}.
Context `{SH : Sha256} `{ED : Ed25519} `{XD : X25519}.

(** The sender [a] and the receiver [b] are two ends of one established connection: their key
    schedules come from one secret, and their views of the packet numbers are close enough. *)
Record ends (root : bytes) (role : bool) (m n : nat) (a b : Actor) : Prop := {
  en_keys : ∀ k, crypto (conn a) = Some k → can_open root role m n k (next_packet_number (conn a)) b;
  en_state : state (conn a) = Active;
  en_epoch : current_key_epoch (conn a) = Z.of_nat m;
  en_dcid : cid_ok (dcid (conn a));
  en_pn : u_ok 64 (next_packet_number (conn a)) ∧ u_ok 64 (highest_of b);
  en_lowest : let pn := next_packet_number (conn a) in
    0 ≤ lowest_unacked (conn a) pn ≤ Z.min pn (highest_of b + 2) ∧ pn - lowest_unacked (conn a) pn < 2 ^ 31 - 1;
  en_ahead : highest_of b ≤ next_packet_number (conn a) + 126;
}.

(** C5: A payload that [send_payload_with_retries] reports as sent reaches its handler at the
    other end: it put one datagram on the socket, and processing that datagram, from the
    address the receiver knows, is the same as handling the payload's frame in the state where
    the packet number is recorded.  This holds when the sender's keys are those of the
    receiver's epoch or of the one before or after it, in which case the receiver
    moves to the sender's epoch first. *)
Theorem packet_delivered (root : bytes) (role : bool) (m n : nat) (a b a' : Actor)
    (payload : UnackedPayload.t) (retries : Z) (f : Frame.t) :
  ends root role m n a b →
  (∀ h_len, payload_frame payload h_len = Ok f) → frame_typed f → wire_exact f → is_padding f = false →
  send_payload_with_retries payload retries a = (Ok tt, a') →
  ∃ wire new,
    outbox a' = outbox a ++ [(addr (conn a), wire)]
    ∧ process_incoming_packet wire (addr (conn b)) b
      = handle_frame f (addr (conn b)) (accepted (next_packet_number (conn a)) (len wire) new b)
    ∧ from_option (in_epoch root (negb role) (S n)) (m ≠ S n) new.
Proof.
  intros [K Sa Ee Dc [Pa Hb] [[L0 L1] L2] Ah] F T W P E.
  destruct (pn_length_window (conn a) (next_packet_number (conn a)) (highest_of b)) as [Hn Hw]; [done|done|lia..|].
  assert (send_protected_payload payload retries a = (Ok tt, a')) as E'.
  { destruct payload; try exact E. by specialize (F 0). }
  destruct (send_inv _ _ _ _ E' Sa Dc Pa Hn) as (k & f' & wire & Hk & F' & O & Hwire).
  rewrite F in F'. injection F' as <-. set (h := short_header _ _ a) in *.
  rewrite encode_bytes in Hwire by done.
  destruct (pad_packet_bytes (PacketHeader.pn_len h) (header_bytes h) (frame_bytes f) Hn) as (j & Hj & Hpad).
  rewrite Hpad in Hwire. exists wire.
  destruct (receive_sealed root role m n k b h f j (addr (conn b)) wire) as (new & R & N);
    [by apply K|done|by split|done| |done..|by exists new].
  cbn. unfold current_key_phase. by rewrite Ee.
Qed.
End delivery.

Abbreviation sample_send := (@send_payload_with_retries bytes_model hkdf_model aead_model chacha20_model env_model
  sha256_model ed25519_model (UnackedPayload.Stream 4 Bidirectional 0 [104; 105]) 0).
Abbreviation sample_root := (@derive_master_secret hkdf_model [9] [2; 2] [1; 1] None true).

Lemma packet_delivered_witness :
  let f := Frame.Stream 4 Bidirectional 0 [104; 105] in
  ∃ wire new,
    outbox (sample_send (sample_end true)).2 = [(sample_addr, wire)]
    ∧ @process_incoming_packet bytes_model hkdf_model aead_model chacha20_model libm_model env_model sha256_model
        ed25519_model x25519_model wire sample_addr (sample_end false)
      = @handle_frame bytes_model hkdf_model aead_model chacha20_model libm_model env_model sha256_model
          ed25519_model f sample_addr (@accepted env_model 0 (len wire) new (sample_end false))
    ∧ from_option (@in_epoch hkdf_model sample_root false 1) (0%nat ≠ 1%nat) new.
Proof.
  apply (@packet_delivered bytes_model bytes_model_laws hkdf_model aead_model aead_model_laws chacha20_model
    libm_model env_model sha256_model ed25519_model x25519_model
    sample_root true 0 0 (sample_end true) (sample_end false) (sample_send (sample_end true)).2
    (UnackedPayload.Stream 4 Bidirectional 0 [104; 105]) 0 (Frame.Stream 4 Bidirectional 0 [104; 105])).
  - split; try closed. intros k [= <-]. split.
    + exact (@shared_in_epoch hkdf_model [9] [2; 2] [1; 1] None true 0 eq_refl).
    + eexists. split; [reflexivity|]. exact (@shared_in_epoch hkdf_model [9] [2; 2] [1; 1] None false 0 eq_refl).
    + reflexivity.
    + reflexivity.
    + by left.
    + reflexivity.
  - done.
  - closed.
  - closed.
  - reflexivity.
  - vm_compute. reflexivity.
Defined.
