(* ===== verification/HandshakeFacts.v ===== *)
(** * Packets under the initial keys

    Initial and Handshake packets are protected with keys anyone can derive from a connection
    id.  What one side seals with them, the other opens. *)

From stdpp Require Import strings.
From S2P Require Import Prelude Errors Effects Buf Config StreamType Frames FrameFacts FrameSafety FrameProps Packet PacketFacts.
From S2P Require Import PacketNumber HeaderProtection Bitmap ReplayWindow AckTracker Unacked Cookie KeyDerivation.
From S2P Require Import CryptoContext CryptoFacts Float Congestion Connection Actor ActFacts PacketSender Retransmit HandshakeHandler.
From S2P Require Import IncomingHandler EventLoop Endpoint ServerHandshake ActorRun Pipeline.

Section wire.
Context `{BL : BytesLaws} `{HK : Hkdf} `{AL : AeadLaws} {AT : AeadTotal} `{CC : ChaCha20} {KT : KeystreamTotal}.

Abbreviation pn_at h := (S (length (header_mid h))).

Lemma initial_epoch cid role : in_epoch (derive_initial_secret cid) role 0 (initial cid role).
Proof. apply fresh_in_epoch. Qed.

Lemma initial_hp cid role : rx_hp_key (initial cid (negb role)) = tx_hp_key (initial cid role).
Proof.
  destruct (ie_hp _ _ _ _ (initial_epoch cid (negb role))) as [_ ->], (ie_hp _ _ _ _ (initial_epoch cid role)) as [-> _].
  by rewrite hp_keys_mirror.
Qed.

(** The packet [wire] is [pt] behind the header [h], sealed with the initial keys of [cid]. *)
Definition sealed (cid : bytes) (role : bool) (h : PacketHeader.t) (pt wire : bytes) : Prop :=
  ∃ ct tag, encrypt_in_place (initial cid role) (PacketHeader.packet_number h) (header_bytes h) pt = Ok (ct, tag)
    ∧ length ct = length pt ∧ length tag = 16%nat
    ∧ apply_header_protection (header_bytes h ++ ct ++ tag) (pn_at h) (tx_hp_key (initial cid role)) = Ok wire.

Lemma le_val_bound l : bytes_ok l → length l = 4%nat → 0 ≤ le_val l < 2 ^ 32.
Proof.
  intros B L. unfold le_val. pose proof (be_val_bound (rev l) (Forall_rev B)) as Hb.
  unfold len in Hb. rewrite length_rev, L in Hb. exact Hb.
Qed.

Lemma apply_total p off key :
  (off + 20 ≤ length p)%nat → bytes_ok (drop (off + 4) p) → ∃ p', apply_header_protection p off key = Ok p'.
Proof.
  intros L B. unfold apply_header_protection. rewrite decide_False by lia. unfold hp_mask.
  assert (bytes_ok (take 4 (take 16 (drop (off + 4) p)))) as B4 by (by repeat apply Forall_take).
  destruct (keystream_total key (drop 4 (take 16 (drop (off + 4) p))) (le_val (take 4 (take 16 (drop (off + 4) p))))) as [ks ->].
  - apply le_val_bound; [done|]. rewrite !length_take, length_drop. lia.
  - cbn [mbind res_bind]. by eexists.
Qed.

(** Encryption and protection succeed on packets with a sample. *)
Lemma seal_total cid role h pt :
  header_ok h → bytes_ok pt → len pt < 2 ^ 32 → 4 ≤ PacketHeader.pn_len h + len pt →
  ∃ ct tag wire, encrypt_in_place (initial cid role) (PacketHeader.packet_number h) (header_bytes h) pt = Ok (ct, tag)
    ∧ apply_header_protection (header_bytes h ++ ct ++ tag) (pn_at h) (tx_hp_key (initial cid role)) = Ok wire
    ∧ sealed cid role h pt wire ∧ len wire = len (header_bytes h) + len pt + 16.
Proof.
  intros HO B L Hs.
  destruct (aead_total (tx_cipher (initial cid role)) (make_nonce_from_iv (tx_iv (initial cid role)) (PacketHeader.packet_number h))
    (header_bytes h) pt B L) as (ct & tag & E & Bc & Bt).
  destruct (aead_lengths _ _ _ _ _ _ E) as [Lc Lt]. pose proof (len_header_bytes h HO) as Lh. pose proof (ho_pn_len h HO).
  destruct (apply_total (header_bytes h ++ ct ++ tag) (pn_at h) (tx_hp_key (initial cid role))) as [wire A].
  - rewrite !length_app. unfold len in *. lia.
  - rewrite drop_app_ge by (unfold len in *; lia). apply Forall_drop. by apply Forall_app.
  - assert (encrypt_in_place (initial cid role) (PacketHeader.packet_number h) (header_bytes h) pt = Ok (ct, tag)) as E'
      by (unfold encrypt_in_place, generate_nonce; by rewrite E).
    exists ct, tag, wire. split; [done|]. split; [done|]. split; [by exists ct, tag|].
    apply apply_keeps in A as [A _]. unfold len. rewrite A, !length_app. lia.
Qed.

Lemma protect_seals cid role h pt :
  header_ok h → bytes_ok pt → len pt < 2 ^ 32 → 4 ≤ PacketHeader.pn_len h + len pt →
  ∃ wire, protect_packet (initial cid role) (PacketHeader.packet_number h) (len (header_bytes h)) (header_bytes h ++ pt) = Ok wire
    ∧ sealed cid role h pt wire ∧ len wire = len (header_bytes h) + len pt + 16.
Proof.
  intros HO B L Hs. destruct (seal_total cid role h pt HO B L Hs) as (ct & tag & wire & E & A & S & W).
  exists wire. split; [|done]. unfold protect_packet, len. rewrite Nat2Z.id, take_app_length, drop_app_length, E.
  cbn [mbind res_bind]. rewrite pn_offset_header by done. cbn [mbind res_bind].
  replace (Z.to_nat (1 + len (header_mid h))) with (pn_at h) by (unfold len; lia). exact A.
Qed.

Lemma lenient_seals cid role h pt :
  header_ok h → bytes_ok pt → len pt < 2 ^ 32 → 4 ≤ PacketHeader.pn_len h + len pt →
  ∃ wire, protect_lenient (initial cid role) (PacketHeader.packet_number h) (header_bytes h) pt = Ok wire
    ∧ sealed cid role h pt wire.
Proof.
  intros HO B L Hs. destruct (seal_total cid role h pt HO B L Hs) as (ct & tag & wire & E & A & S & _).
  exists wire. split; [|done]. unfold protect_lenient. rewrite E. cbn [mbind res_bind]. rewrite pn_offset_header by done. cbn [mbind res_bind].
  replace (Z.to_nat (1 + len (header_mid h))) with (pn_at h) by (unfold len; lia).
  unfold ctx_apply_header_protection. by rewrite A.
Qed.

(** The other side reads the connection id and the position of the packet number off the sealed
    packet, removes the protection and decrypts. *)
Lemma sealed_opens cid role h pt wire :
  header_ok h → PacketHeader.is_long h = true → sealed cid role h pt wire →
  PacketHeader.get_pn_offset wire = Ok (Some (1 + len (header_mid h)))
  ∧ extract_dcid_fast wire = Ok (Some (PacketHeader.dcid h))
  ∧ (∃ mask, at_index wire 0 = Ok (Z.lxor (first_byte h) (first_mask (first_byte h) mask)))
  ∧ ∃ ct tag, length tag = 16%nat
    ∧ ctx_remove_header_protection (initial cid (negb role)) wire (Z.to_nat (1 + len (header_mid h)))
      = Ok (header_bytes h ++ ct ++ tag)
    ∧ decrypt_in_place (initial cid (negb role)) (PacketHeader.packet_number h) (header_bytes h) ct tag false = Ok pt.
Proof.
  intros HO HL (ct & tag & E & Lc & Lt & A). pose proof (first_byte_ok h HO) as (_&F&_).
  pose proof A as A'. unfold header_bytes in A'. rewrite <- !app_assoc in A'.
  destruct (protected_shape _ _ _ _ _ A') as (b' & r' & -> & Hb). unfold is_long_byte in Hb. rewrite F in Hb.
  destruct (shortcuts_agree h b' r' HO Hb) as [-> ->]. split; [done|]. split; [done|]. split.
  - destruct (apply_first_byte _ _ _ _ (first_byte h) (le_n_S _ _ (Nat.le_0_l _)) A' eq_refl) as [mask Hm]. exists mask.
    cbn in Hm. rewrite <- Hm. by apply (at_index_app []).
  - exists ct, tag. split; [done|]. split.
    + unfold ctx_remove_header_protection. rewrite initial_hp.
      replace (Z.to_nat (1 + len (header_mid h))) with (pn_at h) by (unfold len; lia). apply hp_apply_remove; [lia|done].
    + eapply open_same_epoch; [apply initial_epoch..|done].
Qed.

(** A packet number that is sent in full. *)
Lemma untruncated h :
  0 ≤ PacketHeader.packet_number h < 256 ^ PacketHeader.pn_len h →
  h <| PacketHeader.packet_number ::= λ pn, pn mod 256 ^ PacketHeader.pn_len h |> = h.
Proof.
  intros Hp. change (h <| PacketHeader.packet_number := PacketHeader.packet_number h mod 256 ^ PacketHeader.pn_len h |> = h).
  by rewrite Z.mod_small.
Qed.

(** The server opens an Initial packet of a client. *)
Lemma open_initial_sealed h pt wire :
  header_ok h → PacketHeader.p_type h = PacketType.Initial → PacketHeader.version h = PROTOCOL_VERSION →
  PacketHeader.packet_number h < 256 ^ PacketHeader.pn_len h → 1200 ≤ len wire →
  sealed (PacketHeader.dcid h) true h pt wire → open_initial wire = Ok (Some (h, pt)).
Proof.
  intros HO Ht Hv Hp Hl S. assert (PacketHeader.is_long h = true) as HL by (by rewrite (ho_form h HO), Ht).
  destruct (sealed_opens _ _ _ _ _ HO HL S) as (E1 & E2 & _ & ct & tag & Lt & E3 & E4). cbn [negb] in E3, E4.
  unfold open_initial. replace (len wire <? 1200) with false by lia.
  unfold unprotect_initial. rewrite E1. cbn [mbind res_bind]. rewrite E2. cbn [mbind res_bind]. rewrite E3. cbn [mbind res_bind].
  assert (PacketHeader.decode (header_bytes h ++ ct ++ tag) = (Ok h, ct ++ tag)) as ->.
  { unfold header_bytes. rewrite <- !app_assoc, decode_header_bytes by (done || by apply first_byte_ok).
    rewrite untruncated; [done|]. destruct (ho_pn h HO). lia. }
  unfold is_initial. rewrite HL, Ht, Hv. cbn [negb orb].
  assert (16 ≤ len (ct ++ tag)) as L16 by (unfold len; rewrite length_app; lia).
  replace (len (ct ++ tag) <? 16) with false by lia.
  replace (length (header_bytes h ++ ct ++ tag) - length (ct ++ tag))%nat with (length (header_bytes h)) by (rewrite !length_app; lia).
  replace (length (ct ++ tag) - 16)%nat with (length ct) by (rewrite length_app; lia).
  by rewrite take_app_length, take_app_length, drop_app_length, E4.
Qed.

(** ** The frames of the handshake *)

(** What a frame adds to what was read of an Initial packet. *)
Definition initial_step (r : InitialFrames) (f : Frame.t) : res InitialFrames :=
  match f with
  | Frame.Handshake pk epk th sg al => Ok (mkInitialFrames (Some (pk, epk, th, sg, al)) (in_cookie r) (in_parameters r))
  | Frame.Cookie c => Ok (mkInitialFrames (in_handshake r) (Some c) (in_parameters r))
  | Frame.TransportParameters parameters =>
      p ← params_validate parameters;
      match in_parameters r with
      | Some _ => Err (InvalidPacket "duplicate transport parameters")
      | None => Ok (mkInitialFrames (in_handshake r) (in_cookie r) (Some p))
      end
  | _ => Ok r
  end.

Lemma read_initial_frames fs r :
  Forall frame_typed fs → Forall wire_exact fs → no_adjacent_padding fs →
  let pt := mjoin (frame_bytes <$> fs) in
  read_initial (length pt) r pt = foldl (λ r f, r ≫= λ st, initial_step st f) (Ok r) fs.
Proof.
  intros T W N pt. apply loop_frames; [by intros []|..|done|done|done|done].
  intros fuel st s f s' Hs D. cbn [read_initial]. replace (len s =? 0) with false by lia. rewrite D.
  destruct f; try done. cbn [initial_step mbind res_bind]. destruct (params_validate _); [|done..]. cbn. by destruct (in_parameters st).
Qed.

(** What a frame adds to what was read of the server's response. *)
Definition response_step (r : Response) (f : Frame.t) : res Response :=
  match f with
  | Frame.Handshake pk epk th sg al => Ok (mkResponse (Some (pk, epk, th, sg, al)) (rs_parameters r))
  | Frame.TransportParameters parameters =>
      match rs_parameters r with
      | Some _ => Err (InvalidPacket "duplicate transport parameters")
      | None => p ← params_validate parameters; Ok (mkResponse (rs_handshake r) (Some p))
      end
  | _ => Ok r
  end.

Lemma read_response_frames fs r :
  Forall frame_typed fs → Forall wire_exact fs → no_adjacent_padding fs →
  let pt := mjoin (frame_bytes <$> fs) in
  read_response (length pt) r pt = foldl (λ r f, r ≫= λ st, response_step st f) (Ok r) fs.
Proof.
  intros T W N pt. apply loop_frames; [by intros []|..|done|done|done|done].
  intros fuel st s f s' Hs D. cbn [read_response]. replace (len s =? 0) with false by lia. rewrite D.
  destruct f; try done. cbn [response_step]. destruct (rs_parameters st); [done|]. cbn [mbind res_bind]. by destruct (params_validate _).
Qed.
End wire.
