(* ===== verification/WireSafety.v ===== *)
(** * Building and opening packets never panics

    The bytes of a packet, on their way out and in: the encoders append bytes, protection and
    encryption keep them bytes, and whatever datagram arrives, taking it apart ends with a
    result or an error.  What this needs of the third-party code besides its laws is that what
    it returns are bytes ([AeadTyped], [KeystreamTyped]). *)

From stdpp Require Import strings.
From S2P Require Import Prelude Errors Effects Buf Config StreamType Frames FrameFacts FrameSafety FrameProps Packet PacketFacts.
From S2P Require Import PacketNumber HeaderProtection Bitmap ReplayWindow AckTracker Unacked Cookie KeyDerivation.
From S2P Require Import CryptoContext CryptoFacts Float Congestion Connection Actor PacketSender Retransmit HandshakeHandler.
From S2P Require Import IncomingHandler EventLoop Endpoint ServerHandshake Router ActorRun HandshakeFacts.

(** Encryption and decryption in place work on bytes. *)
Class AeadTyped `{Aead} : Prop := {
  aead_encrypt_typed key nonce aad pt ct tag :
    aead_encrypt key nonce aad pt = Some (ct, tag) → bytes_ok pt → bytes_ok ct ∧ bytes_ok tag;
  aead_decrypt_typed key nonce aad ct tag pt :
    aead_decrypt key nonce aad ct tag = Some pt → bytes_ok ct → bytes_ok pt ∧ length pt = length ct;
}.

(** The keystream is bytes. *)
Class KeystreamTyped `{ChaCha20} : Prop :=
  keystream_typed key nonce pos n ks : chacha20_keystream key nonce pos n = Some ks → bytes_ok ks.

Lemma aead_model_typed : @AeadTyped aead_model.
Proof.
  split.
  - intros key nonce aad pt ct tag [= <- <-] B. split; [done|apply (be_bytes_ok 16)].
  - intros key nonce aad ct tag pt. cbn -[be_bytes]. case_decide; [|done]. by intros [= <-].
Qed.
Lemma chacha20_model_typed : @KeystreamTyped chacha20_model.
Proof.
  intros key nonce pos n ks [= <-]. apply Forall_take, Forall_fmap, Forall_true. intros i. apply Z.mod_pos_bound. lia.
Qed.

(** A buffer of at most [K] bytes; a piece of data of a size that exists. *)
Definition wire (K : Z) (d : bytes) : Prop := bytes_ok d ∧ len d ≤ K.
Definition blob (d : bytes) : Prop := bytes_ok d ∧ len d < 2 ^ 60.

Lemma wire_mono K K' d : wire K d → K ≤ K' → wire K' d.
Proof. intros [] ?. split; [done|lia]. Qed.
Lemma wire_app K K' x y : wire K x → wire K' y → wire (K + K') (x ++ y).
Proof. intros [] []. split; [by apply Forall_app|]. rewrite len_app. lia. Qed.
Lemma wire_be n v : wire (Z.of_nat n) (be_bytes n v).
Proof. split; [apply be_bytes_ok|]. by rewrite len_be_bytes. Qed.
Lemma wire_len d : bytes_ok d → wire (len d) d.
Proof. by split. Qed.
Lemma wire_blob d : blob d → wire (2 ^ 60) d.
Proof. intros []. split; [done|lia]. Qed.
Lemma wire_array n d : array_ok n d → wire n d.
Proof. intros []. split; [done|lia]. Qed.
Lemma wire_blob_le K d : wire K d → K < 2 ^ 60 → blob d.
Proof. intros [] ?. split; [done|lia]. Qed.

Lemma byte_lxor x y : byte_ok x → byte_ok y → byte_ok (Z.lxor x y).
Proof.
  unfold byte_ok. intros Hx Hy. split; [apply Z.lxor_nonneg; lia|].
  change 256 with (2 ^ 8). apply bounded_by_bits; [lia|apply Z.lxor_nonneg; lia|].
  intros i Hi. rewrite Z.lxor_spec, !(testbit_above _ 8) by lia. done.
Qed.

(** ** Encoders *)

(** The data a frame carries. *)
Definition frame_blob (f : Frame.t) : Prop :=
  match f with
  | Frame.Padding n => n < 2 ^ 60
  | Frame.Stream _ _ _ d | Frame.Cookie d | Frame.Datagram d | Frame.PathChallenge d | Frame.PathResponse d
  | Frame.Crypto _ d | Frame.ConnectionCloseV2 _ d => blob d
  | Frame.Handshake pk epk th sg al => array_ok 32 pk ∧ array_ok 32 epk ∧ array_ok 32 th ∧ array_ok 64 sg ∧ blob al
  | _ => True
  end.

Section encoders.
Context `{BL : BytesLaws}.

Lemma wire_put_u8 K d v : wire K d → wire (K + 1) (put_u8 d v).
Proof. intros. rewrite put_u8_law. by apply wire_app, (wire_be 1). Qed.
Lemma wire_put_u16 K d v : wire K d → wire (K + 2) (put_u16 d v).
Proof. intros. rewrite put_u16_law. by apply wire_app, (wire_be 2). Qed.
Lemma wire_put_u32 K d v : wire K d → wire (K + 4) (put_u32 d v).
Proof. intros. rewrite put_u32_law. by apply wire_app, (wire_be 4). Qed.
Lemma wire_put_u64 K d v : wire K d → wire (K + 8) (put_u64 d v).
Proof. intros. rewrite put_u64_law. by apply wire_app, (wire_be 8). Qed.
Lemma wire_put_slice K K' d x : wire K d → wire K' x → wire (K + K') (put_slice d x).
Proof. intros. rewrite put_slice_law. by apply wire_app. Qed.
Lemma wire_put_varint K d v : wire K d → wire (K + 8) (Frame.put_varint d v).
Proof.
  intros. unfold Frame.put_varint. repeat case_match;
    (eapply wire_mono; [eauto using wire_put_u8, wire_put_u16, wire_put_u32, wire_put_u64|lia]).
Qed.
Lemma wire_put_ranges K d rs : wire K d → wire (K + 16 * len rs) (Frame.put_ranges d rs).
Proof.
  revert K d. induction rs as [|[s e] rs IH]; intros K d Hd; [eapply wire_mono; [exact Hd|len_lia]|].
  rewrite len_cons. eapply wire_mono; [apply (IH (K + 8 + 8)); eauto using wire_put_u64|]. lia.
Qed.

Lemma wire_frame K f d : wire K d → frame_blob f → wire (K + (2 ^ 60 + 4096)) (Frame.encode f d).
Proof.
  intros Hd Hf. assert (∀ x, blob x → wire (2 ^ 60) x) by apply wire_blob.
  assert (∀ n x, array_ok n x → wire n x) by apply wire_array.
  destruct f; cbn [Frame.encode frame_blob] in *; destruct_and? Hf;
    try (eapply wire_mono; [eauto 20 using wire_put_u8, wire_put_u16, wire_put_u32, wire_put_u64, wire_put_slice, wire_put_varint|lia]).
  - rewrite put_zeros_bytes. eapply wire_mono; [apply wire_app; [exact Hd|]|].
    + apply (wire_len (replicate (Z.to_nat n) 0)), Forall_replicate. unfold byte_ok. lia.
    + rewrite len_replicate. lia.
  - eapply wire_mono; [apply wire_put_ranges; eauto 20 using wire_put_u8, wire_put_u16, wire_put_u32, wire_put_u64, wire_put_varint|].
    rewrite len_take. lia.
  - eapply wire_mono; [apply wire_put_slice; [apply wire_put_u8, Hd|]|].
    + apply wire_len. unfold transcript_bytes. rewrite !Forall_app. split_and!; apply be_bytes_ok.
    + unfold transcript_bytes. rewrite !len_app, !len_be_bytes. lia.
Qed.

Lemma put_pn_safe K d n x : wire K d → 1 ≤ n ≤ 4 → yields False (PacketHeader.put_pn d n x) (wire (K + 4)).
Proof.
  intros Hd Hn. assert (n = 1 ∨ n = 2 ∨ n = 3 ∨ n = 4) as [->|[->|[->| ->]]] by lia; cbn [PacketHeader.put_pn yields].
  - eapply wire_mono; [by apply wire_put_u8|lia].
  - eapply wire_mono; [by apply wire_put_u16|lia].
  - eapply wire_mono; [eapply (wire_put_slice K 3); [done|]|lia]. split; [apply Forall_drop, be_bytes_ok|].
    rewrite len_drop, len_be_bytes. lia.
  - by apply wire_put_u32.
Qed.

(** A header is encoded whatever its numbers are: the packet-number length is clamped. *)
Lemma encode_header_safe h :
  cid_ok (PacketHeader.dcid h) → cid_ok (PacketHeader.scid h) → yields False (PacketHeader.encode h []) (wire 600).
Proof.
  intros [D1 D2] [S1 S2]. unfold PacketHeader.encode. set (d := if PacketHeader.is_long h then _ else _).
  assert (wire 596 d) as Hd; [|by apply (put_pn_safe 596); [done|lia]].
  assert (wire 0 []) by done. assert (∀ x, bytes_ok x → wire (len x) x) by apply wire_len.
  unfold d. destruct (PacketHeader.is_long h);
    (eapply wire_mono; [eauto 20 using wire_put_u8, wire_put_u32, wire_put_slice|len_lia]).
Qed.

Lemma encode_header_total h dst : ∃ w, PacketHeader.encode h dst = Ok w.
Proof.
  unfold PacketHeader.encode. set (n := Z.max 1 (Z.min 4 _)).
  assert (n = 1 ∨ n = 2 ∨ n = 3 ∨ n = 4) as Hn by lia. clearbody n. destruct Hn as [->|[->|[->| ->]]]; by eexists.
Qed.

Lemma wire_pad K n h d : wire K d → 0 ≤ n → h ≤ 4000 → wire (K + 4096) (pad_packet n h d).
Proof.
  intros Hd Hn Hh. unfold pad_packet. destruct (Z.ltb_spec (len d - h) (sat_sub 4 n)) as [|]; [|eapply wire_mono; [done|lia]].
  cbn [Frame.encode]. rewrite put_zeros_bytes. eapply wire_mono; [apply wire_app; [exact Hd|]|].
  - apply (wire_len (replicate _ 0)), Forall_replicate. unfold byte_ok. lia.
  - rewrite len_replicate. unfold sat_sub. len_lia.
Qed.
End encoders.

(** ** Header protection *)

Lemma byte_land x y : byte_ok x → 0 ≤ y → byte_ok (Z.land x y).
Proof.
  unfold byte_ok. intros Hx Hy. assert (0 ≤ Z.land x y) by (apply Z.land_nonneg; lia). split; [done|].
  change 256 with (2 ^ 8). apply bounded_by_bits; [lia|done|].
  intros i Hi. rewrite Z.land_spec, (testbit_above x 8) by lia. done.
Qed.
Lemma nth_byte i l : bytes_ok l → byte_ok (nth i l 0).
Proof.
  intros B. destruct (decide (i < length l)%nat); [by apply Forall_nth|]. rewrite nth_overflow by lia. by unfold byte_ok.
Qed.
Lemma zip_lxor_bytes l k : bytes_ok l → bytes_ok k → bytes_ok (zip_with Z.lxor l k).
Proof.
  intros Hl. revert k. induction Hl as [|x l Hx _ IH]; intros k Hk; [done|]. destruct Hk as [|y k Hy Hk]; [done|].
  constructor; [by apply byte_lxor|by apply IH].
Qed.
Lemma xor_at_bytes m i p : byte_ok m → bytes_ok p → bytes_ok (xor_at m i p).
Proof. intros Hm Hp. apply Forall_alter; [done|]. intros x _ Hx. by apply byte_lxor. Qed.
Lemma xor_pn_bytes mask n off p : bytes_ok mask → bytes_ok p → bytes_ok (xor_pn p off mask n).
Proof.
  intros Hm Hp. unfold xor_pn. generalize (seq 0 n). intros l. revert p Hp. induction l as [|i l IH]; intros p Hp; [done|].
  cbn [foldl]. apply IH. case_decide; [|done]. apply xor_at_bytes; [by apply nth_byte|done].
Qed.
Lemma first_mask_byte b mask : bytes_ok mask → byte_ok (first_mask b mask).
Proof. intros. apply byte_land; [by apply nth_byte|]. by destruct (is_long_byte b). Qed.

Section protection.
Context `{CC : ChaCha20} {KT : KeystreamTotal} {KY : KeystreamTyped}.

Lemma hp_mask_safe key sample : bytes_ok sample → length sample = 16%nat → yields False (hp_mask key sample) bytes_ok.
Proof.
  intros B L. unfold hp_mask.
  destruct (keystream_total key (drop 4 sample) (le_val (take 4 sample))) as [ks E].
  - apply le_val_bound; [by apply Forall_take|]. rewrite length_take. lia.
  - rewrite E. cbn [yields]. apply zip_lxor_bytes; [by repeat constructor|]. by eapply keystream_typed.
Qed.

Lemma sample_length (p : bytes) off : ¬ (length p < off + 4 + 16)%nat → length (take 16 (drop (off + 4) p)) = 16%nat.
Proof. intros. rewrite length_take, length_drop. lia. Qed.

Lemma apply_protection_safe p off key :
  bytes_ok p → yields False (apply_header_protection p off key) (λ p', length p' = length p).
Proof.
  intros B. unfold apply_header_protection. case_decide as D; [done|].
  pose proof (hp_mask_safe key (take 16 (drop (off + 4) p))) as H1.
  destruct (hp_mask key _) as [mask| |]; cbn [mbind res_bind yields] in *; [|done|].
  - rewrite length_xor_pn. unfold xor_at. by rewrite length_alter.
  - apply H1; [by apply Forall_take, Forall_drop|by apply sample_length].
Qed.

Lemma remove_protection_safe p off key :
  bytes_ok p → yields False (remove_header_protection p off key) (λ p', bytes_ok p' ∧ length p' = length p).
Proof.
  intros B. unfold remove_header_protection. case_decide as D; [done|].
  pose proof (hp_mask_safe key (take 16 (drop (off + 4) p)) ltac:(by apply Forall_take, Forall_drop) ltac:(by apply sample_length)) as H1.
  destruct (hp_mask key _) as [mask| |]; cbn [mbind res_bind yields] in *; [|done|done]. split.
  - apply xor_pn_bytes; [done|]. apply xor_at_bytes; [by apply first_mask_byte|done].
  - rewrite length_xor_pn. unfold xor_at. by rewrite length_alter.
Qed.
End protection.

(** ** Packets out *)

Lemma yields_bind {A B} P (r : res A) (f : A → res B) Q R :
  yields P r Q → (∀ x, Q x → yields P (f x) R) → yields P (r ≫= f) R.
Proof. intros H Hf. destruct r; cbn in *; auto. Qed.
Lemma yields_mono {A} P (r : res A) (Q Q' : A → Prop) : yields P r Q → (∀ x, Q x → Q' x) → yields P r Q'.
Proof. intros H HQ. destruct r; cbn in *; auto. Qed.
Lemma yields_weaken {A} (P : Prop) (r : res A) (Q : A → Prop) : yields False r Q → yields P r Q.
Proof. by destruct r. Qed.
Lemma yields_no_panic {A} (r : res A) : r ≠ Panic → yields False r (λ _, True).
Proof. by destruct r. Qed.

Section packets.
Context `{BL : BytesLaws} `{HK : Hkdf} `{AE : Aead} {AL : AeadLaws} {AY : AeadTyped}.
Context `{CC : ChaCha20} {KT : KeystreamTotal} {KY : KeystreamTyped}.

Lemma pn_offset_safe d : bytes_ok d → yields False (PacketHeader.get_pn_offset d) (λ _, True).
Proof. intros B. apply yields_no_panic. by apply (shortcuts_no_panic d). Qed.

Lemma protect_safe K k pn n packet :
  wire K packet → yields False (protect_packet k pn n packet) (λ w, len w ≤ K + 16).
Proof.
  intros [B L]. unfold protect_packet. set (aad := take _ packet). set (pt := drop _ packet).
  assert (bytes_ok pt) as Bp by (by apply Forall_drop). assert (bytes_ok aad) as Ba by (by apply Forall_take).
  assert (len aad + len pt = len packet) as Lp by (unfold aad, pt; rewrite <- len_app, take_drop; done).
  unfold encrypt_in_place. destruct (aead_encrypt _ _ aad pt) as [[ct tag]|] eqn:E; [|done]. cbn [ok_or mbind res_bind].
  destruct (aead_encrypt_typed _ _ _ _ _ _ E Bp) as [Bc Bt]. destruct (aead_lengths _ _ _ _ _ _ E) as [Lc Lt].
  assert (bytes_ok (aad ++ ct ++ tag)) as Bw by (rewrite !Forall_app; done).
  assert (len (aad ++ ct ++ tag) ≤ K + 16) as Lw by (rewrite !len_app; unfold len in *; lia).
  eapply yields_bind; [by apply pn_offset_safe|]. intros [off|] _; [|done].
  eapply yields_mono; [by apply apply_protection_safe|]. cbn beta. unfold len in *. lia.
Qed.

(** ** Packets in *)

Lemma dcid_fast_safe d : bytes_ok d → yields False (extract_dcid_fast d) (λ _, True).
Proof. intros B. apply yields_no_panic. by apply (shortcuts_no_panic d). Qed.

Lemma unprotect_safe data short c :
  bytes_ok data → yields False (unprotect data short c) (λ d, bytes_ok d ∧ length d = length data).
Proof.
  intros B. destruct data as [|b data]; [destruct short; [change (yields False (match crypto c with Some _ => Ok [] | None => Err Unauthorized end)
    (λ d : bytes, bytes_ok d ∧ length d = 0%nat)); destruct (crypto c); done|done]|].
  unfold unprotect. eapply yields_bind; [by apply pn_offset_safe|]. intros off _. destruct short.
  - destruct (crypto c) as [k|]; [|done]. destruct off as [off|]; [|done]. by apply remove_protection_safe.
  - eapply yields_bind; [by apply dcid_fast_safe|]. intros dcid _. destruct off as [off|], dcid as [dcid|]; try done.
    destruct (at_index_in (b :: data) 0) as (x & -> & _); [len_lia|done|]. cbn [mbind res_bind].
    destruct (negb _); [|done]. by apply remove_protection_safe.
Qed.

(** What a packet splits into. *)
Definition pieces (data : bytes) (x : PacketHeader.t * bytes * bytes) : Prop :=
  let '(h, aad, payload) := x in
  cid_ok (PacketHeader.dcid h) ∧ cid_ok (PacketHeader.scid h) ∧ bytes_ok payload ∧ len payload ≤ len data.

Lemma split_packet_safe data : bytes_ok data → yields False (split_packet data) (pieces data).
Proof.
  intros B. unfold split_packet. destruct data as [|b data]; [done|]. set (d := b :: data) in *.
  eapply yields_bind; [by apply pn_offset_safe|]. intros [off|] _; [|done]. cbn [ok_or mbind res_bind].
  destruct (at_index_in d 0) as (x & -> & _); [unfold d; len_lia|done|]. cbn [mbind res_bind].
  destruct (len d <? _); [done|]. set (n := Z.to_nat _).
  pose proof (decode_header_split (take n d) ltac:(by apply Forall_take)) as D. unfold rwp in D.
  destruct (PacketHeader.decode (take n d)) as [[h|e|] r]; cbn [fst mbind res_bind yields]; [|done|done].
  destruct D as ([_ _ _ Hd Hs _ _ _] & _). split_and!; [done|done|by apply Forall_drop|]. rewrite len_drop. len_lia.
Qed.

Lemma decrypt_safe k pn aad payload tag prev :
  bytes_ok payload →
  yields False (decrypt_in_place k pn aad payload tag prev) (λ pt, bytes_ok pt ∧ length pt = length payload).
Proof.
  intros B. unfold decrypt_in_place. destruct prev; [destruct (prev_rx k); [|done]|];
    (destruct (aead_decrypt _ _ _ _ _) as [pt|] eqn:E; [|done]; by eapply aead_decrypt_typed).
Qed.

Lemma trial_safe k pn aad payload tag :
  bytes_ok payload →
  yields False (trial_decrypt_and_rotate k pn aad payload tag) (λ x, bytes_ok x.1 ∧ length x.1 = length payload).
Proof.
  intros B. unfold trial_decrypt_and_rotate. destruct (aead_decrypt _ _ _ _ _) as [pt|] eqn:E; [|done]. cbn.
  by eapply aead_decrypt_typed.
Qed.

(** The loop over the frames of a response. *)
Lemma read_response_safe fuel r s :
  bytes_ok s → u_ok 63 (len s) → (length s ≤ fuel)%nat → yields False (read_response fuel r s) (λ _, True).
Proof.
  revert r s. induction fuel as [|fuel IH]; intros r s B L F; cbn [read_response]; destruct (Z.eqb_spec (len s) 0) as [|N]; try done.
  { unfold len in N. lia. }
  pose proof (decode_step s B L) as D. unfold rwp in D. destruct (Frame.decode s) as [[f|e|] s']; [|done|done].
  destruct D as (_ & _ & B' & L').
  assert (∀ r, yields False (read_response fuel r s') (λ _, True)) as Hn.
  { intros r'. apply IH; [done|unfold u_ok in *; pose proof (len_nonneg s'); lia|unfold len in *; lia]. }
  destruct f; try apply Hn. destruct (rs_parameters r); [done|].
  unfold params_validate. destruct (_ || _); [done|]. apply Hn.
Qed.
End packets.
