(* ===== verification/SoundState.v ===== *)
(** * Sound connection states

    What the state of a connection actor has to satisfy for its methods not to panic: data
    that is bytes, windows and sizes that exist, measured times, a signing key on the client,
    receive buffers in shape.  It also says that the stream data waiting or in flight is what the
    application wrote ([Ledger]).  The methods that send keep it ([runs]) and, from such a state, do
    not panic. *)

From stdpp Require Import strings.
From Stdlib Require Import SpecFloat.
From S2P Require Import Prelude Errors Effects Buf Config StreamType Frames FrameFacts FrameSafety FrameProps Packet PacketFacts.
From S2P Require Import PacketNumber HeaderProtection Bitmap ReplayWindow AckTracker Unacked StreamBuffer RangeFacts BufferFacts Cookie KeyDerivation.
From S2P Require Import CryptoContext Float FloatRange Congestion CongestionFacts Termination Connection AckHandling ConnFrame Actor ActFacts.
From S2P Require Import PacketSender Retransmit HandshakeHandler IncomingHandler EventLoop WireSafety.

(** The clock is read between its origin and 146 years later, and tokens have eight bytes. *)
Class EnvTyped `{Env} : Prop := {
  clock_range n : 0 ≤ clock n < 2 ^ 62;
  token_array n : array_ok 8 (random_token n);
}.

(** ** The invariant *)

(** A size of a packet or of a piece of data. *)
Definition size_ok (n : Z) : Prop := 0 ≤ n < 2 ^ 60.

(** What the application wrote to one of the streams its side opened, where that is known. *)
Class Ledger := ledger : option (Z * bytes).
Definition no_ledger : Ledger := None.

(** The data is a piece of it, at its offset. *)
Definition piece `{Ledger} (id offset : Z) (data : bytes) : Prop :=
  ∀ w, ledger = Some (id, w) → ∃ pre post, w = pre ++ data ++ post ∧ offset = wrap 64 (len pre).
(** The offset is the one of the next write. *)
Definition at_end `{Ledger} (id offset : Z) : Prop := ∀ w, ledger = Some (id, w) → offset = wrap 64 (len w).

(** What may be waiting or in flight: an Initial packet only on a client. *)
Definition payload_sound `{Ledger} (client : bool) (p : UnackedPayload.t) : Prop :=
  match p with
  | UnackedPayload.Initial cookie => client = true ∧ from_option blob True cookie
  | UnackedPayload.Stream id _ offset data => blob data ∧ piece id offset data
  | UnackedPayload.Datagram data | UnackedPayload.ConnectionCloseV2 _ data => blob data
  | UnackedPayload.MtuProbe target_size => size_ok target_size
  | _ => True
  end.

Definition packet_sound `{Ledger} (client : bool) (up : UnackedPacket) : Prop :=
  payload_sound client (up_payload up) ∧ 0 ≤ up_sent_at up.

(** A receive buffer in shape, of the size of the stream's window. *)
Definition stream_sound `{Ledger} (top id : Z) (s : StreamState) : Prop :=
  ∃ c, buf_ok (receive_buffer s) c ∧ write_head (receive_buffer s) < 2 ^ 64
    ∧ capacity (receive_buffer s) = window_size s ∧ window_size s ≤ top ∧ at_end id (next_tx_offset s).

(** A round-trip time that was measured. *)
Definition rtt_ok (t : Z) : Prop := 0 ≤ t < 2 ^ 62.

Section sound.
Context `{LM : Libm} `{LG : Ledger}.
Context (client : bool) (top : Z).

Record conn_sound (c : ZtConnection) : Prop := {
  cs_dcid : cid_ok (dcid c);
  cs_scid : cid_ok (scid c);
  cs_handshake : ∀ hs, handshake_packet c = Some hs → len hs < 2 ^ 63;
  cs_unacked : Forall (from_option (packet_sound client) True) (deque (unacked_packets c));
  cs_queue : Forall (λ x, payload_sound client x.1) (unpaced_queue c);
  cs_rtt : rtt_ok (rtt c);
  cs_segment : 0 < segment (cc c);
  cs_mtu : 0 < mtu c < 2 ^ 60;
  cs_base : 0 < base_mtu c < 2 ^ 60;
  cs_probes : 0 ≤ mtu_min c < 2 ^ 60 ∧ mtu_max c < 2 ^ 60;
  cs_streams : map_Forall (stream_sound top) (streams c);
}.

Record sound (a : Actor) : Prop := {
  so_client : on_client a = client;
  so_key : is_Some (ed_signing_key a) ↔ client = true;
  so_alpn : blob (alpn a);
  so_public : array_ok 32 (public_key a) ∧ array_ok 32 (ed_public_key a);
  so_token : ∀ t, path_validation_token a = Some t → array_ok 8 t;
  so_window : 0 < cfg_initial_stream_window (config a) ≤ top ∧ max_stream_window (config a) ≤ top < 2 ^ 64;
  so_ledger : ∀ id w, ledger = Some (id, w) → id mod 2 = (if client then 0 else 1) ∧ (next_stream_id a ≤ id → w = []);
  so_conn : conn_sound (conn a);
}.

(** *** What it reads *)

Definition conn_facts (c : ZtConnection) :=
  (dcid c, scid c, handshake_packet c, deque (unacked_packets c), unpaced_queue c, rtt c, cc c,
   (mtu c, base_mtu c, mtu_min c, mtu_max c), unsignalled (streams c)).
Definition actor_facts (a : Actor) :=
  (on_client a, ed_signing_key a, alpn a, (public_key a, ed_public_key a), path_validation_token a, config a, next_stream_id a).

(** Changes of a stream that concern neither its buffer nor its offset. *)
Definition same_buffer (s s' : StreamState) : Prop :=
  receive_buffer s' = receive_buffer s ∧ window_size s' = window_size s ∧ next_tx_offset s' = next_tx_offset s.
Lemma stream_sound_same id s s' : same_buffer s s' → stream_sound top id s → stream_sound top id s'.
Proof. intros (E1 & E2 & E3). unfold stream_sound. by rewrite E1, E2, E3. Qed.

Lemma streams_view m m' :
  unsignalled m' = unsignalled m → map_Forall (stream_sound top) m → map_Forall (stream_sound top) m'.
Proof.
  intros Es M id s' Hs'. assert (unsignalled m' !! id = unsignalled m !! id) as E by (by rewrite Es).
  unfold unsignalled in E. rewrite !lookup_fmap, Hs' in E. destruct (m !! id) as [s|] eqn:Hs; [|done].
  apply (inj Some (s' <| window_opened := false |>) (s <| window_opened := false |>)) in E.
  eapply stream_sound_same; [|exact (M id s Hs)]. exact (conj (f_equal receive_buffer E) (conj (f_equal window_size E) (f_equal next_tx_offset E))).
Qed.

Lemma conn_view c c' : conn_facts c' = conn_facts c → conn_sound c → conn_sound c'.
Proof.
  intros [= E1 E2 E3 E4 E5 E6 E7 E8 E9 E10 E11 E12] [].
  split; rewrite ?E1, ?E2, ?E3, ?E4, ?E5, ?E6, ?E7, ?E8, ?E9, ?E10, ?E11; try done. by eapply streams_view.
Qed.

Lemma sound_view a a' :
  actor_facts a' = actor_facts a → conn_facts (conn a') = conn_facts (conn a) → sound a → sound a'.
Proof.
  intros [= E1 E2 E3 E4 E5 E6 E7 E8] Ec []. split; rewrite ?E1, ?E2, ?E3, ?E4, ?E5, ?E6, ?E7, ?E8; try done.
  by eapply conn_view.
Qed.

Lemma sound_conn a c : sound a → conn_sound c → sound (a <| conn := c |>).
Proof. intros [] Hc. by split. Qed.
End sound.
