(* ===== verification/SoundConn.v ===== *)
(** * Acknowledgements and losses keep a connection sound

    The bookkeeping of packets in flight: whatever a peer acknowledges, and whatever is
    declared lost, the connection stays sound and nothing panics. *)

From stdpp Require Import strings.
From Stdlib Require Import SpecFloat.
From S2P Require Import Prelude Errors Effects Buf Config StreamType Frames Packet PacketFacts.
From S2P Require Import HeaderProtection Unacked StreamBuffer Cookie KeyDerivation CryptoContext.
From S2P Require Import Float FloatRange Congestion CongestionFacts Termination Connection AckHandling ConnFrame Actor.
From S2P Require Import PacketSender Retransmit WireSafety SoundState.

(** ** Congestion controllers *)

Section controllers.
Context `{LM : Libm}.

Lemma additive_increase_total mtu b w : 0 < mtu → ∃ i, additive_increase mtu b w = Ok i.
Proof. intros H. unfold additive_increase, udiv. destruct (Z.eqb_spec (Z.max w mtu) 0); [lia|]. by eexists. Qed.

Lemma acked_total b rtt now (c : BoxedController) :
  0 < segment c → ∃ c', on_packet_acked b rtt now c = Ok c' ∧ segment c' = segment c.
Proof.
  destruct c as [c|c]; intros Hs.
  - change (0 < cu_mtu c) in Hs. cbn [on_packet_acked boxed_controller cubic_controller]. unfold cubic_on_packet_acked.
    destruct (_ <? _); [by eexists|]. destruct (update_target_window rtt now c) as (_ & E & _).
    destruct (additive_increase_total (cu_mtu (update_target rtt now (start_epoch now c))) b
      (cu_cwnd (update_target rtt now (start_epoch now c)))) as [i ->]; [rewrite E; done|]. cbn [mbind res_bind].
    destruct (_ <? _); (eexists; split; [reflexivity|exact E]).
  - change (0 < re_mtu c) in Hs. cbn [on_packet_acked boxed_controller reno_controller]. unfold reno_on_packet_acked.
    destruct (_ <? _); [by eexists|]. destruct (additive_increase_total (re_mtu c) b (re_cwnd c) Hs) as [i ->]. by eexists.
Qed.

Lemma event_segment rtt now (c : BoxedController) : segment (on_congestion_event rtt now c) = segment c.
Proof.
  destruct c as [c|c].
  - change (cu_mtu (cubic_on_congestion_event rtt now c) = cu_mtu c). unfold cubic_on_congestion_event.
    destruct (within_rtt _ _ _); [done|]. cbv zeta. set (c1 := c <| cu_last_congestion_time := Some now |>).
    by destruct (fast_convergence_window (f_div (f_of (cu_cwnd c1)) (f_of (cu_mtu c1))) (f_lit 7 10) c1) as (_ & E & _).
  - change (re_mtu (reno_on_congestion_event rtt now c) = re_mtu c). unfold reno_on_congestion_event.
    by destruct (within_rtt _ _ _).
Qed.
End controllers.

(** ** Packets in flight *)

Section window.
Context (P : UnackedPacket → Prop).
Abbreviation held := (Forall (from_option P True)).

Lemma trim_held b d : held d → held (Window.trim b d).2.
Proof. intros H. revert b. induction H as [|[up|] d Hx Hd IH]; intros b; cbn; [done|by constructor|apply IH]. Qed.

Lemma remove_held pn w : held (deque w) →
  held (deque (Window.remove pn w).2) ∧ from_option P True (Window.remove pn w).1.
Proof.
  intros H. unfold Window.remove. destruct (pn <? _); [done|]. destruct (deque w !! _) as [slot|] eqn:E; [|done].
  pose proof (trim_held (base_pn w) (<[Z.to_nat (pn - base_pn w) := None]> (deque w))) as T.
  destruct (Window.trim _ _) as [b d]. split; [apply T; by apply Forall_insert|]. by apply (Forall_lookup_1 _ _ _ _ H E).
Qed.

Lemma insert_held pn up w : held (deque w) → P up → held (deque (Window.insert pn up w)).
Proof.
  intros H Hp. unfold Window.insert. destruct (_ <? _); [done|]. apply Forall_insert; [|done].
  case_decide; [|done]. apply Forall_app. split; [done|]. by apply Forall_replicate.
Qed.
End window.

Section bookkeeping.
Context `{LM : Libm}.
Context `{LG : Ledger} (client : bool) (top : Z).
Abbreviation conn_sound := (conn_sound client top).

Lemma sound_payload_len p : payload_sound client p → size_ok (UnackedPayload.payload_len p).
Proof.
  unfold size_ok. destruct p; cbn; try lia; try done; [intros [[_ H] _]|intros [_ H]..]; pose proof (len_nonneg data); lia.
Qed.

(** A connection that differs in its packets in flight. *)
Lemma sound_unacked c w :
  conn_sound c → Forall (from_option (packet_sound client) True) (deque w) → conn_sound (c <| unacked_packets := w |>).
Proof. intros [] H. by split. Qed.

Lemma sound_removed c pn r w :
  conn_sound c → Window.remove pn (unacked_packets c) = (r, w) →
  conn_sound (c <| unacked_packets := w |>) ∧ from_option (packet_sound client) True r.
Proof.
  intros C E. destruct (remove_held (packet_sound client) pn (unacked_packets c) (cs_unacked _ _ _ C)) as [H1 H2].
  rewrite E in H1, H2. split; [by apply sound_unacked|done].
Qed.

Lemma sound_track c pn p t r b n :
  conn_sound c → payload_sound client p → 0 ≤ t → conn_sound (track_packet pn p t r b n c).
Proof.
  intros C Hp Ht. apply (sound_unacked c (Window.insert pn _ (unacked_packets c)) C).
  apply insert_held; [apply C|done].
Qed.

(** *** Sizes of the path *)

Lemma sound_probe_success t c : size_ok t → conn_sound c → conn_sound (record_mtu_probe_success t c).
Proof.
  intros Ht C. unfold record_mtu_probe_success. set (c1 := c <| mtu_probe_successes ::= _ |> <| mtu_min ::= _ |>).
  assert (conn_sound c1) as C1.
  { destruct C. split; try done. split; [|by destruct cs_probes].
    change (0 ≤ Z.max (mtu_min c) t < 2 ^ 60). unfold size_ok in Ht. lia. }
  destruct (Z.ltb_spec (mtu c1) t) as [Hlt|]; [|done]. pose proof (cs_mtu _ _ _ C1) as Hm.
  assert (0 < t < 2 ^ 60) as H1 by (unfold size_ok in Ht; lia).
  destruct C1. split; try done. change (0 < segment (set_mtu t (cc c1))). destruct (set_mtu_spec t (cc c1)) as [-> _]. lia.
Qed.

Lemma sound_probe_failure t c : conn_sound c → conn_sound (record_mtu_probe_failure t c).
Proof.
  intros C. pose proof (cs_probes _ _ _ C) as [H1 H2]. destruct C. split; try done. split; [exact H1|].
  change (Z.min (mtu_max c) (sat_sub t 1) < 2 ^ 60). lia.
Qed.

Lemma sound_blackhole c : conn_sound c → conn_sound (recover_mtu_blackhole c).2.
Proof.
  intros C. unfold recover_mtu_blackhole. destruct (_ <=? _); [done|]. cbn [snd].
  pose proof (cs_base _ _ _ C) as Hb. pose proof (cs_mtu _ _ _ C) as Hm. destruct C. split; try done.
  - change (0 < segment (set_mtu (base_mtu c) (cc c))). destruct (set_mtu_spec (base_mtu c) (cc c)) as [-> _]. lia.
  - split; [change (0 ≤ base_mtu c < 2 ^ 60); lia|].
    change (Z.max (sat_sub (mtu c) 1) (base_mtu c) < 2 ^ 60). unfold sat_sub. lia.
Qed.

(** *** Acknowledgements *)

Definition acc_sound (a : AckAcc) : Prop := from_option rtt_ok True (sample_rtt a).
Abbreviation acking st := (conn_sound st.1 ∧ acc_sound st.2).

Lemma elapsed_ok t s : rtt_ok t → 0 ≤ s → rtt_ok (duration_since t s).
Proof. unfold rtt_ok, duration_since, sat_sub. lia. Qed.

Lemma count_acked_sound t up a : rtt_ok t → packet_sound client up → acc_sound a → acc_sound (count_acked t up a).
Proof.
  unfold acc_sound, count_acked. cbn [sample_rtt]. intros Ht [_ Hs] Ha. destruct (sample_rtt a); [done|].
  destruct (_ =? _); [|done]. by apply elapsed_ok.
Qed.

Lemma sound_probe_acked pn up c : packet_sound client up → conn_sound c → conn_sound (probe_acked pn up c).
Proof.
  intros [Hp _] C. unfold probe_acked. destruct (up_is_mtu_probe up); [|done]. destruct (_ && _); [|by destruct C; split].
  apply sound_probe_success; [by apply sound_payload_len|]. by destruct C; split.
Qed.

Lemma sack_one_sound t st pn : rtt_ok t → acking st → acking (sack_one t st pn).
Proof.
  intros Ht [C A]. destruct st as [c a]. unfold sack_one. cbn [fst snd] in *.
  destruct (Window.remove pn (unacked_packets c)) as [r w] eqn:E. destruct (sound_removed _ _ _ _ C E) as [C' Hr].
  destruct r as [up|]; [|done]. split; [by apply sound_probe_acked|by apply count_acked_sound].
Qed.

Lemma cumulative_one_sound t st pn : rtt_ok t → acking st → acking (cumulative_one t st pn).
Proof.
  intros Ht [C A]. destruct st as [c a]. unfold cumulative_one. cbn [fst snd] in *.
  destruct (Window.remove pn (unacked_packets c)) as [r w] eqn:E. destruct (sound_removed _ _ _ _ C E) as [C' Hr].
  destruct r as [up|]; [|done]. split; [done|by apply count_acked_sound].
Qed.

Lemma fold_sound {S X} (R : S → Prop) (f : S → X → S) l : (∀ st x, R st → R (f st x)) → ∀ st, R st → R (foldl f st l).
Proof. intros H. induction l as [|x l IH]; intros st Hst; [done|]. by apply IH, H. Qed.

Lemma sack_range_sound t st r : rtt_ok t → acking st → acking (sack_range t st r).
Proof.
  intros Ht H. unfold sack_range. destruct st as [c a], r as [lo hi]. destruct (_ <=? _); [|done].
  apply (fold_sound (λ st, acking st)); [|done]. intros st x. by apply sack_one_sound.
Qed.

(** *** Losses *)

Abbreviation payloads := (Forall (λ x : UnackedPayload.t * Z, payload_sound client x.1)).
Abbreviation losing st := (conn_sound st.1 ∧ payloads (fast_retransmits st.2)).

Lemma lose_one_sound st pn : losing st → losing (lose_one st pn).
Proof.
  intros [C L]. destruct st as [c l]. unfold lose_one. cbn [fst snd] in *.
  destruct (Window.remove pn (unacked_packets c)) as [r w] eqn:E. destruct (sound_removed _ _ _ _ C E) as [C' Hr].
  destruct r as [up|]; [|done]. destruct Hr as [Hp _]. set (c1 := c <| unacked_packets := w |> <| bytes_in_flight ::= _ |>).
  assert (conn_sound c1) as C1 by (by destruct C'; split). clearbody c1. destruct (up_is_mtu_probe up).
  - assert (conn_sound (c1 <| mtu_probes ::= delete pn |>)) as C2 by (by destruct C1; split).
    destruct (up_payload up); try done. split; [by apply sound_probe_failure|done].
  - assert (payloads (fast_retransmits l ++ [(up_payload up, up_retries up)])) as L2.
    { apply Forall_app. split; [done|]. by constructor. }
    by destruct (up_payload up).
Qed.

Lemma update_rtt_sound s d c : from_option rtt_ok True s → 0 ≤ d → conn_sound c → conn_sound (update_rtt s d c).
Proof.
  intros Hs Hd C. unfold update_rtt. destruct s as [r|]; [|done]. cbn [from_option] in Hs.
  set (r' := if _ <? r then _ else r). assert (rtt_ok r') as Hr.
  { unfold r', from_micros. unfold rtt_ok in *. case_bools; to_prop; lia. }
  clearbody r'. pose proof (cs_rtt _ _ _ C) as Hc. destruct (negb _); [by destruct C; split|].
  destruct C. split; try done. change (rtt_ok ((rtt c * 7 + r') / 8)). unfold rtt_ok in *.
  split; [apply Z.div_pos; lia|]. apply Z.div_lt_upper_bound; lia.
Qed.

Lemma sound_signal c : conn_sound c → conn_sound (signal_all c).
Proof.
  apply conn_view. unfold conn_facts. by rewrite (un_streams _ _ (untouched_signal c)).
Qed.

Lemma finish_ack_sound ws d now a lost c :
  acc_sound a → 0 ≤ d → conn_sound c → yields False (finish_ack ws d now a lost c) conn_sound.
Proof.
  intros Ha Hd C. unfold finish_ack. set (c1 := if lost then _ else c).
  assert (conn_sound c1) as C1.
  { unfold c1. destruct lost; [|done]. destruct C. split; try done. change (0 < segment (on_congestion_event (rtt c) now (cc c))).
    by rewrite event_segment. }
  clearbody c1. set (c2 := c1 <| bytes_in_flight ::= _ |>). assert (conn_sound c2) as C2 by (by destruct C1; split). clearbody c2.
  pose proof (update_rtt_sound (sample_rtt a) d c2 Ha Hd C2) as C3. set (c3 := update_rtt _ _ _) in *. clearbody c3.
  eapply (yields_bind _ _ _ conn_sound).
  - destruct (_ <? _); [|done]. destruct (acked_total (bytes_acked a) (rtt c3) now (cc c3)) as (k & -> & E); [apply C3|].
    cbn [mbind res_bind yields]. destruct C3. split; try done. change (0 < segment k). by rewrite E.
  - intros c4 C4. cbn [yields]. destruct (_ || _); [apply sound_signal|]; by destruct C4; split.
Qed.

(** Whatever is acknowledged, [handle_ack] returns. *)
Lemma handle_ack_sound la ws d rs t now c :
  rtt_ok t → 0 ≤ d → conn_sound c →
  yields False (handle_ack la ws d rs t now c) (λ x, conn_sound x.2 ∧ payloads x.1).
Proof.
  intros Ht Hd C. unfold handle_ack.
  assert (acking (foldl (sack_range t) (c, mkAckAcc 0 0 None) rs)) as A1.
  { apply (fold_sound (λ st, acking st)); [|done]. intros st x. by apply sack_range_sound. }
  destruct (foldl (sack_range t) _ rs) as [c1 a1]. set (ks := keys_below _ _).
  assert (acking (foldl (cumulative_one t) (c1, a1) ks)) as A2.
  { apply (fold_sound (λ st, acking st)); [|done]. intros st x. by apply cumulative_one_sound. }
  destruct (foldl (cumulative_one t) _ ks) as [c2 a2]. destruct A2 as [C2 A2]. cbn [fst snd] in C2, A2.
  destruct (scaled_rtt_total (rtt c2) (cs_rtt _ _ _ C2)) as [r ->]. cbn [mbind res_bind].
  set (ls := find_lost _ _ _ _). set (c3 := c2 <| packets_lost ::= _ |>).
  assert (conn_sound c3) as C3 by (by destruct C2; split). clearbody c3.
  assert (losing (foldl lose_one (c3, mkLossAcc false []) ls)) as L.
  { apply (fold_sound (λ st, losing st)); [|done]. intros st x. apply lose_one_sound. }
  destruct (foldl lose_one _ ls) as [c4 l]. destruct L as [C4 L]. cbn [fst snd] in C4, L.
  eapply yields_bind; [by apply finish_ack_sound|]. intros c5 C5. done.
Qed.

(** *** The retransmission timer *)

Lemma rto_one_sound now rto pn up s :
  0 ≤ now → packet_sound client up → packet_sound client (rto_one now rto pn up s).1.
Proof.
  intros Hn Hp. unfold rto_one. destruct (_ <? _); [|done]. destruct (_ || _); [done|].
  destruct Hp as [Hp Hs]. destruct (10 <? _); [exact (conj Hp Hs)|exact (conj Hp Hn)].
Qed.

Lemma rto_scan_sound now rto base d s :
  0 ≤ now → Forall (from_option (packet_sound client) True) d →
  Forall (from_option (packet_sound client) True) (rto_scan now rto base d s).1.
Proof.
  intros Hn H. revert base s. induction H as [|[up|] d Hx Hd IH]; intros base s; [done|..]; cbn [rto_scan].
  - pose proof (rto_one_sound now rto base up s Hn Hx) as Ho. destruct (rto_one now rto base up s) as [up' s'].
    destruct (timed_out s'); [by constructor|]. specialize (IH (base + 1) s'). destruct (rto_scan _ _ _ _ _). by constructor.
  - specialize (IH (base + 1) s). destruct (rto_scan _ _ _ _ _). by constructor.
Qed.

Lemma drop_one_sound l st pn :
  conn_sound st.1 ∧ payloads st.2 → conn_sound (drop_one l st pn).1 ∧ payloads (drop_one l st pn).2.
Proof.
  intros [C L]. destruct st as [c r]. unfold drop_one. cbn [fst snd] in *.
  destruct (Window.remove pn (unacked_packets c)) as [up w] eqn:E. destruct (sound_removed _ _ _ _ C E) as [C' Hr].
  destruct up as [up|]; [|done]. destruct Hr as [Hp _]. set (c1 := c <| unacked_packets := w |> <| bytes_in_flight ::= _ |>).
  assert (conn_sound c1) as C1 by (by destruct C'; split). clearbody c1. destruct (up_is_mtu_probe up).
  { split; [|done]. by destruct C1; split. }
  destruct (bool_decide _); [|done]. split; [done|]. apply Forall_app. split; [done|]. by constructor.
Qed.
End bookkeeping.
