(* ===== verification/SoundSends.v ===== *)
(** * Sending from a sound state

    Every method that sends a packet keeps the state sound and, but for the Initial packet of
    an actor without a signing key, does not panic. *)

From stdpp Require Import strings.
From Stdlib Require Import SpecFloat.
From S2P Require Import Prelude Errors Effects Buf Config StreamType Frames FrameFacts FrameProps Packet PacketFacts.
From S2P Require Import PacketNumber HeaderProtection Bitmap ReplayWindow AckTracker Unacked StreamBuffer Cookie KeyDerivation.
From S2P Require Import CryptoContext Float Congestion CongestionFacts Termination Connection AckHandling ConnFrame Actor ActFacts.
From S2P Require Import PacketSender Retransmit HandshakeHandler IncomingHandler EventLoop WireSafety SoundState SoundConn.

Create HintDb runs.

Section primitives.
Context `{BC : BytesCrate} {BL : BytesLaws} `{HK : Hkdf} `{AE : Aead} {AL : AeadLaws} {AY : AeadTyped}.
Context `{CC : ChaCha20} {KT : KeystreamTotal} {KY : KeystreamTyped} `{LM : Libm} `{EV : Env} {ET : EnvTyped}.
Context `{SH : Sha256} {SL : Sha256Laws} `{ED : Ed25519} {EL : Ed25519Laws}.
Context `{LG : Ledger} (P : Prop) (client : bool) (top : Z).
Abbreviation sound := (sound client top).
Abbreviation conn_sound := (conn_sound client top).
Abbreviation safe m := (runs P sound m (λ _, True)).

(** ** Primitives *)

Lemma runs_on_conn f : (∀ c, conn_sound c → conn_sound (f c)) → safe (on_conn f).
Proof. intros H. apply runs_modify. intros a Sa. apply (sound_conn client top a (f (conn a))); [done|]. apply H, Sa. Qed.
(** A write elsewhere. *)
Lemma runs_quiet f : (∀ a, actor_facts (f a) = actor_facts a ∧ conn_facts (conn (f a)) = conn_facts (conn a)) → safe (modify f).
Proof. intros H. apply runs_modify. intros a. destruct (H a). by apply sound_view. Qed.
Lemma runs_quiet_conn f : (∀ c, conn_facts (f c) = conn_facts c) → safe (on_conn f).
Proof. intros H. apply runs_quiet. intros a. split; [done|apply H]. Qed.

Lemma runs_next_pn : runs P sound next_pn (λ _, True).
Proof.
  intros a Sa. unfold next_pn, get_next_packet_number. destruct (checked_add _ _ _); (split; [|done]); by apply (sound_view client top a).
Qed.
Lemma runs_ask {A} (f : nat → A) (Q : A → Prop) : (∀ n, Q (f n)) → runs P sound (ask f) Q.
Proof. intros H a Sa. split; [by apply (sound_view client top a)|]. apply H. Qed.
Lemma runs_now : runs P sound now rtt_ok.
Proof. apply runs_ask. intros n. apply clock_range. Qed.
Lemma runs_token : runs P sound get_token (array_ok 8).
Proof. apply runs_ask. intros n. apply token_array. Qed.
Lemma runs_channel : runs P sound try_channel (λ _, True).
Proof. by apply runs_ask. Qed.
Lemma runs_crypto : runs P sound get_crypto (λ _, True).
Proof. intros a Sa. split; [done|]. unfold get_crypto. cbn. by destruct (crypto (conn a)). Qed.

Lemma runs_sendmsg buf : len buf < 2 ^ 63 → safe (sendmsg_vectored buf).
Proof.
  intros Hl a Sa. unfold sendmsg_vectored. destruct (Z.leb_spec (2 ^ 63) (len buf)); [lia|].
  destruct (_ && _ && _); [done|]. destruct (socket_send _ _ _) as [[]|]; (split; [by apply (sound_view client top a)|done]).
Qed.
Lemma runs_note : safe note_packet_sent.
Proof.
  intros a Sa. unfold note_packet_sent. destruct (negb _); [done|]. destruct (crypto (conn a)); [|done].
  destruct (_ <=? _); (split; [by apply (sound_view client top a)|done]).
Qed.
Lemma runs_refresh : safe refresh_local_window.
Proof. by apply runs_quiet. Qed.

End primitives.
#[export] Hint Resolve runs_next_pn runs_now runs_token runs_channel runs_crypto runs_note runs_refresh : runs.

(** Walks through the body of a method; what is left are values to be described and writes. *)
Ltac runs_leaf :=
  solve [eauto with runs nocore | eapply runs_any; eauto with runs nocore
        | apply runs_quiet_conn; done | apply runs_quiet; done | apply runs_skip | by apply runs_ret].
Ltac runs_step :=
  match goal with
  | |- runs _ _ (let _ := _ in _) _ => cbv zeta
  | |- runs _ _ (mret _) (λ _, True) => by apply runs_ret
  | |- runs _ _ (fail_with _) _ => apply runs_fail
  | |- runs _ _ (gets _ ≫= _) _ => apply runs_gets; intros ? ?
  | |- runs _ _ (attempt _ ≫= _) _ => eapply runs_bind; [eapply runs_attempt; runs_leaf|let H := fresh in intros ? H; cbv beta in H]
  | |- runs _ _ (_ ≫= _) _ => eapply runs_bind; [runs_leaf|let H := fresh in intros ? H; cbv beta in H]
  | |- runs _ _ (act_when _ _ ≫= _) _ => eapply runs_then; [apply runs_when; intros ?|intros ?]
  | |- runs _ _ (act_when _ _) _ => apply runs_when; intros ?
  | |- runs _ _ (match ?x with _ => _ end ≫= _) _ => apply (runs_bind _ _ _ _ (λ _, True)); [|intros ? _]
  | |- runs _ _ (match ?x with _ => _ end) _ => destruct x eqn:?
  | |- runs _ _ _ _ => runs_leaf
  end.
Ltac secure := repeat runs_step.

Section sends.
Context `{BC : BytesCrate} {BL : BytesLaws} `{HK : Hkdf} `{AE : Aead} {AL : AeadLaws} {AY : AeadTyped}.
Context `{CC : ChaCha20} {KT : KeystreamTotal} {KY : KeystreamTyped} `{LM : Libm} `{EV : Env} {ET : EnvTyped}.
Context `{SH : Sha256} {SL : Sha256Laws} `{ED : Ed25519} {EL : Ed25519Laws}.
Context `{LG : Ledger} (P : Prop) (client : bool) (top : Z).
Abbreviation sound := (sound client top).
Abbreviation conn_sound := (conn_sound client top).
Abbreviation safe m := (runs P sound m (λ _, True)).

(** ** Building a packet *)

Lemma pn_length_pos c pn : 1 ≤ pn_length c pn ≤ 4.
Proof.
  unfold pn_length, truncate_pn. cbn [snd]. set (u := wrap 64 _). assert (0 ≤ u < 2 ^ 64) by (apply Z.mod_pos_bound; lia).
  set (k := 64 - leading_zeros u). assert (0 ≤ k) as Hk.
  { unfold k, leading_zeros. destruct (Z.eqb_spec u 0); [lia|]. pose proof (Z.log2_nonneg u). lia. }
  clearbody k. assert (0 ≤ div_ceil k 8) by (unfold div_ceil; apply Z.div_pos; lia).
  case_bools; to_prop; lia.
Qed.

Lemma short_header_safe ty pn a : sound a → yields P (PacketHeader.encode (short_header ty pn a) []) (wire 600).
Proof. intros Sa. apply yields_weaken, encode_header_safe; [apply Sa|done]. Qed.

Lemma runs_protect K k pn n packet : wire K packet → runs P sound (lift (protect_packet k pn n packet)) (λ w, len w ≤ K + 16).
Proof. intros W. by apply runs_lift, yields_weaken, protect_safe. Qed.

(** A padded packet of one frame. *)
Lemma framed_packet K n h f d :
  wire K d → frame_blob f → 0 ≤ n → h ≤ 4000 → wire (K + (2 ^ 60 + 4096) + 4096) (pad_packet n h (Frame.encode f d)).
Proof. intros Hd Hf Hn Hh. apply wire_pad; [by apply wire_frame|done|done]. Qed.

Lemma runs_short_header ty pn a : sound a → runs P sound (lift (PacketHeader.encode (short_header ty pn a) [])) (wire 600).
Proof. intros Sa. by apply runs_lift, short_header_safe. Qed.

Lemma runs_frame_packet k ty pn a d f :
  wire 600 d → frame_blob f →
  runs P sound (lift (protect_packet k pn (len d)
    (pad_packet (PacketHeader.pn_len (short_header ty pn a)) (len d) (Frame.encode f d)))) (λ w, len w < 2 ^ 62).
Proof.
  intros [B L] Hf. eapply runs_mono; [apply runs_protect|].
  - apply (framed_packet 600); [done|done| |lia]. pose proof (pn_length_pos (conn a) pn).
    change (0 ≤ pn_length (conn a) pn). lia.
  - cbn beta. lia.
Qed.

Lemma runs_send_small buf : len buf < 2 ^ 62 → safe (sendmsg_vectored buf).
Proof. intros. apply runs_sendmsg. lia. Qed.

Lemma runs_track pn p t r b n : payload_sound client p → rtt_ok t → safe (on_conn (track_packet pn p t r b n)).
Proof. intros Hp Ht. apply runs_on_conn. intros c C. apply sound_track; [done|done|apply Ht]. Qed.

#[local] Hint Resolve runs_short_header runs_frame_packet runs_send_small runs_track : runs.

(** ** The senders *)

Lemma runs_payload_frame p n :
  payload_sound client p → (∀ ck, p ≠ UnackedPayload.Initial ck) → 0 ≤ n →
  runs P sound (lift (payload_frame p n)) frame_blob.
Proof.
  intros Hp Hi Hn. apply runs_lift. destruct p; cbn in *; try done; [by destruct (Hi cookie)|by destruct Hp|].
  unfold size_ok, sat_sub in *. lia.
Qed.
#[local] Hint Resolve runs_payload_frame len_nonneg : runs.

Lemma runs_send_protected p r :
  payload_sound client p → (∀ ck, p ≠ UnackedPayload.Initial ck) → safe (send_protected_payload p r).
Proof. intros Hp Hi. unfold send_protected_payload. secure. Qed.

Lemma runs_initial_header pn a : sound a →
  runs P sound (lift (PacketHeader.encode (PacketHeader.mk PacketType.Initial true PROTOCOL_VERSION (dcid (conn a)) (scid (conn a))
    pn false (pn_length (conn a) pn)) [])) (wire 600).
Proof. intros Sa. apply runs_lift, yields_weaken, encode_header_safe; apply Sa. Qed.

Lemma runs_signature a h : sound a → client = true ∨ P →
  runs P sound (lift (match ed_signing_key a with Some sk => Ok (ed_sign sk h) | None => Panic end))
    (λ sg, array_ok 64 sg ∧ client = true).
Proof.
  intros Sa Hk. apply runs_lift. pose proof (so_key _ _ _ Sa) as K. destruct (ed_signing_key a) as [sk|]; cbn.
  - split; [apply ed_sign_array|]. by apply K.
  - destruct Hk as [Hk|]; [|done]. by destruct (proj2 K Hk).
Qed.

(** The frames of an Initial packet. *)
Lemma initial_payload a h sg tp ck d :
  sound a → array_ok 32 h → array_ok 64 sg → from_option blob True ck → wire 600 d →
  let p := Frame.encode (Frame.Handshake (public_key a) (ed_public_key a) h sg (alpn a)) d in
  let p := Frame.encode (Frame.TransportParameters tp) p in
  let p := match ck with Some ck => Frame.encode (Frame.Cookie ck) p | None => p end in
  let pad_len := sat_sub 1200 (len p + 16) in
  wire (2 ^ 63 - 64) (if 0 <? pad_len then Frame.encode (Frame.Padding pad_len) p else p).
Proof.
  intros Sa Hh Hs Hc Hd. destruct (so_public _ _ _ Sa) as [Hp He]. pose proof (so_alpn _ _ _ Sa) as Ha. cbv zeta.
  set (p1 := Frame.encode (Frame.Handshake _ _ _ _ _) d). set (p2 := Frame.encode (Frame.TransportParameters tp) p1).
  assert (wire (600 + (2 ^ 60 + 4096)) p1) as W1 by (by apply wire_frame).
  assert (wire (600 + (2 ^ 60 + 4096) + (2 ^ 60 + 4096)) p2) as W2 by (by apply wire_frame). clearbody p2. clear W1 p1.
  set (p3 := match ck with Some _ => _ | None => p2 end).
  assert (wire (600 + (2 ^ 60 + 4096) + (2 ^ 60 + 4096) + (2 ^ 60 + 4096)) p3) as W3.
  { unfold p3. destruct ck as [ck|]; [by apply wire_frame|eapply wire_mono; [exact W2|lia]]. }
  clearbody p3. destruct (0 <? _); [|eapply wire_mono; [exact W3|lia]].
  eapply wire_mono; [apply wire_frame; [exact W3|]|lia]. cbn [frame_blob]. pose proof (len_nonneg p3). unfold sat_sub. lia.
Qed.
#[local] Hint Resolve runs_initial_header runs_signature : runs.

Lemma runs_cookie ck :
  safe (on_conn (λ c, match ck with Some ck => c <| cookie := Some ck |> | None => c end)).
Proof. apply runs_quiet_conn. by destruct ck. Qed.
Lemma runs_set_handshake hs : len hs < 2 ^ 63 → safe (on_conn (λ c, c <| handshake_packet := Some hs |>)).
Proof. intros Hl. apply runs_on_conn. intros c []. split; try done. by intros ? [= <-]. Qed.
#[local] Hint Resolve runs_cookie runs_set_handshake runs_sendmsg : runs.

Lemma runs_send_initial ck r : client = true ∨ P → from_option blob True ck → safe (send_initial_packet_internal ck r).
Proof.
  intros Hk Hc. unfold send_initial_packet_internal.
  secure. match goal with H : array_ok 64 _ ∧ _ |- _ => destruct H end.
  eapply (runs_bind _ _ _ _ (λ w, len w < 2 ^ 63)).
  - eapply runs_mono; [eapply runs_protect, initial_payload; [eassumption|apply sha256_array|eassumption|eassumption|eassumption]|cbn beta; lia].
  - intros w Hw. assert (payload_sound client (UnackedPayload.Initial ck)) by done. secure.
Qed.
#[local] Hint Resolve runs_send_initial runs_send_protected : runs.

Lemma runs_send p r : payload_sound client p → safe (send_payload_with_retries p r).
Proof. intros Hp. unfold send_payload_with_retries. destruct p; [|by apply runs_send_protected..]. destruct Hp. apply runs_send_initial; [by left|done]. Qed.
#[local] Hint Resolve runs_send : runs.

Lemma runs_queue_front p r : payload_sound client p → safe (queue_front p r).
Proof. intros Hp. apply runs_on_conn. intros c []. split; try done. by constructor. Qed.
#[local] Hint Resolve runs_queue_front : runs.
Lemma runs_retransmit p r : payload_sound client p → safe (retransmit_payload p r).
Proof. intros Hp. unfold retransmit_payload. secure. Qed.
Lemma runs_send_payload p : payload_sound client p → safe (send_payload p).
Proof. intros Hp. unfold send_payload. secure. Qed.
#[local] Hint Resolve runs_retransmit runs_send_payload : runs.
#[local] Hint Extern 1 (payload_sound _ _) => exact I : runs.

Lemma runs_stream_close id : safe (send_stream_close id).
Proof. unfold send_stream_close. secure. Qed.
Lemma runs_initiate_close : safe initiate_close.
Proof. unfold initiate_close. secure. Qed.
Lemma runs_close_error e reason : blob reason → safe (initiate_close_with_error e reason).
Proof. intros. unfold initiate_close_with_error. secure. Qed.
Lemma runs_reset_stream id e : safe (reset_stream id e).
Proof. unfold reset_stream. secure. Qed.
Lemma runs_send_frame_immediate f to : frame_blob f → safe (send_frame_immediate f to).
Proof. intros Hf. unfold send_frame_immediate. secure. by apply runs_lift, yields_weaken. Qed.
#[local] Hint Resolve runs_initiate_close runs_reset_stream : runs.
#[local] Hint Extern 1 (frame_blob _) => exact I : runs.

Lemma runs_flush_acks : safe flush_acks.
Proof. unfold flush_acks. secure. Qed.

Lemma probe_target_size c t : conn_sound c → probe_target c = Some t → size_ok t.
Proof.
  intros C. destruct (cs_probes _ _ _ C) as [H1 H2]. unfold probe_target, size_ok.
  replace (wrap 64 (mtu_min c + 10)) with (mtu_min c + 10) by (unfold wrap; symmetry; apply Z.mod_small; lia).
  destruct (Z.leb_spec (mtu_max c) (mtu_min c + 10)); [done|]. intros [= <-].
  pose proof (Z.div_pos (mtu_max c - mtu_min c) 2). pose proof (Z.div_le_upper_bound (mtu_max c - mtu_min c) 2 (mtu_max c - mtu_min c)).
  lia.
Qed.

Lemma runs_probe_packet k pn d t : wire 600 d → size_ok t →
  runs P sound (lift (protect_packet k pn (len d) (Frame.encode (Frame.Padding (sat_sub t (len d + 16))) d))) (λ w, len w < 2 ^ 62).
Proof.
  intros Hd Ht. eapply runs_mono; [apply runs_protect, wire_frame; [exact Hd|]|cbn beta; lia].
  cbn [frame_blob]. pose proof (len_nonneg d). unfold size_ok, sat_sub in *. lia.
Qed.
#[local] Hint Resolve runs_probe_packet : runs.

Lemma runs_send_mtu_probe : safe send_mtu_probe.
Proof.
  unfold send_mtu_probe. runs_step. destruct (negb _); [runs_step|]. apply runs_gets. intros a1 Sa.
  destruct (probe_target (conn a1)) as [t|] eqn:E; [|secure]. apply probe_target_size in E; [|apply Sa].
  assert (payload_sound client (UnackedPayload.MtuProbe t)) by done. secure.
Qed.

Lemma runs_retransmit_all l : Forall (λ x, payload_sound client x.1) l → safe (retransmit_all l).
Proof.
  induction 1 as [|[p r] l Hp Hl IH]; cbn [retransmit_all]; [secure|]. cbn [fst] in Hp. secure.
Qed.
#[local] Hint Resolve runs_retransmit_all : runs.

Lemma runs_congestion t : safe (on_conn (λ c, c <| cc ::= on_congestion_event (rtt c) t |>)).
Proof.
  apply runs_on_conn. intros c C. destruct C. split; try done. change (0 < segment (on_congestion_event (rtt c) t (cc c))).
  by rewrite event_segment.
Qed.
Lemma runs_signal : safe (on_conn signal_all).
Proof. apply runs_on_conn. apply sound_signal. Qed.
#[local] Hint Resolve runs_congestion runs_signal : runs.

Lemma runs_handle_retransmits : safe handle_retransmits.
Proof.
  unfold handle_retransmits. eapply runs_bind; [apply runs_now|intros t Ht]. apply runs_gets. intros a0 _.
  apply (runs_bind _ _ _ _ (λ _, True)); [|intros scan _].
  { intros a Sa. pose proof (rto_scan_sound client t (Z.max (rtt (conn a0) + rttvar (conn a0) * 4) (from_millis 50)) (base_pn (unacked_packets (conn a)))
      (deque (unacked_packets (conn a))) (mkRtoScan [] [] [] false false) ltac:(apply Ht) (cs_unacked _ _ _ (so_conn _ _ _ Sa))) as F.
    destruct (rto_scan _ _ _ _ _) as [d s]. split; [|done]. apply sound_conn; [done|]. by apply sound_unacked; [apply Sa|]. }
  destruct (timed_out scan); [secure|].
  eapply runs_then; [apply runs_on_conn|intros _].
  { apply (fold_sound conn_sound). intros c x. apply sound_probe_failure. }
  eapply runs_then; [apply runs_on_conn; intros c C; destruct (_ && _); [by apply sound_blackhole|done]|intros _].
  apply (runs_bind _ _ _ _ (Forall (λ x, payload_sound client x.1))); [|intros l Hl].
  { intros a Sa. pose proof (fold_sound (λ st, conn_sound st.1 ∧ Forall (λ x, payload_sound client x.1) st.2) (drop_one (to_retransmit scan))
      (to_drop scan) (drop_one_sound client top (to_retransmit scan)) (conn a, []) (conj (so_conn _ _ _ Sa) (Forall_nil_2 _))) as F.
    destruct (foldl _ _ _) as [c l]. destruct F as [C L]. split; [by apply sound_conn|done]. }
  secure.
Qed.

(** ** Pacing

    The wait until the next packet is a quotient that need not be a [Duration]: panics are
    allowed here. *)

Lemma runs_paced_failed e : safe (paced_send_failed e).
Proof.
  intros a Sa. unfold paced_send_failed. destruct (socket_blocked a); [done|].
  destruct (is_fatal e); [split; [by apply (sound_view client top a)|done]|].
  destruct (unpaced_queue (conn a)) as [|[p r] q] eqn:E; [done|].
  set (a1 := a <| conn ::= λ c, c <| unpaced_queue := (p, wrap 32 (r + 1)) :: q |> |>). assert (sound a1) as S1.
  { apply (sound_conn client top a); [done|]. pose proof (cs_queue _ _ _ (so_conn _ _ _ Sa)) as F. rewrite E in F.
    destruct (so_conn _ _ _ Sa). split; try done. inversion F; subst. by constructor. }
  destruct (10 <? _); (split; [|done]); [by apply (sound_view client top a1)|exact S1].
Qed.
Lemma runs_pop_sent n : safe (pop_sent n).
Proof.
  unfold pop_sent. eapply runs_then; [apply runs_on_conn|intros _; secure].
  intros c []. split; try done. by apply Forall_tail.
Qed.
#[local] Hint Resolve runs_paced_failed runs_pop_sent : runs.

Lemma runs_pacing_loop fuel rate : P → safe (pacing_loop fuel rate).
Proof.
  intros HP. induction fuel as [|fuel IH]; cbn [pacing_loop]; apply runs_gets; intros a Sa;
    (destruct (head (unpaced_queue (conn a))) as [[p r]|] eqn:E; [|secure]).
  { by apply runs_lift. }
  assert (payload_sound client p) as Hp.
  { pose proof (cs_queue _ _ _ (so_conn _ _ _ Sa)) as F. destruct (unpaced_queue (conn a)); [done|]. injection E as ->. by inversion F. }
  cbv zeta. secure. eapply runs_then; [|intros d; secure]. apply runs_lift. instantiate (1 := λ _, True). by destruct (from_secs_f64 _).
Qed.

Lemma runs_flush_pacing : P → safe flush_pacing_queue.
Proof.
  intros HP. pose proof (λ n rate, runs_pacing_loop n rate HP). unfold flush_pacing_queue. secure.
  eapply runs_then; [apply runs_quiet_conn; intros c; by destruct (last_pacing_update c)|intros _]. secure.
Qed.
End sends.

#[export] Hint Resolve runs_short_header runs_frame_packet runs_send_small runs_track runs_cookie runs_set_handshake runs_send_initial
  runs_send runs_queue_front runs_retransmit runs_send_payload runs_stream_close runs_initiate_close runs_close_error
  runs_reset_stream runs_send_frame_immediate runs_flush_acks runs_send_mtu_probe runs_retransmit_all runs_signal
  runs_handle_retransmits runs_flush_pacing : runs.
#[export] Hint Extern 1 (payload_sound _ _) => exact I : runs.
#[export] Hint Extern 1 (frame_blob _) => exact I : runs.
