(* ===== verification/HandshakeProps.v ===== *)
(** * The handshake completes

    The four messages of a handshake, from the client's first packet to the keys on both sides:
    an Initial packet without a cookie, the server's Retry, an Initial packet with the cookie
    of the Retry, and the server's Handshake packet. *)

From stdpp Require Import strings.
From S2P Require Import Prelude Errors Effects Buf Config StreamType Frames FrameFacts FrameSafety FrameProps Packet PacketFacts.
From S2P Require Import PacketNumber HeaderProtection Bitmap ReplayWindow AckTracker Unacked Cookie KeyDerivation.
From S2P Require Import CryptoContext CryptoFacts Float Congestion Connection Actor ActFacts PacketSender Retransmit HandshakeHandler.
From S2P Require Import IncomingHandler EventLoop Endpoint ServerHandshake Router ActorRun EndpointProps RetryOnce Pipeline HandshakeFacts.

(** A retry cookie fits a frame. *)
Definition cookie_fits (ck : option bytes) : Prop := match ck with Some c => array_ok 40 c | None => True end.

Section messages.
Context `{XD : X25519} `{ED : Ed25519} `{SH : Sha256}.
(** The client's configuration, application protocol, secret keys and connection ids. *)
Context (cfg : ZtConfig) (al secret sk scid_c dcid_c : bytes).

Definition hello_header (n : Z) : PacketHeader.t :=
  PacketHeader.mk PacketType.Initial true PROTOCOL_VERSION dcid_c scid_c n false 1.

(** What the client signs, and the frames of its Initial packets. *)
Definition hello_hash (ck : option bytes) : bytes :=
  sha256 (client_transcript (hello_header 0) (x_public secret) ck (from_config cfg)).
Definition hello_frames (ck : option bytes) : list Frame.t :=
  [Frame.Handshake (x_public secret) (ed_public sk) (hello_hash ck) (ed_sign sk (hello_hash ck)) al;
   Frame.TransportParameters (from_config cfg)]
  ++ match ck with Some c => [Frame.Cookie c] | None => [] end.
Definition hello_padding (n : Z) (ck : option bytes) : list Frame.t :=
  let size := len (header_bytes (hello_header n)) + len (mjoin (frame_bytes <$> hello_frames ck)) in
  if 0 <? sat_sub 1200 (size + 16) then [Frame.Padding (sat_sub 1200 (size + 16))] else [].
Definition hello (n : Z) (ck : option bytes) : list Frame.t := hello_frames ck ++ hello_padding n ck.

Context {XL : X25519Laws} {EL : Ed25519Laws} {SL : Sha256Laws}.
Context (Hcfg : config_typed cfg) (Hval : config_validate cfg = Ok tt) (Hal : bytes_ok al) (Hal' : len al < 256).

Lemma hello_typed n ck : cookie_fits ck → Forall frame_typed (hello n ck) ∧ Forall wire_exact (hello n ck) ∧ no_adjacent_padding (hello n ck).
Proof.
  intros Hck. destruct (valid_params cfg Hcfg Hval) as [Tp _].
  assert (frame_typed (Frame.Handshake (x_public secret) (ed_public sk) (hello_hash ck) (ed_sign sk (hello_hash ck)) al)
    ∧ wire_exact (Frame.Handshake (x_public secret) (ed_public sk) (hello_hash ck) (ed_sign sk (hello_hash ck)) al)) as [T1 W1].
  { pose proof (sha256_array (client_transcript (hello_header 0) (x_public secret) ck (from_config cfg))) as [Bh Lh].
    fold (hello_hash ck) in Bh, Lh. pose proof (len_nonneg al).
    split; cbn [frame_typed wire_exact]; unfold payload_ok; rewrite Lh; [|lia].
    split; [apply x_public_array|]. split; [apply ed_public_array|]. split; [split; [done|unfold u_ok; lia]|].
    split; [apply ed_sign_array|]. split; [done|unfold u_ok; lia]. }
  assert (frame_typed (Frame.TransportParameters (from_config cfg))) as T2 by done.
  assert (∀ c, ck = Some c → frame_typed (Frame.Cookie c) ∧ wire_exact (Frame.Cookie c)) as T3.
  { intros c ->. destruct Hck as [Bc Lc]. cbn. unfold payload_ok, u_ok. rewrite Lc. split_and!; [done|lia..]. }
  unfold hello, hello_padding. set (pad := sat_sub 1200 _).
  assert (0 < pad → frame_typed (Frame.Padding pad) ∧ wire_exact (Frame.Padding pad)) as T4.
  { intros Hp. cbn. unfold u_ok, pad, sat_sub in *. pose proof (len_nonneg (header_bytes (hello_header n))).
    pose proof (len_nonneg (mjoin (frame_bytes <$> hello_frames ck))). lia. }
  clearbody pad. unfold hello_frames. destruct ck as [c|]; [destruct (T3 c eq_refl)|]; (destruct (Z.ltb_spec 0 pad) as [Hp|Hp]; [destruct (T4 Hp)|]); cbn [app];
    (split; [rewrite !Forall_cons, Forall_nil; done|]); (split; [rewrite !Forall_cons, Forall_nil; done|]); by cbn.
Qed.

Lemma hello_size n ck : cookie_fits ck → 1200 ≤ len (header_bytes (hello_header n)) + len (mjoin (frame_bytes <$> hello n ck)) + 16
   ∧ len (mjoin (frame_bytes <$> hello n ck)) < 2 ^ 16 ∧ 4 ≤ len (mjoin (frame_bytes <$> hello n ck)).
Proof.
  intros Hck. unfold hello. rewrite fmap_app, join_app, len_app. pose proof (len_nonneg (header_bytes (hello_header n))) as L0.
  assert (100 ≤ len (mjoin (frame_bytes <$> hello_frames ck)) < 1000) as L1.
  { unfold hello_frames. destruct (x_public_array secret) as [_ E1], (ed_public_array sk) as [_ E2],
      (ed_sign_array sk (hello_hash ck)) as [_ E3], (sha256_array (client_transcript (hello_header 0) (x_public secret) ck (from_config cfg))) as [_ E4].
    fold (hello_hash ck) in E4. pose proof (len_nonneg al).
    destruct ck as [c|]; [destruct Hck as [_ Lc]|]; cbn [app fmap list_fmap mjoin list_join frame_bytes]; unfold transcript_bytes;
      repeat rewrite ?len_app, ?len_be_bytes; rewrite ?E1, ?E2, ?E3, ?E4; change (len (@nil Z)) with 0; lia. }
  unfold hello_padding. set (pt := mjoin (frame_bytes <$> hello_frames ck)) in *. unfold sat_sub.
  destruct (Z.ltb_spec 0 (Z.max 0 (1200 - (len (header_bytes (hello_header n)) + len pt + 16)))) as [Hp|Hp];
    cbn [fmap list_fmap mjoin list_join frame_bytes]; rewrite ?app_nil_r, ?len_replicate; change (len (@nil Z)) with 0; lia.
Qed.
End messages.

(** ** The client *)

Section client.
Context `{BL : BytesLaws} `{HK : Hkdf} `{AL : AeadLaws} {AT : AeadTotal} `{CC : ChaCha20} {KT : KeystreamTotal} `{LM : Libm} `{EV : Env}.
Context `{SL : Sha256Laws} `{EL : Ed25519Laws} `{XL : X25519Laws}.
Context (cfg : ZtConfig) (al secret sk scid_c dcid_c : bytes) (pre : option bytes) (ver : option (bytes → bool)) (to : SocketAddr).
Context (Hcfg : config_typed cfg) (Hval : config_validate cfg = Ok tt) (Hal : bytes_ok al) (Hal' : len al < 256).
Context (Hscid : cid_ok scid_c) (Hdcid : cid_ok dcid_c).
Context (Hsocket : ∀ q to d, socket_send q to d = None).

Local Abbreviation header n := (hello_header scid_c dcid_c n).
Local Abbreviation frames n ck := (hello cfg al secret sk scid_c dcid_c n ck).

(** A client that has sent [n] Initial packets, the last with the cookie [ck]. *)
Record waiting (n : Z) (ck : option bytes) (a : Actor) : Prop := {
  w_config : config a = cfg;
  w_alpn : alpn a = al;
  w_public : public_key a = x_public secret;
  w_secret : ephemeral_secret a = Some secret;
  w_signing : ed_signing_key a = Some sk;
  w_identity : ed_public_key a = ed_public sk;
  w_psk : psk a = pre;
  w_verifier : peer_key_verifier a = ver;
  w_client : on_client a = true;
  w_addr : addr (conn a) = to;
  w_scid : scid (conn a) = scid_c;
  w_dcid : dcid (conn a) = dcid_c;
  w_state : state (conn a) = Handshaking;
  w_replay : replay_window (conn a) = new_window;
  w_next : next_packet_number (conn a) = n;
  w_cookie : cookie (conn a) = ck;
  w_first : n = 0 → unacked_packets (conn a) = Window.new;
  w_second : n = 1 → pn_length (conn a) n = 1;
}.

Lemma header_hello n : 0 ≤ n < 256 → header_ok (header n).
Proof. intros Hn. split; try done; cbn; unfold u_ok; try lia. Qed.

Lemma header_small n : 0 ≤ n < 256 → len (header_bytes (header n)) < 1024.
Proof.
  intros Hn. rewrite (len_header_bytes _ (header_hello n Hn)). destruct Hscid, Hdcid.
  unfold header_mid. cbn [PacketHeader.is_long PacketHeader.dcid PacketHeader.scid PacketHeader.version PacketHeader.pn_len hello_header].
  rewrite !len_app, !len_be_bytes. lia.
Qed.

Lemma hello_packet n ck :
  cookie_fits ck →
  let p := Frame.encode (Frame.TransportParameters (from_config cfg))
    (Frame.encode (Frame.Handshake (x_public secret) (ed_public sk) (hello_hash cfg secret scid_c dcid_c ck)
       (ed_sign sk (hello_hash cfg secret scid_c dcid_c ck)) al) (header_bytes (header n))) in
  let p := match ck with Some ck => Frame.encode (Frame.Cookie ck) p | None => p end in
  let pad_len := sat_sub 1200 (len p + 16) in
  (if 0 <? pad_len then Frame.encode (Frame.Padding pad_len) p else p)
  = header_bytes (header n) ++ mjoin (frame_bytes <$> frames n ck).
Proof.
  intros Hck. destruct (hello_typed cfg al secret sk scid_c dcid_c Hcfg Hval Hal Hal' n ck Hck) as (T & _ & _).
  unfold hello in *. apply Forall_app in T as [T Tp].
  set (q := match ck with Some _ => _ | None => _ end).
  assert (q = header_bytes (header n) ++ mjoin (frame_bytes <$> hello_frames cfg al secret sk scid_c dcid_c ck)) as ->.
  { unfold q, hello_frames in *. rewrite Forall_app, !Forall_cons in T. destruct T as [(T1 & T2 & _) T3].
    rewrite (encode_bytes _ _ T1), (encode_bytes _ _ T2).
    destruct ck as [c|]; [rewrite Forall_cons in T3; rewrite (encode_bytes _ _ (proj1 T3))|];
      cbn [app fmap list_fmap mjoin list_join]; rewrite <- ?app_assoc, ?app_nil_r; reflexivity. }
  cbv zeta. rewrite len_app, fmap_app, join_app. unfold hello_padding in *. destruct (0 <? _); [|by rewrite app_nil_r].
  rewrite Forall_cons in Tp. rewrite (encode_bytes _ _ (proj1 Tp)). cbn [fmap list_fmap mjoin list_join]. by rewrite app_nil_r, app_assoc.
Qed.

Lemma client_sends d a :
  on_client a = true → len d < 2 ^ 63 →
  sendmsg_vectored d a = (Ok tt, a <| questions ::= S |> <| outbox ::= λ o, o ++ [(addr (conn a), d)] |>
    <| conn ::= λ c, c <| bytes_sent ::= λ n, wrap 64 (n + len d) |> |>).
Proof. intros Hc Hd. unfold sendmsg_vectored. rewrite Hc, Hsocket. by replace (2 ^ 63 <=? len d) with false by lia. Qed.

(** The end of [send_initial_packet]. *)
Lemma send_greeting n ck p d a :
  0 ≤ n → waiting (n + 1) ck a → (n = 0 → unacked_packets (conn a) = Window.new) → len d < 2 ^ 63 →
  ∃ a', (on_conn (λ c, c <| handshake_packet := Some d |>);;
         _ ← attempt (sendmsg_vectored d);
         t ← now;
         on_conn (track_packet n p t 0 false (len d));;
         on_conn (λ c, c <| bytes_in_flight ::= λ b, wrap 64 (b + len d) |>);;
         note_packet_sent) a = (Ok tt, a')
    ∧ outbox a' = outbox a ++ [(to, d)] ∧ waiting (n + 1) ck a'.
Proof.
  intros Hn W Hu Hd. set (a1 := a <| conn ::= λ c, c <| handshake_packet := Some d |> |>).
  rewrite (act_bind_ok _ _ _ tt a1) by reflexivity.
  pose proof (client_sends d a1 (w_client _ _ _ W) Hd) as E. set (a2 := upd conn _ _) in E.
  rewrite (act_bind_ok _ _ _ (Ok tt) a2) by (unfold attempt; by rewrite E).
  erewrite act_bind_ok by reflexivity. cbv beta. set (a3 := a2 <| questions ::= S |>).
  set (up := mkUnackedPacket p (clock (questions a2)) 0 false (len d)).
  set (a4 := a3 <| conn ::= λ c, c <| unacked_packets ::= Window.insert n up |> |>).
  rewrite (act_bind_ok _ _ _ tt a4) by reflexivity.
  set (a5 := a4 <| conn ::= λ c, c <| bytes_in_flight ::= λ b, wrap 64 (b + len d) |> |>).
  rewrite (act_bind_ok _ _ _ tt a5) by reflexivity.
  assert (note_packet_sent a5 = (Ok tt, a5)) as ->.
  { unfold note_packet_sent. change (state (conn a5)) with (state (conn a)). by rewrite (w_state _ _ _ W). }
  exists a5. split; [done|]. destruct W. split; [by rewrite <- w_addr0|]. split; try done; [lia|].
  intros En. assert (n = 0) as E0 by lia. unfold pn_length.
  change (unacked_packets (conn a5)) with (Window.insert n up (unacked_packets (conn a))). by rewrite Hu, E0.
Qed.

Lemma greet n ck ck' a :
  waiting n ck a → n = 0 ∨ n = 1 → cookie_fits ck' →
  ∃ d a', send_initial_packet ck' a = (Ok tt, a') ∧ outbox a' = outbox a ++ [(to, d)]
    ∧ waiting (n + 1) (match ck' with Some _ => ck' | None => ck end) a'
    ∧ sealed dcid_c true (header n) (mjoin (frame_bytes <$> frames n ck')) d ∧ 1200 ≤ len d.
Proof.
  intros W Hn Hck. assert (0 ≤ n < 256) as Hn' by lia. pose proof (header_hello n Hn') as HO.
  destruct (hello_typed cfg al secret sk scid_c dcid_c Hcfg Hval Hal Hal' n ck' Hck) as (T & _ & _).
  destruct (hello_size cfg al secret sk scid_c dcid_c Hal' n ck' Hck) as (S1 & S2 & S3).
  unfold send_initial_packet, send_initial_packet_internal.
  set (a1 := a <| conn ::= λ c, c <| next_packet_number := n + 1 |> |>).
  assert (next_pn a = (Ok n, a1)) as E1.
  { unfold next_pn, get_next_packet_number. rewrite (w_next _ _ _ W). by destruct Hn as [->| ->]. }
  rewrite (act_bind_ok _ _ _ _ _ E1). erewrite act_bind_ok by reflexivity. cbv beta.
  assert (pn_length (conn a1) n = 1) as El.
  { change (pn_length (conn a) n = 1). destruct Hn as [->| ->]; [|by apply (w_second _ _ _ W)].
    unfold pn_length. by rewrite (w_first _ _ _ W). }
  rewrite El. change (dcid (conn a1)) with (dcid (conn a)). change (scid (conn a1)) with (scid (conn a)).
  rewrite (w_dcid _ _ _ W), (w_scid _ _ _ W). fold (header n). rewrite (encode_header_bytes _ _ HO). cbn [app].
  do 3 (erewrite act_bind_ok by reflexivity; cbv beta zeta).
  change (config a1) with (config a). change (public_key a1) with (public_key a).
  change (dcid (conn a1)) with (dcid (conn a)). change (scid (conn a1)) with (scid (conn a)).
  rewrite (w_dcid _ _ _ W), (w_scid _ _ _ W), (w_config _ _ _ W), (w_public _ _ _ W).
  change (sha256 (be_bytes 4 PROTOCOL_VERSION ++ scid_c ++ dcid_c ++ x_public secret ++ default [] ck'
    ++ transcript_bytes (from_config cfg))) with (hello_hash cfg secret scid_c dcid_c ck').
  set (a2 := a1 <| conn ::= (λ c, match ck' with Some ck => c <| cookie := Some ck |> | None => c end) |>).
  assert (waiting (n + 1) (match ck' with Some _ => ck' | None => ck end) a2 ∧ outbox a2 = outbox a ∧ unacked_packets (conn a2) = unacked_packets (conn a)) as (W2 & Eo & Eu).
  { assert (n + 1 = 1 → pn_length (conn a2) (n + 1) = 1) as Hs.
    { intros En. unfold pn_length. replace (unacked_packets (conn a2)) with (unacked_packets (conn a)) by (by subst a2; destruct ck').
      rewrite (w_first _ _ _ W), En by lia. done. }
    destruct W. split; [|by subst a2; destruct ck']. split; try (by subst a2; destruct ck'). lia. }
  rewrite (act_bind_ok _ _ _ tt a2) by reflexivity. rewrite (act_bind_ok _ _ _ _ _ (gets_ok ed_signing_key a2 _ (w_signing _ _ _ W2))).
  do 2 (erewrite act_bind_ok by reflexivity; cbv beta).
  rewrite (w_public _ _ _ W2), (w_identity _ _ _ W2), (w_alpn _ _ _ W2).
  erewrite act_bind_ok by reflexivity. cbv beta. rewrite (w_dcid _ _ _ W2).
  rewrite (hello_packet n ck' Hck). set (pt := mjoin (frame_bytes <$> frames n ck')) in *.

  destruct (protect_seals dcid_c true (header n) pt HO) as (d & P & Sd & Ld); [|by eapply Z.lt_trans; [exact S2|]|cbn [PacketHeader.pn_len hello_header]; clear - S3; lia|].
  { apply Forall_join, Forall_fmap. by eapply Forall_impl; [exact T|]; intros f; apply frame_bytes_ok. }
  cbn [PacketHeader.packet_number hello_header] in P. rewrite P. erewrite act_bind_ok by reflexivity. cbv beta.
  destruct (send_greeting n _ (UnackedPayload.Initial ck') d a2 (proj1 Hn') W2) as (a' & E' & Eo' & W').
  { intros En. rewrite Eu. by apply (w_first _ _ _ W). }
  { pose proof (header_small n Hn') as Lh. rewrite Ld. clear - Lh S2. lia. }
  exists d, a'. rewrite E', Eo', Eo. split_and!; [done..|]. clear - Ld S1. lia.
Qed.

(** A packet with a long header that is no Initial packet reaches the match on its type. *)
Lemma process_long n ck h data payload from b a :
  waiting n ck a → header_ok h → is_initial h = false → PacketHeader.packet_number h = 0 →
  at_index data 0 = Ok b → (Z.land b 0x80 =? 0) = false →
  (∀ c, unprotect data false c = Ok (header_bytes h ++ payload)) →
  ∃ a', process_incoming_packet data from a = dispatch_packet h false 0 (header_bytes h) payload from a'
    ∧ waiting n ck a' ∧ outbox a' = outbox a.
Proof.
  intros W HO Hi Hp Hb Hl Hu. set (a1 := a <| conn ::= λ c, c <| bytes_received ::= λ n, wrap 64 (n + len data) |> |>).
  assert (waiting n ck a1) as W1 by (by destruct W).
  exists a1. split; [|done]. unfold process_incoming_packet. rewrite (act_bind_ok _ _ _ tt a1) by reflexivity.
  assert ((match data with b :: _ => Z.land b 0x80 =? 0 | [] => false end) = false) as ->.
  { destruct data as [|b0 data]; [done|]. injection Hb as <-. exact Hl. }
  cbv zeta. rewrite (act_bind_ok _ _ _ _ _ (gets_ok conn a1 (conn a1) eq_refl)). rewrite Hu. erewrite act_bind_ok by reflexivity. cbv beta.
  pose proof (ho_pn_len h HO) as Hn. rewrite split_header_bytes, untruncated by (done || (rewrite Hp; lia)).
  erewrite act_bind_ok by reflexivity. cbv beta iota.
  rewrite (act_bind_ok _ _ _ _ _ (gets_ok on_client a1 _ (w_client _ _ _ W1))). rewrite Hi. cbn [andb].
  change (replay_window (conn a1)) with (replay_window (conn a)). rewrite (w_replay _ _ _ W).
  change (default 0 (highest_processed new_window)) with 0.
  assert (h <| PacketHeader.packet_number ::= λ pn, expand_pn pn (PacketHeader.pn_len h) 0 |> = h) as ->; [|done].
  change (h <| PacketHeader.packet_number := expand_pn (PacketHeader.packet_number h) (PacketHeader.pn_len h) 0 |> = h).
  rewrite Hp. replace (expand_pn 0 (PacketHeader.pn_len h) 0) with 0; [by rewrite <- Hp|].
  assert (PacketHeader.pn_len h = 1 ∨ PacketHeader.pn_len h = 2 ∨ PacketHeader.pn_len h = 3 ∨ PacketHeader.pn_len h = 4) as Hc by lia.
  by destruct Hc as [->|[->|[->| ->]]].
Qed.

(** The state of the connection lets a Retry or Handshake packet through. *)
Lemma waiting_fresh n ck a pn : waiting n ck a → conn_is_replay (conn a) pn = false ∧ bool_decide (state (conn a) = Handshaking) = true.
Proof. intros W. unfold conn_is_replay. by rewrite (w_replay _ _ _ W), (w_state _ _ _ W). Qed.

(** The Retry packet of the server: the client starts again, with the cookie. *)
Definition retry_header (n : Z) : PacketHeader.t := PacketHeader.mk PacketType.Retry true PROTOCOL_VERSION scid_c [] n false 1.

Lemma header_retry n : 0 ≤ n < 256 → header_ok (retry_header n).
Proof. intros Hn. split; try done; cbn; unfold u_ok; try lia. Qed.

Lemma process_retry ck from a :
  waiting 1 None a → array_ok 40 ck →
  ∃ d a', process_incoming_packet (header_bytes (retry_header 0) ++ ck) from a = (Ok tt, a') ∧ outbox a' = outbox a ++ [(to, d)]
    ∧ waiting 2 (Some ck) a'
    ∧ sealed dcid_c true (header 1) (mjoin (frame_bytes <$> frames 1 (Some ck))) d ∧ 1200 ≤ len d.
Proof.
  intros W Hck. assert (header_ok (retry_header 0)) as HO by by apply header_retry.
  destruct (process_long 1 None (retry_header 0) (header_bytes (retry_header 0) ++ ck) ck from 0xB0 a W HO) as (a1 & -> & W1 & Eo);
    [done..| |].
  - intros c. unfold unprotect. rewrite pn_offset_header by done. cbn [mbind res_bind].
    destruct (shortcuts_agree (retry_header 0) (first_byte (retry_header 0)) (pn_bytes (retry_header 0) ++ ck) HO) as [E _]; [done|].
    unfold header_bytes in *. rewrite <- !app_assoc. by rewrite E.
  - unfold dispatch_packet. rewrite (act_bind_ok _ _ _ _ _ (gets_ok conn a1 (conn a1) eq_refl)).
    rewrite (act_bind_ok _ _ _ _ _ (gets_ok on_client a1 _ (w_client _ _ _ W1))).
    cbn [PacketHeader.p_type PacketHeader.packet_number retry_header]. destruct (waiting_fresh 1 None a1 0 W1) as [-> ->]. cbn [act_when].
    unfold handle_retry_packet. rewrite <- Eo. apply (greet 1 None (Some ck) a1 W1); [by right|done].
Qed.

(** The server's response, for its configuration, secret keys and connection id. *)
Context (cfg_s : ZtConfig) (secret_s sk_s scid_s : bytes).
Context (Hcfg_s : config_typed cfg_s) (Hval_s : config_validate cfg_s = Ok tt) (Hscid_s : cid_ok scid_s).

Definition response_header : PacketHeader.t := PacketHeader.mk PacketType.Handshake true PROTOCOL_VERSION scid_c scid_s 0 false 1.
Definition response_hash (ck : option bytes) : bytes :=
  sha256 (client_transcript (header 1) (x_public secret) ck (from_config cfg)
    ++ scid_s ++ x_public secret_s ++ transcript_bytes (from_config cfg_s)).
Definition response (ck : option bytes) : list Frame.t :=
  [Frame.Handshake (x_public secret_s) (ed_public sk_s) (response_hash ck) (ed_sign sk_s (response_hash ck)) al;
   Frame.TransportParameters (from_config cfg_s)].

Lemma header_response : header_ok response_header.
Proof. split; try done; cbn; unfold u_ok; lia. Qed.

Lemma response_typed ck : Forall frame_typed (response ck) ∧ Forall wire_exact (response ck) ∧ no_adjacent_padding (response ck).
Proof.
  destruct (valid_params cfg_s Hcfg_s Hval_s) as [Tp _].
  destruct (sha256_array (client_transcript (header 1) (x_public secret) ck (from_config cfg)
    ++ scid_s ++ x_public secret_s ++ transcript_bytes (from_config cfg_s))) as [Bh Lh]. fold (response_hash ck) in Bh, Lh.
  pose proof (len_nonneg al). split_and!; [| |done].
  - unfold response. rewrite !Forall_cons, Forall_nil. cbn [frame_typed]. unfold payload_ok, u_ok. rewrite Lh.
    split_and!; try done; try lia; [apply x_public_array|apply ed_public_array|apply ed_sign_array].
  - unfold response. rewrite !Forall_cons, Forall_nil. cbn [wire_exact]. rewrite Lh. split_and!; [lia..|done|done].
Qed.

Lemma response_size ck : 4 ≤ len (mjoin (frame_bytes <$> response ck)) < 2 ^ 16.
Proof.
  destruct (x_public_array secret_s) as [_ E1], (ed_public_array sk_s) as [_ E2], (ed_sign_array sk_s (response_hash ck)) as [_ E3],
    (sha256_array (client_transcript (header 1) (x_public secret) ck (from_config cfg)
      ++ scid_s ++ x_public secret_s ++ transcript_bytes (from_config cfg_s))) as [_ E4].
  fold (response_hash ck) in E4. pose proof (len_nonneg al). unfold response.
  cbn [fmap list_fmap mjoin list_join frame_bytes]. unfold transcript_bytes.
  repeat rewrite ?len_app, ?len_be_bytes. rewrite E1, E2, E3, E4. change (len (@nil Z)) with 0. lia.
Qed.

Lemma response_read ck :
  let pt := mjoin (frame_bytes <$> response ck) in
  read_response (length pt) (mkResponse None None) pt
  = Ok (mkResponse (Some (x_public secret_s, ed_public sk_s, response_hash ck, ed_sign sk_s (response_hash ck), al))
          (Some (from_config cfg_s))).
Proof.
  destruct (response_typed ck) as (T & W & N). intros pt. unfold pt. rewrite read_response_frames by done.
  destruct (valid_params cfg_s Hcfg_s Hval_s) as [_ V]. unfold response. cbn [foldl response_step mbind res_bind rs_parameters].
  by rewrite V.
Qed.

(** What the two ends of a connection have agreed on: [mine] and [theirs] are the connection ids,
    [k] the keys, [p] the parameters of the peer. *)
Record session (c : ZtConnection) (mine theirs : bytes) (k : CryptoContext) (idle : Z) (p : TransportParameters) : Prop := {
  ss_scid : scid c = mine;
  ss_dcid : dcid c = theirs;
  ss_keys : crypto c = Some k;
  ss_streams : peer_max_streams c = tp_max_streams p;
  ss_stream_window : peer_initial_stream_window c = tp_initial_stream_window p;
  ss_window : remote_window c = tp_initial_max_data p;
  ss_datagram : peer_max_datagram_size c = tp_max_datagram_size p;
  ss_idle : idle_timeout c = Z.min idle (from_millis (tp_idle_timeout_ms p));
}.

Lemma mark_shape pn t c :
  ∃ v, conn_mark_processed pn t c
       = c <| largest_acked_received_at := v |> <| replay_window ::= mark_processed pn |> <| ack_tracker ::= ack_mark_processed pn |>.
Proof.
  unfold conn_mark_processed. destruct (match highest_processed (ack_tracker c) with None => true | Some h => h <=? pn end).
  - by exists (Some t).
  - by exists (largest_acked_received_at c).
Qed.

Lemma handle_response n ck ct tag from a :
  waiting n ck a → verify_peer_key ver (ed_public sk_s) = true → length tag = 16%nat →
  decrypt_in_place (initial scid_c true) 0 (header_bytes response_header) ct tag false = Ok (mjoin (frame_bytes <$> response ck)) →
  ∃ a', handle_handshake_response response_header (ct ++ tag) (header_bytes response_header) from a = (Ok tt, a')
    ∧ state (conn a') = Active ∧ handshake_waiter a' = false
    ∧ session (conn a') scid_c scid_s
        (from_shared_secret (compute_shared_secret secret (x_public secret_s)) scid_c scid_s pre true) (cfg_idle_timeout cfg) (from_config cfg_s).
Proof.
  intros W Hv Lt D. unfold handle_handshake_response. cbn [PacketHeader.version PacketHeader.dcid PacketHeader.scid PacketHeader.packet_number response_header].
  rewrite Z.eqb_refl. cbn [negb].
  assert (16 ≤ len (ct ++ tag)) as L16 by (unfold len; rewrite length_app; lia).
  replace (len (ct ++ tag) <? 16) with false by lia. replace (length (ct ++ tag) - 16)%nat with (length ct) by (rewrite length_app; lia).
  rewrite take_app_length, drop_app_length, D. erewrite act_bind_ok by reflexivity. cbv beta.
  rewrite response_read. do 3 (erewrite act_bind_ok by reflexivity; cbv beta iota).
  rewrite (act_bind_ok _ _ _ _ _ (gets_ok alpn a al (w_alpn _ _ _ W))). rewrite bool_decide_true by done. cbn [negb].
  assert (sha256 (response_transcript a scid_s (x_public secret_s) (from_config cfg_s)) = response_hash ck) as Eh.
  { unfold response_hash, response_transcript, client_transcript. rewrite (w_scid _ _ _ W), (w_dcid _ _ _ W), (w_public _ _ _ W),
      (w_cookie _ _ _ W), (w_config _ _ _ W). by rewrite <- !app_assoc. }
  rewrite (act_bind_ok _ _ _ _ _ (gets_ok _ a _ Eh)). cbv beta. rewrite bool_decide_true, ed_valid_public, ed_verify_sign by done. cbn [negb].
  rewrite (act_bind_ok _ _ _ _ _ (gets_ok peer_key_verifier a _ (w_verifier _ _ _ W))). rewrite Hv. cbn [negb].
  rewrite (act_bind_ok _ _ _ _ _ (gets_ok ephemeral_secret a _ (w_secret _ _ _ W))).
  set (a1 := a <| ephemeral_secret := None |>). rewrite (act_bind_ok _ _ _ tt a1) by reflexivity.
  erewrite act_bind_ok by reflexivity. cbv beta.
  set (shared := compute_shared_secret secret (x_public secret_s)).
  set (a2 := a1 <| conn ::= establish response_header shared (from_config cfg_s) from a1 |>).
  rewrite (act_bind_ok _ _ _ tt a2) by reflexivity.
  erewrite act_bind_ok by reflexivity. cbv beta. set (a3 := a2 <| questions ::= S |>).
  destruct (mark_shape 0 (clock (questions a2)) (conn a3)) as [v Em].
  rewrite (act_bind_ok _ _ _ tt (a3 <| conn := conn_mark_processed 0 (clock (questions a2)) (conn a3) |>)) by reflexivity. rewrite Em.
  eexists. split; [reflexivity|]. split; [done|]. split; [done|].
  split; try done.
  - exact (w_scid _ _ _ W).
  - change (Some (from_shared_secret shared (scid (conn a)) scid_s (psk a) true) = Some (from_shared_secret shared scid_c scid_s pre true)).
    by rewrite (w_scid _ _ _ W), (w_psk _ _ _ W).
  - change (Z.min (cfg_idle_timeout (config a)) (from_millis (tp_idle_timeout_ms (from_config cfg_s)))
      = Z.min (cfg_idle_timeout cfg) (from_millis (tp_idle_timeout_ms (from_config cfg_s)))). by rewrite (w_config _ _ _ W).
Qed.

(** The Handshake packet of the server: the client is connected. *)
Lemma process_response n ck d from a :
  waiting n ck a → verify_peer_key ver (ed_public sk_s) = true →
  sealed scid_c false response_header (mjoin (frame_bytes <$> response ck)) d →
  ∃ a', process_incoming_packet d from a = (Ok tt, a')
    ∧ state (conn a') = Active ∧ handshake_waiter a' = false
    ∧ session (conn a') scid_c scid_s
        (from_shared_secret (compute_shared_secret secret (x_public secret_s)) scid_c scid_s pre true) (cfg_idle_timeout cfg) (from_config cfg_s).
Proof.
  intros W Hv Sd. pose proof header_response as HO.
  destruct (sealed_opens _ _ _ _ _ HO eq_refl Sd) as (E1 & E2 & (mask & E3) & ct & tag & Lt & E4 & E5). cbn [negb] in E4, E5.
  destruct (process_long n ck response_header d (ct ++ tag) from _ a W HO eq_refl eq_refl E3) as (a1 & -> & W1 & _).
  - pose proof (first_mask_form (first_byte response_header) mask) as F. unfold is_long_byte in F. by apply negb_true_iff in F.
  - intros c. unfold unprotect. rewrite E1. cbn [mbind res_bind]. rewrite E2. cbn [mbind res_bind]. rewrite E3. cbn [mbind res_bind].
    rewrite first_byte_not_retry by done. exact E4.
  - unfold dispatch_packet. rewrite (act_bind_ok _ _ _ _ _ (gets_ok conn a1 (conn a1) eq_refl)).
    rewrite (act_bind_ok _ _ _ _ _ (gets_ok on_client a1 _ (w_client _ _ _ W1))).
    cbn [PacketHeader.p_type PacketHeader.packet_number response_header]. destruct (waiting_fresh n ck a1 0 W1) as [-> ->]. cbn [act_when].
    by apply (handle_response n ck).
Qed.
End client.

(** ** The server *)

Section server.
Context `{BL : BytesLaws} `{HK : Hkdf} `{AL : AeadLaws} {AT : AeadTotal} `{CC : ChaCha20} {KT : KeystreamTotal} `{LM : Libm} `{HL : HmacLaws}.
Context `{SL : Sha256Laws} `{EL : Ed25519Laws} `{XL : X25519Laws} `{EE : EndpointEnv}.
Context (cfg : ZtConfig) (al secret sk scid_c dcid_c : bytes).
Context (Hcfg : config_typed cfg) (Hval : config_validate cfg = Ok tt) (Hal : bytes_ok al) (Hal' : len al < 256).
Context (Hscid : cid_ok scid_c) (Hdcid : cid_ok dcid_c).
Context (Hsocket : ∀ q to d, ep_socket q to d = None) (Hrandom : ∀ q n, array_ok (Z.of_nat n) (ep_random q n)).

Local Abbreviation header n := (hello_header scid_c dcid_c n).
Local Abbreviation frames n ck := (hello cfg al secret sk scid_c dcid_c n ck).
Local Abbreviation hash ck := (hello_hash cfg secret scid_c dcid_c ck).

Lemma hello_read n ck :
  cookie_fits ck →
  let pt := mjoin (frame_bytes <$> frames n ck) in
  read_initial (length pt) (mkInitialFrames None None None) pt
  = Ok (mkInitialFrames (Some (x_public secret, ed_public sk, hash ck, ed_sign sk (hash ck), al)) ck (Some (from_config cfg))).
Proof.
  intros Hck pt. destruct (hello_typed cfg al secret sk scid_c dcid_c Hcfg Hval Hal Hal' n ck Hck) as (T & W & N).
  unfold pt. rewrite read_initial_frames by done. destruct (valid_params cfg Hcfg Hval) as [_ V].
  unfold hello, hello_frames. rewrite !foldl_app. cbn [foldl initial_step mbind res_bind in_parameters in_cookie in_handshake]. rewrite V.
  unfold hello_padding. by destruct ck, (0 <? _).
Qed.

Lemma hello_opened n ck d :
  0 ≤ n < 256 → sealed dcid_c true (header n) (mjoin (frame_bytes <$> frames n ck)) d → 1200 ≤ len d →
  open_initial d = Ok (Some (header n, mjoin (frame_bytes <$> frames n ck))).
Proof. intros Hn Sd Ld. apply open_initial_sealed; try done; [by apply header_hello|cbn; lia]. Qed.

Lemma send_to_ok to d e :
  send_to to d e = (Ok tt, e <| ep_questions ::= S |> <| sent ::= λ l, l ++ [(to, d)] |>).
Proof. unfold send_to. erewrite act_bind_ok by reflexivity. cbv beta. by rewrite Hsocket. Qed.

Lemma cookie_array key from s t : array_ok 40 (make_retry_cookie key from s t).
Proof.
  unfold make_retry_cookie. split; [apply Forall_app; split; [apply be_bytes_ok|apply hmac_bytes]|].
  rewrite len_app, len_be_bytes, hmac_len. done.
Qed.

(** The server has read an Initial packet. *)
Lemma authenticate_hello n ck d from e :
  0 ≤ n < 256 → cookie_fits ck → sealed dcid_c true (header n) (mjoin (frame_bytes <$> frames n ck)) d → 1200 ≤ len d →
  let now := now_ms e in
  let valid := match ck with
               | Some c => verify_retry_cookie (cookie_key e) from scid_c c now (cookie_max_age_ms (ep_config e))
               | None => false end in
  authenticate d from e =
    (if negb valid then send_retry from scid_c n (make_retry_cookie (cookie_key e) from scid_c now);; mret None
     else check_client (header n) (x_public secret, ed_public sk, hash ck, ed_sign sk (hash ck), al) ck
            (from_config cfg) now (len d)) (e <| ep_questions ::= S |>).
Proof.
  intros Hn Hck Sd Ld now valid. unfold authenticate. rewrite (hello_opened n ck d) by done.
  erewrite act_bind_ok by reflexivity. cbv beta iota. rewrite hello_read by done.
  do 6 (erewrite act_bind_ok by reflexivity; cbv beta iota). done.
Qed.

(** An Initial packet without a cookie gets a Retry packet with one. *)
Lemma server_retries d from e :
  sealed dcid_c true (header 0) (mjoin (frame_bytes <$> frames 0 None)) d → 1200 ≤ len d →
  ∃ e', handle_handshake d from e = (Ok tt, e')
    ∧ sent e' = sent e ++ [(from, header_bytes (retry_header scid_c 0) ++ make_retry_cookie (cookie_key e) from scid_c (now_ms e))].
Proof.
  intros Sd Ld. unfold handle_handshake, mbind at 1, act_bind at 1. rewrite (authenticate_hello 0 None) by (done || lia).
  cbn [negb]. unfold send_retry. fold (retry_header scid_c 0).
  rewrite encode_header_bytes by by apply header_retry. unfold mbind, act_bind. cbn [lift]. rewrite send_to_ok. by eexists.
Qed.

(** A connection id among the next random ones that is free. *)
Lemma fresh_scid_free tries e :
  (∃ k, (k < tries)%nat ∧ routing_table e !! ep_random (ep_questions e + k) 8 = None) →
  ∃ s q, fresh_scid tries e = (Ok s, e <| ep_questions := q |>) ∧ array_ok 8 s ∧ routing_table e !! s = None.
Proof.
  revert e. induction tries as [|tries IH]; intros e (k & Hk & Hf); [lia|]. cbn [fresh_scid].
  erewrite act_bind_ok by reflexivity. cbv beta. set (e1 := e <| ep_questions ::= S |>).
  erewrite act_bind_ok by reflexivity. cbv beta. change (routing_table e1) with (routing_table e).
  destruct (routing_table e !! ep_random (ep_questions e) 8) as [i|] eqn:Hl.
  - rewrite bool_decide_true by done. destruct k as [|k]; [rewrite Nat.add_0_r in Hf; congruence|].
    destruct (IH e1) as (s & q & E & Hs & Hr); [exists k; split; [lia|]|].
    { change (ep_questions e1) with (S (ep_questions e)). by rewrite Nat.add_succ_comm. }
    exists s, q. by rewrite E.
  - rewrite bool_decide_false by (by intros [? ?]). exists (ep_random (ep_questions e) 8), (S (ep_questions e)).
    split; [done|]. split; [apply Hrandom|done].
Qed.

(** The checks on the client pass. *)
Lemma client_passes n ck h c size e :
  ep_alpn e = al → cookie_hmac ck = Some h → replay_filter e !! h = None → verify_peer_key (ep_verifier e) (ed_public sk) = true →
  ∃ m, check_client (header n) (x_public secret, ed_public sk, hash (Some ck), ed_sign sk (hash (Some ck)), al) (Some ck)
    (from_config cfg) c size e
  = (Ok (Some (mkAuthentic (header n) (x_public secret) (Some ck) (from_config cfg) c (Some h) size)),
     e <| ep_questions ::= S |> <| replay_filter := m |>) ∧ m !! h = None.
Proof.
  intros Ea Hh Hr Hv. unfold check_client. rewrite (act_bind_ok _ _ _ _ _ (gets_ok ep_alpn e al Ea)).
  rewrite bool_decide_true by done. cbn [negb]. erewrite act_bind_ok by reflexivity. cbv beta. set (e1 := e <| ep_questions ::= S |>).
  erewrite act_bind_ok by reflexivity. cbv beta.
  set (m := if ep_coin (ep_questions e) then purge c (cookie_max_age_ms (ep_config e1)) (replay_filter e) else replay_filter e).
  exists m. assert (m !! h = None) as Hm.
  { unfold m, purge. destruct (ep_coin _); [|done]. rewrite map_lookup_filter, Hr. done. }
  split; [|done]. set (e2 := e1 <| replay_filter := m |>).
  rewrite (act_bind_ok _ _ _ tt e2); [|unfold e2, m; by destruct (ep_coin (ep_questions e))].
  erewrite act_bind_ok by reflexivity. cbv beta. cbn [mbind option_bind]. rewrite Hh.
  change (replay_filter e2) with m. rewrite Hm, bool_decide_false by (by intros [? ?]).
  rewrite ed_valid_public. cbn [negb]. change (sha256 (client_transcript (header n) (x_public secret) (Some ck) (from_config cfg))) with (hash (Some ck)).
  rewrite bool_decide_true, ed_verify_sign by done. cbn [negb].
  rewrite (act_bind_ok _ _ _ _ _ (gets_ok ep_verifier e2 (ep_verifier e) eq_refl)). by rewrite Hv.
Qed.

(** What the server has made of a client that passed: a new actor with the session, in the routing
    table and in the accept queue, and a Handshake packet on its way. *)
Definition enrolled (e e' : Endpoint) (from : SocketAddr) (ck : option bytes) : Prop :=
  ∃ secret_s scid_s t d,
    array_ok 8 scid_s ∧ tasks e' = tasks e ++ [t] ∧ task_scid t = scid_s ∧ alive t = true
    ∧ routing_table e' = <[scid_s := length (tasks e)]> (routing_table e)
    ∧ accept_queue e' = accept_queue e ++ [mkConnectionHandle scid_s (length (tasks e))]
    ∧ session (conn (task_actor t)) scid_s scid_c
        (from_shared_secret (compute_shared_secret secret_s (x_public secret)) scid_s scid_c (ep_psk e) false)
        (cfg_idle_timeout (ep_config e)) (from_config cfg)
    ∧ sent e' = sent e ++ [(from, d)]
    ∧ sealed scid_c false (response_header scid_c scid_s)
        (mjoin (frame_bytes <$> response cfg al secret scid_c dcid_c (ep_config e) secret_s (ep_signing_key e) scid_s ck)) d.

Lemma accept_session cfg_s pre au from s shared t :
  ∃ c, accept_connection cfg_s pre au from s shared t = Ok (0, c)
    ∧ session c s (PacketHeader.scid (au_header au)) (from_shared_secret shared s (PacketHeader.scid (au_header au)) pre false)
        (cfg_idle_timeout cfg_s) (au_parameters au).
Proof.
  unfold accept_connection, get_next_packet_number. change (next_packet_number _) with 0. cbn [checked_add].
  change (checked_add 64 0 1) with (Some 1). cbv beta iota zeta. cbn [mbind res_bind].
  match goal with |- context [conn_mark_processed ?pn ?t ?c] => destruct (mark_shape pn t c) as [v ->] end.
  eexists. split; [reflexivity|]. by split.
Qed.

Lemma response_sealed n ck c h size secret_s s e :
  config_typed (ep_config e) → config_validate (ep_config e) = Ok tt → array_ok 8 s →
  ep_alpn e = al → ep_public_key e = ed_public (ep_signing_key e) →
  ∃ d, handshake_bytes e (mkAuthentic (header n) (x_public secret) (Some ck) (from_config cfg) c (Some h) size) s (x_public secret_s) 0 = Ok d
    ∧ sealed scid_c false (response_header scid_c s)
        (mjoin (frame_bytes <$> response cfg al secret scid_c dcid_c (ep_config e) secret_s (ep_signing_key e) s (Some ck))) d.
Proof.
  intros Tc Vc [Bs Ls] Ea Ek. assert (cid_ok s) as Cs by (split; [done|lia]).
  pose proof (header_response scid_c Hscid s Cs) as HO.
  destruct (response_typed cfg al secret scid_c dcid_c Hal Hal' (ep_config e) secret_s (ep_signing_key e) s Tc Vc (Some ck)) as (T & _ & _).
  unfold handshake_bytes. cbn [au_header au_public_key au_cookie au_parameters PacketHeader.scid hello_header].
  fold (response_header scid_c s). rewrite (encode_header_bytes _ _ HO). cbn [mbind res_bind app]. rewrite Ek, Ea.
  match goal with |- context [sha256 (server_transcript ?au s ?p ?l)] =>
    change (sha256 (server_transcript au s p l)) with (response_hash cfg secret scid_c dcid_c (ep_config e) secret_s s (Some ck)) end.
  pose proof T as T'. unfold response in T'. rewrite !Forall_cons in T'. destruct T' as (T1 & T2 & _).
  rewrite (encode_bytes _ _ T1), (encode_bytes _ _ T2). cbn [app].
  match goal with |- ∃ d, protect_lenient _ _ _ ?pt = _ ∧ sealed _ _ _ ?pt' _ => replace pt with pt' by (unfold response; cbn [fmap list_fmap mjoin list_join]; by rewrite app_nil_r) end.
  destruct (response_size cfg al secret scid_c dcid_c Hal' (ep_config e) secret_s (ep_signing_key e) s (Some ck)) as [L1 L2].
  apply (lenient_seals scid_c false (response_header scid_c s)); [done| |lia|cbn [PacketHeader.pn_len response_header]; lia].
  apply Forall_join, Forall_fmap. by eapply Forall_impl; [exact T|]; intros f; apply frame_bytes_ok.
Qed.

Lemma announced au from i s pub d t e :
  len (accept_queue e) < ACCEPT_CAPACITY → tasks e !! i = Some t → alive t = true → mailbox t = [] →
  handshake_bytes e au s pub 0 = Ok d →
  announce au from i s pub 0 e
  = (Ok tt, e <| accept_queue ::= (λ l, l ++ [mkConnectionHandle s i]) |>
              <| tasks ::= <[i := t <| mailbox := [ActorMessage.SetHandshakePacket d] |>]> |>
              <| ep_questions ::= S |> <| sent ::= λ l, l ++ [(from, d)] |>).
Proof.
  intros Hq Ht Ha Hm Hd. unfold announce. erewrite act_bind_ok by reflexivity. cbv beta.
  replace (len (accept_queue e) <? ACCEPT_CAPACITY) with true by lia. cbn [negb].
  set (e1 := e <| accept_queue ::= (λ l, l ++ [mkConnectionHandle s i]) |>).
  rewrite (act_bind_ok _ _ _ tt e1) by reflexivity.
  rewrite (act_bind_ok _ _ _ d e1); [|exact (f_equal (λ r, (r, e1)) Hd)].
  set (e2 := e1 <| tasks ::= <[i := t <| mailbox := [ActorMessage.SetHandshakePacket d] |>]> |>).
  rewrite (act_bind_ok _ _ _ true e2); [by rewrite send_to_ok|].
  unfold try_post. change (tasks e1) with (tasks e). rewrite Ht, Ha.
  change (t <| mailbox ::= λ l, l ++ [ActorMessage.SetHandshakePacket d] |>)
    with (t <| mailbox := mailbox t ++ [ActorMessage.SetHandshakePacket d] |>). by rewrite Hm.
Qed.

Lemma client_enrolled n ck h c size from e :
  0 ≤ n < 256 → config_typed (ep_config e) → config_validate (ep_config e) = Ok tt →
  ep_alpn e = al → ep_public_key e = ed_public (ep_signing_key e) → len (accept_queue e) < ACCEPT_CAPACITY →
  (∃ k, (k < 10)%nat ∧ routing_table e !! ep_random (ep_questions e + 1 + k) 8 = None) → replay_filter e !! h = None →
  ∃ e', enroll_client (mkAuthentic (header n) (x_public secret) (Some ck) (from_config cfg) c (Some h) size) from e = (Ok tt, e')
    ∧ enrolled e e' from (Some ck).
Proof.
  intros Hn Tc Vc Ea Ek Hq Hs Hr. unfold enroll_client. cbn [au_hmac au_time].
  set (e0 := e <| replay_filter ::= <[h := c]> |>).
  rewrite (act_bind_ok _ _ _ true e0) by (unfold claim; by rewrite Hr). cbn [negb].
  unfold open_connection. erewrite act_bind_ok by reflexivity. cbv beta. set (e1 := e0 <| ep_questions ::= S |>).
  set (secret_s := ep_random (ep_questions e0) 32). unfold generate_keypair.
  destruct (fresh_scid_free 10 e1) as (s & q & E & As & Hf).
  { destruct Hs as (k & Hk & Hf). exists k. split; [done|]. change (ep_questions e1) with (S (ep_questions e)).
    change (routing_table e1) with (routing_table e). by rewrite <- Nat.add_1_r. }
  rewrite (act_bind_ok _ _ _ _ _ E). erewrite act_bind_ok by reflexivity. cbv beta.
  set (e2 := e1 <| ep_questions := S q |>). set (au := mkAuthentic _ _ _ _ _ _ _).
  destruct (accept_session (ep_config e2) (ep_psk e2) au from s (compute_shared_secret secret_s (au_public_key au)) (ep_clock q))
    as (new & Ec & Ss).
  rewrite (act_bind_ok _ _ _ (0, new) e2); [|exact (f_equal (λ r, (r, e2)) Ec)]. cbv iota.
  erewrite act_bind_ok by reflexivity. cbv beta. set (a := server_actor _ _ _).
  erewrite act_bind_ok by reflexivity. cbv beta. set (i := length (tasks e2)).
  set (e3 := e2 <| tasks ::= (λ l, l ++ [mkTask s a None [] true]) |> <| routing_table ::= <[s := i]> |>).
  rewrite (act_bind_ok _ _ _ tt e3) by reflexivity.
  destruct (response_sealed n ck c h size secret_s s e3) as (d & Hd & Sd); [done..|].
  assert (tasks e3 !! i = Some (mkTask s a None [] true)) as Hi by apply list_lookup_middle, eq_refl.
  unfold guarded. rewrite (announced au from i s (x_public secret_s) d _ e3 Hq Hi eq_refl eq_refl Hd).
  eexists. split; [reflexivity|]. exists secret_s, s, (mkTask s a None [ActorMessage.SetHandshakePacket d] true), d.
  split; [done|]. split; [|done].
  change (<[i := mkTask s a None [ActorMessage.SetHandshakePacket d] true]> (tasks e ++ [mkTask s a None [] true])
    = tasks e ++ [mkTask s a None [ActorMessage.SetHandshakePacket d] true]).
  unfold i. change (tasks e2) with (tasks e). by rewrite insert_app_r_alt, Nat.sub_diag by done.
Qed.

(** A server that can take one more client: it runs the protocol of the client, accepts its identity,
    has room in the accept queue, and one of the connection ids it will draw is free. *)
Record server_ready (e : Endpoint) : Prop := {
  sr_typed : config_typed (ep_config e);
  sr_valid : config_validate (ep_config e) = Ok tt;
  sr_alpn : ep_alpn e = al;
  sr_identity : ep_public_key e = ed_public (ep_signing_key e);
  sr_verifier : verify_peer_key (ep_verifier e) (ed_public sk) = true;
  sr_room : len (accept_queue e) < ACCEPT_CAPACITY;
  sr_scid : ∃ k, (k < 10)%nat ∧ routing_table e !! ep_random (ep_questions e + 3 + k) 8 = None;
}.

(** An Initial packet with a good cookie opens a connection. *)
Lemma server_accepts d from t e :
  let ck := make_retry_cookie (cookie_key e) from scid_c t in
  sealed dcid_c true (header 1) (mjoin (frame_bytes <$> frames 1 (Some ck))) d → 1200 ≤ len d → server_ready e →
  u_ok 64 t → t ≤ now_ms e ≤ t + cookie_max_age_ms (ep_config e) →
  (∀ h, cookie_hmac ck = Some h → replay_filter e !! h = None) →
  ∃ e', handle_handshake d from e = (Ok tt, e') ∧ enrolled e e' from (Some ck).
Proof.
  intros ck Sd Ld [] Ht Hage Hr. destruct (cookie_array (cookie_key e) from scid_c t) as [Bk Lk]. fold ck in Bk, Lk.
  destruct (cookie_hmac ck) as [h|] eqn:Hh; [|unfold cookie_hmac in Hh; by rewrite Lk in Hh].
  unfold handle_handshake, mbind at 1, act_bind at 1. rewrite (authenticate_hello 1 (Some ck)) by (done || lia).
  assert (verify_retry_cookie (cookie_key e) from scid_c ck (now_ms e) (cookie_max_age_ms (ep_config e)) = true) as ->.
  { apply verify_cookie_iff; [done|]. exists t. split_and!; [done|done|lia|lia]. }
  cbn [negb]. set (e1 := e <| ep_questions ::= S |>).
  destruct (client_passes 1 ck h (now_ms e) (len d) e1) as (m & -> & Hm); [done|done|by apply Hr|done|].
  set (e2 := e1 <| ep_questions ::= S |> <| replay_filter := m |>).
  destruct (client_enrolled 1 ck h (now_ms e) (len d) from e2) as (e' & E & En); try done; [|by exists e'].
  destruct sr_scid0 as (k & Hk & Hf). exists k. split; [done|]. change (ep_questions e2) with (S (S (ep_questions e))).
  by replace (S (S (ep_questions e)) + 1 + k)%nat with (ep_questions e + 3 + k)%nat by lia.
Qed.
End server.

(** ** The theorem *)

(** What one end encrypts, the other decrypts. *)
Definition understands `{AE : Aead} (k k' : CryptoContext) : Prop :=
  ∀ pn aad pt ct tag, encrypt_in_place k pn aad pt = Ok (ct, tag) → decrypt_in_place k' pn aad ct tag false = Ok pt.

Lemma shared_understood `{HK : Hkdf} `{AL : AeadLaws} shared cid_c cid_s pre (role : bool) :
  understands (from_shared_secret shared (if role then cid_c else cid_s) (if role then cid_s else cid_c) pre role)
    (from_shared_secret shared (if negb role then cid_c else cid_s) (if negb role then cid_s else cid_c) pre (negb role)).
Proof.
  intros pn aad pt ct tag E.
  eapply open_same_epoch; [apply (shared_in_epoch shared cid_c cid_s pre role 0); lia|apply (shared_in_epoch shared cid_c cid_s pre (negb role) 0); lia|done].
Qed.

(** The client starts with its first packet. *)
Lemma client_starts `{BL : BytesLaws} `{HK : Hkdf} `{AL : AeadLaws} {AT : AeadTotal} `{CC : ChaCha20} {KT : KeystreamTotal} `{LM : Libm}
    `{EV : Env} `{SL : Sha256Laws} `{EL : Ed25519Laws} `{XL : X25519Laws} (ec : Endpoint) (to : SocketAddr) (scid dcid secret : bytes) :
  config_typed (ep_config ec) → config_validate (ep_config ec) = Ok tt → bytes_ok (ep_alpn ec) → len (ep_alpn ec) < 256 →
  cid_ok scid → cid_ok dcid → (∀ q to d, socket_send q to d = None) →
  ∃ tm d a, start (client_actor ec to scid dcid secret) = (Ok tm, a) ∧ outbox a = [(to, d)]
    ∧ waiting (ep_config ec) (ep_alpn ec) secret (ep_signing_key ec) scid dcid (ep_psk ec) (ep_verifier ec) to 1 None a
    ∧ sealed dcid true (hello_header scid dcid 0)
        (mjoin (frame_bytes <$> hello (ep_config ec) (ep_alpn ec) secret (ep_signing_key ec) scid dcid 0 None)) d ∧ 1200 ≤ len d.
Proof.
  intros Tc Vc Ba La Hs Hd Hsock. set (a0 := (client_actor ec to scid dcid secret) <| questions := 6%nat |>).
  assert (waiting (ep_config ec) (ep_alpn ec) secret (ep_signing_key ec) scid dcid (ep_psk ec) (ep_verifier ec) to 0 None a0) as W by by split.
  destruct (greet _ _ _ _ _ _ _ _ _ Tc Vc Ba La Hs Hd Hsock 0 None None a0 W) as (d & a & E & Eo & W' & Sd & Ld); [by left|done|].
  unfold start. erewrite act_bind_ok by reflexivity. erewrite act_bind_ok by reflexivity. cbv beta.
  eexists _, d, a. split; [|done]. rewrite (act_bind_ok _ _ _ tt a); [reflexivity|].
  change ((attempt (send_initial_packet None);; skip) a0 = (Ok tt, a)). unfold mbind, act_bind, attempt. by rewrite E.
Qed.

(** C6: The handshake completes.  A client connects; the server answers its Initial packet with a
    Retry, the client sends the cookie back, and a later state of the server, [es'], that is ready for
    a client, takes the Initial packet and answers with a Handshake packet.  When these packets
    arrive, the client is connected, and the server has entered one new actor into its
    routing table and accept queue.  Each end has the other's connection id and limits, and decrypts what the other
    encrypts.  The cookie must be young enough and not used before, and each end must accept
    the identity of the other. *)
Theorem handshake_completes `{BL : BytesLaws} `{HK : Hkdf} `{AL : AeadLaws} {AT : AeadTotal} `{CC : ChaCha20} {KT : KeystreamTotal}
    `{LM : Libm} `{HL : HmacLaws} `{SL : Sha256Laws} `{EL : Ed25519Laws} `{XL : X25519Laws} `{EV : Env} `{EE : EndpointEnv}
    (ec es es' : Endpoint) (to from : SocketAddr) (scid dcid secret : bytes) :
  (* nothing is lost, and random bytes are bytes *)
  (∀ q to d, socket_send q to d = None) → (∀ q to d, ep_socket q to d = None) → (∀ q n, array_ok (Z.of_nat n) (ep_random q n)) →
  (* the client *)
  config_typed (ep_config ec) → config_validate (ep_config ec) = Ok tt → bytes_ok (ep_alpn ec) → len (ep_alpn ec) < 256 →
  cid_ok scid → cid_ok dcid → verify_peer_key (ep_verifier ec) (ed_public (ep_signing_key es')) = true →
  (* the server, and its cookie *)
  server_ready (ep_alpn ec) (ep_signing_key ec) es' → ep_psk es' = ep_psk ec → cookie_key es' = cookie_key es →
  now_ms es ≤ now_ms es' ≤ now_ms es + cookie_max_age_ms (ep_config es') →
  (∀ h, cookie_hmac (make_retry_cookie (cookie_key es) from scid (now_ms es)) = Some h → replay_filter es' !! h = None) →
  ∃ tm a1 a2 a3 es1 es2 t d1 d2 retry answer kc ks,
    start (client_actor ec to scid dcid secret) = (Ok tm, a1) ∧ outbox a1 = [(to, d1)]
    ∧ handle_handshake d1 from es = (Ok tt, es1) ∧ sent es1 = sent es ++ [(from, retry)]
    ∧ process_incoming_packet retry to a1 = (Ok tt, a2) ∧ outbox a2 = [(to, d1); (to, d2)]
    ∧ handle_handshake d2 from es' = (Ok tt, es2) ∧ sent es2 = sent es' ++ [(from, answer)]
    ∧ process_incoming_packet answer to a2 = (Ok tt, a3)
    ∧ state (conn a3) = Active ∧ handshake_waiter a3 = false
    ∧ tasks es2 = tasks es' ++ [t] ∧ alive t = true
    ∧ routing_table es2 = <[task_scid t := length (tasks es')]> (routing_table es')
    ∧ accept_queue es2 = accept_queue es' ++ [mkConnectionHandle (task_scid t) (length (tasks es'))]
    ∧ session (conn a3) scid (task_scid t) kc (cfg_idle_timeout (ep_config ec)) (from_config (ep_config es'))
    ∧ session (conn (task_actor t)) (task_scid t) scid ks (cfg_idle_timeout (ep_config es')) (from_config (ep_config ec))
    ∧ understands kc ks ∧ understands ks kc.
Proof.
  intros Hc Hs Hr Tc Vc Ba La Hscid Hdcid Vs Rs Ep Ek Hage Hused.
  destruct (client_starts ec to scid dcid secret Tc Vc Ba La Hscid Hdcid Hc) as (tm & d1 & a1 & E1 & O1 & W1 & S1 & L1).
  destruct (server_retries _ _ _ _ _ _ Tc Vc Ba La Hscid Hdcid Hs d1 from es S1 L1) as (es1 & E2 & O2).
  pose proof (cookie_array (cookie_key es) from scid (now_ms es)) as Hck. set (ck := make_retry_cookie _ _ _ _) in *.
  destruct (process_retry _ _ _ _ _ _ _ _ _ Tc Vc Ba La Hscid Hdcid Hc ck to a1 W1 Hck) as (d2 & a2 & E3 & O3 & W2 & S2 & L2).
  assert (u_ok 64 (now_ms es)) as Ht by (unfold now_ms, current_time_millis, wrap, u_ok; apply Z.mod_pos_bound; lia).
  destruct (server_accepts (ep_config ec) (ep_alpn ec) secret (ep_signing_key ec) scid dcid Tc Vc Ba La Hscid Hdcid Hs Hr d2 from (now_ms es) es') as (es2 & E4 & En);
    rewrite ?Ek; try done.
  rewrite Ek in En. fold ck in En. destruct En as (secret_s & scid_s & t & answer & As & Et & <- & Al & Er & Eq & Ss & O4 & S4).
  assert (cid_ok (task_scid t)) as Ct by (destruct As as [? ?]; split; [done|lia]).
  destruct (process_response _ _ _ _ _ _ _ _ _ Ba La Hscid (ep_config es') secret_s (ep_signing_key es') (task_scid t) (sr_typed _ _ _ Rs)
    (sr_valid _ _ _ Rs) Ct 2 (Some ck) answer to a2 W2 Vs S4) as (a3 & E5 & St & Hw & Sc).
  set (shared := compute_shared_secret secret (x_public secret_s)) in Sc.
  assert (compute_shared_secret secret_s (x_public secret) = shared) as Esh by apply dh_commutes. rewrite Esh, Ep in Ss.
  eexists tm, a1, a2, a3, es1, es2, t, d1, d2, _, answer, _, _. rewrite O3, O1. split_and!; try done.
  - exact (shared_understood shared scid (task_scid t) (ep_psk ec) true).
  - exact (shared_understood shared scid (task_scid t) (ep_psk ec) false).
Qed.

(** Two endpoints; the server has looked at its clock in between. *)
Definition sample_server : Endpoint := @new_endpoint ed25519_model 2 [7] [9] config_default.
Definition sample_client : Endpoint := @new_endpoint ed25519_model 1 [8] [3] config_default.

Lemma handshake_completes_witness :
  ∃ es2 t a2 a3 answer kc ks,
    @process_incoming_packet bytes_model CryptoFacts.hkdf_model CryptoFacts.aead_model chacha20_model libm_model env_model
      sha256_model ed25519_model x25519_model answer sample_addr a2 = (Ok tt, a3)
    ∧ state (conn a3) = Active ∧ tasks es2 = [t]
    ∧ session (conn a3) (be_bytes 8 1) (task_scid t) kc (cfg_idle_timeout config_default) (from_config config_default)
    ∧ session (conn (task_actor t)) (task_scid t) (be_bytes 8 1) ks (cfg_idle_timeout config_default) (from_config config_default)
    ∧ @understands CryptoFacts.aead_model kc ks ∧ @understands CryptoFacts.aead_model ks kc.
Proof.
  destruct (@handshake_completes bytes_model bytes_model_laws CryptoFacts.hkdf_model CryptoFacts.aead_model CryptoFacts.aead_model_laws
    CryptoFacts.aead_model_total chacha20_model chacha20_model_total libm_model hmac_model hmac_model_laws sha256_model sha256_model_laws
    ed25519_model ed25519_model_laws x25519_model x25519_model_laws env_model endpoint_env_model
    sample_client sample_server (sample_server <| ep_questions := 5%nat |>) sample_addr sample_addr
    (be_bytes 8 1) (be_bytes 8 2) (be_bytes 32 3))
    as (tm & a1 & a2 & a3 & es1 & es2 & t & d1 & d2 & retry & answer & kc & ks & _ & _ & _ & _ & _ & _ & _ & _ & E & St & _ & Et & _ & _ & _
        & S1 & S2 & U1 & U2).
  - done.
  - done.
  - intros q n. apply be_bytes_array.
  - closed.
  - reflexivity.
  - closed.
  - closed.
  - closed.
  - closed.
  - reflexivity.
  - split; try reflexivity; [closed|]. by exists 0%nat; split; [lia|].
  - reflexivity.
  - reflexivity.
  - closed.
  - done.
  - by exists es2, t, a2, a3, answer, kc, ks.
Defined.
