(* ===== verification/Amplification.v ===== *)
(** * The anti-amplification limit

    Until the client's address is confirmed, a server actor answers with at most three
    times the bytes it received.  All of its output goes through [sendmsg_vectored], so the
    limit is an invariant of every method. *)

From stdpp Require Import strings.
From S2P Require Import Prelude Errors Effects Buf Config StreamType Frames Packet PacketNumber HeaderProtection.
From S2P Require Import Bitmap ReplayWindow AckTracker Unacked StreamBuffer BufferProps Cookie KeyDerivation CryptoContext.
From S2P Require Import Float Congestion Termination Connection AckHandling ConnFrame Actor ActFacts PacketSender Retransmit.
From S2P Require Import HandshakeHandler IncomingHandler EventLoop ActorRun.

(** The bytes the actor has put on the wire. *)
Definition bytes_of (o : list (SocketAddr * bytes)) : Z := foldr (λ d n, len (snd d) + n) 0 o.
Abbreviation outbox_bytes a := (bytes_of (outbox a)).

(** With at most [R] bytes received: a server that is still handshaking has sent at most
    three times what it received. *)
Definition budget (R : Z) (a : Actor) : Prop :=
  on_client a = false ∧ 0 ≤ bytes_received (conn a) ≤ R ∧
  (state (conn a) = Handshaking →
   bytes_sent (conn a) = outbox_bytes a ∧ outbox_bytes a ≤ 3 * Z.max (bytes_received (conn a)) 1).

Lemma bytes_of_app o d : bytes_of (o ++ [d]) = bytes_of o + len d.2.
Proof. induction o as [|x o IH]; simpl; [lia|]. rewrite IH. lia. Qed.

Lemma bytes_of_nonneg o : 0 ≤ bytes_of o.
Proof. induction o as [|d o IH]; simpl; [lia|]. pose proof (len_nonneg d.2). lia. Qed.

(** Writes that do not concern the budget. *)
Ltac unconcerned :=
  intros; match goal with
  | H : budget _ _ |- _ =>
      first [exact H | destruct H as (? & ? & H); split; [done|]; split; [done|]; intros ?;
                       first [done | by apply H]]
  end.

(** Methods whose writes do not concern the budget, and which send through
    [sendmsg_vectored] only. *)
Ltac within_budget := walk; try unconcerned.

Section budget.
Context `{BC : BytesCrate} `{HK : Hkdf} `{AE : Aead} `{CC : ChaCha20} `{LM : Libm} `{EV : Env}.
Context `{SH : Sha256} `{ED : Ed25519} `{XD : X25519}.
Context (R : Z) (HR : R < 2 ^ 60).

Lemma budget_sendmsg buf : preserves (budget R) (sendmsg_vectored buf).
Proof.
  intros a (Hc & B & S). unfold sendmsg_vectored. pose proof (bytes_of_nonneg (outbox a)). pose proof (len_nonneg buf).
  destruct (2 ^ 63 <=? len buf) eqn:L; [exact (conj Hc (conj B S))|]. to_prop.
  destruct (negb (on_client a) && bool_decide (state (conn a) = Handshaking) && _) eqn:E; [exact (conj Hc (conj B S))|].
  destruct (socket_send _ _ _) as [[]|]; try exact (conj Hc (conj B S)).
  split; [exact Hc|]. split; [exact B|]. intros Hs. change (state (conn a) = Handshaking) in Hs.
  destruct (S Hs) as [S1 S2]. rewrite Hc, bool_decide_eq_true_2 in E by done. cbn [negb andb] in E.
  unfold wrap in E. rewrite !Z.mod_small in E by lia. apply Z.ltb_ge in E.
  change (wrap 64 (bytes_sent (conn a) + len buf) = bytes_of (outbox a ++ [(addr (conn a), buf)])
    ∧ bytes_of (outbox a ++ [(addr (conn a), buf)]) ≤ 3 * Z.max (bytes_received (conn a)) 1).
  rewrite bytes_of_app. cbn [snd]. unfold wrap. rewrite Z.mod_small by lia. lia.
Qed.
#[local] Hint Resolve budget_sendmsg : preserves.

Lemma budget_note_packet_sent : preserves (budget R) note_packet_sent.
Proof.
  intros a H. unfold note_packet_sent. destruct (negb _); [done|]. destruct (crypto (conn a)); [|done].
  destruct (key_update_packet_interval _ <=? _); exact H.
Qed.
#[local] Hint Resolve budget_note_packet_sent : preserves.

Lemma budget_get_crypto : preserves (budget R) get_crypto.
Proof. by intros a. Qed.
#[local] Hint Resolve budget_get_crypto : preserves.

Lemma budget_flush_acks : preserves (budget R) flush_acks.
Proof. unfold flush_acks, refresh_local_window, now. within_budget. Qed.
#[local] Hint Resolve budget_flush_acks : preserves.

Lemma budget_send_mtu_probe : preserves (budget R) send_mtu_probe.
Proof. unfold send_mtu_probe, refresh_local_window, now. within_budget. Qed.

Lemma budget_process_outgoing_data id data : preserves (budget R) (process_outgoing_data id data).
Proof.
  intros a H. unfold process_outgoing_data. destruct (_ <? _); [done|].
  destruct (streams (conn a) !! id) as [s|]; [|done]. destruct (send_stopped_error s); [done|].
  destruct (bool_decide _); [done|]. destruct (_ <? _); [done|]. destruct (_ <? _); [done|]. exact H.
Qed.

Lemma budget_send_initial ck r : preserves (budget R) (send_initial_packet_internal ck r).
Proof. unfold send_initial_packet_internal, now. within_budget. by destruct ck; unconcerned. Qed.
#[local] Hint Resolve budget_send_initial : preserves.

Lemma budget_send_with_retries p r : preserves (budget R) (send_payload_with_retries p r).
Proof. unfold send_payload_with_retries, send_protected_payload, now. within_budget. Qed.
#[local] Hint Resolve budget_send_with_retries : preserves.

Lemma budget_retransmit p r : preserves (budget R) (retransmit_payload p r).
Proof. unfold retransmit_payload, queue_front. within_budget. Qed.
#[local] Hint Resolve budget_retransmit : preserves.

Lemma budget_send_payload p : preserves (budget R) (send_payload p).
Proof. unfold send_payload, queue_front. within_budget. Qed.
#[local] Hint Resolve budget_send_payload : preserves.

Lemma budget_initiate_close : preserves (budget R) initiate_close.
Proof. unfold initiate_close. within_budget. Qed.
Lemma budget_initiate_close_with_error e r : preserves (budget R) (initiate_close_with_error e r).
Proof. unfold initiate_close_with_error. within_budget. Qed.
Lemma budget_send_stream_close id : preserves (budget R) (send_stream_close id).
Proof. unfold send_stream_close. within_budget. Qed.
Lemma budget_reset_stream id e : preserves (budget R) (reset_stream id e).
Proof. unfold reset_stream. within_budget. Qed.
#[local] Hint Resolve budget_initiate_close budget_reset_stream : preserves.

Lemma budget_send_frame_immediate f to : preserves (budget R) (send_frame_immediate f to).
Proof. unfold send_frame_immediate. within_budget. Qed.
#[local] Hint Resolve budget_send_frame_immediate : preserves.

Lemma budget_retransmit_all l : preserves (budget R) (retransmit_all l).
Proof. induction l as [|[p r] l IH]; cbn [retransmit_all]; within_budget. Qed.
#[local] Hint Resolve budget_retransmit_all : preserves.

(** A write of the connection that keeps the three fields the budget reads. *)
Lemma budget_fields a c :
  bytes_received c = bytes_received (conn a) → state c = state (conn a) → bytes_sent c = bytes_sent (conn a) →
  budget R a → budget R (a <| conn := c |>).
Proof.
  intros Hr Hs Hb (Hc & B & S).
  change (on_client a = false ∧ 0 ≤ bytes_received c ≤ R ∧ (state c = Handshaking →
    bytes_sent c = outbox_bytes a ∧ outbox_bytes a ≤ 3 * Z.max (bytes_received c) 1)).
  by rewrite Hr, Hs, Hb.
Qed.

Lemma budget_conn a c : untouched (conn a) c → budget R a → budget R (a <| conn := c |>).
Proof. intros []. by apply budget_fields. Qed.

(** A write of the connection by bookkeeping. *)
Lemma budget_on_conn f : (∀ c, untouched c (f c)) → preserves (budget R) (on_conn f).
Proof. intros H a Ba. apply (budget_conn a (f (conn a))); [apply H|done]. Qed.

Lemma budget_handle_retransmits : preserves (budget R) handle_retransmits.
Proof.
  unfold handle_retransmits, now.
  apply preserves_bind; [walk; unconcerned|intros t]. apply preserves_bind; [walk|intros rto].
  apply preserves_bind; [|intros scan].
  { intros a Ba. destruct (rto_scan _ _ _ _ _) as [d s]. exact Ba. }
  destruct (timed_out scan); [walk|].
  apply preserves_bind; [apply budget_on_conn; intros; apply untouched_probe_failures|intros _].
  apply preserves_bind; [apply budget_on_conn; intros c; destruct (_ && _); [apply untouched_blackhole|done]|intros _].
  apply preserves_bind; [|intros l].
  { intros a Ba. pose proof (untouched_fold _ (to_drop scan) (untouched_drop (to_retransmit scan)) (conn a) []) as U.
    destruct (foldl _ _ _) as [c l]. by apply budget_conn. }
  apply preserves_bind; [|intros _]; walk; unconcerned.
Qed.

Lemma budget_paced_send_failed e : preserves (budget R) (paced_send_failed e).
Proof.
  intros a Ba. unfold paced_send_failed. destruct (socket_blocked a); [done|].
  destruct (is_fatal e); [unconcerned|]. destruct (unpaced_queue (conn a)) as [|[p r] q]; [done|].
  destruct (10 <? _); unconcerned.
Qed.
#[local] Hint Resolve budget_paced_send_failed : preserves.

Lemma budget_pacing_loop fuel rate : preserves (budget R) (pacing_loop fuel rate).
Proof. induction fuel as [|fuel IH]; cbn [pacing_loop]; unfold pop_sent; within_budget. Qed.
#[local] Hint Resolve budget_pacing_loop : preserves.

Lemma budget_flush_pacing_queue : preserves (budget R) flush_pacing_queue.
Proof.
  unfold flush_pacing_queue, now. within_budget. intros a Ba.
  match goal with |- budget _ (upd _ ?f _) => apply (budget_conn a (f (conn a))); [|done] end.
  cbv beta. by destruct (last_pacing_update (conn a)).
Qed.

Lemma budget_deliver_loop fuel s : preserves (budget R) (deliver_loop fuel s).
Proof. revert s. induction fuel as [|fuel IH]; intros s; cbn [deliver_loop]; unfold try_channel; within_budget. Qed.
#[local] Hint Resolve budget_deliver_loop : preserves.

Lemma budget_forward id n : preserves (budget R) (forward_stream_data id n).
Proof. unfold forward_stream_data, autotune, scale_up, on_stream, now. within_budget. Qed.
#[local] Hint Resolve budget_forward : preserves.

Lemma budget_close_with {A} msg : preserves (budget R) (close_with msg : act A).
Proof. unfold close_with. within_budget. Qed.
#[local] Hint Resolve budget_close_with : preserves.

Lemma budget_flush_if_due : preserves (budget R) flush_if_due.
Proof. unfold flush_if_due. within_budget. Qed.
#[local] Hint Resolve budget_flush_if_due : preserves.

Lemma budget_handle_stream id ty o d : preserves (budget R) (handle_stream id ty o d).
Proof.
  unfold handle_stream, open_peer_stream, receive_stream_data, on_stream, count_ack, try_channel, now.
  within_budget.
Qed.
#[local] Hint Resolve budget_handle_stream : preserves.

Lemma budget_handle_ack_frame la ws d rs : preserves (budget R) (handle_ack_frame la ws d rs).
Proof.
  unfold handle_ack_frame, now. within_budget. intros a Ba.
  destruct (handle_ack _ _ _ _ _ _ _) as [[l c]| |] eqn:E; [|done..].
  apply untouched_ack in E. by apply budget_conn.
Qed.
#[local] Hint Resolve budget_handle_ack_frame : preserves.

Lemma budget_handle_frame f from : preserves (budget R) (handle_frame f from).
Proof.
  unfold_handle_frame. destruct f; unfold peer_closed, handle_stream_close, on_stream, handle_path_response,
    handle_reset_stream, count_ack, try_channel; within_budget.
  - intros a Ba. match goal with |- budget _ (upd _ ?f _) => apply (budget_conn a (f (conn a))); [|done] end.
    cbv beta. unfold raise_window. destruct (_ <? _); [|done]. by eapply untouched_trans, untouched_signal.
  - intros a Ba. destruct (_ && _); unconcerned.
  - intros a Ba. match goal with |- budget _ (upd _ ?f _) => apply (budget_conn a (f (conn a))); [|done] end.
    cbv beta. unfold raise_streams. destruct (_ <? _); [|done]. by eapply untouched_trans, untouched_signal.
Qed.
#[local] Hint Resolve budget_handle_frame : preserves.

Lemma budget_handle_frames fuel s from : preserves (budget R) (handle_frames fuel s from).
Proof. revert s. induction fuel as [|fuel IH]; intros s; cbn [handle_frames]; within_budget. Qed.
#[local] Hint Resolve budget_handle_frames : preserves.

Lemma budget_mark_processed pn t : preserves (budget R) (on_conn (conn_mark_processed pn t)).
Proof.
  intros a Ba. set (c := conn_mark_processed pn t (conn a)).
  assert (bytes_received c = bytes_received (conn a) ∧ state c = state (conn a) ∧ bytes_sent c = bytes_sent (conn a))
    as (Hr & Hs & Hb) by (subst c; unfold conn_mark_processed; by destruct (match _ with None => _ | _ => _ end)).
  by apply (budget_fields a c).
Qed.
#[local] Hint Resolve budget_mark_processed : preserves.

Lemma budget_handshake_response h p aad from : preserves (budget R) (handle_handshake_response h p aad from).
Proof. unfold handle_handshake_response, now. within_budget. Qed.

Lemma budget_receive_protected h k aad p from : preserves (budget R) (receive_protected h k aad p from).
Proof.
  unfold receive_protected, decrypt_payload, check_path, get_token, now. within_budget.
  intros a Ba. destruct (_ && _); unconcerned.
Qed.
#[local] Hint Resolve budget_handshake_response budget_receive_protected : preserves.

(** The rest of [process_incoming_packet], once the datagram is counted. *)
Lemma budget_process_counted data from a :
  0 ≤ bytes_received (conn a) → bytes_received (conn a) + len data ≤ R → budget (bytes_received (conn a)) a →
  budget R (process_incoming_packet data from a).2.
Proof.
  intros H0 HL (Hc & B & S). unfold process_incoming_packet. pose proof (len_nonneg data).
  match goal with |- budget R ((_ ≫= ?k) a).2 =>
    assert (preserves (budget R) (k tt)) as K; [|apply (K (a <| conn ::= _ |>))] end.
  - cbv beta. unfold dispatch_packet, handle_retry_packet, send_initial_packet. within_budget.
  - split; [exact Hc|]. split.
    + change (0 ≤ wrap 64 (bytes_received (conn a) + len data) ≤ R). unfold wrap. rewrite Z.mod_small; lia.
    + intros Hs. change (bytes_sent (conn a) = outbox_bytes a
        ∧ outbox_bytes a ≤ 3 * Z.max (wrap 64 (bytes_received (conn a) + len data)) 1).
      destruct (S Hs). unfold wrap. rewrite Z.mod_small by lia. lia.
Qed.

Lemma budget_mono R0 a : R0 ≤ R → budget R0 a → budget R a.
Proof. intros HM (Hc & B & S). split_and!; [done|lia|lia|done]. Qed.

#[local] Hint Resolve budget_process_outgoing_data budget_send_stream_close budget_initiate_close_with_error
  budget_send_mtu_probe budget_flush_pacing_queue budget_handle_retransmits : preserves.

(** ** The event loop *)

Lemma budget_reset_pacing tm : preserves (budget R) (reset_pacing tm).
Proof. unfold reset_pacing, now. within_budget. Qed.
#[local] Hint Resolve budget_reset_pacing : preserves.

Lemma budget_on_message m tm :
  (∀ data from, m ≠ ActorMessage.IncomingPacket data from) → preserves (budget R) (on_message m tm).
Proof.
  intros Hm. destruct m; cbn [on_message]; [by destruct (Hm data from)|..];
    unfold on_open_stream, on_data_read, on_send_datagram, close_timer, paced, send_datagram_payload, now;
    within_budget.
Qed.

Lemma budget_after_event b tm : preserves (budget R) (after_event b tm).
Proof. unfold after_event, update_rto_timer, now. within_budget. Qed.

Lemma budget_after_loop : preserves (budget R) after_loop.
Proof. unfold after_loop. within_budget. Qed.

Lemma budget_on_event ev tm :
  (∀ data from, ev ≠ Message (ActorMessage.IncomingPacket data from)) → preserves (budget R) (on_event ev tm).
Proof.
  intros He. destruct ev as [m| | | | | | |]; cbn [on_event]; unfold_timers.
  1: { apply preserves_bind; [unfold now; within_budget|intros t]. apply preserves_bind; [walk|intros timeout].
       apply budget_on_message. intros data from ->. by apply (He data from). }
  all: unfold paced, on_path_validation, on_idle, now; within_budget.
  intros a Ba. match goal with |- budget _ (upd _ ?f _) => apply (budget_fields a (f (conn a))) end; [..|done];
    cbv beta; by destruct (bool_decide (state (conn a) = Closing)).
Qed.
End budget.

Section limit.
Context `{BC : BytesCrate} `{HK : Hkdf} `{AE : Aead} `{CC : ChaCha20} `{LM : Libm} `{EV : Env}.
Context `{SH : Sha256} `{ED : Ed25519} `{XD : X25519}.

Lemma received_bytes_nonneg evs : 0 ≤ received_bytes evs.
Proof.
  induction evs as [|ev evs IH]; simpl; [lia|]. repeat case_match; try lia. pose proof (len_nonneg data). lia.
Qed.

(** A turn raises the budget by the datagram it handles. *)
Lemma budget_turn ev tm R :
  R + received_bytes [ev] < 2 ^ 60 → leads (budget R) (budget (R + received_bytes [ev])) (turn ev tm).
Proof.
  intros HR. pose proof (received_bytes_nonneg [ev]) as Hn. unfold turn. apply leads_bind_post.
  2: { intros [[flow tm'] reply]. pose proof (budget_after_event (R + received_bytes [ev])). destruct flow; walk. }
  assert (∀ a, budget R a → budget (R + received_bytes [ev]) a) as Mono by (intros a; apply budget_mono; lia).
  destruct ev as [[data from| | | | | | | | | | | ]| | | | | | |];
    try (apply leads_preserves; [done|]; apply budget_on_event; [done|]; naive_solver).
  cbn [on_event on_message received_bytes foldr]. rewrite Z.add_0_r. cbn [received_bytes foldr] in HR, Mono.
  rewrite Z.add_0_r in HR, Mono. pose proof (len_nonneg data) as Hd.
  apply leads_bind_pre; [done|unfold now; within_budget|intros t].
  apply leads_bind_pre; [done|walk|intros timeout]. unfold on_packet. apply leads_bind_post.
  - intros a (Hc & B & S). pose proof (budget_process_counted (R + len data) HR data from a) as P.
    unfold attempt. destruct (process_incoming_packet data from a) as [[]] eqn:E; cbn [snd] in *;
      apply P; (lia || split_and!; (done || lia)).
  - intros x. pose proof (budget_reset_pacing (R + len data) HR). unfold paced, now. within_budget.
Qed.

Lemma budget_round ev tm R :
  R + received_bytes [ev] < 2 ^ 60 → leads (budget R) (budget (R + received_bytes [ev])) (round ev tm).
Proof.
  intros HR. pose proof (received_bytes_nonneg [ev]). pose proof (budget_after_loop (R + received_bytes [ev])).
  assert (∀ a, budget R a → budget (R + received_bytes [ev]) a) as Mono by (intros a; apply budget_mono; lia).
  unfold round. apply leads_bind_pre; [done|walk|intros closed]. destruct closed; [apply leads_preserves; [done|walk]|].
  apply leads_bind_pre; [done|assert (R < 2 ^ 60) by lia; unfold now; within_budget|intros t].
  apply leads_bind_pre; [done|walk|intros ready]. destruct (negb ready); [apply leads_preserves; [done|walk]|].
  apply leads_bind_post; [apply budget_turn; lia|]. intros [[tm'|] reply]; walk.
Qed.

Lemma budget_run_loop evs tm R :
  R + received_bytes evs < 2 ^ 60 → leads (budget R) (budget (R + received_bytes evs)) (run_loop evs tm).
Proof.
  revert tm R. induction evs as [|ev evs IH]; intros tm R HR.
  { cbn [received_bytes foldr run_loop] in *. rewrite Z.add_0_r in *. apply leads_preserves; [done|]. walk. }
  pose proof (received_bytes_nonneg evs) as H1. pose proof (received_bytes_nonneg [ev]) as H2.
  assert (received_bytes (ev :: evs) = received_bytes [ev] + received_bytes evs) as E by (simpl; lia).
  rewrite E in *. clear E. cbn [run_loop].
  apply (leads_bind _ (budget (R + received_bytes [ev]))); [intros a; apply budget_mono; lia|apply budget_round; lia|].
  intros [[tm'|] reply].
  - apply leads_bind_post; [|intros [replies ended]; walk]. rewrite Z.add_assoc. apply IH. lia.
  - apply leads_preserves; [intros a; apply budget_mono; lia|]. walk.
Qed.

Lemma budget_run evs R :
  R + received_bytes evs < 2 ^ 60 → leads (budget R) (budget (R + received_bytes evs)) (run evs).
Proof.
  intros HR. pose proof (received_bytes_nonneg evs). assert (R < 2 ^ 60) as HR0 by lia.
  assert (∀ a, budget R a → budget (R + received_bytes evs) a) as Mono by (intros a; apply budget_mono; lia).
  unfold run. apply leads_bind_pre; [done| |intros tm; by apply budget_run_loop].
  unfold start, first_timers, send_initial_packet, now. pose proof (budget_send_initial R HR0). within_budget.
Qed.
End limit.


(** ** The theorem *)


