(* ===== verification/Reliability.v ===== *)
(** * Reliable payloads are not forgotten

    A payload that must reach the peer is, from the moment it is accepted, either waiting in
    the pacing queue or in a packet in flight, until an acknowledgement covers that packet. *)

From stdpp Require Import strings.
From S2P Require Import Prelude Errors Effects Buf Config StreamType Frames Packet PacketNumber HeaderProtection.
From S2P Require Import Bitmap ReplayWindow AckTracker Unacked StreamBuffer BufferProps Cookie KeyDerivation CryptoContext.
From S2P Require Import Float Congestion Termination Connection AckHandling AckFacts ConnFrame Actor ActFacts PacketSender Retransmit.
From S2P Require Import HandshakeHandler IncomingHandler ActorRun.

(** Probes and datagrams may be lost; everything else is reliable. *)
Definition reliable (p : UnackedPayload.t) : bool := negb (is_probe p || is_datagram p).

Definition in_flight (p : UnackedPayload.t) (c : ZtConnection) : Prop :=
  ∃ pn up, Window.get pn (unacked_packets c) = Some up ∧ up_payload up = p.
Definition queued (p : UnackedPayload.t) (c : ZtConnection) : Prop := p ∈ (unpaced_queue c).*1.
Definition live (p : UnackedPayload.t) (c : ZtConnection) : Prop := in_flight p c ∨ queued p c.

(** The packets in flight are numbered below [n], and probes are marked as such. *)
Definition window_below (n : Z) (c : ZtConnection) : Prop :=
  ∃ m, Window.refines (unacked_packets c) m
    ∧ map_Forall (λ pn up, 0 ≤ pn < n ∧ up_is_mtu_probe up = is_probe (up_payload up)) m.
Definition window_ok (c : ZtConnection) : Prop :=
  0 ≤ next_packet_number c ∧ window_below (next_packet_number c) c.

(** The parts of a connection these notions read. *)
Definition packet_view (c : ZtConnection) : UnackedWindow * list (UnackedPayload.t * Z) * Z :=
  (unacked_packets c, unpaced_queue c, next_packet_number c).
Definition viewed (I : Actor → Prop) : Prop :=
  ∀ a a', packet_view (conn a') = packet_view (conn a) → I a → I a'.

Lemma window_below_mono n n' c : n ≤ n' → window_below n c → window_below n' c.
Proof.
  intros H (m & R & F). exists m. split; [done|]. eapply map_Forall_impl; [exact F|]. cbn. naive_solver lia.
Qed.

(** Tracking a new packet. *)
Lemma track_window pn p t r n c :
  0 ≤ pn → window_below pn c →
  window_below (pn + 1) (track_packet pn p t r (is_probe p) n c)
  ∧ in_flight p (track_packet pn p t r (is_probe p) n c)
  ∧ (∀ q, live q c → live q (track_packet pn p t r (is_probe p) n c)).
Proof.
  intros Hp (m & R & F). set (up := mkUnackedPacket p t r (is_probe p) n).
  assert (Window.refines (Window.insert pn up (unacked_packets c)) (<[pn := up]> m)) as R'.
  { apply Window.refines_insert; [done|]. destruct (Window.map_choose_or_empty m) as [(k & q & Hk)|]; [right|by left].
    exists k. split; [by eexists|]. specialize (F k q Hk). cbn in F. lia. }
  assert (unacked_packets (track_packet pn p t r (is_probe p) n c) = Window.insert pn up (unacked_packets c)) as Eu by done.
  split_and!.
  - exists (<[pn := up]> m). rewrite Eu. split; [done|]. apply map_Forall_insert_2; [split; [lia|done]|].
    eapply map_Forall_impl; [exact F|]. cbn. naive_solver lia.
  - exists pn, up. rewrite Eu, (Window.rf_get _ _ R'), lookup_insert_eq. done.
  - intros q [(k & u & Hk & <-)|Hq]; [left|by right]. exists k, u. rewrite Eu, (Window.rf_get _ _ R').
    rewrite (Window.rf_get _ _ R) in Hk. rewrite lookup_insert_ne; [done|]. intros ->. specialize (F _ _ Hk). cbn in F. lia.
Qed.

(** ** Methods that leave the packets alone *)

Section views.
Context `{BC : BytesCrate} `{HK : Hkdf} `{AE : Aead} `{CC : ChaCha20} `{LM : Libm} `{EV : Env}.
Context `{SH : Sha256} `{ED : Ed25519} `{XD : X25519}.
Context (I : Actor → Prop) (V : viewed I).

Lemma view_sendmsg buf : preserves I (sendmsg_vectored buf).
Proof.
  intros a Ia. unfold sendmsg_vectored. destruct (_ <=? _); [done|]. destruct (_ && _ && _); [done|].
  by destruct (socket_send _ _ _) as [[]|]; apply (V a).
Qed.

Lemma view_note : preserves I note_packet_sent.
Proof.
  intros a Ia. unfold note_packet_sent. destruct (negb _); [done|]. destruct (crypto (conn a)); [|done].
  destruct (_ <=? _); by apply (V a).
Qed.

Lemma view_get_crypto : preserves I get_crypto.
Proof. by intros a. Qed.
End views.
#[export] Hint Resolve view_sendmsg view_note view_get_crypto : preserves.

(** Walks through a method whose writes the predicate does not read. *)
Ltac sees :=
  intros; match goal with
  | H : in_flight _ _ |- _ => exact H
  | H : ?J ?a |- ?J _ => let V := fresh in assert (viewed J) as V by auto with preserves; by apply (V a)
  end.
Ltac overlook := walk; try sees.

(** ** The senders *)

(** A property of the packets that survives a new packet. *)
Class Tracked (L : ZtConnection → Prop) : Prop := {
  tr_view c c' : packet_view c' = packet_view c → L c → L c';
  tr_next c n : L c → L (c <| next_packet_number := n |>);
  tr_track pn q t r n c : 0 ≤ pn → window_below pn c → L c → L (track_packet pn q t r (is_probe q) n c);
}.

(** One that also survives a new payload in the queue. *)
Class Stable (L : ZtConnection → Prop) : Prop := {
  st_tracked :: Tracked L;
  st_cons c x : L c → L (c <| unpaced_queue ::= cons x |>);
}.

#[export] Instance stable_True : Stable (λ _, True).
Proof. done. Qed.

#[export] Instance tracked_queue q : Tracked (λ c, unpaced_queue c = q).
Proof. split; try done. by intros c c' [= _ -> _]. Qed.

#[export] Instance tracked_live p : Tracked (live p).
Proof.
  split.
  - intros c c' [= Eu Eq _]. unfold live, in_flight, queued. by rewrite Eu, Eq.
  - done.
  - intros pn q t r n c Hp W HL. destruct (track_window pn q t r n c Hp W) as (_ & _ & H). by apply H.
Qed.

#[export] Instance stable_live p : Stable (live p).
Proof. split; [apply _|]. intros c x [H|H]; [by left|right]. by apply list_elem_of_further. Qed.

#[export] Hint Resolve st_tracked tracked_queue tracked_live stable_True stable_live : preserves.

Section sending.
Context `{BC : BytesCrate} `{HK : Hkdf} `{AE : Aead} `{CC : ChaCha20} `{LM : Libm} `{EV : Env}.
Context `{SH : Sha256} `{ED : Ed25519} `{XD : X25519}.

(** What is known of the packets besides their numbering. *)
Context (L : ZtConnection → Prop) `{TL : !Tracked L}.

(** The invariant, and what holds while packet [pn] is being built. *)
Definition kept (a : Actor) : Prop := window_ok (conn a) ∧ L (conn a).
Definition building (pn : Z) (a : Actor) : Prop :=
  0 ≤ pn < next_packet_number (conn a) ∧ window_below pn (conn a) ∧ L (conn a).

Lemma kept_viewed : viewed kept.
Proof.
  intros a a' E [W HL]. split; [|by eapply tr_view]. injection E as Eu _ En. unfold window_ok, window_below. by rewrite Eu, En.
Qed.
Lemma building_viewed pn : viewed (building pn).
Proof.
  intros a a' E (H & W & HL). injection E as Eu Eq En. split; [|split].
  - rewrite En. lia.
  - unfold window_below. by rewrite Eu.
  - eapply tr_view; [|exact HL]. unfold packet_view. by rewrite Eu, Eq, En.
Qed.
#[local] Hint Resolve kept_viewed building_viewed : preserves.

Lemma building_kept pn a : building pn a → kept a.
Proof. intros (H & W & HL). split; [|done]. split; [lia|]. eapply window_below_mono; [|done]. lia. Qed.

(** A fresh packet number. *)
Lemma next_pn_building a pn a' : kept a → next_pn a = (Ok pn, a') → building pn a'.
Proof.
  intros [[N W] HL] [-> ->]%next_pn_inv. split_and!; [done|cbn|done|by apply tr_next].
  change (next_packet_number (conn a) < next_packet_number (conn a) + 1). lia.
Qed.

Lemma leads_next_pn {A} (f : Z → act A) :
  (∀ pn, leads (building pn) kept (f pn)) → preserves kept (next_pn ≫= f).
Proof.
  intros H a K. unfold mbind, act_bind. destruct (next_pn a) as [[pn|e|] a1] eqn:E.
  - apply H. by eapply next_pn_building.
  - unfold next_pn, get_next_packet_number in E. destruct (checked_add _ _ _); [done|]. by injection E as _ <-.
  - unfold next_pn, get_next_packet_number in E. by destruct (checked_add _ _ _).
Qed.

Lemma reaches_next_pn {A} Q (f : Z → act A) :
  (∀ pn, reaches (building pn) Q (f pn)) → reaches kept Q (next_pn ≫= f).
Proof.
  intros H a x a' K (pn & a1 & E & E')%bind_Ok_inv. eapply H; [|exact E']. by eapply next_pn_building.
Qed.

Lemma leads_track pn q t r n : leads (building pn) kept (on_conn (track_packet pn q t r (is_probe q) n)).
Proof.
  intros a (H & W & HL). destruct (track_window pn q t r n (conn a)) as (W' & _ & _); [lia|done|].
  split; [split|]; [cbn|..].
  - change (0 ≤ next_packet_number (conn a)). lia.
  - eapply (window_below_mono (pn + 1)); [|exact W']. change (pn + 1 ≤ next_packet_number (conn a)). lia.
  - apply tr_track; [lia|done|done].
Qed.

Lemma reaches_track pn q t r n :
  reaches (building pn) (λ a, in_flight q (conn a)) (on_conn (track_packet pn q t r (is_probe q) n)).
Proof.
  intros a x a' (H & W & HL) [= <- <-]. by destruct (track_window pn q t r n (conn a)) as (_ & F & _); [lia|done|].
Qed.

Lemma in_flight_viewed q : viewed (λ a, in_flight q (conn a)).
Proof. intros a a' [= Eu _ _]. unfold in_flight. by rewrite Eu. Qed.
#[local] Hint Resolve in_flight_viewed : preserves.

(** A method that builds a packet: the number is drawn, the packet is tracked at some point. *)
Ltac build_step :=
  match goal with
  | |- leads _ _ (on_conn (track_packet _ _ _ _ _ _) ≫= _) => apply leads_bind_post; [apply leads_track|intros ?]
  | |- leads _ _ (_ ≫= _) => apply leads_bind_pre; [apply building_kept| |intros ?]
  | |- leads _ _ (match ?x with _ => _ end) => destruct x
  | |- leads _ _ _ => apply leads_preserves; [apply building_kept|]
  | |- reaches _ _ (on_conn (track_packet _ _ _ _ _ _) ≫= _) => apply reaches_bind_post; [apply reaches_track|intros ?]
  | |- reaches _ _ (next_pn ≫= _) => apply reaches_next_pn; intros ?
  | |- reaches _ _ (_ ≫= _) => apply reaches_bind_pre; [|intros ?]
  | |- preserves kept (next_pn ≫= _) => apply leads_next_pn; intros ?
  end.
Ltac build := repeat first [build_step | walk_step]; try sees.

Lemma kept_send_initial ck r : preserves kept (send_initial_packet_internal ck r).
Proof. unfold send_initial_packet_internal, now. build. by destruct ck; sees. Qed.
Lemma kept_send_protected q r : preserves kept (send_protected_payload q r).
Proof. unfold send_protected_payload, now. build. Qed.
#[local] Hint Resolve kept_send_initial kept_send_protected : preserves.

Lemma kept_send q r : preserves kept (send_payload_with_retries q r).
Proof. unfold send_payload_with_retries. build. Qed.

(** A payload that was sent is in flight. *)
Lemma send_in_flight q r : reaches kept (λ a, in_flight q (conn a)) (send_payload_with_retries q r).
Proof.
  assert (∀ ck, reaches kept (λ a, in_flight (UnackedPayload.Initial ck) (conn a)) (send_initial_packet_internal ck r)).
  { intros ck. unfold send_initial_packet_internal, now. build. by destruct ck; sees. }
  assert (reaches kept (λ a, in_flight q (conn a)) (send_protected_payload q r)).
  { unfold send_protected_payload, now. build. }
  unfold send_payload_with_retries. by destruct q.
Qed.

Lemma kept_flush_acks : preserves kept flush_acks.
Proof. unfold flush_acks, refresh_local_window, now. build. Qed.
Lemma kept_send_mtu_probe : preserves kept send_mtu_probe.
Proof. unfold send_mtu_probe, refresh_local_window, now. build. Qed.
Lemma kept_send_frame_immediate f to : preserves kept (send_frame_immediate f to).
Proof. unfold send_frame_immediate. build. Qed.
#[local] Hint Resolve kept_send kept_flush_acks kept_send_frame_immediate : preserves.

Context {SL : Stable L}.

Lemma kept_queue_front q r : preserves kept (queue_front q r).
Proof. unfold queue_front. walk. intros a [W HL]. split; [exact W|by apply st_cons]. Qed.
#[local] Hint Resolve kept_queue_front : preserves.

Lemma kept_retransmit q r : preserves kept (retransmit_payload q r).
Proof. unfold retransmit_payload. walk. Qed.
Lemma kept_send_payload q : preserves kept (send_payload q).
Proof. unfold send_payload. walk. Qed.
#[local] Hint Resolve kept_retransmit kept_send_payload : preserves.

Lemma kept_retransmit_all l : preserves kept (retransmit_all l).
Proof. induction l as [|[q r] l IH]; cbn [retransmit_all]; walk. Qed.
Lemma kept_initiate_close : preserves kept initiate_close.
Proof. unfold initiate_close. overlook. Qed.
Lemma kept_close_error e r : preserves kept (initiate_close_with_error e r).
Proof. unfold initiate_close_with_error. overlook. Qed.
Lemma kept_stream_close id : preserves kept (send_stream_close id).
Proof. unfold send_stream_close. overlook. Qed.
Lemma kept_reset_stream id e : preserves kept (reset_stream id e).
Proof. unfold reset_stream. overlook. Qed.
#[local] Hint Resolve kept_initiate_close kept_reset_stream : preserves.

(** *** The receiving side *)

Lemma kept_deliver_loop fuel s : preserves kept (deliver_loop fuel s).
Proof. revert s. induction fuel as [|fuel IH]; intros s; cbn [deliver_loop]; unfold try_channel; overlook. Qed.
#[local] Hint Resolve kept_deliver_loop : preserves.
Lemma kept_forward id n : preserves kept (forward_stream_data id n).
Proof. unfold forward_stream_data, autotune, scale_up, on_stream, now. overlook. Qed.
#[local] Hint Resolve kept_forward : preserves.
Lemma kept_close_with {A} msg : preserves kept (close_with msg : act A).
Proof. unfold close_with. overlook. Qed.
#[local] Hint Resolve kept_close_with : preserves.
Lemma kept_handle_stream id ty o d : preserves kept (handle_stream id ty o d).
Proof.
  unfold handle_stream, open_peer_stream, receive_stream_data, flush_if_due, on_stream, count_ack, try_channel, now.
  overlook.
Qed.
#[local] Hint Resolve kept_handle_stream : preserves.

(** Every frame but an acknowledgement. *)
Lemma kept_handle_frame f from :
  match f with Frame.Ack _ _ _ _ => False | _ => True end → preserves kept (handle_frame f from).
Proof.
  intros Hf. unfold_handle_frame. destruct f; try done; unfold peer_closed, handle_stream_close,
    handle_path_response, handle_reset_stream, on_stream, flush_if_due, count_ack, try_channel; overlook.
  - intros a. apply kept_viewed. unfold raise_window. cbn. by destruct (_ <? _).
  - intros a K. destruct (_ && _); sees.
  - intros a. apply kept_viewed. unfold raise_streams. cbn. by destruct (_ <? _).
Qed.
End sending.
#[export] Hint Resolve kept_viewed kept_send kept_flush_acks kept_send_mtu_probe
  kept_send_frame_immediate kept_retransmit kept_send_payload kept_retransmit_all kept_initiate_close
  kept_close_error kept_stream_close kept_reset_stream kept_forward kept_close_with kept_handle_stream : preserves.
