(* ===== verification/LossRecovery.v ===== *)
(** * Loss recovery keeps reliable payloads

    Acknowledgements, retransmission timeouts and paced sending move payloads between the
    packets in flight and the pacing queue without losing one. *)

From stdpp Require Import strings sorting.
From S2P Require Import Prelude Errors Effects Buf Config StreamType Frames Packet PacketNumber HeaderProtection.
From S2P Require Import Unacked Cookie KeyDerivation CryptoContext Float Congestion Connection AckHandling AckFacts.
From S2P Require Import ConnFrame Actor ActFacts PacketSender Retransmit HandshakeHandler IncomingHandler EventLoop ActorRun Reliability.

(** ** Acknowledgements *)

(** [m'] is [m] without some of the packets in [gone]. *)
Definition thinned (gone : Z → Prop) (m m' : packets) : Prop :=
  m' ⊆ m ∧ ∀ pn up, m !! pn = Some up → m' !! pn = Some up ∨ gone pn.

Lemma thinned_refl gone m : thinned gone m m.
Proof. split; [done|]. by left. Qed.

Lemma thinned_trans gone m1 m2 m3 : thinned gone m1 m2 → thinned gone m2 m3 → thinned gone m1 m3.
Proof.
  intros [S1 H1] [S2 H2]. split; [by transitivity m2|]. intros pn up E.
  destruct (H1 pn up E) as [E2|]; [by apply H2|by right].
Qed.

Lemma thinned_without (gone : Z → Prop) pns m : (∀ pn, pn ∈ pns → gone pn) → thinned gone m (without pns m).
Proof.
  intros H. split.
  - apply map_subseteq_spec. intros pn up. rewrite lookup_without. by case_decide.
  - intros pn up E. rewrite lookup_without. case_decide; [right; by apply H|by left].
Qed.

(** A step of a loop that takes packet [pn] out of the window. *)
Definition takes {B} (f : ZtConnection * B → Z → ZtConnection * B) : Prop :=
  ∀ c b pn m, Window.refines (unacked_packets c) m →
  Window.refines (unacked_packets (f (c, b) pn).1) (delete pn m).

Lemma takes_fold {B} (f : ZtConnection * B → Z → ZtConnection * B) pns :
  takes f → ∀ c b m, Window.refines (unacked_packets c) m →
  Window.refines (unacked_packets (foldl f (c, b) pns).1) (without pns m).
Proof.
  intros T. induction pns as [|pn pns IH]; intros c b m R; [done|]. cbn [foldl].
  specialize (T c b pn m R). destruct (f (c, b) pn) as [c1 b1]. by apply IH.
Qed.

Section acks.
Context `{LM : Libm}.

Lemma probe_acked_window pn up c : unacked_packets (probe_acked pn up c) = unacked_packets c.
Proof.
  unfold probe_acked. destruct (up_is_mtu_probe up); [|done]. destruct (_ && _); [|done].
  unfold record_mtu_probe_success. by destruct (_ <? _).
Qed.

Lemma sack_one_takes t : takes (sack_one t).
Proof.
  intros c b pn m R. unfold sack_one. destruct (Window.refines_remove _ _ pn R) as [_ R'].
  destruct (Window.remove pn (unacked_packets c)) as [[up|] w]; cbn in *; [by rewrite probe_acked_window|done].
Qed.
Lemma cumulative_one_takes t : takes (cumulative_one t).
Proof.
  intros c b pn m R. unfold cumulative_one. destruct (Window.refines_remove _ _ pn R) as [_ R'].
  by destruct (Window.remove pn (unacked_packets c)) as [[up|] w].
Qed.
Lemma lose_one_takes : takes lose_one.
Proof.
  intros c b pn m R. unfold lose_one. destruct (Window.refines_remove _ _ pn R) as [_ R'].
  destruct (Window.remove pn (unacked_packets c)) as [[up|] w]; [|done].
  destruct (up_is_mtu_probe up); by destruct (up_payload up).
Qed.

Lemma sack_ranges_thin t rs c a m :
  Window.refines (unacked_packets c) m →
  ∃ m', Window.refines (unacked_packets (foldl (sack_range t) (c, a) rs).1) m'
    ∧ thinned (λ pn, in_ranges rs pn = true) m m'.
Proof.
  revert c a m. induction rs as [|[s e] rs IH]; intros c a m R; cbn [foldl].
  { exists m. split; [done|apply thinned_refl]. }
  assert (∃ m1, Window.refines (unacked_packets (sack_range t (c, a) (s, e)).1) m1
    ∧ thinned (λ pn, s ≤ pn ≤ e) m m1) as (m1 & R1 & T1).
  { unfold sack_range. destruct (_ <=? _); [|exists m; split; [done|apply thinned_refl]].
    eexists. split; [by apply takes_fold; [apply sack_one_takes|]|].
    apply thinned_without. intros pn. rewrite elem_of_seqZ. lia. }
  destruct (sack_range t (c, a) (s, e)) as [c1 a1]. destruct (IH c1 a1 m1 R1) as (m2 & R2 & T2).
  exists m2. split; [done|]. apply (thinned_trans _ _ m1).
  - destruct T1 as [S1 H1]. split; [done|]. intros pn up E. destruct (H1 pn up E); [by left|right]. cbn.
    replace ((s <=? pn) && (pn <=? e)) with true by lia. done.
  - destruct T2 as [S2 H2]. split; [done|]. intros pn up E. destruct (H2 pn up E) as [|H]; [by left|right]. cbn.
    unfold in_ranges in H. rewrite H. apply orb_true_r.
Qed.

(** The lost packets: what is reliable among them is handed back. *)
Lemma lose_one_collects c l pn m :
  Window.refines (unacked_packets c) m →
  fast_retransmits (lose_one (c, l) pn).2 = fast_retransmits l ++ from_option resend [] (m !! pn).
Proof.
  intros R. unfold lose_one. destruct (Window.refines_remove _ _ pn R) as [G _].
  destruct (Window.remove pn (unacked_packets c)) as [o w]. cbn in G. rewrite <- G.
  destruct o as [up|]; cbn; [|by rewrite app_nil_r]. unfold resend.
  destruct (up_is_mtu_probe up); destruct (up_payload up); cbn; rewrite ?app_nil_r; done.
Qed.

Lemma lose_fold_collects pns c l m pn up :
  Window.refines (unacked_packets c) m → m !! pn = Some up →
  without pns m !! pn = Some up ∨ ∀ x, x ∈ resend up → x ∈ fast_retransmits (foldl lose_one (c, l) pns).2.
Proof.
  assert (∀ pns c l m, Window.refines (unacked_packets c) m →
    ∀ x, x ∈ fast_retransmits l → x ∈ fast_retransmits (foldl lose_one (c, l) pns).2) as Mono.
  { clear. induction pns as [|k pns IH]; intros c l m R x Hx; [done|]. cbn [foldl].
    pose proof (lose_one_takes c l k m R) as R'. pose proof (lose_one_collects c l k m R) as E.
    destruct (lose_one (c, l) k) as [c1 l1]. cbn in *. eapply IH; [exact R'|]. rewrite E. apply elem_of_app. by left. }
  revert c l m. induction pns as [|k pns IH]; intros c l m R Hm; [by left|]. cbn [foldl].
  pose proof (lose_one_takes c l k m R) as R'. pose proof (lose_one_collects c l k m R) as E.
  destruct (lose_one (c, l) k) as [c1 l1]. cbn in R', E. destruct (decide (k = pn)) as [->|].
  - right. intros x Hx. eapply Mono; [exact R'|]. rewrite E, Hm. apply elem_of_app. by right.
  - apply IH; [done|]. by rewrite lookup_delete_ne.
Qed.

Lemma finish_ack_window ws d t a ld c c' : finish_ack ws d t a ld c = Ok c' → unacked_packets c' = unacked_packets c.
Proof.
  unfold finish_ack. set (c1 := if ld then _ else _). assert (unacked_packets c1 = unacked_packets c) as E1 by (by destruct ld).
  clearbody c1. set (c2 := c1 <| bytes_in_flight ::= _ |>). assert (unacked_packets c2 = unacked_packets c1) as E2 by done.
  clearbody c2. set (c3 := update_rtt _ _ _). assert (unacked_packets c3 = unacked_packets c2) as E3.
  { unfold c3, update_rtt. destruct (sample_rtt a); [|done]. by destruct (negb _). }
  clearbody c3. destruct (0 <? bytes_acked a).
  - destruct (on_packet_acked (bytes_acked a) (rtt c3) t (cc c3)) as [k| |]; [|done..].
    intros [= <-]. transitivity (unacked_packets c3); [|congruence]. by destruct (_ || _).
  - intros [= <-]. transitivity (unacked_packets c3); [|congruence]. by destruct (_ || _).
Qed.

(** An acknowledgement takes out packets it covers, and hands back what it declares lost. *)
Lemma handle_ack_thins la ws d rs t t' c l c' m :
  handle_ack la ws d rs t t' c = Ok (l, c') → Window.refines (unacked_packets c) m →
  ∃ m', Window.refines (unacked_packets c') m' ∧ m' ⊆ m
    ∧ ∀ pn up, m !! pn = Some up →
      m' !! pn = Some up ∨ (in_ranges rs pn || (pn <? sat_sub la 2047)) = true ∨ ∀ x, x ∈ resend up → x ∈ l.
Proof.
  intros E R. unfold handle_ack in E.
  destruct (sack_ranges_thin t rs c (mkAckAcc 0 0 None) m R) as (m1 & R1 & S1 & T1).
  destruct (foldl (sack_range t) _ _) as [c1 a1]. cbn [fst] in R1.
  pose proof (takes_fold _ (keys_below (sat_sub la 2047) (Window.iter (unacked_packets c1)))
    (cumulative_one_takes t) c1 a1 m1 R1) as R2.
  destruct (Window.refines_iter _ _ R1) as [Srt _].
  destruct (thinned_without (λ pn, pn < sat_sub la 2047) (keys_below (sat_sub la 2047) (Window.iter (unacked_packets c1))) m1)
    as [S2 T2]. { intros pn (up & _ & H)%elem_of_keys_below; done. }
  destruct (foldl (cumulative_one t) _ _) as [c2 a2]. cbn [fst] in R2. set (m2 := without _ m1) in *. clearbody m2.
  destruct (mul_f64 _ _) as [sc| |]; cbn [mbind res_bind] in E; [|done..].
  set (ls := find_lost _ _ _ _) in E. set (c3 := c2 <| packets_lost ::= _ |>) in E.
  assert (Window.refines (unacked_packets c3) m2) as R3 by done. clearbody c3.
  pose proof (takes_fold _ ls lose_one_takes c3 (mkLossAcc false []) m2 R3) as R4.
  pose proof (λ pn up, lose_fold_collects ls c3 (mkLossAcc false []) m2 pn up R3) as T4.
  destruct (foldl lose_one _ _) as [c4 l4]. cbn [fst snd] in *.
  destruct (finish_ack _ _ _ _ _ _) as [c5| |] eqn:F; cbn in E; [|done..]. injection E as <- <-.
  apply finish_ack_window in F. exists (without ls m2). rewrite F. split; [done|]. split.
  - transitivity m2; [|by transitivity m1]. by apply (thinned_without (λ _, True)).
  - intros pn up Hm. destruct (T1 pn up Hm) as [H1|H1]; [|right; left; by rewrite H1].
    destruct (T2 pn up H1) as [H2|H2]; [|right; left; apply orb_true_intro; right; lia].
    destruct (T4 pn up H2) as [|]; [by left|by right; right].
Qed.
End acks.

(** ** The timeout scan *)

(** The scan changes retry counts and times only. *)
Definition same_packet (u u' : UnackedPacket) : Prop :=
  up_payload u' = up_payload u ∧ up_is_mtu_probe u' = up_is_mtu_probe u.
Definition droppable (u : UnackedPacket) : bool := up_is_mtu_probe u || is_datagram (up_payload u).

Lemma rto_one_spec now rto pn u s :
  let '(u', s') := rto_one now rto pn u s in
  same_packet u u' ∧ (∀ k, k ∈ to_retransmit s → k ∈ to_retransmit s')
  ∧ (∀ k, k ∈ to_drop s' → k ∈ to_drop s ∨ k = pn ∧ (droppable u = true ∨ pn ∈ to_retransmit s')).
Proof.
  unfold rto_one. destruct (_ <? _); [|split_and!; [done|done|by left]]. fold (droppable u).
  destruct (droppable u) eqn:D.
  - split_and!; [done|by destruct (up_payload u)|]. intros k. destruct (up_payload u); cbn;
      rewrite elem_of_app, list_elem_of_singleton; tauto.
  - destruct (10 <? _); [split_and!; [done|done|by left]|].
    split_and!; [done| |].
    + intros k Hk. destruct (3 <? _); cbn; apply elem_of_app; by left.
    + intros k. destruct (3 <? _); cbn; rewrite !elem_of_app, !list_elem_of_singleton; tauto.
Qed.

Lemma rto_scan_spec now rto d base s :
  let '(d', s') := rto_scan now rto base d s in
  Forall2 (option_Forall2 same_packet) d d' ∧ (∀ k, k ∈ to_retransmit s → k ∈ to_retransmit s')
  ∧ (∀ k, k ∈ to_drop s' → k ∈ to_drop s ∨ k ∈ to_retransmit s'
       ∨ ∃ u, (k, u) ∈ Window.entries base d ∧ droppable u = true).
Proof.
  assert (∀ d : list (option UnackedPacket), Forall2 (option_Forall2 same_packet) d d) as Refl.
  { intros l. apply Forall_Forall2_diag, Forall_true. intros [u|]; constructor; done. }
  revert base s. induction d as [|[u|] d IH]; intros base s; cbn [rto_scan Window.entries].
  - split_and!; [constructor|done|by left].
  - pose proof (rto_one_spec now rto base u s) as O. destruct (rto_one now rto base u s) as [u1 s1].
    destruct O as (P1 & M1 & D1). destruct (timed_out s1).
    + split_and!; [constructor; [by constructor|apply Refl]|done|].
      intros k Hk. destruct (D1 k Hk) as [|[-> [|]]]; [by left| |by right; left].
      right. right. exists u. split; [apply list_elem_of_here|done].
    + specialize (IH (base + 1) s1). destruct (rto_scan now rto (base + 1) d s1) as [d' s'].
      destruct IH as (P2 & M2 & D2). split_and!; [constructor; [by constructor|done]|auto|].
      intros k Hk. destruct (D2 k Hk) as [Hk1|[|(w & Hw & Dw)]]; [|by right; left|].
      * destruct (D1 k Hk1) as [|[-> [|]]]; [by left| |right; left; auto].
        right. right. exists u. split; [apply list_elem_of_here|done].
      * right. right. exists w. split; [by apply list_elem_of_further|done].
  - specialize (IH (base + 1) s). destruct (rto_scan now rto (base + 1) d s) as [d' s'].
    destruct IH as (P2 & M2 & D2). split_and!; [constructor; [constructor|done]|done|done].
Qed.

(** The window with changed packets refines a map with the same payloads. *)
Lemma refines_relabel w m d' :
  Window.refines w m → Forall2 (option_Forall2 same_packet) (deque w) d' →
  ∃ m', Window.refines (mkUnackedWindow (base_pn w) d' (uw_len w)) m'
    ∧ ∀ pn, option_Forall2 same_packet (m !! pn) (m' !! pn).
Proof.
  intros R F. set (w' := mkUnackedWindow (base_pn w) d' (uw_len w)).
  assert (∀ pn, option_Forall2 same_packet (Window.get pn w) (Window.get pn w')) as G.
  { intros pn. unfold Window.get. cbn. destruct (pn <? base_pn w); [constructor|].
    destruct (deque w !! Z.to_nat (pn - base_pn w)) as [o|] eqn:E1.
    - destruct (Forall2_lookup_l _ _ _ _ _ F E1) as (o' & E2 & H). by rewrite E2.
    - rewrite (lookup_ge_None_2 d'); [constructor|]. rewrite <- (Forall2_length _ _ _ F). by apply lookup_ge_None. }
  exists (map_imap (λ pn _, Window.get pn w') m).
  assert (∀ pn, map_imap (λ pn _, Window.get pn w') m !! pn = Window.get pn w') as E.
  { intros pn. rewrite map_lookup_imap. specialize (G pn). rewrite (Window.rf_get _ _ R) in G.
    by destruct (m !! pn), (Window.get pn w'); inversion G. }
  split; [split|].
  - done.
  - cbn. rewrite (Window.rf_len _ _ R). f_equal. rewrite <- !size_dom. f_equal. apply set_eq. intros pn.
    rewrite !elem_of_dom, E, <- (Window.rf_get _ _ R). specialize (G pn). by inversion G; split; intros [].
  - pose proof (Window.rf_head _ _ R) as Hh. cbn. destruct F as [|o o' l l' H F]; [done|].
    inversion H; subst; [done|]. by destruct Hh.
  - intros pn. by rewrite E, <- (Window.rf_get _ _ R).
Qed.

(** ** Retransmission *)

Section recovery.
Context `{BC : BytesCrate} `{HK : Hkdf} `{AE : Aead} `{CC : ChaCha20} `{LM : Libm} `{EV : Env}.
Context `{SH : Sha256} `{ED : Ed25519} `{XD : X25519}.
Context (p : UnackedPayload.t).

Abbreviation alive := (kept (live p)).
Abbreviation ordered := (kept (λ _, True)).

Lemma alive_ordered a : alive a → ordered a.
Proof. by intros [W _]. Qed.

(** A payload handed to [retransmit_payload] is live again. *)
Lemma retransmit_live q r a :
  ordered a → (retransmit_payload q r a).1 ≠ Panic → live q (conn (retransmit_payload q r a).2).
Proof.
  intros K N. unfold retransmit_payload, attempt, mbind, act_bind in *.
  destruct (send_payload_with_retries q r a) as [[[]|e|] a'] eqn:E; [| |done].
  - left. exact (send_in_flight _ q r a tt a' K E).
  - right. apply list_elem_of_here.
Qed.

Lemma retransmit_all_live l a :
  ordered a → live p (conn a) ∨ p ∈ l.*1 → (retransmit_all l a).1 ≠ Panic → alive (retransmit_all l a).2.
Proof.
  revert a. induction l as [|[q r] l IH]; intros a K H N.
  { destruct H as [H|H%not_elem_of_nil]; [|done]. by destruct K. }
  cbn [retransmit_all] in *. unfold attempt, mbind, act_bind in *.
  assert (ordered (retransmit_payload q r a).2) as K1 by (by apply kept_retransmit).
  assert ((retransmit_payload q r a).1 ≠ Panic → live p (conn (retransmit_payload q r a).2) ∨ p ∈ l.*1) as H1.
  { intros N1. cbn in H. rewrite elem_of_cons in H. destruct H as [H|[->|H]]; [left|left|by right].
    - apply (kept_retransmit (live p)). by destruct K.
    - by apply retransmit_live. }
  destruct (retransmit_payload q r a) as [[x|e|] a1]; cbn in *; [| |done]; apply IH; auto.
Qed.

(** What is left of a reliable payload when packets are taken out. *)
Lemma reliable_resend up :
  up_is_mtu_probe up = is_probe (up_payload up) → reliable (up_payload up) = true →
  (up_payload up, up_retries up) ∈ resend up.
Proof.
  unfold reliable, resend. intros -> Hr. destruct (up_payload up); try done; apply list_elem_of_here.
Qed.

Lemma alive_handle_ack_frame la ws d rs a :
  alive a → reliable p = true → (handle_ack_frame la ws d rs a).1 ≠ Panic →
  ordered (handle_ack_frame la ws d rs a).2 ∧
  (live p (conn (handle_ack_frame la ws d rs a).2) ∨
   ∃ pn up, Window.get pn (unacked_packets (conn a)) = Some up ∧ up_payload up = p
     ∧ (in_ranges rs pn || (pn <? sat_sub la 2047)) = true).
Proof.
  intros K Hr. remember (handle_ack_frame la ws d rs a) as out eqn:Eo. unfold handle_ack_frame in Eo.
  erewrite act_bind_ok in Eo by reflexivity. destruct (_ || _ || _).
  { subst out. intros _. assert (alive (close_with (A:=unit) "ACK acknowledges an unsent packet number" a).2) as [W HL]
      by (by apply (kept_close_with (live p))). by split; [|left]. }
  do 2 erewrite act_bind_ok in Eo by reflexivity. set (a2 := a <| questions ::= S |> <| questions ::= S |>) in *.
  unfold mbind, act_bind in Eo.
  destruct (handle_ack la ws d rs _ _ (conn a2)) as [[l c]|e|] eqn:E; subst out; [| |done]; intros N.
  2: { destruct K as [W HL]. split; [by split|]. by left. }
  destruct K as [[Hn (m & R & F)] HL]. pose proof (untouched_ack _ _ _ _ _ _ _ _ _ E) as U.
  destruct (handle_ack_thins _ _ _ _ _ _ _ _ _ m E R) as (m' & R' & S' & T').
  cbv beta iota in N |- *. set (a3 := a2 <| conn := c |>) in *. assert (ordered a3) as K3.
  { split; [|done]. unfold a3, window_ok. cbn. rewrite (un_next _ _ U). split; [done|].
    exists m'. split; [done|]. intros pn up Hp. apply (F pn up). by eapply lookup_weaken. }
  assert (live p (conn a3) ∨ p ∈ l.*1 ∨ ∃ pn up, Window.get pn (unacked_packets (conn a)) = Some up
    ∧ up_payload up = p ∧ (in_ranges rs pn || (pn <? sat_sub la 2047)) = true) as H3.
  { destruct HL as [(pn & up & G & <-)|Q].
    - rewrite (Window.rf_get _ _ R) in G. destruct (T' pn up G) as [G'|[A|X]].
      + left. left. exists pn, up. by rewrite (Window.rf_get _ _ R').
      + right. right. exists pn, up. by rewrite (Window.rf_get _ _ R).
      + right. left. apply list_elem_of_fmap. eexists. split; [|apply X, reliable_resend]; [done| |done]. by apply (F pn up).
    - left. right. unfold queued. change (conn a3) with c. by rewrite (un_queue _ _ U). }
  split; [by apply (kept_retransmit_all (λ _, True))|].
  destruct H3 as [H3|[H3|H3]]; [left..|by right]; apply retransmit_all_live; auto.
Qed.

(** Packets taken out after a timeout. *)
Lemma drop_one_takes rt : takes (drop_one rt).
Proof.
  intros c b pn m R. unfold drop_one. destruct (Window.refines_remove _ _ pn R) as [_ R'].
  destruct (Window.remove pn (unacked_packets c)) as [[up|] w]; [|done].
  destruct (up_is_mtu_probe up); [done|]. by destruct (bool_decide _).
Qed.

Lemma drop_one_collects rt c res k m :
  Window.refines (unacked_packets c) m →
  ∃ l, (drop_one rt (c, res) k).2 = res ++ l
    ∧ ∀ u, m !! k = Some u → up_is_mtu_probe u = false → k ∈ rt → l = [(up_payload u, up_retries u)].
Proof.
  intros R. unfold drop_one. destruct (Window.refines_remove _ _ k R) as [G _].
  destruct (Window.remove k (unacked_packets c)) as [o w]. cbn in G. rewrite <- G.
  destruct o as [u|]; [|exists []; by rewrite app_nil_r].
  destruct (up_is_mtu_probe u) eqn:Pu; [exists []; rewrite app_nil_r; split; [done|]; naive_solver congruence|].
  case_bool_decide; [eexists; split; [done|]; naive_solver|].
  exists []. rewrite app_nil_r. split; [done|]. naive_solver.
Qed.

Lemma drop_one_live rt c res k m :
  reliable p = true → Window.refines (unacked_packets c) m →
  map_Forall (λ _ u, up_is_mtu_probe u = is_probe (up_payload u)) m →
  (k ∈ rt ∨ ∀ u, m !! k = Some u → droppable u = true) →
  live p c ∨ p ∈ res.*1 → live p (drop_one rt (c, res) k).1 ∨ p ∈ (drop_one rt (c, res) k).2.*1.
Proof.
  intros Hr R F D H. pose proof (drop_one_takes rt c res k m R) as R'.
  destruct (drop_one_collects rt c res k m R) as (l & -> & Hl). rewrite fmap_app, elem_of_app.
  destruct H as [[(n & u & Hn & Ep)|Q]|]; [|left; right|by right; left].
  - rewrite (Window.rf_get _ _ R) in Hn. destruct (decide (n = k)) as [->|].
    + specialize (F k u Hn). cbn in F. unfold reliable in Hr. rewrite <- Ep, <- F in Hr.
      assert (droppable u = false) as Du by (unfold droppable; by destruct (_ || _)).
      destruct D as [D|D]; [|by rewrite (D u Hn) in Du]. right. right.
      unfold droppable in Du. apply orb_false_iff in Du as [Pu _].
      rewrite (Hl u Hn Pu D), <- Ep. apply list_elem_of_here.
    + left. left. exists n, u. by rewrite (Window.rf_get _ _ R'), lookup_delete_ne.
  - unfold queued. by rewrite (un_queue _ _ (untouched_drop rt c res k)).
Qed.

Lemma drop_fold_live rt l c res m :
  reliable p = true → Window.refines (unacked_packets c) m →
  map_Forall (λ _ u, up_is_mtu_probe u = is_probe (up_payload u)) m →
  (∀ k, k ∈ l → k ∈ rt ∨ ∀ u, m !! k = Some u → droppable u = true) →
  live p c ∨ p ∈ res.*1 →
  live p (foldl (drop_one rt) (c, res) l).1 ∨ p ∈ (foldl (drop_one rt) (c, res) l).2.*1.
Proof.
  intros Hr. revert c res m. induction l as [|k l IH]; intros c res m R F D H; [done|]. cbn [foldl].
  pose proof (drop_one_takes rt c res k m R) as R'.
  pose proof (drop_one_live rt c res k m Hr R F (D k (list_elem_of_here _ _)) H) as H'.
  destruct (drop_one rt (c, res) k) as [c1 res1]. apply (IH _ _ (delete k m)); [done|by apply map_Forall_delete| |done].
  intros j Hj. destruct (D j (list_elem_of_further _ _ _ Hj)) as [|Dj]; [by left|right].
  intros u [_ Hu]%lookup_delete_Some. by apply Dj.
Qed.

(** The state after the scan: same payloads in flight, and a verdict on every packet to drop. *)
Lemma scan_alive a t rto :
  alive a →
  let w := unacked_packets (conn a) in
  let '(d, sc) := rto_scan t rto (base_pn w) (deque w) (mkRtoScan [] [] [] false false) in
  let c := (conn a) <| unacked_packets := mkUnackedWindow (base_pn w) d (uw_len w) |> in
  live p c ∧ ∃ m, Window.refines (unacked_packets c) m
    ∧ map_Forall (λ pn u, 0 ≤ pn < next_packet_number (conn a) ∧ up_is_mtu_probe u = is_probe (up_payload u)) m
    ∧ ∀ k, k ∈ to_drop sc → k ∈ to_retransmit sc ∨ ∀ u, m !! k = Some u → droppable u = true.
Proof.
  intros [[Hn (m & R & F)] HL] w.
  pose proof (rto_scan_spec t rto (deque w) (base_pn w) (mkRtoScan [] [] [] false false)) as Sc.
  destruct (rto_scan _ _ _ _ _) as [d sc]. destruct Sc as (P & _ & D). intros c.
  destruct (refines_relabel w m d R P) as (m' & R' & E). split; [|exists m'; split_and!; [done| |]].
  - destruct HL as [(pn & u & G & <-)|Q]; [left|by right]. rewrite (Window.rf_get _ _ R) in G.
    specialize (E pn). rewrite G in E. inversion E as [u0 u' [E1 _] E2 E3|]; subst u0.
    exists pn, u'. split; [by rewrite (Window.rf_get _ _ R')|done].
  - intros pn u' G. specialize (E pn). rewrite G in E. inversion E as [u u0 [E1 E2] E3 E4|]; subst u0.
    specialize (F pn u (eq_sym E3)). cbn in F. by rewrite E1, E2.
  - intros k Hk. destruct (D k Hk) as [H|[|(u & Hu & Du)]]; [by apply not_elem_of_nil in H|by left|right].
    intros u' G. specialize (E k). rewrite G in E. inversion E as [u1 u0 [E1 E2] E3 E4|]; subst u0.
    apply (proj2 (Window.refines_iter w m R)) in Hu. rewrite <- E3 in Hu. injection Hu as ->.
    unfold droppable. by rewrite E1, E2.
Qed.

Lemma view_probe_failures l c : packet_view (foldl (flip record_mtu_probe_failure) c l) = packet_view c.
Proof. revert c. induction l as [|x l IH]; intros c; [done|]. cbn [foldl flip]. by rewrite IH. Qed.
Lemma view_blackhole (b : bool) c : packet_view (if b then (recover_mtu_blackhole c).2 else c) = packet_view c.
Proof. destruct b; [|done]. unfold recover_mtu_blackhole. by destruct (_ <=? _). Qed.

(** What follows once the timed-out packets are out of the window. *)
Definition recovering (l : list (UnackedPayload.t * Z)) (a : Actor) : Prop :=
  ordered a ∧ (live p (conn a) ∨ p ∈ l.*1).
Lemma recovering_viewed l : viewed (recovering l).
Proof.
  intros a a' V [K H]. split; [by eapply kept_viewed; [apply _|..]|].
  destruct H as [H|]; [left|by right]. by eapply tr_view.
Qed.
#[local] Hint Resolve recovering_viewed : preserves.

Lemma resend_alive l b :
  survives (recovering l) alive
    (act_when (negb (len l =? 0))
      (on_conn (λ c, c <| packets_lost ::= λ n, sat_add 64 n (len l) |>);;
       t' ← now;
       on_conn (λ c, c <| cc ::= on_congestion_event (rtt c) t' |>);;
       retransmit_all l);;
    act_when b (on_conn signal_all)).
Proof.
  apply survives_bind_post; [|intros _; overlook].
  destruct (Z.eqb_spec (len l) 0) as [E|E]; cbn [negb act_when].
  - apply len_0_nil in E as ->. apply survives_preserves; [|walk].
    intros a [K [H|H%not_elem_of_nil]]; [|done]. by destruct K.
  - unfold now. do 3 (apply survives_bind_pre; [by intros; eexists _, _|overlook|intros ?]).
    intros a [K H]. by apply retransmit_all_live.
Qed.

Lemma alive_handle_retransmits a :
  alive a → reliable p = true → (handle_retransmits a).1 ≠ Panic → alive (handle_retransmits a).2.
Proof.
  intros K Hr. remember (handle_retransmits a) as out eqn:Eo. unfold handle_retransmits in Eo.
  do 2 erewrite act_bind_ok in Eo by reflexivity. set (a1 := a <| questions ::= S |>) in Eo.
  assert (alive a1) as K1 by exact K.
  set (t := clock _) in Eo. set (rto := Z.max _ _) in Eo. clearbody t rto a1.
  pose proof (scan_alive a1 t rto K1) as Sc. unfold mbind at 1, act_bind at 1 in Eo.
  cbv zeta in Sc. destruct (rto_scan t rto _ _ _) as [d sc]. destruct Sc as (HL & m & R & F & D).
  set (a2 := a1 <| conn ::= _ |>) in Eo.
  assert (alive a2) as K2.
  { destruct K1 as [[N1 _] _]. split; [|exact HL]. split; [exact N1|]. by exists m. }
  destruct (timed_out sc).
  { subst out. intros _. assert (preserves alive (_ ← attempt initiate_close; fail_with Timeout : act unit)) as Pc by walk.
    by apply Pc. }
  do 2 erewrite act_bind_ok in Eo by reflexivity. set (a3 := _ <| conn ::= _ |>) in Eo.
  assert (packet_view (conn a3) = packet_view (conn a2)) as V3.
  { unfold a3. etransitivity; [apply view_blackhole|]. apply view_probe_failures. }
  clearbody a3. pose proof V3 as [= Vu Vq Vn].
  unfold mbind at 1, act_bind at 1 in Eo. rewrite <- Vu in R.
  pose proof (takes_fold _ (to_drop sc) (drop_one_takes (to_retransmit sc)) (conn a3) [] m R) as R4.
  pose proof (untouched_fold _ (to_drop sc) (untouched_drop (to_retransmit sc)) (conn a3) []) as U.
  assert (live p (conn a3) ∨ p ∈ ([] : list (UnackedPayload.t * Z)).*1) as H3.
  { left. destruct K2 as [_ HL2]. by eapply tr_view. }
  pose proof (drop_fold_live (to_retransmit sc) (to_drop sc) (conn a3) [] m Hr R) as H4.
  destruct (foldl (drop_one _) _ _) as [c4 l]. cbn [fst snd] in *. subst out. apply resend_alive. split.
  - destruct K2 as [[N2 _] _]. split; [|done]. unfold window_ok.
    change (0 ≤ next_packet_number c4 ∧ window_below (next_packet_number c4) c4). rewrite (un_next _ _ U), Vn.
    split; [done|]. eexists. split; [exact R4|]. intros pn u G. rewrite lookup_without in G. case_decide; [done|].
    by apply (F pn u).
  - apply H4; [|done|done]. intros pn u G. by apply (F pn u).
Qed.

(** ** Paced sending *)

(** Sending leaves the queue alone. *)
Lemma send_keeps_queue q r a :
  ordered a → unpaced_queue (conn (send_payload_with_retries q r a).2) = unpaced_queue (conn a).
Proof.
  intros [W _]. assert (kept (λ c, unpaced_queue c = unpaced_queue (conn a)) a) as K by done.
  by destruct (kept_send (λ c, unpaced_queue c = unpaced_queue (conn a)) q r a K).
Qed.

(** The front of the queue was sent: it may be popped. *)
Lemma pop_alive q r a a' n :
  alive a → head (unpaced_queue (conn a)) = Some (q, r) → send_payload_with_retries q r a = (Ok tt, a') →
  alive (pop_sent n a').2.
Proof.
  intros K Hd E. assert (alive a') as [W HL] by (pose proof (kept_send (live p) q r a K) as K'; by rewrite E in K').
  pose proof (send_in_flight (λ _, True) q r a tt a' (alive_ordered a K) E) as F. cbn in F.
  pose proof (send_keeps_queue q r a (alive_ordered a K)) as Eq. rewrite E in Eq. cbn [snd] in Eq.
  split; [exact W|]. destruct HL as [HL|HL]; [by left|]. unfold queued in HL. rewrite Eq in HL.
  destruct (unpaced_queue (conn a)) as [|x qs] eqn:Q; [done|]. injection Hd as ->.
  cbn in HL. rewrite elem_of_cons in HL. destruct HL as [->|HL]; [by left|right].
  unfold queued. change (p ∈ (tail (unpaced_queue (conn a'))).*1). by rewrite Eq.
Qed.

Lemma alive_paced_send_failed e : preserves alive (paced_send_failed e).
Proof.
  intros a [W HL]. unfold paced_send_failed. destruct (socket_blocked a); [done|].
  destruct (is_fatal e); [by split|]. destruct (unpaced_queue (conn a)) as [|[q r] qs] eqn:Q; [done|].
  assert (∀ c, unacked_packets c = unacked_packets (conn a) → next_packet_number c = next_packet_number (conn a) →
    unpaced_queue c = (q, wrap 32 (r + 1)) :: qs → window_ok c ∧ live p c) as H.
  { intros c E1 E2 E3. split; [unfold window_ok, window_below; by rewrite E1, E2|].
    destruct HL as [HL|HL]; [left; unfold in_flight; by rewrite E1|right]. unfold queued in *. rewrite E3. by rewrite Q in HL. }
  destruct (10 <? _); by apply H.
Qed.

(** One turn of the loop that sends: the rest of the loop is [next]. *)
Lemma alive_turn {A} q r (next : act A) (failed : ZtError → act A) a :
  alive a → head (unpaced_queue (conn a)) = Some (q, r) →
  preserves alive next → (∀ e, preserves alive (failed e)) →
  alive ((x ← attempt (send_payload_with_retries q r);
          match x with Err e => failed e | _ => pop_sent (UnackedPayload.payload_len q);; next end) a).2.
Proof.
  intros K Hd Hn Hf. pose proof (kept_send (live p) q r a K) as K'. unfold attempt, mbind at 1, act_bind at 1.
  destruct (send_payload_with_retries q r a) as [[[]|e|] a'] eqn:E; cbn [snd] in K'; [|by apply Hf|done].
  erewrite act_bind_ok by reflexivity. apply Hn. exact (pop_alive q r a a' _ K Hd E).
Qed.

Lemma alive_pacing_loop fuel rate : preserves alive (pacing_loop fuel rate).
Proof.
  induction fuel as [|fuel IH]; cbn [pacing_loop]; intros a K; erewrite act_bind_ok by reflexivity;
    destruct (head (unpaced_queue (conn a))) as [[q r]|] eqn:Hd; [done..| |done].
  erewrite act_bind_ok by reflexivity. pose proof alive_paced_send_failed as Fl.
  destruct (f_ge _ _); [apply alive_turn; [done|done|overlook|done]|].
  destruct (f_lt _ _); [apply alive_turn; [done|done|overlook|done]|].
  by destruct (from_secs_f64 _).
Qed.
#[local] Hint Resolve alive_pacing_loop : preserves.

Lemma alive_flush_pacing_queue : preserves alive flush_pacing_queue.
Proof.
  unfold flush_pacing_queue, now. overlook. intros a. apply kept_viewed; [apply _|].
  match goal with |- packet_view (conn (upd _ ?f _)) = _ => change (packet_view (f (conn a)) = packet_view (conn a)) end.
  cbv beta. by destruct (last_pacing_update (conn a)).
Qed.

Lemma alive_process_outgoing_data id data : preserves alive (process_outgoing_data id data).
Proof.
  intros a [W HL]. unfold process_outgoing_data. destruct (_ <? _); [done|].
  destruct (streams (conn a) !! id) as [s|]; [|done]. destruct (send_stopped_error s); [done|].
  destruct (bool_decide _); [done|]. destruct (_ <? _); [done|]. destruct (_ <? _); [done|].
  split; [exact W|]. destruct HL as [HL|HL]; [by left|right]. unfold queued in *. cbn.
  rewrite fmap_app. apply elem_of_app. by left.
Qed.
#[local] Hint Resolve alive_flush_pacing_queue alive_process_outgoing_data : preserves.

(** ** The event loop *)

Lemma alive_on_message m tm :
  (∀ data from, m ≠ ActorMessage.IncomingPacket data from) → preserves alive (on_message m tm).
Proof.
  intros Hm. destruct m; cbn [on_message]; [by destruct (Hm data from)|..];
    unfold on_open_stream, on_data_read, on_send_datagram, close_timer, paced, reset_pacing, send_datagram_payload, now;
    overlook.
Qed.

Lemma alive_after_event b tm : preserves alive (after_event b tm).
Proof. unfold after_event, update_rto_timer, now. overlook. Qed.

Lemma alive_on_event ev tm :
  reliable p = true → (∀ data from, ev ≠ Message (ActorMessage.IncomingPacket data from)) →
  survives alive alive (on_event ev tm).
Proof.
  intros Hr He. destruct ev as [m| | | | | | |]; cbn [on_event]; unfold_timers.
  1: { apply survives_preserves; [done|]. apply preserves_bind; [unfold now; overlook|intros t].
       apply preserves_bind; [walk|intros timeout]. apply alive_on_message. intros data from ->. by apply (He data from). }
  2: { apply survives_bind_post; [|intros r; unfold paced, reset_pacing, now; overlook]. intros a K N.
       unfold attempt in *. pose proof (alive_handle_retransmits a K Hr) as H.
       by destruct (handle_retransmits a) as [[]]; apply H. }
  all: apply survives_preserves; [done|]; unfold paced, reset_pacing, on_path_validation, on_idle, now; overlook.
  intros a. apply kept_viewed; [apply _|].
  match goal with |- packet_view (conn (upd _ ?f _)) = _ => change (packet_view (f (conn a)) = packet_view (conn a)) end.
  cbv beta. by destruct (bool_decide (state (conn a) = Closing)).
Qed.
End recovery.

(** ** The theorems *)

(** C8: Nothing but an acknowledgement ends the sender's care for a reliable payload, first
    half: every turn of the event loop that does not handle a packet (writing, reading,
    pacing, retransmission timeouts, probing, acknowledging, opening, resetting and closing
    streams, closing) keeps it in the pacing queue or in a packet in flight, whether what it
    does succeeds or fails. *)
Theorem reliable_payload_kept `{BC : BytesCrate} `{HK : Hkdf} `{AE : Aead} `{CC : ChaCha20} `{LM : Libm} `{EV : Env}
    `{SH : Sha256} `{ED : Ed25519} `{XD : X25519} (p : UnackedPayload.t) (ev : Event) (tm : Timers) (a : Actor) :
  reliable p = true → window_ok (conn a) → live p (conn a) →
  (∀ data from, ev ≠ Message (ActorMessage.IncomingPacket data from)) →
  (turn ev tm a).1 ≠ Panic →
  window_ok (conn (turn ev tm a).2) ∧ live p (conn (turn ev tm a).2).
Proof.
  intros Hr W HL No. revert a W HL.
  cut (survives (kept (live p)) (kept (live p)) (turn ev tm)); [intros H a W HL; by apply (H a)|].
  unfold turn. apply survives_bind_post; [by apply alive_on_event|]. intros [[flow tm'] reply].
  pose proof (alive_after_event p). destruct flow; walk.
Qed.

(** The sender with a payload in its queue. *)
Definition sample_queue : Actor :=
  (sample_end true) <| conn ::= λ c, c <| unpaced_queue :=
    [(UnackedPayload.Stream 2 Bidirectional 0 [104; 105], 0)] |> <| queued_bytes := 2 |> |>.

Lemma sample_window : window_ok (conn sample_queue).
Proof. split; [done|]. exists ∅. split; [apply Window.refines_new|apply map_Forall_empty]. Qed.

Definition sample_timers : Timers := mkTimers 0 0 0 0 0 0.

Lemma reliable_payload_kept_witness :
  let a' := (@turn bytes_model CryptoFacts.hkdf_model CryptoFacts.aead_model chacha20_model libm_model env_model
    sha256_model ed25519_model x25519_model PacingTimer sample_timers sample_queue).2 in
  unpaced_queue (conn a') = []
  ∧ window_ok (conn a') ∧ live (UnackedPayload.Stream 2 Bidirectional 0 [104; 105]) (conn a').
Proof.
  split; [by vm_compute|].
  apply (@reliable_payload_kept bytes_model CryptoFacts.hkdf_model CryptoFacts.aead_model chacha20_model libm_model
    env_model sha256_model ed25519_model x25519_model); [reflexivity|exact sample_window| |done|by vm_compute].
  right. apply list_elem_of_here.
Defined.

(** C3: Second half: handling any frame from the peer keeps a reliable payload queued or in
    flight as well, unless the frame is an acknowledgement that covers the packet that
    carries it, or whose largest number is 2047 packets or more past that packet. *)
Theorem reliable_until_acked `{BC : BytesCrate} `{HK : Hkdf} `{AE : Aead} `{CC : ChaCha20} `{LM : Libm} `{EV : Env}
    `{SH : Sha256} `{ED : Ed25519} (p : UnackedPayload.t) (f : Frame.t) (from : SocketAddr) (a : Actor) :
  reliable p = true → window_ok (conn a) → live p (conn a) → (handle_frame f from a).1 ≠ Panic →
  window_ok (conn (handle_frame f from a).2) ∧
  (live p (conn (handle_frame f from a).2) ∨
   ∃ largest window delay ranges pn up,
     f = Frame.Ack largest window delay ranges
     ∧ Window.get pn (unacked_packets (conn a)) = Some up ∧ up_payload up = p
     ∧ (in_ranges ranges pn = true ∨ pn < largest - 2047)).
Proof.
  intros Hr W HL N. assert (kept (live p) a) as K by done.
  destruct (match f with Frame.Ack _ _ _ _ => true | _ => false end) eqn:Hf.
  - destruct f; try done. rename largest_acked into la, window_size into ws, ack_delay into d, ack_ranges into rs.
    destruct (alive_handle_ack_frame p la ws d rs a K Hr N) as [[W' _] [HL'|(pn & up & G & E & Ac)]]; [by split; [|left]|].
    split; [done|]. right. exists la, ws, d, rs, pn, up. split_and!; [done..|].
    apply orb_true_iff in Ac as [|Ac]; [by left|right]. unfold sat_sub in Ac.
    destruct W as [_ (m & R & F)]. rewrite (Window.rf_get _ _ R) in G. specialize (F pn up G). cbn in F. lia.
  - destruct (kept_handle_frame (live p) f from) with a as [W' HL']; [by destruct f|done|]. by split; [|left].
Qed.

(** The same payload, in packet 0. *)
Definition sample_in_flight : Actor :=
  (sample_end true) <| conn ::= λ c, c <| next_packet_number := 1 |> <| bytes_in_flight := 40 |>
    <| unacked_packets ::= Window.insert 0 (mkUnackedPacket (UnackedPayload.Stream 2 Bidirectional 0 [104; 105]) 0 0 false 40) |> |>.

Lemma sample_in_flight_window : window_ok (conn sample_in_flight).
Proof.
  split; [done|]. eexists. split.
  - change (unacked_packets (conn sample_in_flight)) with (Window.insert 0
      (mkUnackedPacket (UnackedPayload.Stream 2 Bidirectional 0 [104; 105]) 0 0 false 40) Window.new).
    apply Window.refines_insert; [apply Window.refines_new|by left].
  - apply map_Forall_insert_2; [done|]. apply map_Forall_empty.
Qed.

Lemma reliable_until_acked_witness :
  let p := UnackedPayload.Stream 2 Bidirectional 0 [104; 105] in
  let f := Frame.Ack 0 65536 0 [(0, 0)] in
  let a' := (@handle_frame bytes_model CryptoFacts.hkdf_model CryptoFacts.aead_model chacha20_model libm_model env_model
    sha256_model ed25519_model f sample_addr sample_in_flight).2 in
  window_ok (conn a') ∧
  (live p (conn a') ∨ ∃ largest window delay ranges pn up,
     f = Frame.Ack largest window delay ranges
     ∧ Window.get pn (unacked_packets (conn sample_in_flight)) = Some up ∧ up_payload up = p
     ∧ (in_ranges ranges pn = true ∨ pn < largest - 2047)).
Proof.
  apply (@reliable_until_acked bytes_model CryptoFacts.hkdf_model CryptoFacts.aead_model chacha20_model libm_model
    env_model sha256_model ed25519_model); [reflexivity|exact sample_in_flight_window| |by vm_compute].
  left. by exists 0, (mkUnackedPacket (UnackedPayload.Stream 2 Bidirectional 0 [104; 105]) 0 0 false 40).
Defined.
