(* ===== verification/StreamDelivery.v ===== *)
(** * Streams are delivered in order

    The receive path of the connection actor: as long as the data of the stream frames that
    are handled comes from the peer's streams, what the actor hands to the application for a
    stream is a prefix of that stream, whatever else happens on the connection. *)

From stdpp Require Import strings.
From S2P Require Import Prelude Errors Effects Buf Config StreamType Frames Packet HeaderProtection.
From S2P Require Import Unacked StreamBuffer RangeFacts BufferFacts BufferProps Cookie KeyDerivation CryptoContext Float Congestion.
From S2P Require Import Termination Connection AckHandling ConnFrame Actor ActFacts PacketSender Retransmit HandshakeHandler.
From S2P Require Import IncomingHandler EventLoop StreamView ActorRun.

(** ** The delivery loop

    One turn moves what is contiguous; the next finds nothing more, so that one turn more than
    there are ranges is enough. *)

Section deliver.
Context `{EV : Env}.

Lemma deliver_nothing c s fuel a :
  buf_ok (receive_buffer s) c → ¬ covers (received_ranges (receive_buffer s)) (read_head (receive_buffer s)) → (1 ≤ fuel)%nat →
  ∃ n, deliver_loop fuel s a = (Ok s, a <| questions := n |>).
Proof.
  intros B N Hf. destruct fuel as [|fuel]; [lia|]. cbn [deliver_loop].
  destruct (app_tx s); cbn [negb]; [|by exists (questions a)].
  erewrite act_bind_ok by reflexivity. destruct (channel_ready _); cbn [negb]; [|by eexists].
  rewrite (read_nothing _ _ B N). erewrite act_bind_ok by reflexivity. by eexists.
Qed.

(** What the loop may have done to a stream whose buffer holds the bytes of [c]. *)
Definition moved (c : Z → Z) (s s' : StreamState) : Prop :=
  buf_ok (receive_buffer s') c ∧ read_head (receive_buffer s) ≤ read_head (receive_buffer s')
  ∧ write_head (receive_buffer s') = write_head (receive_buffer s)
  ∧ capacity (receive_buffer s') = capacity (receive_buffer s) ∧ window_size s' = window_size s
  ∧ next_tx_offset s' = next_tx_offset s
  ∧ mjoin (app_data s') = mjoin (app_data s) ++ stream_slice c (read_head (receive_buffer s)) (read_head (receive_buffer s')).

Lemma moved_refl c s : buf_ok (receive_buffer s) c → moved c s s.
Proof. intros B. unfold moved, stream_slice. rewrite Z.sub_diag, app_nil_r. done. Qed.

Lemma deliver_loop_spec c s a :
  buf_ok (receive_buffer s) c →
  ∃ s' n, deliver_loop (S (length (received_ranges (receive_buffer s)))) s a = (Ok s', a <| questions := n |>) ∧ moved c s s'.
Proof.
  intros B. pose proof (moved_refl c s B) as M.
  destruct (covers_dec (received_ranges (receive_buffer s)) (read_head (receive_buffer s))) as [C|C].
  2: { destruct (deliver_nothing c s (S (length (received_ranges (receive_buffer s)))) a B C) as (n & E); [lia|]. by exists s, n. }
  destruct (read_run _ _ B C) as (b' & E & B' & Hlt & C' & W' & N' & _).
  assert (1 ≤ length (received_ranges (receive_buffer s)))%nat as Hl.
  { destruct (received_ranges _); [by apply covers_nil in C|cbn; lia]. }
  cbn [deliver_loop]. destruct (app_tx s); cbn [negb]; [|by exists s, (questions a)].
  erewrite act_bind_ok by reflexivity. destruct (channel_ready _); cbn [negb]; [|by eexists s, _].
  rewrite E. erewrite act_bind_ok by reflexivity. cbv beta iota. set (s1 := s <| receive_buffer := b' |> <| app_data ::= _ |>).
  destruct (deliver_nothing c s1 (length (received_ranges (receive_buffer s))) (a <| questions ::= Datatypes.S |>)) as (n & E');
    [exact B'|exact N'|done|].
  exists s1, n. split; [exact E'|]. split_and!; [exact B'|change (read_head (receive_buffer s) ≤ read_head b'); lia|exact W'|exact C'|done|done|].
  change (mjoin (app_data s ++ [stream_slice c (read_head (receive_buffer s)) (read_head b')])
    = mjoin (app_data s) ++ stream_slice c (read_head (receive_buffer s)) (read_head b')).
  rewrite join_app. cbn. by rewrite app_nil_r.
Qed.
End deliver.

Section delivery.
Context `{BC : BytesCrate} `{HK : Hkdf} `{AE : Aead} `{CC : ChaCha20} `{LM : Libm} `{EV : Env}.
Context `{SH : Sha256} `{ED : Ed25519} `{XD : X25519}.

(** The byte at each offset of each of the peer's streams; their length and the receive
    windows are bounded. *)
Context (σ : Z → Z → Z) (maxlen maxcap : Z) (Hmax : maxlen + maxcap < 2 ^ 63).

(** The streams that are watched; nothing is said of the others. *)
Context (watched : Z → Prop) `{WD : ∀ id, Decision (watched id)}.

(** What the application was given is the stream up to the read head. *)
Record stream_ok (id : Z) (s : StreamState) : Prop := {
  so_buf : buf_ok (receive_buffer s) (σ id);
  so_len : write_head (receive_buffer s) ≤ maxlen;
  so_cap : capacity (receive_buffer s) = window_size s;
  so_window_size : window_size s ≤ maxcap;
  so_data : mjoin (app_data s) = stream_slice (σ id) 0 (read_head (receive_buffer s));
}.

(** Changes of a stream that do not concern its receive side. *)
Definition same_rx (s s' : StreamState) : Prop :=
  receive_buffer s' = receive_buffer s ∧ window_size s' = window_size s ∧ app_data s' = app_data s.

Lemma stream_ok_same id s s' : same_rx s s' → stream_ok id s → stream_ok id s'.
Proof. intros (E1 & E2 & E3) []. split; by rewrite ?E1, ?E2, ?E3. Qed.

(** *** The delivery loop *)

Lemma deliver_loop_ok id s a :
  stream_ok id s →
  ∃ s' a', deliver_loop (S (length (received_ranges (receive_buffer s)))) s a = (Ok s', a')
    ∧ stream_ok id s' ∧ conn a' = conn a ∧ config a' = config a.
Proof.
  intros [B L Cp Wm D]. destruct (deliver_loop_spec (σ id) s a B) as (s' & n & E & B' & R & W & C & Ws & _ & Da).
  eexists s', _. split; [exact E|]. split; [|done]. pose proof (bo_heads _ _ B). split; [done|lia|lia|lia|].
  rewrite Da, D, <- stream_slice_app by lia. done.
Qed.

(** *** The invariant of the actor *)

Definition watched_ok (id : Z) (s : StreamState) : Prop := watched id → stream_ok id s.

Lemma watched_same id s s' : same_rx s s' → watched_ok id s → watched_ok id s'.
Proof. intros E H Hd. by eapply stream_ok_same, H. Qed.

Definition delivering (a : Actor) : Prop :=
  map_Forall watched_ok (streams (conn a))
  ∧ 0 < cfg_initial_stream_window (config a) ≤ maxcap ∧ max_stream_window (config a) ≤ maxcap.

Lemma del_conn a c : map_Forall watched_ok (streams c) → delivering a → delivering (a <| conn := c |>).
Proof. intros M (_ & C). by split. Qed.

#[local] Instance delivering_view : StreamView delivering.
Proof.
  intros a a' [= Es Ec _ _ _] (M & C). unfold delivering. rewrite Ec. split; [|done]. intros id s' Hs'.
  assert (unsignalled (streams (conn a')) !! id = unsignalled (streams (conn a)) !! id) as E by (by rewrite Es).
  unfold unsignalled in E. rewrite !lookup_fmap, Hs' in E. destruct (streams (conn a) !! id) as [s|] eqn:Hs; [|done].
  apply (inj Some (s' <| window_opened := false |>) (s <| window_opened := false |>)) in E. specialize (M id s Hs).
  eapply watched_same; [|exact M].
  exact (conj (f_equal receive_buffer E) (conj (f_equal window_size E) (f_equal app_data E))).
Qed.

#[local] Hint Resolve delivering_view : preserves.

(** A stream changes, and the rest of the connection with it stays. *)
Lemma del_on_stream id f : (∀ s, watched_ok id s → watched_ok id (f s)) → preserves delivering (on_stream id f).
Proof.
  intros H a (M & C). split; [|exact C]. change (map_Forall watched_ok (alter f id (streams (conn a)))).
  intros j s. destruct (decide (j = id)) as [->|].
  - rewrite lookup_alter_eq, fmap_Some. intros (s0 & E & ->). by apply H, M.
  - rewrite lookup_alter_ne by done. by apply M.
Qed.

Lemma del_on_stream_same id f : (∀ s, same_rx s (f s)) → preserves delivering (on_stream id f).
Proof. intros H. apply del_on_stream. intros s. by apply watched_same. Qed.
Lemma del_on_unwatched id f : ¬ watched id → preserves delivering (on_stream id f).
Proof. intros H. apply del_on_stream. by intros s _ Hd. Qed.

(** *** Receiving *)

Lemma finish_same s : same_rx s (finish_stream s).
Proof. unfold finish_stream. destruct (final_rx_offset s); [|done]. by destruct (_ <=? _). Qed.
Lemma finish_offset s : next_tx_offset (finish_stream s) = next_tx_offset s.
Proof. unfold finish_stream. destruct (final_rx_offset s); [|done]. by destruct (_ <=? _). Qed.
Lemma consume_same n s : same_rx s (consume n s).
Proof. done. Qed.
Lemma same_rx_trans s1 s2 s3 : same_rx s1 s2 → same_rx s2 s3 → same_rx s1 s3.
Proof. unfold same_rx. naive_solver congruence. Qed.

Lemma autotune_spec n s a :
  ∃ s' g a', autotune n s a = (Ok (s', g), a') ∧ same_rx s s' ∧ next_tx_offset s' = next_tx_offset s ∧ conn a' = conn a ∧ stream_facts a' = stream_facts a
    ∧ (∃ n, a' = a <| questions := n |>) ∧ ∀ w, g = Some w → window_size s < w ≤ max_stream_window (config a).
Proof.
  unfold autotune. destruct (0 <? n); [|by eexists _, _, _; split; [reflexivity|]; split_and!; [done..|by exists (questions a)|]].
  destruct (_ <=? _); [|by eexists _, _, _; split; [reflexivity|]; split_and!; [done..|by exists (questions a)|]].
  do 4 erewrite act_bind_ok by reflexivity. eexists _, _, _. split; [reflexivity|]. split_and!; [done..|by eexists|].
  intros w. destruct (_ && _) eqn:E; [|done]. intros [= <-].
  apply andb_true_iff in E as [_ E%Z.ltb_lt]. exact (conj E (Z.le_min_r _ _)).
Qed.

Lemma del_scale_up id cur w a :
  watched id → delivering a → (∀ s, streams (conn a) !! id = Some s → window_size s ≤ w) → w ≤ maxcap →
  delivering (scale_up id cur w a).2.
Proof.
  intros Hd D Hw Hc. unfold scale_up. do 2 erewrite act_bind_ok by reflexivity. destruct (_ <=? _); [|done].
  erewrite act_bind_ok by reflexivity. destruct (streams (conn a) !! id) as [s|] eqn:Hs; [|done].
  specialize (Hw s eq_refl). destruct D as (M & C). destruct (M id s Hs Hd) as [B L Cp Wm Da].
  pose proof (bo_heads _ _ B). pose proof (bo_cap _ _ B).
  destruct (resize_spec _ _ w B) as (b' & -> & B' & R' & G' & C' & W'); [lia|lia|].
  erewrite act_bind_ok by reflexivity. split; [|exact C].
  change (map_Forall watched_ok (alter (λ s, s <| receive_buffer := b' |> <| window_size := w |>) id (streams (conn a)))).
  intros j s'. destruct (decide (j = id)) as [->|]; [|rewrite lookup_alter_ne by done; by apply M].
  rewrite lookup_alter_eq, Hs. intros [= <-] _. split.
  - exact B'.
  - change (write_head b' ≤ maxlen). lia.
  - exact C'.
  - exact Hc.
  - change (mjoin (app_data s) = stream_slice (σ id) 0 (read_head b')). by rewrite R'.
Qed.

Lemma del_deliver_loop fuel s : preserves delivering (deliver_loop fuel s).
Proof. revert s. induction fuel as [|fuel IH]; intros s; cbn [deliver_loop]; unfold try_channel; quiet. Qed.
Lemma del_forward_unwatched id n : ¬ watched id → preserves delivering (forward_stream_data id n).
Proof.
  intros Hw. pose proof (λ f, del_on_unwatched id f Hw). pose proof del_deliver_loop.
  unfold forward_stream_data, scale_up, autotune, now. quiet.
Qed.

Lemma del_forward id n : preserves delivering (forward_stream_data id n).
Proof.
  destruct (decide (watched id)) as [Hw|]; [|by apply del_forward_unwatched].
  intros a D. unfold forward_stream_data. erewrite act_bind_ok by reflexivity.
  destruct (streams (conn a) !! id) as [s|] eqn:Hs; [|done].
  set (consumed := Z.min n (buffered_bytes s)). clearbody consumed. cbv zeta.
  assert (stream_ok id (consume consumed s)) as S0.
  { destruct D as [M _]. eapply stream_ok_same; [apply consume_same|]. by apply (M id s Hs). }
  set (s0 := consume consumed s) in *. clearbody s0.
  destruct (deliver_loop_ok id s0 a S0) as (s1 & a1 & E1 & S1 & Ec1 & Eg1).
  rewrite (act_bind_ok _ _ _ _ _ E1). clear E1 S0.
  assert (stream_ok id (finish_stream s1)) as S2 by (eapply stream_ok_same; [apply finish_same|done]).
  set (s2 := finish_stream s1) in *. clearbody s2.
  destruct (autotune_spec consumed s2 a1) as (s3 & g & a2 & E2 & S3 & _ & Ec2 & F2 & _ & Hg).
  assert (config a2 = config a1) as Eg2 by by injection F2.
  rewrite (act_bind_ok _ _ _ _ _ E2). clear E2. apply (stream_ok_same id) in S3 as S3'; [|done].
  cbv beta iota.
  assert (delivering a2) as D2 by (unfold delivering; by rewrite Ec2, Ec1, Eg2, Eg1).
  assert (delivering (on_stream id (λ _, s3) a2).2) as D3 by (apply del_on_stream; [by intros ? _ _|done]).
  assert (streams (conn (on_stream id (λ _, s3) a2).2) !! id = Some s3) as Hs3.
  { change (alter (λ _, s3) id (streams (conn a2)) !! id = Some s3). by rewrite lookup_alter_eq, Ec2, Ec1, Hs. }
  erewrite act_bind_ok by reflexivity. set (a3 := (on_stream id (λ _, s3) a2).2) in *.
  change (a2 <| conn ::= _ |>) with a3.
  apply (leads_bind_post (eq a3)); [intros ? <-|intros x|done].
  - destruct g as [w|]; [|done]. destruct (Hg w eq_refl) as [H1 H2]. apply del_scale_up; [done|done| |].
    + intros s' Hs'. rewrite Hs3 in Hs'. injection Hs' as <-. destruct S3 as (_ & -> & _). lia.
    + destruct D2 as (_ & _ & Hm). rewrite Eg2 in Hm. lia.
  - walk. by apply del_on_stream_same.
Qed.
#[local] Hint Resolve del_forward : preserves.

(** A piece of the peer's stream. *)
Definition honest_data (id offset : Z) (data : bytes) : Prop :=
  0 ≤ offset ∧ offset + len data ≤ maxlen ∧ data = stream_slice (σ id) offset (offset + len data).

(** Storing a buffer that differs from the stream's by data of the stream. *)
Lemma del_store id b f a s :
  watched id → delivering a → streams (conn a) !! id = Some s →
  buf_ok b (σ id) → write_head b ≤ maxlen → read_head b = read_head (receive_buffer s) →
  capacity b = capacity (receive_buffer s) →
  (∀ s, receive_buffer (f s) = b ∧ window_size (f s) = window_size s ∧ app_data (f s) = app_data s) →
  delivering (on_stream id f a).2.
Proof.
  intros Hw (M & C) Hs B L R Cp Hf. split; [|exact C]. change (map_Forall watched_ok (alter f id (streams (conn a)))).
  intros j s'. destruct (decide (j = id)) as [->|]; [|rewrite lookup_alter_ne by done; by apply M].
  rewrite lookup_alter_eq, Hs. intros [= <-] _. destruct (M id s Hs Hw) as [_ _ Cp' Wm Da]. destruct (Hf s) as (E1 & E2 & E3).
  split; rewrite ?E1, ?E2, ?E3; [done|done|congruence|done|congruence].
Qed.

Lemma del_receive_unwatched id offset data ty :
  ¬ watched id → preserves delivering (receive_stream_data id offset data ty).
Proof.
  intros Hw. pose proof (λ f, del_on_unwatched id f Hw). unfold receive_stream_data, flush_if_due, count_ack. quiet.
Qed.

Lemma del_receive_stream_data id offset data ty :
  (watched id → honest_data id offset data) → preserves delivering (receive_stream_data id offset data ty).
Proof.
  intros Hh. destruct (decide (watched id)) as [Hw|]; [|by apply del_receive_unwatched].
  destruct (Hh Hw) as (Ho & He & Hd). clear Hh. intros a D. unfold receive_stream_data. erewrite act_bind_ok by reflexivity.
  destruct (streams (conn a) !! id) as [s|] eqn:Hs; [|done].
  destruct (negb _); [by apply (quiet_close_with delivering)|]. do 2 erewrite act_bind_ok by reflexivity.
  destruct (_ && _); [by apply (quiet_close_with delivering)|]. pose proof (len_nonneg data). destruct D as (M & C).
  pose proof (M id s Hs Hw) as [B L Cp Wm Da]. pose proof (bo_heads _ _ B). pose proof (bo_cap _ _ B). pose proof (conj M C : delivering a) as D.
  unfold checked_add. replace (offset + len data <? 2 ^ 64) with true by lia. cbn [ok_or].
  erewrite act_bind_ok by reflexivity.
  destruct (match final_rx_offset s with Some _ => _ | None => _ end); [by apply (quiet_close_with delivering)|].
  erewrite act_bind_ok by reflexivity. set (a1 := a <| conn ::= _ |>).
  assert (delivering a1) as D1 by (by apply (del_on_stream_same id (λ s, s <| highest_rx_offset ::= Z.max (offset + len data) |>))).
  assert (streams (conn a1) !! id = Some (s <| highest_rx_offset ::= Z.max (offset + len data) |>)) as Hs1.
  { change (alter (λ s, s <| highest_rx_offset ::= Z.max (offset + len data) |>) id (streams (conn a)) !! id
      = Some (s <| highest_rx_offset ::= Z.max (offset + len data) |>)). by rewrite lookup_alter_eq, Hs. }
  clearbody a1. destruct (Z.leb_spec (offset + len data) (read_head (receive_buffer s))) as [|Hnew].
  { unfold count_ack. by quiet. }
  destruct (_ <? _); [by apply (quiet_close_with delivering)|].
  destruct (buffer_stream_data_spec (σ id) (receive_buffer s) offset data) as (o & b' & E & B' & R' & C' & W' & _); [done|lia|done..|].
  unfold buffer_stream_data in E. replace (offset + len data <=? _) with false in E by lia. rewrite E.
  erewrite act_bind_ok by reflexivity. cbv beta iota. destruct o as [added|].
  - apply (leads_bind_post (eq a1)); [intros ? <-|intros []|done].
    + eapply (del_store id b'); [done|done|exact Hs1|done|lia|done|done|done].
    + unfold flush_if_due, count_ack. quiet.
  - apply (leads_bind_post (eq a1)); [intros ? <-|intros []; walk|done].
    eapply (del_store id b'); [done|done|exact Hs1|done|lia|done|done|done].
Qed.

Lemma new_stream_ok id ty rw tw t : 0 < rw ≤ maxcap → 0 ≤ maxlen → watched_ok id (new_stream ty rw tw t).
Proof. intros. intros _. split; cbn; [apply buf_ok_new; lia|done|done|lia|done]. Qed.

Lemma del_open_peer_stream id ty : 0 ≤ maxlen → preserves delivering (open_peer_stream id ty).
Proof.
  intros Hm. unfold open_peer_stream. apply preserves_gets_bind. intros a D.
  destruct (negb _); [by apply (quiet_close_with delivering)|]. do 2 erewrite act_bind_ok by reflexivity.
  destruct (_ <=? _); [done|]. do 3 erewrite act_bind_ok by reflexivity.
  apply (leads_bind_post delivering); [| |exact D].
  - intros a1 (M & C). split; [|exact C]. apply map_Forall_insert_2; [|exact M].
    apply new_stream_ok; [|done]. destruct D as (_ & C1 & _). exact C1.
  - intros x. unfold try_channel. quiet. intros a1 (M & C). split; [|exact C]. by apply map_Forall_delete.
Qed.
#[local] Hint Resolve del_open_peer_stream del_receive_stream_data : preserves.

(** Frames whose stream data is the peer's. *)
Definition honest (f : Frame.t) : Prop :=
  match f with Frame.Stream id _ offset data => watched id → honest_data id offset data | _ => True end.

Lemma del_streams f : (∀ m, map_Forall watched_ok m → map_Forall watched_ok (f m)) →
  preserves delivering (on_conn (λ c, c <| streams ::= f |>)).
Proof. intros H a (M & C). split; [|exact C]. by apply H. Qed.

Lemma del_peer_closed r : preserves delivering (peer_closed r).
Proof.
  unfold peer_closed. walk. intros a (M & C). split; [|exact C].
  change (map_Forall watched_ok (signal_window_opened <$> ((λ s, s <| stream_termination ::= termination_set r |>) <$> streams (conn a)))).
  rewrite <- map_fmap_compose. intros id s. rewrite lookup_fmap, fmap_Some. intros (s0 & E & ->).
  eapply watched_same; [|by apply M]. done.
Qed.

Lemma del_handle_frame f from : 0 ≤ maxlen → honest f → preserves delivering (handle_frame f from).
Proof.
  intros Hm Hf. pose proof del_peer_closed. unfold_handle_frame.
  destruct f; unfold handle_stream, handle_stream_close, handle_reset_stream, flush_if_due, count_ack, try_channel;
    quiet; try (by apply del_on_stream_same).
  - apply del_on_stream_same. intros s. unfold raise_stream_window. by destruct (_ <? _).
  - intros a (M & C). split; [by apply map_Forall_delete|exact C].
Qed.

(** *** The other operations *)

Lemma del_process_outgoing_data id data : preserves delivering (process_outgoing_data id data).
Proof.
  intros a (M & C). unfold process_outgoing_data. destruct (_ <? _); [done|].
  destruct (streams (conn a) !! id) as [s|] eqn:Hs; [|done]. destruct (send_stopped_error s); [done|].
  destruct (bool_decide _); [done|]. destruct (_ <? _); [done|]. destruct (_ <? _); [done|].
  split; [|exact C]. apply map_Forall_insert_2; [|exact M].
  eapply (watched_same id s); [done|by apply M].
Qed.

#[local] Hint Resolve del_process_outgoing_data : preserves.

(** ** The event loop *)

Lemma del_on_open_stream ty tm : 0 ≤ maxlen → preserves delivering (on_open_stream ty tm).
Proof.
  intros Hm a D. unfold on_open_stream. destruct (bool_decide _); [done|]. do 2 erewrite act_bind_ok by reflexivity.
  destruct (_ <=? _).
  { match goal with |- delivering (?m a).2 => assert (preserves delivering m) as P by quiet; by apply P end. }
  erewrite act_bind_ok by reflexivity. destruct (checked_add _ _ _) as [next|]; [|done].
  do 4 erewrite act_bind_ok by reflexivity. destruct D as (M & C). split; [|exact C].
  apply map_Forall_insert_2; [|exact M]. apply new_stream_ok; [|done]. by destruct C as [C _].
Qed.
#[local] Hint Resolve del_on_open_stream : preserves.

Lemma del_remove_stream id : preserves delivering (on_conn (λ c, c <| streams ::= delete id |>)).
Proof. apply del_streams. intros m. apply map_Forall_delete. Qed.
#[local] Hint Resolve del_remove_stream : preserves.

Lemma del_on_idle : preserves delivering on_idle.
Proof.
  intros a (M & C). split; [|exact C]. change (map_Forall watched_ok (streams (if bool_decide (state (conn a) = Closing)
    then conn a else (conn a) <| termination ::= termination_set TerminationReason.IdleTimeout |> <| streams ::= fmap (λ s, s <| stream_termination ::= termination_set TerminationReason.IdleTimeout |>) |>))).
  destruct (bool_decide _); [exact M|]. intros id s. cbn. rewrite lookup_fmap, fmap_Some. intros (s0 & E & ->).
  eapply watched_same; [|by apply M]. done.
Qed.
#[local] Hint Resolve del_on_idle : preserves.

Lemma del_on_message m tm :
  0 ≤ maxlen → (∀ data from, m ≠ ActorMessage.IncomingPacket data from) → preserves delivering (on_message m tm).
Proof.
  intros Hlen Hm. destruct m; cbn [on_message]; [by destruct (Hm data from)|..];
    unfold on_data_read, on_send_datagram, close_timer, paced, reset_pacing, send_datagram_payload, now;
    quiet.
Qed.

Lemma del_on_event ev tm :
  0 ≤ maxlen → (∀ data from, ev ≠ Message (ActorMessage.IncomingPacket data from)) → preserves delivering (on_event ev tm).
Proof.
  intros Hlen He. destruct ev as [m| | | | | | |]; cbn [on_event]; unfold_timers.
  1: { apply preserves_bind; [unfold now; quiet|intros t]. apply preserves_bind; [walk|intros timeout].
       apply del_on_message; [done|]. intros data from ->. by apply (He data from). }
  all: unfold paced, reset_pacing, on_path_validation, now; quiet.
Qed.

Lemma del_turn ev tm :
  0 ≤ maxlen → (∀ data from, ev ≠ Message (ActorMessage.IncomingPacket data from)) → preserves delivering (turn ev tm).
Proof.
  intros Hlen He. pose proof (del_on_event ev tm Hlen He). unfold turn. walk.
  unfold after_event, update_rto_timer, now. quiet.
Qed.
End delivery.

(** ** The theorem *)

(** What happens at an actor: the peer's frames arrive, and the event loop turns. *)
Inductive happening :=
  | Arrives (f : Frame.t) (from : SocketAddr)
  | Turns (ev : Event) (tm : Timers).

Definition happens `{BC : BytesCrate} `{HK : Hkdf} `{AE : Aead} `{CC : ChaCha20} `{LM : Libm} `{EV : Env}
    `{SH : Sha256} `{ED : Ed25519} `{XD : X25519} (a : Actor) (h : happening) : Actor :=
  match h with Arrives f from => (handle_frame f from a).2 | Turns ev tm => (turn ev tm a).2 end.

(** Frames carry the data of the streams [σ], of at most [maxlen] bytes. *)
Definition fair (σ : Z → Z → Z) (maxlen : Z) (h : happening) : Prop :=
  match h with
  | Arrives f _ => honest σ maxlen (λ _, True) f
  | Turns (Message (ActorMessage.IncomingPacket _ _)) _ => False
  | Turns _ _ => True
  end.

(** C2: In-order delivery through the connection.  Take an actor without streams, and let the
    frames of the peer arrive in any order, lost, repeated and overlapping, interleaved with
    any other frames and any turns of the event loop for the application and the timers.  What the
    actor has handed to the application for a stream is, byte for byte, the prefix of the
    peer's stream up to the stream's read head. *)
Theorem actor_in_order_delivery `{BC : BytesCrate} `{HK : Hkdf} `{AE : Aead} `{CC : ChaCha20} `{LM : Libm} `{EV : Env}
    `{SH : Sha256} `{ED : Ed25519} `{XD : X25519} (σ : Z → Z → Z) (maxlen : Z) (a : Actor) (hs : list happening)
    (id : Z) (s : StreamState) :
  streams (conn a) = ∅ → 0 < cfg_initial_stream_window (config a) ≤ max_stream_window (config a) →
  0 ≤ maxlen → maxlen + max_stream_window (config a) < 2 ^ 63 → Forall (fair σ maxlen) hs →
  streams (conn (foldl happens a hs)) !! id = Some s →
  mjoin (app_data s) = stream_slice (σ id) 0 (read_head (receive_buffer s)).
Proof.
  intros Hs Hw Hm Hmax F Hid.
  assert (delivering σ maxlen (max_stream_window (config a)) (λ _, True) a) as D by (split; [by rewrite Hs|done]).
  revert Hmax D Hid. generalize (max_stream_window (config a)) as maxcap. clear Hs Hw. intros maxcap Hmax.
  revert a. induction F as [|h hs Hh F IH]; intros a D Hid.
  - destruct D as [M _]. by destruct (M id s Hid I).
  - apply (IH (happens a h)); [|done]. destruct h as [f from|ev tm]; cbn [happens fair] in *.
    + apply del_handle_frame; [exact Hmax|tc_solve|done..].
    + apply del_turn; [exact Hmax|tc_solve|done| |done]. by intros data from ->.
Qed.

Lemma actor_in_order_delivery_witness :
  let σ (_ i : Z) := 104 + i in
  let hs := [Arrives (Frame.Stream 2 Bidirectional 2 [106; 107]) sample_addr;
             Arrives (Frame.Stream 2 Bidirectional 0 [104; 105; 106]) sample_addr] in
  let a' := foldl (@happens bytes_model CryptoFacts.hkdf_model CryptoFacts.aead_model chacha20_model libm_model
    env_model sha256_model ed25519_model x25519_model) (sample_end false) hs in
  mjoin (from_option app_data [] (streams (conn a') !! 2)) = stream_slice (σ 2) 0 4.
Proof.
  intros σ hs a'.
  assert ((λ s, read_head (receive_buffer s)) <$> streams (conn a') !! 2 = Some 4) as (s & Hs & Hr)%fmap_Some
    by (vm_compute; reflexivity).
  rewrite Hs. cbn [from_option]. rewrite Hr.
  apply (@actor_in_order_delivery bytes_model CryptoFacts.hkdf_model CryptoFacts.aead_model chacha20_model libm_model
    env_model sha256_model ed25519_model x25519_model (λ _ i, 104 + i) 1000 (sample_end false)
    [Arrives (Frame.Stream 2 Bidirectional 2 [106; 107]) sample_addr;
     Arrives (Frame.Stream 2 Bidirectional 0 [104; 105; 106]) sample_addr] 2 s); [reflexivity|closed..| |exact Hs].
  repeat constructor; closed.
Defined.
