(* ===== verification/Resources.v ===== *)
(** * The resources a peer can make an actor hold

    Whatever a peer sends, the receive buffers of a connection stay within
    [max_connection_buffer], and the streams it opened within the limit it was given. *)

From stdpp Require Import strings.
From S2P Require Import Prelude Errors Effects Buf Config StreamType Frames Packet HeaderProtection.
From S2P Require Import Unacked StreamBuffer BufferProps Cookie KeyDerivation CryptoContext Float Congestion.
From S2P Require Import Termination Connection AckHandling ConnFrame Actor ActFacts PacketSender Retransmit HandshakeHandler.
From S2P Require Import IncomingHandler EventLoop StreamView ActorRun StreamDelivery.

(** ** Allocation of a receive buffer *)

(** The buffer is not allocated, or has its capacity. *)
Definition alloc_ok (b : StreamReceiveBuffer) : Prop :=
  0 ≤ capacity b ∧ (allocated_size b = 0 ∨ allocated_size b = capacity b).

Lemma copy_at_length dst a src dst' : copy_at dst a src = Ok dst' → length dst' = length dst.
Proof.
  unfold copy_at. case_decide; [|done]. intros [= <-]. rewrite !length_app, length_take, length_drop. lia.
Qed.

Lemma copy_loop_length fuel cap buf data off idx buf' :
  copy_loop fuel cap buf data off idx = Ok buf' → length buf' = length buf.
Proof.
  revert buf off idx. induction fuel as [|fuel IH]; intros buf off idx; cbn [copy_loop]; case_decide; [done|by intros [= <-]| |by intros [= <-]].
  destruct (sub_slice _ _ _) as [chunk| |]; cbn; [|done..]. destruct (copy_at _ _ _) as [buf1| |] eqn:E; cbn; [|done..].
  intros H1%IH. by rewrite H1, (copy_at_length _ _ _ _ E).
Qed.

(** A write allocates at most the capacity, and only once. *)
Lemma write_alloc off data b r b' :
  write off data b = Ok (r, b') → alloc_ok b →
  alloc_ok b' ∧ capacity b' = capacity b ∧ (allocated_size b ≠ 0 → allocated_size b' = allocated_size b)
  ∧ allocated_size b' ≤ Z.max (allocated_size b) (capacity b).
Proof.
  unfold write, alloc_ok, allocated_size. intros H [H0 HA]. destruct (len data =? 0); [injection H as <- <-; by split_and!; try lia|].
  destruct (checked_add _ _ _) as [e|]; [|injection H as <- <-; by split_and!; try lia].
  destruct (_ <? e); [injection H as <- <-; by split_and!; try lia|].
  set (b1 := if len (buffer b) =? 0 then _ else b) in H. set (b2 := if write_head b1 <? e then _ else b1) in H.
  assert (capacity b1 = capacity b ∧ len (buffer b1) = if len (buffer b) =? 0 then capacity b else len (buffer b)) as [C1 L1].
  { unfold b1. destruct (len (buffer b) =? 0) eqn:E; [|done]. split; [done|].
    change (len (replicate (Z.to_nat (capacity b)) 0) = capacity b). rewrite len_replicate. lia. }
  assert (capacity b2 = capacity b1 ∧ buffer b2 = buffer b1) as [C2 L2] by (unfold b2; by destruct (_ <? e)).
  destruct (capacity b2 =? 0); [done|].
  destruct (copy_loop _ _ _ _ _ _) as [buf| |] eqn:E; cbn [mbind res_bind] in H; [|done..].
  apply copy_loop_length in E. unfold add_range in H. injection H as _ <-.
  match goal with |- context [buffer ?x] => change (capacity x) with (capacity b2); change (buffer x) with buf end.
  assert (len buf = len (buffer b1)) as -> by (unfold len; rewrite E, L2; done). rewrite C2, C1, L1.
  destruct (len (buffer b) =? 0) eqn:Z; to_prop; lia.
Qed.

Lemma write_stream_alloc off data b r b' :
  write_stream_data off data b = Ok (r, b') → alloc_ok b →
  alloc_ok b' ∧ capacity b' = capacity b ∧ (allocated_size b ≠ 0 → allocated_size b' = allocated_size b)
  ∧ allocated_size b' ≤ Z.max (allocated_size b) (capacity b).
Proof.
  unfold write_stream_data. destruct (if off <? read_head b then _ else _) as [o d].
  destruct (negb _); [apply write_alloc|]. intros [= <- <-] A. split_and!; [done..|]. lia.
Qed.

Lemma read_alloc b r b' :
  read_contiguous b = Ok (r, b') → buffer b' = buffer b ∧ capacity b' = capacity b.
Proof.
  unfold read_contiguous. destruct (len (buffer b) =? 0); [by intros [= _ <-]|].
  destruct (BTree.first _) as [[s e]|]; [|by intros [= _ <-]]. destruct (_ && _); [|by intros [= _ <-]].
  destruct (capacity b =? 0); [done|]. match goal with |- (?m ≫= _) = _ → _ => destruct m as [out| |] end; cbn; [|done..].
  by intros [= _ <-].
Qed.

Lemma ring_store_length buf linear st n d buf' : ring_store buf linear st n d = Ok buf' → length buf' = length buf.
Proof.
  unfold ring_store. destruct (sub_slice linear 0 n); cbn [mbind res_bind]; [|done..].
  destruct (copy_at buf st _) as [b1| |] eqn:E; cbn [mbind res_bind]; [|done..].
  apply copy_at_length in E. case_decide; [|by intros [= <-]]. destruct (sub_slice _ _ _); cbn [mbind res_bind]; [|done..].
  case_decide; [|done]. intros H1%copy_at_length. congruence.
Qed.

(** A resized buffer has its new capacity; it is allocated when it was. *)
Lemma resize_alloc w b b' :
  resize w b = Ok b' → alloc_ok b → 0 ≤ w →
  capacity b' = w ∧ alloc_ok b' ∧ (allocated_size b = 0 → allocated_size b' = 0).
Proof.
  unfold resize, alloc_ok, allocated_size. intros H [H0 HA] Hw. destruct (Z.eqb_spec w (capacity b)) as [->|].
  { injection H as <-. split_and!; try done; lia. }
  destruct (Z.eqb_spec (len (buffer b)) 0) as [E0|].
  { injection H as <-. split_and!; [done|exact Hw|left; exact E0|done]. }
  destruct (capacity b =? 0); [done|].
  match type of H with (?m ≫= _) = _ => destruct m as [buf| |] eqn:E end; cbn [mbind res_bind] in H; [|done..].
  assert (len buf = w) as Hl.
  { case_decide; [|injection E as <-; rewrite len_replicate; lia]. destruct (w =? 0); [done|].
    destruct (linear_copy _ _ _ _) as [l| |]; cbn [mbind res_bind] in E; [|done..].
    apply ring_store_length in E. unfold len. rewrite E, length_replicate. lia. }
  injection H as <-.
  match goal with |- context [buffer ?x] => change (capacity x) with w; change (buffer x) with buf end. lia.
Qed.

(** ** The memory of the streams *)

(** The allocated bytes of a stream, its capacity and its window. *)
Record Memory := mkMemory { held : Z; room : Z; window : Z }.
Definition memory (s : StreamState) : Memory :=
  mkMemory (allocated_size (receive_buffer s)) (capacity (receive_buffer s)) (window_size s).
Definition footprint (a : Actor) : gmap Z Memory := memory <$> streams (conn a).

Definition memory_ok (top : Z) (x : Memory) : Prop :=
  room x = window x ∧ 0 ≤ room x ≤ top ∧ (held x = 0 ∨ held x = room x).

Definition total (m : gmap Z Memory) : Z := map_fold (λ _ x acc, held x + acc) 0 m.

Lemma memory_delete m id x : m !! id = Some x → total m = held x + total (delete id m).
Proof.
  intros H. apply (map_fold_delete_L (λ _ x acc, held x + acc) 0 id x m); [|done]. intros. lia.
Qed.

Lemma memory_insert m id x : total (<[id := x]> m) = held x + total (delete id m).
Proof. rewrite (memory_delete _ id x) by apply lookup_insert_eq. by rewrite delete_insert_eq. Qed.

Lemma total_streams m : total (memory <$> m) = sum_streams (λ s, allocated_size (receive_buffer s)) m.
Proof. unfold total, sum_streams. by rewrite map_fold_fmap. Qed.

Lemma memory_nonneg top m : map_Forall (λ _, memory_ok top) m → 0 ≤ total m.
Proof.
  unfold total. induction m as [|i x m Hi Hx IH] using map_first_key_ind; intros F; [by rewrite map_fold_empty|].
  rewrite map_fold_insert_first_key by done. apply map_Forall_insert in F as [(_ & ? & ?) F]; [|done]. specialize (IH F). lia.
Qed.

(** ** The invariant *)

(** The identifiers of the peer's streams. *)
Definition peer_parity (a : Actor) : Z := if on_client a then 1 else 0.
Definition peer_streams (a : Actor) : Z :=
  Z.of_nat (size (filter (λ '(i, _), i mod 2 = peer_parity a) (streams (conn a)))).

(** The windows the configuration allows. *)
Definition top_window (a : Actor) : Z := Z.max (cfg_initial_stream_window (config a)) (max_stream_window (config a)).

(** What an actor never changes: its configuration, its side and the peer's limit. *)
Definition fixed_of (a : Actor) : ZtConfig * bool * Z := (config a, on_client a, local_max_streams (conn a)).

Section resources.
Context `{BC : BytesCrate} `{HK : Hkdf} `{AE : Aead} `{CC : ChaCha20} `{LM : Libm} `{EV : Env}.
Context `{SH : Sha256} `{ED : Ed25519} `{XD : X25519}.
Context (fixed : ZtConfig * bool * Z).

Record bounded (a : Actor) : Prop := {
  b_fixed : fixed_of a = fixed;
  b_memory : map_Forall (λ _, memory_ok (top_window a)) (footprint a);
  b_total : total (footprint a) ≤ max_connection_buffer (config a);
  b_peer : Z.of_nat (size (filter (λ '(i, _), i mod 2 = peer_parity a) (footprint a)))
             ≤ Z.max 0 (local_max_streams (conn a));
  b_next : next_stream_id a mod 2 = 1 - peer_parity a;
  b_config : 0 ≤ cfg_initial_stream_window (config a) ∧ max_connection_buffer (config a) < u_max 64;
}.

(** What the invariant reads besides the memory. *)
Definition limits (a : Actor) : ZtConfig * bool * Z * Z := (config a, on_client a, next_stream_id a, local_max_streams (conn a)).

Lemma bounded_same a a' : footprint a' = footprint a → limits a' = limits a → bounded a → bounded a'.
Proof.
  intros E [= E1 E2 E3 E4] []. unfold top_window, peer_parity, fixed_of in *.
  split; unfold top_window, peer_parity, fixed_of; by rewrite ?E, ?E1, ?E2, ?E3, ?E4.
Qed.

Lemma footprint_unsignalled a : footprint a = memory <$> unsignalled (streams (conn a)).
Proof. unfold footprint, unsignalled. rewrite <- map_fmap_compose. by apply map_fmap_ext. Qed.

#[local] Instance bounded_view : StreamView bounded.
Proof.
  intros a a' [= Es Ec E1 E2 E3]. apply bounded_same; [by rewrite !footprint_unsignalled, Es|].
  unfold limits. congruence.
Qed.

(** A stream whose memory changes within the limit. *)
Lemma bounded_set id x x' a a' :
  footprint a !! id = Some x → footprint a' = <[id := x']> (footprint a) → limits a' = limits a →
  memory_ok (top_window a) x' → (held x' ≤ held x ∨ total (footprint a) - held x + held x' ≤ max_connection_buffer (config a)) →
  bounded a → bounded a'.
Proof.
  intros Hx E [= E1 E2 E3 E4] M H []. unfold top_window, peer_parity, fixed_of in *.
  split; unfold top_window, peer_parity, fixed_of; rewrite ?E, ?E1, ?E2, ?E3, ?E4; try done.
  - by apply map_Forall_insert_2.
  - rewrite memory_insert. rewrite (memory_delete _ id x Hx) in *. lia.
  - enough (size (filter (λ '(i, _), i mod 2 = if on_client a then 1 else 0) (<[id := x']> (footprint a)))
      = size (filter (λ '(i, _), i mod 2 = if on_client a then 1 else 0) (footprint a))) as -> by done.
    rewrite <- !size_dom. f_equal. apply leibniz_equiv. intros i. rewrite !elem_of_dom.
    unfold is_Some. setoid_rewrite map_lookup_filter_Some. destruct (decide (i = id)) as [->|].
    + rewrite lookup_insert_eq, Hx. naive_solver.
    + by rewrite lookup_insert_ne.
Qed.

Lemma bounded_delete id a : bounded a → bounded (a <| conn ::= λ c, c <| streams ::= delete id |> |>).
Proof.
  intros [K M T P N C]. set (a' := a <| conn ::= _ |>).
  assert (footprint a' = delete id (footprint a)) as E by apply fmap_delete.
  split; [exact K|..|exact N|exact C]; rewrite E.
  - by apply map_Forall_delete.
  - destruct (footprint a !! id) as [x|] eqn:Hx; [|rewrite delete_id by done; exact T].
    destruct (M id x Hx) as (_ & ? & ?). rewrite (memory_delete _ id x Hx) in T.
    change (total (delete id (footprint a)) ≤ max_connection_buffer (config a)). lia.
  - change (Z.of_nat (size (filter (λ '(i, _), i mod 2 = peer_parity a) (delete id (footprint a))))
             ≤ Z.max 0 (local_max_streams (conn a))).
    rewrite map_filter_delete. etrans; [|exact P]. apply inj_le, map_subseteq_size, delete_subseteq.
Qed.

(** A new stream holds no memory; one of the peer's counts against the limit. *)
Lemma bounded_add id ty tw t a :
  (id mod 2 = peer_parity a → peer_streams a < local_max_streams (conn a)) → bounded a →
  bounded (a <| conn ::= λ c, c <| streams ::= <[id := new_stream ty (cfg_initial_stream_window (config a)) tw t]> |> |>).
Proof.
  intros Hp [K M T P N C]. set (s := new_stream _ _ _ _). set (a' := a <| conn ::= _ |>).
  assert (footprint a' = <[id := memory s]> (footprint a)) as E by apply fmap_insert.
  split; [exact K|..|exact N|exact C]; rewrite E.
  - apply map_Forall_insert_2; [|exact M]. split; [done|]. split; [|by left].
    exact (conj (proj1 C) (Z.le_max_l _ _)).
  - change (total (<[id := memory s]> (footprint a)) ≤ max_connection_buffer (config a)). rewrite memory_insert.
    change (total (delete id (footprint a)) ≤ max_connection_buffer (config a)).
    destruct (footprint a !! id) as [x|] eqn:Hx; [|rewrite delete_id by done; exact T].
    destruct (M id x Hx) as (_ & ? & ?). rewrite (memory_delete _ id x Hx) in T. lia.
  - change (Z.of_nat (size (filter (λ '(i, _), i mod 2 = peer_parity a) (<[id := memory s]> (footprint a))))
             ≤ Z.max 0 (local_max_streams (conn a))).
    destruct (decide (id mod 2 = peer_parity a)) as [Hid|Hid].
    + rewrite map_filter_insert_True by done. specialize (Hp Hid). unfold peer_streams in Hp.
      unfold footprint. rewrite map_filter_fmap. rewrite map_size_insert. 
      destruct (_ !! _); rewrite map_size_fmap; [|rewrite Nat2Z.inj_succ].
      * exact (Z.le_trans _ _ _ (Z.lt_le_incl _ _ Hp) (Z.le_max_r _ _)).
      * exact (Z.le_trans _ _ _ (proj2 (Z.le_succ_l _ _) Hp) (Z.le_max_r _ _)).
    + rewrite map_filter_insert_False by done. etrans; [|exact P].
      apply inj_le, map_subseteq_size. apply map_filter_strong_subseteq_ext. intros i x. rewrite lookup_delete_Some. naive_solver.
Qed.

#[local] Hint Resolve bounded_view : preserves.

(** A change of a stream that does not concern its memory. *)
Lemma footprint_alter f id (m : gmap Z StreamState) :
  (∀ s, m !! id = Some s → memory (f s) = memory s) → memory <$> alter f id m = memory <$> m.
Proof.
  intros H. apply map_eq. intros j. rewrite !lookup_fmap. destruct (decide (j = id)) as [->|].
  - rewrite lookup_alter_eq. destruct (m !! id) as [s|] eqn:E; [|done]. cbn. by rewrite H.
  - by rewrite lookup_alter_ne.
Qed.

Lemma bounded_on_stream id f : (∀ s, memory (f s) = memory s) → preserves bounded (on_stream id f).
Proof. intros H a. apply bounded_same; [|done]. apply footprint_alter. by intros s _. Qed.

Lemma bounded_fmap f a :
  (∀ s, memory (f s) = memory s) → bounded a → bounded (a <| conn ::= λ c, c <| streams ::= fmap f |> |>).
Proof.
  intros H. apply bounded_same; [|done]. change (memory <$> (f <$> streams (conn a)) = memory <$> streams (conn a)).
  rewrite <- map_fmap_compose. apply map_fmap_ext. intros i s _. apply H.
Qed.

Lemma deliver_loop_memory fuel s a :
  (stream_facts (deliver_loop fuel s a).2 = stream_facts a ∧ conn (deliver_loop fuel s a).2 = conn a)
  ∧ ∀ s', (deliver_loop fuel s a).1 = Ok s' → memory s' = memory s.
Proof.
  revert s a. induction fuel as [|fuel IH]; intros s a; cbn [deliver_loop].
  all: destruct (app_tx s); cbn [negb]; [|by split; [|intros ? [= <-]]].
  all: erewrite act_bind_ok by reflexivity; destruct (channel_ready _); cbn [negb]; [|by split; [|intros ? [= <-]]].
  - done.
  - destruct (read_contiguous _) as [[chunk b]| |] eqn:E; [|done..]. erewrite act_bind_ok by reflexivity. cbv beta iota.
    apply read_alloc in E as [E1 E2].
    assert (∀ s', memory s' = memory (s <| receive_buffer := b |>) → memory s' = memory s) as Hm.
    { intros s' ->. unfold memory, allocated_size. cbn. congruence. }
    destruct chunk as [chunk|]; [|split; [done|by intros s' [= <-]; apply Hm]].
    match goal with |- context [deliver_loop fuel ?x ?y] => destruct (IH x y) as [F G] end. split; [exact F|].
    intros s' H%G. by apply Hm.
Qed.
Lemma footprint_set f id s a :
  streams (conn a) !! id = Some s → footprint (on_stream id f a).2 = <[id := memory (f s)]> (footprint a).
Proof.
  intros Hs. change (memory <$> alter f id (streams (conn a)) = <[id := memory (f s)]> (footprint a)).
  apply map_eq. intros j. rewrite lookup_fmap. destruct (decide (j = id)) as [->|].
  - by rewrite lookup_alter_eq, Hs, lookup_insert_eq.
  - by rewrite lookup_alter_ne, lookup_insert_ne, <- lookup_fmap by done.
Qed.

(** The saturating sum of the code is the sum. *)
Lemma total_allocated_total a : bounded a → total_allocated_buffer_size (conn a) = total (footprint a).
Proof.
  intros B. destruct (b_config _ B) as [_ C]. pose proof (b_total _ B).
  unfold total_allocated_buffer_size, footprint in *. rewrite total_streams in *. lia.
Qed.

(** Growing a window keeps the memory within the limit. *)
Lemma bounded_scale_up id w a s :
  bounded a → streams (conn a) !! id = Some s → window_size s < w ≤ max_stream_window (config a) →
  bounded (scale_up id (window_size s) w a).2.
Proof.
  intros B Hs Hw. unfold scale_up. do 2 erewrite act_bind_ok by reflexivity. destruct (Z.leb_spec (sat_add 64
    (total_allocated_buffer_size (conn a)) (w - window_size s)) (max_connection_buffer (config a))) as [Hl|]; [|done].
  erewrite act_bind_ok by reflexivity. rewrite Hs.
  assert (footprint a !! id = Some (memory s)) as Hm by (unfold footprint; by rewrite lookup_fmap, Hs).
  destruct (b_memory _ B id _ Hm) as (M1 & M2 & M3). cbn [held room window memory] in M1, M2, M3.
  destruct (resize w (receive_buffer s)) as [b| |] eqn:E; [|done..].
  apply resize_alloc in E as (E1 & [E2 E3] & E4); [|by split; [lia|]|lia]. erewrite act_bind_ok by reflexivity.
  set (s' := s <| receive_buffer := b |> <| window_size := w |>).
  eapply (bounded_set id (memory s) (memory s') a); [done| |done| | |exact B].
  - by apply (footprint_set (λ s, s <| receive_buffer := b |> <| window_size := w |>)).
  - change (memory_ok (top_window a) (mkMemory (allocated_size b) (capacity b) w)). unfold memory_ok, top_window.
    cbn [held room window]. lia.
  - change (allocated_size b ≤ allocated_size (receive_buffer s) ∨
      total (footprint a) - allocated_size (receive_buffer s) + allocated_size b ≤ max_connection_buffer (config a)).
    destruct (b_config _ B) as [_ C]. rewrite total_allocated_total in Hl by done. unfold sat_add in Hl. lia.
Qed.

Lemma bounded_forward id n : preserves bounded (forward_stream_data id n).
Proof.
  intros a B. unfold forward_stream_data. erewrite act_bind_ok by reflexivity.
  destruct (streams (conn a) !! id) as [s|] eqn:Hs; [|done].
  set (consumed := Z.min n (buffered_bytes s)). clearbody consumed. cbv zeta.
  destruct (deliver_loop_memory (S (length (received_ranges (receive_buffer (consume consumed s))))) (consume consumed s) a) as [[F1 Ec1] G1].
  change (memory (consume consumed s)) with (memory s) in G1.
  destruct (deliver_loop _ (consume consumed s) a) as [r a1] eqn:E1.
  assert (bounded a1) as B1 by (by eapply stream_view). destruct r as [s1| |]; [|by unfold mbind, act_bind; rewrite E1..].
  rewrite (act_bind_ok _ _ _ _ _ E1). specialize (G1 s1 eq_refl).
  assert (memory (finish_stream s1) = memory s) as G2.
  { rewrite <- G1. destruct (finish_same s1) as (Ea & Eb & _). unfold memory. by rewrite Ea, Eb. }
  set (s2 := finish_stream s1) in *. clearbody s2.
  destruct (autotune_spec consumed s2 a1) as (s3 & g & a2 & E2 & S3 & _ & Ec2 & F2 & _ & Hg).
  rewrite (act_bind_ok _ _ _ _ _ E2). cbv beta iota.
  assert (bounded a2) as B2 by (by eapply stream_view).
  assert (streams (conn a2) !! id = Some s) as Hs2 by (cbn in Ec1; by rewrite Ec2, Ec1).
  destruct S3 as (S3a & S3b & _). assert (memory s3 = memory s) as G3 by (rewrite <- G2; unfold memory; by rewrite S3a, S3b).
  erewrite act_bind_ok by reflexivity. set (a3 := a2 <| conn ::= _ |>).
  assert (streams (conn a3) !! id = Some s3) as Hs3.
  { change (alter (λ _, s3) id (streams (conn a2)) !! id = Some s3). by rewrite lookup_alter_eq, Hs2. }
  assert (bounded a3) as B3.
  { revert B2. apply bounded_same; [|done]. apply footprint_alter. intros ? E. congruence. }
  apply (leads_bind_post (eq a3)); [intros ? <-|intros x|done].
  - destruct g as [w|]; [|done]. rewrite <- S3b. apply bounded_scale_up; [done|done|].
    destruct (Hg w eq_refl) as [H1 H2]. injection F2 as _ Ecf _ _ _.
    change (config a3) with (config a2). rewrite S3b, Ecf. done.
  - walk. by apply bounded_on_stream.
Qed.
#[local] Hint Resolve bounded_forward : preserves.

(** Data is stored within the limit. *)
Lemma bounded_store id b f a s :
  bounded a → streams (conn a) !! id = Some s → capacity b = capacity (receive_buffer s) →
  alloc_ok b → (allocated_size b ≤ allocated_size (receive_buffer s)
    ∨ total (footprint a) - allocated_size (receive_buffer s) + allocated_size b ≤ max_connection_buffer (config a)) →
  (∀ s, receive_buffer (f s) = b ∧ window_size (f s) = window_size s) → bounded (on_stream id f a).2.
Proof.
  intros B Hs Ec [A1 A2] H Hf.
  assert (footprint a !! id = Some (memory s)) as Hm by (unfold footprint; by rewrite lookup_fmap, Hs).
  destruct (b_memory _ B id _ Hm) as (M1 & M2 & M3). cbn [held room window memory] in M1, M2, M3.
  destruct (Hf s) as [Ha Hb].
  eapply (bounded_set id (memory s) (memory (f s)) a); [done| |done| | |exact B].
  - apply footprint_set. done.
  - unfold memory, memory_ok. cbn [held room window]. rewrite Ha, Hb, Ec. lia.
  - unfold memory. cbn [held]. by rewrite Ha.
Qed.

Lemma bounded_receive id offset data ty : preserves bounded (receive_stream_data id offset data ty).
Proof.
  intros a B. unfold receive_stream_data. erewrite act_bind_ok by reflexivity.
  destruct (streams (conn a) !! id) as [s|] eqn:Hs; [|done].
  destruct (negb _); [by apply (quiet_close_with bounded)|]. do 2 erewrite act_bind_ok by reflexivity.
  destruct (_ && _) eqn:Hlim; [by apply (quiet_close_with bounded)|].
  destruct (checked_add _ _ _) as [e|]; [|done]. cbn [ok_or]. erewrite act_bind_ok by reflexivity.
  destruct (match final_rx_offset s with Some _ => _ | None => _ end); [by apply (quiet_close_with bounded)|].
  erewrite act_bind_ok by reflexivity. set (a1 := a <| conn ::= _ |>).
  assert (footprint a1 = footprint a) as Ef by (by apply footprint_alter).
  assert (bounded a1) as B1 by (by apply (bounded_same a)).
  assert (streams (conn a1) !! id = Some (s <| highest_rx_offset ::= Z.max e |>)) as Hs1.
  { change (alter (λ s, s <| highest_rx_offset ::= Z.max e |>) id (streams (conn a)) !! id
      = Some (s <| highest_rx_offset ::= Z.max e |>)). by rewrite lookup_alter_eq, Hs. }
  destruct (e <=? _); [unfold count_ack; by quiet|]. destruct (_ <? e); [by apply (quiet_close_with bounded)|].
  destruct (write_stream_data offset data (receive_buffer s)) as [[added b]| |] eqn:E; [|done..].
  erewrite act_bind_ok by reflexivity. cbv beta iota.
  assert (footprint a !! id = Some (memory s)) as Hm by (unfold footprint; by rewrite lookup_fmap, Hs).
  destruct (b_memory _ B id _ Hm) as (M1 & M2 & M3). cbn [held room window memory] in M1, M2, M3.
  apply write_stream_alloc in E as (A1 & A2 & A3 & A4); [|by split; [lia|]].
  assert (allocated_size b ≤ allocated_size (receive_buffer s) ∨ total (footprint a1) - allocated_size (receive_buffer s)
    + allocated_size b ≤ max_connection_buffer (config a1)) as Hfit.
  { rewrite Ef. change (config a1) with (config a). rewrite total_allocated_total in Hlim by done.
    destruct (b_config _ B) as [_ C]. unfold sat_add in Hlim. lia. }
  destruct added as [added|].
  - apply (leads_bind_post (eq a1)); [intros ? <-|intros []|done].
    + by apply (bounded_store id b _ _ _ B1 Hs1).
    + unfold flush_if_due, count_ack. quiet.
  - apply (leads_bind_post (eq a1)); [intros ? <-|intros []; walk|done]. by apply (bounded_store id b _ _ _ B1 Hs1).
Qed.

#[local] Hint Resolve bounded_receive : preserves.

Lemma bounded_open_peer_stream id ty : preserves bounded (open_peer_stream id ty).
Proof.
  unfold open_peer_stream. apply preserves_gets_bind. intros a B.
  destruct (negb _); [by apply (quiet_close_with bounded)|]. do 2 erewrite act_bind_ok by reflexivity.
  destruct (Z.leb_spec (local_max_streams (conn a)) (peer_streams a)) as [Hp|Hp];
    [by replace (_ <=? _) with true by (symmetry; exact (proj2 (Z.leb_le _ _) Hp))|].
  replace (_ <=? _) with false by (symmetry; exact (proj2 (Z.leb_gt _ _) Hp)).
  do 3 erewrite act_bind_ok by reflexivity.
  apply (leads_bind_post (eq (a <| questions ::= S |>))); [intros ? <-| |done].
  - apply bounded_add; [by intros _|]. eapply stream_view; [|exact B]. done.
  - intros x. unfold try_channel. quiet. intros a1. apply bounded_delete.
Qed.
#[local] Hint Resolve bounded_open_peer_stream : preserves.

Lemma bounded_peer_closed r : preserves bounded (peer_closed r).
Proof.
  intros a. apply bounded_same; [|done].
  change (memory <$> (signal_window_opened <$> ((λ s, s <| stream_termination ::= termination_set r |>) <$> streams (conn a))) = footprint a).
  rewrite <- !map_fmap_compose. by apply map_fmap_ext.
Qed.
#[local] Hint Resolve bounded_peer_closed : preserves.

Lemma bounded_handle_frame f from : preserves bounded (handle_frame f from).
Proof.
  unfold_handle_frame. destruct f; unfold handle_stream, handle_stream_close, handle_reset_stream, flush_if_due,
    count_ack, try_channel; quiet; try (by apply bounded_on_stream).
  - apply bounded_on_stream. intros s. unfold raise_stream_window. by destruct (_ <? _).
  - intros a. apply bounded_delete.
Qed.

Lemma bounded_process_outgoing_data id data : preserves bounded (process_outgoing_data id data).
Proof.
  intros a B. unfold process_outgoing_data. destruct (_ <? _); [done|].
  destruct (streams (conn a) !! id) as [s|] eqn:Hs; [|done]. destruct (send_stopped_error s); [done|].
  destruct (bool_decide _); [done|]. destruct (_ <? _); [done|]. destruct (_ <? _); [done|].
  revert B. apply bounded_same; [|done].
  etrans; [apply fmap_insert|]. apply insert_id. change (footprint a !! id = Some (memory s)).
  unfold footprint. by rewrite lookup_fmap, Hs.
Qed.

Lemma bounded_on_open_stream ty tm : preserves bounded (on_open_stream ty tm).
Proof.
  intros a B. unfold on_open_stream. destruct (bool_decide _); [done|]. do 2 erewrite act_bind_ok by reflexivity.
  destruct (_ <=? _).
  { match goal with |- bounded (?m a).2 => assert (preserves bounded m) as P by quiet; by apply P end. }
  erewrite act_bind_ok by reflexivity. unfold checked_add. destruct (_ <? _); [|done].
  do 4 erewrite act_bind_ok by reflexivity. pose proof (b_next _ B) as N.
  set (a1 := a <| next_stream_id := _ |>). assert (bounded a1) as B1.
  { destruct B. split; try done. change ((next_stream_id a + 2) mod 2 = 1 - peer_parity a). rewrite <- N. exact (Z_mod_plus_full _ 1 2). }
  apply (bounded_add (next_stream_id a) ty (peer_initial_stream_window (conn a)) _ (a1 <| questions ::= S |>)).
  - intros E. change (next_stream_id a mod 2 = peer_parity a) in E. rewrite N in E. unfold peer_parity in E. destruct (on_client a); lia.
  - eapply stream_view; [|exact B1]. done.
Qed.

Lemma bounded_on_idle : preserves bounded on_idle.
Proof.
  intros a B. change (bounded (a <| conn := if bool_decide (state (conn a) = Closing) then conn a
    else (conn a) <| termination ::= termination_set TerminationReason.IdleTimeout |>
      <| streams ::= fmap (λ s, s <| stream_termination ::= termination_set TerminationReason.IdleTimeout |>) |> |>)).
  destruct (bool_decide _); revert B; apply bounded_same; [done..| |done].
  change (memory <$> ((λ s, s <| stream_termination ::= termination_set TerminationReason.IdleTimeout |>) <$> streams (conn a)) = footprint a).
  rewrite <- map_fmap_compose. by apply map_fmap_ext.
Qed.

(** The invariant holds throughout a run of the actor. *)
Lemma bounded_run evs : preserves bounded (run evs).
Proof.
  apply quiet_run; [apply bounded_view|apply bounded_handle_frame|apply bounded_forward|apply bounded_process_outgoing_data
    |apply bounded_on_open_stream|intros id a; apply bounded_delete|apply bounded_on_idle].
Qed.
End resources.

(** C11: The peer's memory.  Take an actor without streams and run its event loop for any events:
    packets with any contents, commands of the application, timers.  The receive buffers it
    has allocated never exceed the connection's limit in total, nor any of them the largest
    window of the configuration, and the peer never has more streams than it was allowed. *)
Theorem resource_limits `{BC : BytesCrate} `{HK : Hkdf} `{AE : Aead} `{CC : ChaCha20} `{LM : Libm} `{EV : Env}
    `{SH : Sha256} `{ED : Ed25519} `{XD : X25519} (a : Actor) (evs : list Event) :
  streams (conn a) = ∅ → next_stream_id a mod 2 = 1 - peer_parity a → 0 ≤ local_max_streams (conn a) →
  0 ≤ cfg_initial_stream_window (config a) → 0 ≤ max_connection_buffer (config a) < u_max 64 →
  let a' := (run evs a).2 in
  sum_streams (λ s, allocated_size (receive_buffer s)) (streams (conn a')) ≤ max_connection_buffer (config a)
  ∧ map_Forall (λ _ s, allocated_size (receive_buffer s) ≤ top_window a) (streams (conn a'))
  ∧ peer_streams a' ≤ local_max_streams (conn a).
Proof.
  intros Hs Hn Hl Hw Hc a'.
  assert (bounded (fixed_of a) a) as B.
  { split; [done|..|done|lia]; unfold footprint; rewrite Hs, fmap_empty; [done|unfold total; rewrite map_fold_empty; lia|].
    rewrite map_filter_empty, map_size_empty. lia. }
  apply (bounded_run _ evs) in B. fold a' in B. clearbody a'. destruct B as [K M T P _ _].
  injection K as K1 K2 K3. unfold footprint, top_window in *. rewrite K1, K3 in *. split_and!.
  - by rewrite <- total_streams.
  - intros i s Hi. destruct (M i (memory s)) as (H1 & H2 & H3); [by rewrite lookup_fmap, Hi|]. cbn [held room window memory] in *. lia.
  - unfold peer_streams. rewrite map_filter_fmap, map_size_fmap, Z.max_r in P by done. exact P.
Qed.

Lemma resource_limits_witness :
  let a := sample_end false in
  let evs := [Message (ActorMessage.OpenStream Bidirectional); Message (ActorMessage.StreamDataRead 1 4)] in
  let a' := (@run bytes_model CryptoFacts.hkdf_model CryptoFacts.aead_model chacha20_model libm_model env_model
    sha256_model ed25519_model x25519_model evs a).2 in
  size (streams (conn a')) = 1%nat ∧ peer_streams a' ≤ local_max_streams (conn a).
Proof.
  split; [by vm_compute|].
  apply (@resource_limits bytes_model CryptoFacts.hkdf_model CryptoFacts.aead_model chacha20_model libm_model
    env_model sha256_model ed25519_model x25519_model (sample_end false)
    [Message (ActorMessage.OpenStream Bidirectional); Message (ActorMessage.StreamDataRead 1 4)]); closed.
Defined.
