(* ===== verification/StreamReopen.v ===== *)
(** * A stream that comes back

    The actor forgets a stream when its application closes it.  A frame of the stream that
    arrives later, as a retransmission does, opens it once more: the application is told of a new
    stream and is given the same bytes a second time. *)

From stdpp Require Import strings.
From S2P Require Import Prelude Errors Effects Buf Config StreamType Frames Packet HeaderProtection.
From S2P Require Import Unacked StreamBuffer RangeFacts BufferFacts BufferProps Cookie KeyDerivation CryptoContext Float Congestion.
From S2P Require Import Termination Connection AckHandling ConnFrame Actor ActFacts PacketSender Retransmit HandshakeHandler.
From S2P Require Import IncomingHandler EventLoop StreamView ActorRun StreamDelivery Resources.

(** ** Delivery at once *)

Section ready.
Context `{EV : Env} (ready : ∀ n, channel_ready n = true).

(** With room in the application's channel, the loop hands over everything up to the first gap. *)
Lemma deliver_loop_ready c s a :
  buf_ok (receive_buffer s) c → app_tx s = true → covers (received_ranges (receive_buffer s)) (read_head (receive_buffer s)) →
  ∃ b n, let s' := s <| receive_buffer := b |> <| app_data ::= λ d, d ++ [stream_slice c (read_head (receive_buffer s)) (read_head b)] |> in
    deliver_loop (S (length (received_ranges (receive_buffer s)))) s a = (Ok s', a <| questions := n |>)
    ∧ buf_ok b c ∧ read_head (receive_buffer s) < read_head b ∧ ¬ covers (received_ranges b) (read_head b) ∧ write_head b = write_head (receive_buffer s)
    ∧ (∀ x, covers (received_ranges (receive_buffer s)) x ↔ read_head (receive_buffer s) ≤ x < read_head b ∨ covers (received_ranges b) x).
Proof.
  intros B T C. destruct (read_run _ _ B C) as (b & E & B' & Hlt & Cp & W & N & Cv & _).
  assert (1 ≤ length (received_ranges (receive_buffer s)))%nat as Hl.
  { destruct (received_ranges _); [by apply covers_nil in C|cbn; lia]. }
  exists b. cbn [deliver_loop]. rewrite T. cbn [negb]. set (s1 := s <| receive_buffer := b |> <| app_data ::= _ |>).
  destruct (deliver_nothing c s1 (length (received_ranges (receive_buffer s))) (a <| questions ::= Datatypes.S |>)) as (n & E'); [exact B'|exact N|done|].
  exists n. cbv zeta. split; [|done]. erewrite act_bind_ok by reflexivity. rewrite ready. cbn [negb].
  rewrite E. erewrite act_bind_ok by reflexivity. exact E'.
Qed.
End ready.

(** ** The first frame of a stream *)

Lemma overwritten_slice c data : stream_slice (overwrite c 0 data) 0 (len data) = data.
Proof.
  apply list_eq. intros i. destruct (decide (i < length data)%nat) as [Hi|Hi].
  - rewrite stream_slice_lookup by (unfold len; lia). unfold overwrite.
    rewrite decide_True by (unfold len; lia). destruct (lookup_lt_is_Some_2 data i Hi) as [x Hx].
    rewrite Hx. f_equal. apply list_lookup_total_correct. rewrite <- Hx. f_equal. lia.
  - rewrite (lookup_ge_None_2 data) by lia. apply lookup_ge_None_2. pose proof (len_nonneg data).
    pose proof (len_stream_slice (overwrite c 0 data) 0 (len data)). unfold len in *. lia.
Qed.

Lemma fresh_write w data :
  0 < len data ≤ w → w < 2 ^ 64 →
  ∃ added b, write_stream_data 0 data (new_buffer w) = Ok (Some added, b) ∧ 0 ≤ added ∧ buf_ok b (overwrite (λ _, 0) 0 data)
    ∧ read_head b = 0 ∧ write_head b = len data ∧ ∀ x, covers (received_ranges b) x ↔ 0 ≤ x < len data.
Proof.
  intros Hl Hw. assert (data ≠ []) as Hd by (intros ->; change (0 < 0 ≤ w) in Hl; lia).
  destruct (write_fits (new_buffer w) (λ _, 0) 0 data) as (b & E & B & R & _ & W & C); [apply buf_ok_new; lia|cbn; lia|done|done|cbn; lia|].
  eexists _, b. split_and!; [| |exact B|exact R| |].
  - unfold write_stream_data. change (0 <? read_head (new_buffer w)) with false. cbv beta iota.
    destruct (Z.eqb_spec (len data) 0); [lia|]. exact E.
  - destruct (total_bound (read_head b) (write_head b) (received_ranges b)) as [? _]; [apply B..|]. change (0 ≤ RangeFacts.total (received_ranges b) - 0). lia.
  - rewrite W. cbn. lia.
  - intros x. rewrite C. cbn. rewrite covers_nil. naive_solver lia.
Qed.

Section reopen.
Context `{BC : BytesCrate} `{HK : Hkdf} `{AE : Aead} `{CC : ChaCha20} `{LM : Libm} `{EV : Env}.
Context `{SH : Sha256} `{ED : Ed25519} `{XD : X25519}.
Context (ready : ∀ n, channel_ready n = true).

(** A stream that has been given this to hand to its application. *)
Definition handed (id : Z) (chunks : list bytes) (a : Actor) : Prop :=
  app_data <$> streams (conn a) !! id = Some chunks.
#[local] Instance handed_view id chunks : StreamView (handed id chunks).
Proof.
  intros a a' [= Es _ _ _ _] H. unfold handed in *. rewrite <- H.
  assert (unsignalled (streams (conn a')) !! id = unsignalled (streams (conn a)) !! id) as E by (by rewrite Es).
  unfold unsignalled in E. rewrite !lookup_fmap in E.
  destruct (streams (conn a') !! id) as [s'|], (streams (conn a) !! id) as [s|]; try done.
  apply (inj Some (s' <| window_opened := false |>) (s <| window_opened := false |>)) in E. cbn. f_equal. exact (f_equal app_data E).
Qed.
#[local] Hint Resolve handed_view : preserves.

(** A stream whose first bytes have arrived and that its application has not seen. *)
Definition first_bytes (data : bytes) (s : StreamState) : Prop :=
  (app_tx s, final_rx_offset s, app_data s) = (true, None, []) ∧ 0 ≤ buffered_bytes s
  ∧ buf_ok (receive_buffer s) (overwrite (λ _, 0) 0 data) ∧ read_head (receive_buffer s) = 0
  ∧ ∀ x, covers (received_ranges (receive_buffer s)) x ↔ 0 ≤ x < len data.

(** They go straight to the application. *)
Lemma forward_first id data s a :
  streams (conn a) !! id = Some s → first_bytes data s → 0 < len data →
  ∃ a', forward_stream_data id 0 a = (Ok tt, a') ∧ handed id [data] a' ∧ incoming_streams a' = incoming_streams a.
Proof.
  intros Hs ([= T F D] & Hb & B & R & C) Hl. unfold forward_stream_data. erewrite act_bind_ok by reflexivity. rewrite Hs.
  rewrite Z.min_l by lia. cbv zeta. set (s0 := consume 0 s).
  destruct (deliver_loop_ready ready (overwrite (λ _, 0) 0 data) s0 a) as (b & n & E & _ & Hlt & N & _ & Cv);
    [exact B|exact T|apply C; change (0 ≤ read_head (receive_buffer s) < len data); lia|].
  change (read_head (receive_buffer s0)) with (read_head (receive_buffer s)) in *. rewrite R in *.
  assert (read_head b = len data) as Rb.
  { assert (∀ x, 0 ≤ x < len data ↔ 0 ≤ x < read_head b ∨ covers (received_ranges b) x) as H by (intros x; by rewrite <- C, <- Cv).
    destruct (Z.lt_trichotomy (read_head b) (len data)) as [H1|[H1|H1]]; [|done|specialize (H (len data)); lia].
    destruct (proj1 (H (read_head b))) as [?|?]; [lia|lia|done]. }
  rewrite (act_bind_ok _ _ _ _ _ E). clear E. rewrite Rb, overwritten_slice. set (s1 := s0 <| receive_buffer := b |> <| app_data ::= _ |>).
  assert (finish_stream s1 = s1) as -> by (unfold finish_stream; change (final_rx_offset s1) with (final_rx_offset s); by rewrite F).
  erewrite act_bind_ok by reflexivity. cbv beta iota. do 3 erewrite act_bind_ok by reflexivity. set (a1 := a <| questions := n |>).
  assert (streams (conn (a1 <| conn ::= λ c, c <| streams ::= alter (λ _, s1) id |> |>)) !! id = Some s1) as H1.
  { change (alter (λ _, s1) id (streams (conn a)) !! id = Some s1). by rewrite lookup_alter_eq, Hs. }
  rewrite H1. eexists. split; [reflexivity|]. split; [|done]. unfold handed. rewrite H1.
  change (Some (app_data s ++ [data]) = Some [data]). by rewrite D.
Qed.

(** Acknowledgements do not concern the streams the application is told of. *)
Lemma flush_acks_incoming l : preserves (λ a, incoming_streams a = l) flush_acks.
Proof.
  unfold flush_acks, refresh_local_window, now. walk; try done.
  - intros a Ha. unfold sendmsg_vectored. destruct (_ <=? _); [done|]. destruct (_ && _ && _); [done|]. by destruct (socket_send _ _ _) as [[]|].
  - intros a Ha. unfold note_packet_sent. destruct (negb _); [done|]. destruct (crypto (conn a)); [|done]. by destruct (_ <=? _).
Qed.

Lemma acks_told id chunks l : preserves (λ a, handed id chunks a ∧ incoming_streams a = l) (count_ack;; flush_if_due).
Proof.
  assert (preserves (λ a, handed id chunks a ∧ incoming_streams a = l) flush_acks).
  { intros a [H1 H2]. split; [by apply (quiet_flush_acks (handed id chunks))|by apply flush_acks_incoming]. }
  unfold count_ack, flush_if_due. walk. done.
Qed.

(** Data for a stream that was just made. *)
Lemma receive_first id ty w tw t data a :
  streams (conn a) !! id = Some (new_stream ty w tw t) → 0 < len data ≤ w → w < 2 ^ 63 →
  total_allocated_buffer_size (conn a) + w ≤ max_connection_buffer (config a) →
  let a' := (receive_stream_data id 0 data ty a).2 in handed id [data] a' ∧ incoming_streams a' = incoming_streams a.
Proof.
  intros Hs Hl Hw Hm. unfold receive_stream_data. erewrite act_bind_ok by reflexivity. rewrite Hs.
  rewrite bool_decide_true by done. cbn [negb]. do 2 erewrite act_bind_ok by reflexivity.
  set (s0 := new_stream ty w tw t). change (window_size s0) with w.
  replace (max_connection_buffer (config a) <? sat_add 64 _ w) with false by (unfold sat_add; lia).
  rewrite andb_false_r. unfold checked_add. replace (0 + len data <? 2 ^ 64) with true by lia. cbn [ok_or].
  erewrite act_bind_ok by reflexivity. change (final_rx_offset s0) with (@None Z). cbv iota.
  erewrite act_bind_ok by reflexivity. change (receive_buffer s0) with (new_buffer w). change (read_head (new_buffer w)) with 0.
  replace (0 + len data <=? 0) with false by lia. change (expected_rx_offset s0) with 0.
  replace (sat_add 64 0 w <? 0 + len data) with false by (unfold sat_add, u_max; lia).
  destruct (fresh_write w data) as (added & b & -> & Ha & B & R & W & C); [lia|lia|]. erewrite act_bind_ok by reflexivity. cbv beta iota.
  erewrite act_bind_ok by reflexivity. set (a1 := _ <| conn ::= _ |>).
  set (s1 := s0 <| highest_rx_offset ::= Z.max (0 + len data) |> <| receive_buffer := b |> <| buffered_bytes ::= λ n, sat_add 64 n added |>).
  assert (streams (conn a1) !! id = Some s1) as H1.
  { change (alter (λ s, s <| receive_buffer := b |> <| buffered_bytes ::= λ n, sat_add 64 n added |>) id
      (alter (λ s, s <| highest_rx_offset ::= Z.max (0 + len data) |>) id (streams (conn a))) !! id = Some s1).
    by rewrite !lookup_alter_eq, Hs. }
  destruct (forward_first id data s1 a1 H1) as (a2 & E & Hd & Hi); [|lia|].
  - split_and!; [done| |done|done|done]. change (0 ≤ sat_add 64 0 added). unfold sat_add, u_max. lia.
  - rewrite (act_bind_ok _ _ _ _ _ E). by apply acks_told.
Qed.

(** A new stream takes no memory yet. *)
Lemma allocated_insert id ty w tw t c :
  streams c !! id = None →
  total_allocated_buffer_size (c <| streams ::= <[id := new_stream ty w tw t]> |>) = total_allocated_buffer_size c.
Proof.
  intros Hn. unfold total_allocated_buffer_size. f_equal.
  change (streams (c <| streams ::= _ |>)) with (<[id := new_stream ty w tw t]> (streams c)).
  unfold sum_streams. rewrite map_fold_insert_L; [done|intros; lia|done].
Qed.

(** Where the actor takes another stream of its peer. *)
Definition takes_stream (id size : Z) (a : Actor) : Prop :=
  let w := cfg_initial_stream_window (config a) in
  id mod 2 = peer_parity a ∧ peer_streams a < local_max_streams (conn a)
  ∧ 0 < size ≤ w ∧ w < 2 ^ 63 ∧ total_allocated_buffer_size (conn a) + w ≤ max_connection_buffer (config a).

Lemma frame_opens id ty data from a :
  streams (conn a) !! id = None → ty ≠ UnidirectionalIn → takes_stream id (len data) a →
  let a' := (handle_frame (Frame.Stream id ty 0 data) from a).2 in
  handed id [data] a' ∧ incoming_streams a' = incoming_streams a ++ [id].
Proof.
  intros Hn Ht (Hp & Hc & Hl & Hw & Hm). cbn [handle_frame]. unfold handle_stream.
  assert (∃ lt, for_peer ty = Some lt) as [lt ->] by (destruct ty; [by eexists..|done]). cbn [ok_or].
  do 2 erewrite act_bind_ok by reflexivity. rewrite Hn, bool_decide_false by (by intros []). cbn [negb act_when].
  set (w := cfg_initial_stream_window (config a)) in *.
  set (s0 := new_stream lt w (peer_initial_stream_window (conn a)) (clock (questions a))).
  set (a1 := a <| questions ::= λ n, S (S n) |> <| conn ::= λ c, c <| streams ::= <[id := s0]> |> |> <| incoming_streams ::= λ l, l ++ [id] |>).
  rewrite (act_bind_ok (open_peer_stream id lt) _ a tt a1).
  - assert (streams (conn a1) !! id = Some s0) as H1 by (exact (lookup_insert_eq (streams (conn a)) id s0)).
    apply (receive_first id lt w _ _ data a1 H1 Hl Hw).
    change (total_allocated_buffer_size ((conn a) <| streams ::= <[id := s0]> |>) + w ≤ max_connection_buffer (config a)).
    unfold s0. by rewrite allocated_insert.
  - unfold open_peer_stream. erewrite act_bind_ok by reflexivity. cbv zeta. unfold peer_parity in Hp.
    replace (negb _) with false by (symmetry; apply negb_false_iff, Z.eqb_eq; exact Hp). do 2 erewrite act_bind_ok by reflexivity.
    replace (_ <=? _) with false by (symmetry; apply Z.leb_gt; exact Hc). do 4 erewrite act_bind_ok by reflexivity.
    erewrite act_bind_ok by reflexivity. by rewrite ready.
Qed.

(** ** Closing *)

Definition without (id : Z) (a : Actor) : Prop := streams (conn a) !! id = None.
#[local] Instance without_view id : StreamView (without id).
Proof.
  intros a a' [= Es _ _ _ _] H. unfold without in *.
  assert (unsignalled (streams (conn a')) !! id = unsignalled (streams (conn a)) !! id) as E by (by rewrite Es).
  unfold unsignalled in E. rewrite !lookup_fmap, H in E. by destruct (streams (conn a') !! id).
Qed.
#[local] Hint Resolve without_view : preserves.

(** The application closes a stream: the actor has none with its id any more. *)
Lemma close_forgets id tm : reaches (λ _, True) (without id) (turn (Message (ActorMessage.CloseStream id)) tm).
Proof.
  unfold turn. apply reaches_bind_post; [|intros [[flow tm'] reply]; unfold after_event, update_rto_timer, now; quiet].
  cbn [on_event on_message]. do 3 (apply reaches_bind_pre; [done|intros ?]).
  apply reaches_bind_post; [|intros _; unfold paced, reset_pacing, now; quiet].
  intros a u a' _ [= _ <-]. exact (lookup_delete_eq (streams (conn a)) id).
Qed.
End reopen.

(** C31: A closed stream comes back.  The application of an actor closes a stream its peer had opened, and the
    actor's turn succeeds.  When a frame with the first bytes of that stream arrives afterwards, as it does when the peer
    retransmits it because the acknowledgement was lost, and the actor has room for a stream, then the application is told of a new
    incoming stream with the same id, and is given those bytes, whether it has had them before or not: the actor
    keeps no record of the ids that were in use. *)
Theorem closed_stream_reopens `{BC : BytesCrate} `{HK : Hkdf} `{AE : Aead} `{CC : ChaCha20} `{LM : Libm} `{EV : Env}
    `{SH : Sha256} `{ED : Ed25519} `{XD : X25519} (id : Z) (ty : StreamType) (data : bytes) (from : SocketAddr) (tm : Timers)
    (a a1 : Actor) (r : option Timers * option Reply) :
  (∀ n, channel_ready n = true) →
  turn (Message (ActorMessage.CloseStream id)) tm a = (Ok r, a1) →
  ty ≠ UnidirectionalIn → takes_stream id (len data) a1 →
  let a2 := (handle_frame (Frame.Stream id ty 0 data) from a1).2 in
  app_data <$> streams (conn a2) !! id = Some [data] ∧ incoming_streams a2 = incoming_streams a1 ++ [id].
Proof. intros Hr Hc Ht Hs. apply frame_opens; [done| |done..]. by eapply (close_forgets id tm). Qed.

(** The data was delivered before, and is delivered again. *)

#[local] Existing Instances bytes_model CryptoFacts.hkdf_model CryptoFacts.aead_model chacha20_model libm_model env_model.
#[local] Existing Instances sha256_model ed25519_model x25519_model.

Definition repeated_frame : Frame.t := Frame.Stream 2 Bidirectional 0 [104; 105].
Definition delivered_once : Actor := (handle_frame repeated_frame sample_addr (sample_end false)).2.
Definition closed_once : res (option Timers * option Reply) * Actor :=
  turn (Message (ActorMessage.CloseStream 2)) (mkTimers 0 0 0 0 0 0) delivered_once.
Definition delivered_twice : Actor := (handle_frame repeated_frame sample_addr closed_once.2).2.

Lemma closed_stream_reopens_witness :
  app_data <$> streams (conn delivered_once) !! 2 = Some [[104; 105]] ∧ incoming_streams delivered_once = [2]
  ∧ streams (conn closed_once.2) !! 2 = None
  ∧ app_data <$> streams (conn delivered_twice) !! 2 = Some [[104; 105]] ∧ incoming_streams delivered_twice = [2; 2].
Proof.
  split; [vm_compute; reflexivity|]. split; [vm_compute; reflexivity|]. split; [vm_compute; reflexivity|].
  assert (is_ok closed_once.1 = true) as Hok by (vm_compute; reflexivity).
  destruct (closed_once.1) as [r|e|] eqn:Er; [|discriminate Hok..].
  destruct (closed_stream_reopens 2 Bidirectional [104; 105] sample_addr (mkTimers 0 0 0 0 0 0) delivered_once closed_once.2 r) as [H1 H2].
  - reflexivity.
  - rewrite <- Er. apply surjective_pairing.
  - discriminate.
  - unfold takes_stream. closed.
  - split; [exact H1|]. etrans; [exact H2|vm_compute; reflexivity].
Defined.
