(* ===== verification/SoundStreams.v ===== *)
(** * Receiving into a sound state

    The receive side of streams: data of any contents, at any offset, is buffered, delivered or
    refused, and the receive buffers stay in shape. *)

From stdpp Require Import strings.
From S2P Require Import Prelude Errors Effects Buf Config StreamType Frames FrameFacts Packet PacketFacts.
From S2P Require Import HeaderProtection Unacked StreamBuffer RangeFacts BufferFacts BufferProps Cookie KeyDerivation.
From S2P Require Import CryptoContext Float Congestion CongestionFacts Termination Connection AckHandling ConnFrame Actor ActFacts.
From S2P Require Import PacketSender Retransmit HandshakeHandler IncomingHandler EventLoop StreamView.
From S2P Require Import WireSafety SoundState SoundConn SoundSends StreamDelivery.

(** ** Buffers *)

(** A buffer whose window ends past [u64::MAX] refuses everything ahead of its read head. *)
Lemma write_beyond b c off data :
  buf_ok b c → read_head b < 2 ^ 64 → capacity b < 2 ^ 64 → 2 ^ 64 ≤ read_head b + capacity b → read_head b ≤ off → data ≠ [] →
  write off data b = Ok (None, b).
Proof.
  intros B Hr Hc Hb Ho Hd. assert (1 ≤ len data) by (destruct data; [done|len_lia]). unfold write.
  replace (len data =? 0) with false by lia. unfold checked_add. destruct (off + len data <? 2 ^ 64); [|done].
  pose proof (bo_heads _ _ B). assert (wrap 64 (read_head b + capacity b) = read_head b + capacity b - 2 ^ 64) as ->.
  { unfold wrap. symmetry. apply (Z.mod_unique_pos _ _ 1); lia. }
  replace (_ <? off + len data) with true by lia. done.
Qed.

Lemma write_in_shape b c off data :
  buf_ok b c → write_head b < 2 ^ 64 → capacity b < 2 ^ 64 → read_head b ≤ off → off + len data < 2 ^ 64 → data ≠ [] →
  ∃ o b' c', write off data b = Ok (o, b') ∧ buf_ok b' c' ∧ write_head b' < 2 ^ 64 ∧ capacity b' = capacity b.
Proof.
  intros B Hw Hc Ho He Hd. pose proof (bo_heads _ _ B).
  destruct (decide (read_head b + capacity b < 2 ^ 64)); [|rewrite (write_beyond b c) by (done || lia); by eexists _, b, c].
  destruct (decide (off + len data ≤ read_head b + capacity b)).
  - destruct (write_fits b c off data) as (b' & E & B' & _ & C' & W' & _); [done..|].
    eexists _, b', _. split; [exact E|]. split_and!; [done|lia|done].
  - rewrite (write_refused b c) by (done || lia). by eexists _, b, c.
Qed.

(** The data of a frame that is not all old. *)
Lemma write_stream_in_shape b c off data :
  buf_ok b c → write_head b < 2 ^ 64 → capacity b < 2 ^ 64 → 0 ≤ off → off + len data < 2 ^ 64 →
  read_head b < off + len data →
  ∃ o b' c', write_stream_data off data b = Ok (o, b') ∧ buf_ok b' c' ∧ write_head b' < 2 ^ 64 ∧ capacity b' = capacity b.
Proof.
  intros B Hw Hc Ho He Hr. unfold write_stream_data. destruct (Z.ltb_spec off (read_head b)) as [Hlt|Hge].
  - assert (len (drop (Z.to_nat (read_head b - off)) data) = off + len data - read_head b) as L by len_lia.
    rewrite L. replace (_ =? 0) with false by lia. cbn [negb]. apply (write_in_shape b c); [done|done|done|lia|lia|].
    intros E. rewrite E, len_nil in L. lia.
  - destruct (Z.eqb_spec (len data) 0) as [|N]; cbn [negb]; [by eexists _, b, c|].
    apply (write_in_shape b c); [done..|]. intros ->. done.
Qed.

Section streams.
Context `{BC : BytesCrate} {BL : BytesLaws} `{HK : Hkdf} `{AE : Aead} {AL : AeadLaws} {AY : AeadTyped}.
Context `{CC : ChaCha20} {KT : KeystreamTotal} {KY : KeystreamTyped} `{LM : Libm} `{EV : Env} {ET : EnvTyped}.
Context `{SH : Sha256} {SL : Sha256Laws} `{ED : Ed25519} {EL : Ed25519Laws} `{XD : X25519}.
Context `{LG : Ledger} (P : Prop) (client : bool) (top : Z).
Abbreviation sound := (sound client top).
Abbreviation safe m := (runs P sound m (λ _, True)).
Abbreviation safely x := (ends P sound (λ _, True) x).

Lemma sound_streams a m :
  sound a → map_Forall (stream_sound top) m → sound (a <| conn ::= λ c, c <| streams := m |> |>).
Proof. intros Sa M. apply (sound_conn client top a); [done|]. destruct (so_conn _ _ _ Sa). by split. Qed.

Lemma alter_sound f id (m : gmap Z StreamState) :
  (∀ s, m !! id = Some s → stream_sound top id (f s)) → map_Forall (stream_sound top) m →
  map_Forall (stream_sound top) (alter f id m).
Proof.
  intros H M j s. destruct (decide (j = id)) as [->|]; [|rewrite lookup_alter_ne by done; apply M].
  rewrite lookup_alter_eq, fmap_Some. intros (s0 & E & ->). by apply H.
Qed.

(** A write to one stream. *)
Lemma ends_on_stream id f a :
  sound a → (∀ s, streams (conn a) !! id = Some s → stream_sound top id (f s)) → safely (on_stream id f a).
Proof.
  intros Sa H. split; [|done]. apply (sound_streams a (alter f id (streams (conn a)))); [done|].
  apply alter_sound; [done|apply (so_conn _ _ _ Sa)].
Qed.
Lemma runs_on_stream id f : (∀ s, same_buffer s (f s)) → safe (on_stream id f).
Proof.
  intros H a Sa. apply ends_on_stream; [done|]. intros s Hs. eapply stream_sound_same; [apply H|].
  by apply (cs_streams _ _ _ (so_conn _ _ _ Sa) id).
Qed.
#[local] Hint Resolve runs_on_stream : runs.

Lemma runs_close_with {A} msg (Q : A → Prop) : runs P sound (close_with msg : act A) Q.
Proof. unfold close_with. secure. Qed.

Lemma runs_delete_stream id : safe (on_conn (λ c, c <| streams ::= delete id |>)).
Proof.
  intros a Sa. split; [|done]. apply (sound_streams a (delete id (streams (conn a)))); [done|].
  apply map_Forall_delete, (so_conn _ _ _ Sa).
Qed.

(** ** Delivery *)

Lemma ends_scale_up id cur w a :
  sound a → (∀ s, streams (conn a) !! id = Some s → window_size s ≤ w) → w ≤ top → safely (scale_up id cur w a).
Proof.
  intros Sa Hw Ht. unfold scale_up. do 2 erewrite act_bind_ok by reflexivity. destruct (_ <=? _); [|done].
  erewrite act_bind_ok by reflexivity. destruct (streams (conn a) !! id) as [s|] eqn:Hs; [|done]. specialize (Hw s eq_refl).
  destruct (cs_streams _ _ _ (so_conn _ _ _ Sa) id s Hs) as (c & B & W & Cp & Wm & N).
  destruct (resize_spec _ _ w B) as (b' & -> & B' & R' & G' & C' & W'); [lia|lia|].
  erewrite act_bind_ok by reflexivity. apply ends_on_stream; [done|]. intros s' Hs'. rewrite Hs in Hs'. injection Hs' as <-.
  exists c. split; [exact B'|]. split; [|exact (conj C' (conj Ht N))]. change (write_head b' < 2 ^ 64). lia.
Qed.

Lemma same_rx_buffer s s' : same_rx s s' → next_tx_offset s' = next_tx_offset s → same_buffer s s'.
Proof. by intros (? & ? & _). Qed.

Lemma sound_questions a n : sound a → sound (a <| questions := n |>).
Proof. by apply (sound_view client top a). Qed.

(** The larger window is announced to the peer. *)
Lemma runs_announce id consumed :
  safe (stream ← gets (λ a, streams (conn a) !! id);
    match stream with
    | None => skip
    | Some s =>
        let max_data := wrap 64 (expected_rx_offset s + window_size s) in
        if (0 <? consumed) && (window_size s / 4 <=? sat_sub max_data (last_sent_max_data s)) then
          on_stream id (λ s, s <| last_sent_max_data := max_data |>);;
          retransmit_payload (UnackedPayload.MaxStreamData id max_data) 0
        else skip
    end).
Proof. secure. eapply runs_then; [by apply runs_on_stream|intros _]. secure. Qed.

Lemma runs_forward id n : safe (forward_stream_data id n).
Proof.
  intros a Sa. unfold forward_stream_data. erewrite act_bind_ok by reflexivity.
  destruct (streams (conn a) !! id) as [s|] eqn:Hs; [|done]. set (consumed := Z.min n (buffered_bytes s)). clearbody consumed. cbv zeta.
  destruct (cs_streams _ _ _ (so_conn _ _ _ Sa) id s Hs) as (c & B & W & Cp & Wm & N).
  destruct (deliver_loop_spec c (consume consumed s) a B) as (s1 & n1 & E1 & B1 & _ & W1 & C1 & Ws1 & N1 & _).
  rewrite (act_bind_ok _ _ _ _ _ E1). clear E1. set (a1 := a <| questions := n1 |>).
  assert (stream_sound top id s1) as S1.
  { exists c. change (write_head (receive_buffer (consume consumed s))) with (write_head (receive_buffer s)) in W1.
    change (capacity (receive_buffer (consume consumed s))) with (capacity (receive_buffer s)) in C1.
    change (window_size (consume consumed s)) with (window_size s) in Ws1. split_and!; [done|lia|lia|lia|].
    by rewrite N1. }
  assert (stream_sound top id (finish_stream s1)) as S2.
  { eapply stream_sound_same; [apply same_rx_buffer; [apply finish_same|apply finish_offset]|done]. }
  set (s2 := finish_stream s1) in *. clearbody s2.
  destruct (autotune_spec consumed s2 a1) as (s3 & g & a2 & E2 & S3 & N3 & _ & _ & (n2 & ->) & Hg).
  rewrite (act_bind_ok _ _ _ _ _ E2). clear E2. cbv beta iota. set (a2 := a1 <| questions := n2 |>).
  assert (stream_sound top id s3) as S3' by (eapply stream_sound_same; [by apply same_rx_buffer|done]).
  assert (sound a2) as Sa2 by (by repeat apply sound_questions).
  eapply ends_bind; [apply (ends_on_stream id (λ _, s3) a2 Sa2); done|]. intros [] a3 E3 Sa3 _.
  assert (streams (conn a3) !! id = Some s3) as Hs3.
  { injection E3 as <-. change (alter (λ _, s3) id (streams (conn a)) !! id = Some s3). by rewrite lookup_alter_eq, Hs. }
  clear E3. eapply ends_bind; [|intros x a4 _ Sa4 _].
  - instantiate (1 := λ _, True). destruct g as [w|]; [|done]. destruct (Hg w eq_refl) as [H1 H2].
    apply ends_scale_up; [done| |].
    + intros s' Hs'. rewrite Hs3 in Hs'. injection Hs' as <-. destruct S3 as (_ & -> & _). lia.
    + destruct (so_window _ _ _ Sa) as [_ Hm]. change (config a1) with (config a) in H2. lia.
  - exact (runs_announce id consumed a4 Sa4).
Qed.
#[local] Hint Resolve runs_forward runs_close_with : runs.

(** ** Data *)

Lemma runs_count_ack : safe count_ack.
Proof. by apply runs_quiet. Qed.
#[local] Hint Resolve runs_count_ack : runs.
Lemma runs_flush_if_due : safe flush_if_due.
Proof. unfold flush_if_due. secure. Qed.
#[local] Hint Resolve runs_flush_if_due : runs.

Lemma sound_capacity id s : stream_sound top id s → top < 2 ^ 64 → capacity (receive_buffer s) < 2 ^ 64.
Proof. intros (c & _ & _ & ? & ? & _) ?. lia. Qed.

(** Storing the buffer a write left. *)
Lemma ends_store id b c f a s :
  sound a → streams (conn a) !! id = Some s → buf_ok b c → write_head b < 2 ^ 64 → capacity b = capacity (receive_buffer s) →
  (∀ s, receive_buffer (f s) = b ∧ window_size (f s) = window_size s ∧ next_tx_offset (f s) = next_tx_offset s) → safely (on_stream id f a).
Proof.
  intros Sa Hs B W Cp Hf. apply ends_on_stream; [done|]. intros s' Hs'. rewrite Hs in Hs'. injection Hs' as <-.
  destruct (cs_streams _ _ _ (so_conn _ _ _ Sa) id s Hs) as (_ & _ & _ & Cp' & Wm & N). destruct (Hf s) as (E1 & E2 & E3).
  exists c. rewrite E1, E2, E3. split_and!; [done|done|congruence|done|done].
Qed.

Lemma runs_receive id offset data ty : 0 ≤ offset → safe (receive_stream_data id offset data ty).
Proof.
  intros Ho a Sa. unfold receive_stream_data. erewrite act_bind_ok by reflexivity.
  destruct (streams (conn a) !! id) as [s|] eqn:Hs; [|done].
  destruct (negb _); [by apply runs_close_with|]. do 2 erewrite act_bind_ok by reflexivity.
  destruct (_ && _); [by apply runs_close_with|]. unfold checked_add. destruct (Z.ltb_spec (offset + len data) (2 ^ 64)) as [He|]; [|done].
  cbn [ok_or]. erewrite act_bind_ok by reflexivity.
  destruct (match final_rx_offset s with Some _ => _ | None => _ end); [by apply runs_close_with|].
  eapply ends_bind; [by apply (runs_on_stream id (λ s, s <| highest_rx_offset ::= Z.max (offset + len data) |>))|].
  intros [] a1 E1 Sa1 _. set (s1 := s <| highest_rx_offset ::= Z.max (offset + len data) |>).
  assert (streams (conn a1) !! id = Some s1) as Hs1.
  { injection E1 as <-. change (alter (λ s, s <| highest_rx_offset ::= Z.max (offset + len data) |>) id (streams (conn a)) !! id = Some s1).
    by rewrite lookup_alter_eq, Hs. }
  clear E1. destruct (Z.leb_spec (offset + len data) (read_head (receive_buffer s))) as [|Hnew]; [by apply runs_count_ack|].
  destruct (_ <? _); [by apply runs_close_with|].
  pose proof (cs_streams _ _ _ (so_conn _ _ _ Sa) id s Hs) as S. pose proof (sound_capacity id s S) as Hc.
  destruct S as (c & B & W & Cp & Wm & _), (so_window _ _ _ Sa) as [_ Ht].
  destruct (write_stream_in_shape (receive_buffer s) c offset data) as (o & b' & c' & -> & B' & W' & C'); [done|done|apply Hc; lia|done..|].
  erewrite act_bind_ok by reflexivity. cbv beta iota. destruct o as [added|].
  - eapply ends_bind; [by apply (ends_store id b' c' _ a1 s1)|]. intros [] a2 _ Sa2 _. revert a2 Sa2.
    change (safe (forward_stream_data id 0;; count_ack;; flush_if_due)). secure.
  - eapply ends_bind; [by apply (ends_store id b' c' _ a1 s1)|]. intros [] a2 _ Sa2 _. by apply runs_close_with.
Qed.
#[local] Hint Resolve runs_receive : runs.

Lemma new_stream_sound id ty rw tw t : at_end id 0 → 0 < rw ≤ top → stream_sound top id (new_stream ty rw tw t).
Proof. intros He Hw. exists (λ _, 0). cbn. split_and!; [apply buf_ok_new; lia|done|done|lia|exact He]. Qed.

Lemma runs_add_stream id ty rw tw t :
  at_end id 0 → 0 < rw ≤ top → safe (on_conn (λ c, c <| streams ::= <[id := new_stream ty rw tw t]> |>)).
Proof.
  intros He Hw a Sa. split; [|done]. apply (sound_streams a (<[id := new_stream ty rw tw t]> (streams (conn a)))); [done|].
  apply map_Forall_insert_2; [by apply new_stream_sound|apply (so_conn _ _ _ Sa)].
Qed.

Lemma sound_initial_window a : sound a → 0 < cfg_initial_stream_window (config a) ≤ top.
Proof. intros Sa. apply (so_window _ _ _ Sa). Qed.
#[local] Hint Resolve runs_add_stream sound_initial_window runs_delete_stream : runs.

Lemma runs_open_peer_stream id ty : safe (open_peer_stream id ty).
Proof.
  unfold open_peer_stream. apply runs_gets. intros a Sa. cbv zeta. destruct (negb _) eqn:Ep; [by apply runs_close_with|].
  assert (at_end id 0).
  { intros w Hl. destruct (so_ledger _ _ _ Sa id w Hl) as [Hi _]. assert (negb (id mod 2 =? (if client then 1 else 0)) = false) as E by by rewrite <- (so_client _ _ _ Sa).
    rewrite Hi in E. by destruct client. }
  secure.
Qed.
#[local] Hint Resolve runs_open_peer_stream : runs.

Lemma runs_handle_stream id ty offset data : 0 ≤ offset → safe (handle_stream id ty offset data).
Proof.
  intros Ho. unfold handle_stream. eapply (runs_bind _ _ _ _ (λ _, True)); [|intros lt _; secure].
  apply runs_lift. by destruct (for_peer ty).
Qed.
End streams.

#[export] Hint Resolve runs_close_with runs_delete_stream runs_forward runs_count_ack runs_flush_if_due
  sound_initial_window runs_handle_stream : runs.
#[export] Hint Resolve runs_add_stream | 10 : runs.
