(* ===== verification/SoundFrames.v ===== *)
(** * Received frames and packets in a sound state

    Every frame the decoder yields is handled without a panic and keeps the state sound, and
    so does every packet that carries frames or a response to the handshake. *)

From stdpp Require Import strings.
From Stdlib Require Import SpecFloat.
From S2P Require Import Prelude Errors Effects Buf Config StreamType Frames FrameFacts FrameProps Packet PacketFacts.
From S2P Require Import PacketNumber HeaderProtection Bitmap ReplayWindow AckTracker Unacked StreamBuffer BufferFacts Cookie KeyDerivation.
From S2P Require Import CryptoContext Float Congestion CongestionFacts Termination Connection AckHandling ConnFrame Actor ActFacts.
From S2P Require Import PacketSender Retransmit HandshakeHandler IncomingHandler EventLoop WireSafety SoundState SoundConn.
From S2P Require Import SoundSends SoundStreams.

Section frames.
Context `{BC : BytesCrate} {BL : BytesLaws} `{HK : Hkdf} `{AE : Aead} {AL : AeadLaws} {AY : AeadTyped}.
Context `{CC : ChaCha20} {KT : KeystreamTotal} {KY : KeystreamTyped} `{LM : Libm} `{EV : Env} {ET : EnvTyped}.
Context `{SH : Sha256} {SL : Sha256Laws} `{ED : Ed25519} {EL : Ed25519Laws} `{XD : X25519}.
Context `{LG : Ledger} (P : Prop) (client : bool) (top : Z).
Abbreviation sound := (sound client top).
Abbreviation conn_sound := (conn_sound client top).
Abbreviation safe m := (runs P sound m (λ _, True)).

(** ** Frames *)

Lemma runs_ack_frame la ws d rs : 0 ≤ d → safe (handle_ack_frame la ws d rs).
Proof.
  intros Hd. unfold handle_ack_frame. apply runs_gets. intros a Sa. destruct (_ || _); [by apply runs_close_with|].
  eapply runs_bind; [apply runs_now|]. intros t Ht. eapply runs_bind; [apply runs_now|]. intros t' _.
  apply (runs_bind _ _ _ _ (Forall (λ x, payload_sound client x.1))); [|apply runs_retransmit_all].
  intros b Sb. pose proof (handle_ack_sound client top la ws d rs t t' (conn b) Ht Hd (so_conn _ _ _ Sb)) as H.
  destruct (handle_ack _ _ _ _ _ _ _) as [[l c]|e|]; cbn [yields fst snd] in H; [|done|done].
  split; [|apply H]. apply sound_conn; [done|apply H].
Qed.

(** Every stream's end, as the peer announced it. *)
Lemma conn_sound_streams c f :
  (∀ s, same_buffer s (f s)) → conn_sound c → conn_sound (c <| streams ::= fmap f |>).
Proof.
  intros H []. split; try done. intros id s Hs. change ((f <$> streams c) !! id = Some s) in Hs. apply lookup_fmap_Some in Hs as (s0 & <- & Hs).
  eapply stream_sound_same; [apply H|]. by apply (cs_streams id).
Qed.
Lemma runs_peer_closed reason : safe (peer_closed reason).
Proof.
  apply runs_on_conn. intros c C. apply sound_signal.
  apply (conn_view client top (c <| streams ::= fmap (λ s, s <| stream_termination ::= termination_set reason |>) |>)); [done|].
  by apply conn_sound_streams.
Qed.

#[local] Hint Resolve runs_ack_frame runs_peer_closed runs_reset_stream runs_send_frame_immediate runs_on_stream : runs.

Lemma runs_stream_close_frame id n : safe (handle_stream_close id n).
Proof. unfold handle_stream_close. secure. eapply runs_then; [by apply runs_on_stream|intros _]. secure. Qed.

Lemma runs_path_response d from : safe (handle_path_response d from).
Proof.
  apply runs_modify. intros a Sa. cbn beta. destruct (_ && _); [|done]. destruct Sa. split; try done. by apply (conn_view client top (conn a)).
Qed.

Lemma runs_reset_frame id e n : safe (handle_reset_stream id e n).
Proof.
  unfold handle_reset_stream. secure. by apply runs_on_stream.
Qed.

Lemma same_raised n s : same_buffer s (raise_stream_window n s).
Proof. unfold raise_stream_window. cbv zeta. by destruct (_ <? _). Qed.
Lemma sound_raise_window n c : conn_sound c → conn_sound (raise_window n c).
Proof.
  intros C. unfold raise_window. cbv zeta. assert (conn_sound (c <| remote_window := sat_sub n (conn_tx_offset c) |>)) by by apply (conn_view client top c).
  destruct (_ <? _); [by apply sound_signal|done].
Qed.
Lemma sound_raise_streams n c : conn_sound c → conn_sound (raise_streams n c).
Proof. intros C. unfold raise_streams. destruct (_ <? _); [|done]. apply sound_signal. by apply (conn_view client top c). Qed.

Lemma array_blob n d : array_ok n d → n < 2 ^ 60 → blob d.
Proof. intros H ?. eapply wire_blob_le; [by apply wire_array|done]. Qed.

Lemma runs_handle_frame f from : frame_typed f → safe (handle_frame f from).
Proof.
  intros T. destruct f; cbn [handle_frame frame_typed] in *; unfold_handle_frame; try by apply runs_skip.
  - destruct T as (_ & [? _] & _). by apply runs_handle_stream.
  - destruct T as (_ & _ & [? _] & _). by apply runs_ack_frame.
  - apply runs_peer_closed.
  - apply runs_stream_close_frame.
  - apply runs_on_stream. intros s. apply same_raised.
  - apply runs_on_conn, sound_raise_window.
  - secure.
  - assert (frame_blob (Frame.PathResponse data)) by (by eapply array_blob). secure.
  - apply runs_path_response.
  - apply runs_on_conn, sound_raise_streams.
  - secure.
  - apply runs_reset_frame.
  - eapply runs_then; [by apply runs_on_stream|intros _]. secure.
  - apply runs_peer_closed.
Qed.

Lemma runs_handle_frames fuel s from :
  bytes_ok s → u_ok 63 (len s) → (length s ≤ fuel)%nat → safe (handle_frames fuel s from).
Proof.
  revert s. induction fuel as [|fuel IH]; intros s B L F; cbn [handle_frames]; destruct (Z.eqb_spec (len s) 0) as [|N];
    try apply runs_skip. { unfold len in N. lia. }
  pose proof (decode_step s B L) as D. unfold rwp in D. destruct (Frame.decode s) as [[f|e|] s']; [|by apply runs_skip|done].
  destruct D as (T & _ & B' & L'). eapply runs_then; [by apply runs_handle_frame|intros _].
  apply IH; [done|unfold u_ok in *; pose proof (len_nonneg s'); lia|unfold len in *; lia].
Qed.

(** ** Packets *)

Lemma runs_check_path from : safe (check_path from).
Proof.
  unfold check_path. secure.
  assert (frame_blob (Frame.PathChallenge x)) by (by eapply array_blob).
  eapply runs_then; [|intros _; secure].
  apply runs_modify. intros b []. split; try done. by intros t [= <-].
Qed.

Lemma runs_decrypt header choice k aad payload tag :
  bytes_ok payload →
  runs P sound (decrypt_payload header choice k aad payload tag) (λ pt, bytes_ok pt ∧ length pt = length payload).
Proof.
  intros B. unfold decrypt_payload. destruct choice; [by apply runs_lift, yields_weaken, decrypt_safe..|].
  eapply runs_bind; [by apply runs_lift, yields_weaken, trial_safe|]. intros [pt k'] H. secure.
Qed.

Lemma runs_mark pn t : safe (on_conn (conn_mark_processed pn t)).
Proof. apply runs_quiet_conn. intros c. unfold conn_mark_processed. by case_match. Qed.

(** A payload of the size of a datagram. *)
Definition small (payload : bytes) : Prop := bytes_ok payload ∧ len payload ≤ 65535.

Lemma runs_receive_protected header choice aad payload from :
  small payload → safe (receive_protected header choice aad payload from).
Proof.
  intros [B L]. unfold receive_protected. eapply runs_bind; [apply runs_crypto|]. intros k _. destruct (_ <? _); [by apply runs_skip|]. cbv zeta.
  eapply runs_bind; [apply runs_decrypt; by apply Forall_take|]. intros pt (Bp & Lp). rewrite length_take in Lp.
  eapply runs_then; [|intros _].
  { apply runs_modify. intros a Sa. destruct (_ && _); [|done]. by apply (sound_view client top a). }
  eapply runs_then; [apply runs_check_path|intros _]. eapply runs_bind; [apply runs_now|]. intros t _.
  eapply runs_then; [apply runs_mark|intros _]. apply runs_handle_frames; [done| |lia].
  unfold u_ok, len in *. lia.
Qed.

Lemma sound_establish a header shared remote from :
  sound a → cid_ok (PacketHeader.scid header) → sound (a <| conn ::= establish header shared remote from a |>).
Proof. intros Sa Hc. apply (sound_conn client top a); [done|]. destruct (so_conn _ _ _ Sa). by split. Qed.

Lemma runs_clear_window : safe (on_conn (λ c, c <| unacked_packets ::= Window.clear |>)).
Proof. apply runs_on_conn. intros c []. by split. Qed.

Lemma runs_handshake_response header payload aad from :
  cid_ok (PacketHeader.scid header) → small payload → safe (handle_handshake_response header payload aad from).
Proof.
  intros Hc [B L]. unfold handle_handshake_response. destruct (negb _); [apply runs_fail|]. cbv zeta. destruct (_ <? _); [by apply runs_skip|].
  eapply runs_bind; [apply runs_lift, yields_weaken, decrypt_safe; by apply Forall_take|]. intros pt (Bp & Lp). rewrite length_take in Lp.
  eapply runs_bind; [apply runs_lift, yields_weaken, read_response_safe; [done|unfold u_ok, len in *; lia|done]|]. intros r _.
  apply (runs_bind _ _ _ _ (λ _, True)); [apply runs_lift; by destruct (rs_handshake r)|]. intros [[[[pk epk] th] sg] al] _.
  apply (runs_bind _ _ _ _ (λ _, True)); [apply runs_lift; by destruct (rs_parameters r)|]. intros remote _.
  secure. apply (runs_bind _ _ _ _ (λ _, True)); [apply runs_lift; by destruct (ephemeral_secret _)|]. intros secret _.
  eapply runs_then; [|intros _]. { apply runs_modify. intros b Sb. by apply sound_establish. }
  eapply runs_bind; [apply runs_now|]. intros t _. eapply runs_then; [apply runs_mark|intros _].
  eapply runs_then; [apply runs_clear_window|intros _]. secure.
Qed.

Lemma runs_retry header payload from : client = true ∨ P → small payload → safe (handle_retry_packet header payload from).
Proof. intros Hc [B L]. apply runs_send_initial; [done|]. cbn. split; [done|lia]. Qed.
End frames.
