(* ===== verification/SoundRun.v ===== *)
(** * The life of a sound connection

    Whatever its peer sends and its application asks for, the actor of a connection stays
    sound, from the state [connect] or the server's handshake gave it. *)

From stdpp Require Import strings.
From Stdlib Require Import SpecFloat.
From S2P Require Import Prelude Errors Effects Buf Config StreamType Frames FrameFacts FrameProps Packet PacketFacts.
From S2P Require Import PacketNumber HeaderProtection Bitmap ReplayWindow AckTracker Unacked StreamBuffer BufferFacts Cookie KeyDerivation.
From S2P Require Import CryptoContext Float Congestion CongestionFacts Termination Connection AckHandling ConnFrame Actor ActFacts.
From S2P Require Import PacketSender Retransmit HandshakeHandler IncomingHandler EventLoop Endpoint ServerHandshake Router.
From S2P Require Import WireSafety SoundState SoundConn SoundSends SoundStreams SoundFrames.

(** What the language's types say of a message: bytes, and lengths an allocation can have. *)
Definition message_sound (m : ActorMessage.t) : Prop :=
  match m with
  | ActorMessage.IncomingPacket data _ => small data
  | ActorMessage.SetHandshakePacket data => len data < 2 ^ 63
  | ActorMessage.OutgoingData _ data | ActorMessage.CloseWithError _ data | ActorMessage.SendDatagram data => blob data
  | _ => True
  end.
Definition event_sound (ev : Event) : Prop :=
  match ev with Message m => message_sound m | _ => True end.

(** The message is no write to the stream of the ledger. *)
Definition writes_elsewhere `{Ledger} (ev : Event) : Prop :=
  match ev with Message (ActorMessage.OutgoingData id _) => ∀ w, ledger ≠ Some (id, w) | _ => True end.
Lemma elsewhere_none ev : writes_elsewhere (H := no_ledger) ev.
Proof. by destruct ev as [[]| | | | | | |]. Qed.

Section life.
Context `{HK : Hkdf}.
Context `{LM : Libm} `{ED : Ed25519} {EL : Ed25519Laws} `{XD : X25519} {XL : X25519Laws} `{LG : Ledger}.

(** Nothing was written yet. *)
Definition blank (client : bool) : Prop :=
  ∀ id w, ledger = Some (id, w) → id mod 2 = (if client then 0 else 1) ∧ w = [].
Lemma blank_next client n : blank client → ∀ id w, ledger = Some (id, w) → id mod 2 = (if client then 0 else 1) ∧ (n ≤ id → w = []).
Proof. intros H id w Hl. by destruct (H id w Hl). Qed.

(** ** The first state *)

Lemma new_conn_sound client top config to s d :
  config_valid config → cid_ok s → cid_ok d → conn_sound client top (new_with_config to s d config).
Proof.
  intros V Hs Hd. destruct (cv_mtu _ V) as (M1 & M2 & M3). split; try done; cbn; try lia. destruct (cc_algorithm config); cbn; lia.
Qed.

(** The bound on the window of a stream is the one of the configuration. *)
Lemma config_windows config :
  config_typed config → config_valid config →
  0 < cfg_initial_stream_window config ≤ max_stream_window config ∧ max_stream_window config ≤ max_stream_window config < 2 ^ 64.
Proof. intros T V. destruct (cv_window _ V). unfold config_typed, u_ok in T. destruct_and! T. lia. Qed.

Lemma client_actor_sound e to scid dcid secret :
  config_typed (ep_config e) → config_valid (ep_config e) → blob (ep_alpn e) → cid_ok scid → cid_ok dcid → blank true →
  sound true (max_stream_window (ep_config e)) (client_actor e to scid dcid secret).
Proof.
  intros T V Al Hs Hd Hb. split; try done.
  - split; [apply x_public_array|apply ed_public_array].
  - by apply config_windows.
  - by apply (blank_next true).
  - by apply new_conn_sound.
Qed.

Lemma accept_connection_sound config psk au from scid shared t :
  config_valid config → cid_ok scid → cid_ok (PacketHeader.scid (au_header au)) →
  yields False (accept_connection config psk au from scid shared t) (λ x, conn_sound false (max_stream_window config) x.2).
Proof.
  intros V Hs Hd. destruct (accept_connection _ _ _ _ _ _ _) as [[pn c]|e|] eqn:E; [|done|discriminate E].
  unfold accept_connection in E. cbv zeta in E. injection E as <- <-. cbn [yields snd].
  apply (conn_view false (max_stream_window config) (new_with_config from scid (PacketHeader.scid (au_header au)) config)); [|by apply new_conn_sound].
  unfold conn_mark_processed. by case_match.
Qed.

Lemma server_actor_sound e c scid :
  config_typed (ep_config e) → config_valid (ep_config e) → blob (ep_alpn e) → array_ok 32 (ep_public_key e) → blank false →
  conn_sound false (max_stream_window (ep_config e)) c →
  sound false (max_stream_window (ep_config e)) (server_actor e c scid).
Proof. intros T V Al Hk Hb C. split; try done; [split; [by intros []|done]|by apply config_windows|by apply (blank_next false)]. Qed.
End life.

(** ** Packets *)

Section packets.
Context `{BC : BytesCrate} {BL : BytesLaws} `{HK : Hkdf} `{AE : Aead} {AL : AeadLaws} {AY : AeadTyped}.
Context `{CC : ChaCha20} {KT : KeystreamTotal} {KY : KeystreamTyped} `{LM : Libm} `{EV : Env} {ET : EnvTyped}.
Context `{SH : Sha256} {SL : Sha256Laws} `{ED : Ed25519} {EL : Ed25519Laws} `{XD : X25519} `{LG : Ledger}.

(** Whether the header is one of a Retry packet that is no replay. *)
Definition fresh_retry (h : PacketHeader.t) (c : ZtConnection) : bool :=
  match PacketHeader.p_type h with
  | PacketType.Retry =>
      negb (conn_is_replay c (expand_pn (PacketHeader.packet_number h) (PacketHeader.pn_len h)
        (default 0 (highest_processed (replay_window c)))))
  | _ => false
  end.

(** Whether the actor reads a datagram as such a packet, and is waiting for one: nothing of it is authenticated. *)
Definition takes_retry (data : bytes) (c : ZtConnection) : bool :=
  let is_short_header := match data with b :: _ => Z.land b 0x80 =? 0 | [] => false end in
  bool_decide (state c = Handshaking)
  && match (data ← unprotect data is_short_header c; split_packet data) with
     | Ok (h, _, _) => fresh_retry h c
     | _ => false
     end.

(** The datagrams that end the task of a connection with a panic. *)
Definition crashes (data : bytes) (a : Actor) : bool :=
  negb (on_client a) && takes_retry data (conn a) && (next_packet_number (conn a) + 1 <? 2 ^ 64).

Section safe.
Context (P : Prop) (client : bool) (top : Z).
Abbreviation sound := (sound client top).

Lemma ends_dispatch h short highest aad payload from a :
  sound a → cid_ok (PacketHeader.scid h) → small payload →
  (PacketHeader.p_type h = PacketType.Retry → state (conn a) = Handshaking →
     conn_is_replay (conn a) (PacketHeader.packet_number h) = false →
     ends P sound (λ _, True) (handle_retry_packet h payload from a)) →
  ends P sound (λ _, True) (dispatch_packet h short highest aad payload from a).
Proof.
  intros Sa Hc Hp Hr. unfold dispatch_packet. do 2 erewrite act_bind_ok by reflexivity. cbv beta.
  destruct (conn_is_replay _ _); [done|]. cbv zeta. destruct (PacketHeader.p_type h); try done.
  - case_bool_decide; [|done]. by apply runs_handshake_response.
  - destruct (_ || _); [|done]. by apply runs_receive_protected.
  - destruct (_ || _); [|done]. by apply runs_receive_protected.
  - destruct (_ || _); [|done]. by apply runs_receive_protected.
  - case_bool_decide; [|done]. by apply Hr.
Qed.

(** A Retry packet is harmless on a client, and where the packet numbers are exhausted. *)
Lemma ends_retry h payload from a :
  sound a → small payload → P ∨ client = true ∨ (next_packet_number (conn a) + 1 <? 2 ^ 64) = false →
  ends P sound (λ _, True) (handle_retry_packet h payload from a).
Proof.
  intros Sa Hp [Hc|[Hc|Hn]]; [apply runs_retry; auto..|].
  unfold handle_retry_packet, send_initial_packet, send_initial_packet_internal.
  rewrite (act_bind_err _ _ _ PacketNumberOverflow a); [done|]. unfold next_pn, get_next_packet_number, checked_add. by rewrite Hn.
Qed.

Lemma ends_process data from a :
  sound a → small data → P ∨ crashes data a = false → ends P sound (λ _, True) (process_incoming_packet data from a).
Proof.
  intros Sa [B L] Hx. unfold process_incoming_packet.
  erewrite act_bind_ok by reflexivity. set (a1 := a <| conn ::= λ c, c <| bytes_received ::= λ n, wrap 64 (n + len data) |> |>).
  assert (sound a1) as S1 by (by apply (sound_view client top a)). cbv zeta. set (short := match data with b :: _ => _ | [] => false end).
  erewrite act_bind_ok by reflexivity. cbv beta. pose proof (unprotect_safe data short (conn a1) B) as U.
  unfold crashes, takes_retry in Hx. fold short in Hx. change (unprotect data short (conn a)) with (unprotect data short (conn a1)) in Hx.
  destruct (unprotect data short (conn a1)) as [d|e|]; [|done|done]. erewrite act_bind_ok by reflexivity. destruct U as [Bd Ld].
  cbn [mbind res_bind] in Hx. pose proof (split_packet_safe d Bd) as S. destruct (split_packet d) as [[[h aad] payload]|e|]; [|done|done].
  erewrite act_bind_ok by reflexivity. cbv beta iota. erewrite act_bind_ok by reflexivity. destruct S as (_ & Hs & Bp & Lp). destruct (is_initial h && _).
  { case_match eqn:Eh; [|done]. apply (cs_handshake _ _ _ (so_conn _ _ _ S1)) in Eh. revert S1.
    eapply runs_then; [by apply runs_attempt, runs_sendmsg|intros _]. apply runs_skip. }
  assert (small payload) as Hp by (split; [done|unfold len in *; lia]).
  apply ends_dispatch; [done..|]. intros Et Es Er. apply ends_retry; [done..|]. destruct Hx as [?|Hx]; [by left|right].
  change (state (conn a1)) with (state (conn a)) in Es. rewrite (bool_decide_true _ Es) in Hx.
  assert (fresh_retry h (conn a) = true) as F.
  { unfold fresh_retry. change (PacketHeader.p_type h = PacketType.Retry) in Et. rewrite Et. by apply negb_true_iff. }
  rewrite F, (so_client _ _ _ Sa) in Hx. destruct client; [by left|by right].
Qed.
End safe.

(** Without a signing key the client's Initial packet panics. *)
Lemma retry_panics h payload from top a :
  sound false top a → next_packet_number (conn a) + 1 < 2 ^ 64 → (handle_retry_packet h payload from a).1 = Panic.
Proof.
  intros Sa Hn. unfold handle_retry_packet, send_initial_packet, send_initial_packet_internal.
  set (n := next_packet_number (conn a)). set (a1 := a <| conn ::= λ c, c <| next_packet_number := n + 1 |> |>).
  rewrite (act_bind_ok _ _ _ n a1).
  2:{ unfold next_pn, get_next_packet_number, checked_add. by rewrite (proj2 (Z.ltb_lt _ _) Hn). }
  erewrite act_bind_ok by reflexivity. set (h' := PacketHeader.mk _ _ _ _ _ _ _ _).
  destruct (encode_header_total h' []) as [w ->]. do 4 erewrite act_bind_ok by reflexivity. cbv zeta.
  erewrite act_bind_ok by reflexivity. change (ed_signing_key _) with (ed_signing_key a).
  pose proof (so_key _ _ _ Sa) as K. destruct (ed_signing_key a); [by discriminate (proj1 K)|]. by erewrite act_bind_panic.
Qed.

Lemma process_panics data from top a :
  sound false top a → crashes data a = true → (process_incoming_packet data from a).1 = Panic.
Proof.
  intros Sa Hx. unfold crashes, takes_retry in Hx. apply andb_true_iff in Hx as [[_ Hx]%andb_true_iff Hn].
  apply andb_true_iff in Hx as [Hs Hx]. apply Z.ltb_lt in Hn. unfold process_incoming_packet.
  erewrite act_bind_ok by reflexivity. set (a1 := a <| conn ::= λ c, c <| bytes_received ::= λ n, wrap 64 (n + len data) |> |>).
  cbv zeta. set (short := match data with b :: _ => _ | [] => false end) in *.
  erewrite act_bind_ok by reflexivity. cbv beta. change (unprotect data short (conn a1)) with (unprotect data short (conn a)).
  destruct (unprotect data short (conn a)) as [d|e|]; [|done|done]. erewrite act_bind_ok by reflexivity. cbn [mbind res_bind] in Hx.
  destruct (split_packet d) as [[[h aad] payload]|e|]; [|done|done]. erewrite act_bind_ok by reflexivity. cbv beta iota.
  erewrite act_bind_ok by reflexivity. unfold fresh_retry in Hx. unfold is_initial. destruct (PacketHeader.p_type h) eqn:Et; try done.
  cbn [andb]. apply negb_true_iff in Hx. unfold dispatch_packet. do 2 erewrite act_bind_ok by reflexivity. cbv beta.
  set (h' := h <| PacketHeader.packet_number ::= _ |>).
  change (conn_is_replay (conn a1) (PacketHeader.packet_number h')) with
    (conn_is_replay (conn a) (expand_pn (PacketHeader.packet_number h) (PacketHeader.pn_len h) (default 0 (highest_processed (replay_window (conn a)))))).
  rewrite Hx. cbv zeta. change (PacketHeader.p_type h') with (PacketHeader.p_type h). rewrite Et. 
  change (state (conn a1)) with (state (conn a)). rewrite Hs. 
  apply (retry_panics _ _ _ top); [by apply (sound_view false top a)|done].
Qed.
End packets.

(** ** Writes *)

(** What the application writes to the stream of the ledger is recorded there. *)
Definition record (id : Z) (data : bytes) (l : Ledger) : Ledger :=
  match l with Some (j, w) => if decide (j = id) then Some (j, w ++ data) else Some (j, w) | None => None end.

Lemma record_elsewhere id data (l : Ledger) : (∀ w, l ≠ Some (id, w)) → record id data l = l.
Proof. intros H. destruct l as [[j w]|]; [|done]. cbn. case_decide; [|done]. subst. by destruct (H w). Qed.
Lemma record_inv id data (l : Ledger) j w :
  record id data l = Some (j, w) → (j ≠ id ∧ l = Some (j, w)) ∨ (j = id ∧ ∃ w', l = Some (id, w') ∧ w = w' ++ data).
Proof. destruct l as [[i w']|]; [|done]. cbn. case_decide; intros [= <- <-]; [right|left; done]. subst. eauto. Qed.

(** A write is refused, or the stream's data is queued. *)
Definition queue_data (id : Z) (data : bytes) (s : StreamState) (c : ZtConnection) : ZtConnection :=
  c <| streams ::= <[id := s <| next_tx_offset ::= λ o, wrap 64 (o + len data) |> <| tx_window ::= λ w, w - len data |>]> |>
    <| conn_tx_offset ::= λ o, sat_add 64 o (len data) |> <| remote_window ::= λ w, w - len data |>
    <| unpaced_queue ::= λ q, q ++ [(UnackedPayload.Stream id (stream_type s) (next_tx_offset s) data, 0)] |>
    <| queued_bytes ::= λ q, q + len data |>.
Lemma outgoing_cases `{LM : Libm} id data a :
  (∃ e, process_outgoing_data id data a = (Err e, a))
  ∨ ∃ s, streams (conn a) !! id = Some s ∧ process_outgoing_data id data a = (Ok tt, a <| conn := queue_data id data s (conn a) |>).
Proof.
  unfold process_outgoing_data. cbv zeta. destruct (_ <? _); [left; by eexists|].
  destruct (streams (conn a) !! id) as [s|] eqn:Hs; [|left; by eexists]. destruct (send_stopped_error s); [left; by eexists|].
  case_bool_decide; [left; by eexists|]. destruct (_ <? _); [left; by eexists|]. destruct (_ <? _); [left; by eexists|].
  right. by exists s.
Qed.

Section writes.
Context `{LM : Libm} (client : bool) (top : Z).

Lemma payload_record (l : Ledger) id data p :
  payload_sound (H := l) client p → payload_sound (H := record id data l) client p.
Proof.
  destruct p; try done. intros [Hb Hp]. split; [done|]. intros w [[_ Hl]|(-> & w' & Hl & ->)]%record_inv; [by apply Hp|].
  destruct (Hp w' Hl) as (pre & post & -> & ->). exists pre, (post ++ data). by rewrite <- !(assoc_L (++)).
Qed.

Lemma sound_outgoing {l : Ledger} id data a :
  sound client top a → blob data → (∀ w, l = Some (id, w) → is_Some (streams (conn a) !! id) → id < next_stream_id a) →
  let r := process_outgoing_data id data a in
  sound (LG := match r.1 with Ok _ => record id data l | _ => l end) client top r.2.
Proof.
  intros Sa Hb Hn. destruct (outgoing_cases id data a) as [[e ->]|(s & Hs & ->)]; [done|]. cbn [fst snd].
  destruct (so_conn _ _ _ Sa) as [], Sa. split; try done.
  { intros j w [[_ Hl]|(-> & w' & Hl & ->)]%record_inv; [by apply so_ledger|]. destruct (so_ledger _ _ Hl) as [Hi _].
    split; [done|]. intros Hle. specialize (Hn _ Hl (mk_is_Some _ _ Hs)). change (next_stream_id a ≤ id) in Hle. lia. }
  split; try done.
  - eapply Forall_impl; [exact cs_unacked|]. intros [up|]; [|done]. intros [Hp Ht]. split; [by apply payload_record|done].
  - apply Forall_app_2; [|apply Forall_singleton; split; [done|]].
    + eapply Forall_impl; [exact cs_queue|]. intros x. apply payload_record.
    + intros w [[[] _]|(_ & w' & Hl & ->)]%record_inv; [done|]. destruct (cs_streams id s Hs) as (_ & _ & _ & _ & _ & N).
      exists w', []. rewrite app_nil_r. by split; [|apply N].
  - intros j s' [[<- <-]|[Hj Hs']]%(lookup_insert_Some (streams (conn a))).
    + destruct (cs_streams id s Hs) as (c & B & W & Cp & Wm & N). exists c. split_and!; try done.
      intros w [[[] _]|(_ & w' & Hl & ->)]%record_inv; [done|].
      change (wrap 64 (next_tx_offset s + len data) = wrap 64 (len (w' ++ data))).
      rewrite (N _ Hl), len_app. unfold wrap. by rewrite Zplus_mod_idemp_l.
    + destruct (cs_streams j s' Hs') as (c & B & W & Cp & Wm & N). exists c. split_and!; try done.
      intros w [[_ Hl]|(-> & _)]%record_inv; [by apply N|done].
Qed.
End writes.

(** ** The event loop *)

Section loop.
Context `{BC : BytesCrate} {BL : BytesLaws} `{HK : Hkdf} `{AE : Aead} {AL : AeadLaws} {AY : AeadTyped}.
Context `{CC : ChaCha20} {KT : KeystreamTotal} {KY : KeystreamTyped} `{LM : Libm} `{EV : Env} {ET : EnvTyped}.
Context `{SH : Sha256} {SL : Sha256Laws} `{ED : Ed25519} {EL : Ed25519Laws} `{XD : X25519}.
Context `{LG : Ledger} (client : bool) (top : Z).
Abbreviation sound := (sound client top).
(** The state is kept, also where the pacing or a Retry packet panics. *)
Abbreviation keeps m := (runs True sound m (λ _, True)).

Lemma runs_process data from : small data → keeps (process_incoming_packet data from).
Proof. intros Hd a Sa. apply ends_process; [done|done|by left]. Qed.

Lemma runs_outgoing P id data : blob data → (∀ w, ledger ≠ Some (id, w)) → runs P sound (process_outgoing_data id data) (λ _, True).
Proof.
  intros Hb Hl a Sa. pose proof (sound_outgoing client top id data a Sa Hb) as H. specialize (H (λ w Hw _, False_ind _ (Hl w Hw))).
  destruct (outgoing_cases id data a) as [[e E]|(s & Hs & E)]; rewrite E in H |- *; (split; [|done]); [exact H|].
  by rewrite record_elsewhere in H.
Qed.

Lemma runs_reset_pacing tm : keeps (reset_pacing tm).
Proof. unfold reset_pacing. eapply runs_then; [by apply runs_flush_pacing|intros w]. secure. Qed.
Lemma runs_paced tm r : keeps (paced tm r).
Proof. unfold paced. eapply runs_then; [apply runs_reset_pacing|intros ?]. secure. Qed.
#[local] Hint Resolve runs_process runs_outgoing runs_reset_pacing runs_paced runs_forward runs_flush_acks runs_send_frame_immediate
  runs_stream_close runs_reset_stream runs_initiate_close runs_close_error runs_send_payload runs_handle_retransmits runs_send_mtu_probe : runs.

Lemma runs_on_packet data from tm : small data → keeps (on_packet data from tm).
Proof. intros Hd. unfold on_packet. secure. Qed.
Lemma runs_on_open ty tm : keeps (on_open_stream ty tm).
Proof.
  unfold on_open_stream. case_bool_decide; [secure|]. apply runs_gets. intros b0 _. apply runs_gets. intros b _.
  destruct (_ <=? _); [secure|]. intros a Sa. erewrite act_bind_ok by reflexivity. unfold checked_add. destruct (_ <? _); [|done].
  assert (at_end (next_stream_id a) 0) as He.
  { intros w Hl. destruct (so_ledger _ _ _ Sa _ w Hl) as [_ ->]; [done|lia]. }
  erewrite act_bind_ok by reflexivity. set (a1 := a <| next_stream_id := _ |>).
  assert (sound a1) as S1.
  { destruct Sa. split; try done. intros id w Hl. destruct (so_ledger id w Hl) as [Hi Hw]. split; [done|].
    intros Hle. change (next_stream_id a + 2 ≤ id) in Hle. apply Hw. lia. }
  refine ((_ : keeps _) a1 S1). secure.
Qed.
Lemma runs_on_read id n tm : keeps (on_data_read id n tm).
Proof. unfold on_data_read. secure. Qed.
Lemma runs_on_datagram data tm : blob data → keeps (on_send_datagram data tm).
Proof. intros Hd. unfold on_send_datagram, send_datagram_payload. secure. Qed.
Lemma runs_close_timer tm : keeps (close_timer tm).
Proof. unfold close_timer. secure. Qed.
#[local] Hint Resolve runs_on_packet runs_on_open runs_on_read runs_on_datagram runs_close_timer : runs.

Lemma runs_on_message m tm : message_sound m → writes_elsewhere (Message m) → keeps (on_message m tm).
Proof.
  intros Hm Hw. destruct m; cbn [on_message message_sound writes_elsewhere] in *.
  2: { eapply runs_then; [by apply runs_quiet|intros _]. pose proof (runs_outgoing True stream_id data Hm Hw). clear Hw. secure. }
  all: clear Hw; secure.
Qed.

Lemma runs_path_validation P : runs P sound on_path_validation (λ _, True).
Proof.
  unfold on_path_validation. secure.
  - assert (frame_blob (Frame.PathChallenge l)) by (eapply array_blob; [by eapply so_token|done]). secure.
  - eapply runs_then; [|intros _; secure]. apply runs_modify. by intros b [].
Qed.

Lemma runs_on_idle P : runs P sound on_idle (λ _, True).
Proof.
  apply runs_on_conn. intros c C. case_bool_decide; [done|].
  apply (conn_sound_streams client top (c <| termination ::= termination_set TerminationReason.IdleTimeout |>)); [done|].
  by apply (conn_view client top c).
Qed.
#[local] Hint Resolve runs_on_message runs_path_validation runs_on_idle : runs.
Lemma runs_on_event ev tm : event_sound ev → writes_elsewhere ev → keeps (on_event ev tm).
Proof. intros He Hw. destruct ev; cbn [on_event event_sound] in *; unfold_timers; secure. Qed.

Lemma runs_update_rto tm : keeps (update_rto_timer tm).
Proof. unfold update_rto_timer. secure. Qed.
#[local] Hint Resolve runs_on_event runs_update_rto : runs.
Lemma runs_after_event b tm : keeps (after_event b tm).
Proof. unfold after_event. secure. Qed.
#[local] Hint Resolve runs_after_event runs_signal : runs.
Lemma runs_turn ev tm : event_sound ev → writes_elsewhere ev → keeps (turn ev tm).
Proof. intros He Hw. unfold turn. secure. Qed.
Lemma runs_after_loop : keeps after_loop.
Proof. unfold after_loop. secure. Qed.
#[local] Hint Resolve runs_turn runs_after_loop : runs.
Lemma runs_round ev tm : event_sound ev → writes_elsewhere ev → keeps (round ev tm).
Proof. intros He Hw. unfold round. secure. Qed.

Lemma runs_loop evs tm : Forall (λ ev, event_sound ev ∧ writes_elsewhere ev) evs → keeps (run_loop evs tm).
Proof.
  intros He. revert tm. induction He as [|ev evs [H Hw] He IH]; intros tm; cbn [run_loop]; [by apply runs_ret|].
  eapply runs_then; [by apply runs_round|]. intros [[tm'|] reply]; [|by apply runs_ret]. eapply runs_then; [apply IH|]. intros []. by apply runs_ret.
Qed.

Lemma runs_first_timers : keeps first_timers.
Proof. unfold first_timers. secure. Qed.
Lemma runs_start : keeps start.
Proof.
  unfold start. eapply runs_then; [apply runs_first_timers|intros tm]. secure.
  eapply runs_then; [apply runs_attempt, runs_send_initial; [by right|done]|intros _; apply runs_skip].
Qed.
Lemma runs_run evs : Forall (λ ev, event_sound ev ∧ writes_elsewhere ev) evs → keeps (run evs).
Proof. intros He. unfold run. eapply runs_then; [apply runs_start|]. intros tm. by apply runs_loop. Qed.
End loop.
