(* ===== verification/SoundEndpoint.v ===== *)
(** * A sound endpoint

    The endpoint and its tasks hold values of the types the code relies on, whatever arrives
    on the socket and whatever the application asks for: the routers and the handshakes never
    panic, and a connection's task only on the datagrams [crashes] describes. *)

From stdpp Require Import strings.
From Stdlib Require Import SpecFloat.
From S2P Require Import Prelude Errors Effects Buf Config StreamType Frames FrameFacts FrameProps Packet PacketFacts.
From S2P Require Import PacketNumber HeaderProtection Bitmap ReplayWindow AckTracker Unacked StreamBuffer BufferFacts Cookie KeyDerivation.
From S2P Require Import CryptoContext Float Congestion CongestionFacts Termination Connection AckHandling ConnFrame Actor ActFacts.
From S2P Require Import StreamHandle PacketSender Retransmit HandshakeHandler IncomingHandler EventLoop Endpoint ServerHandshake Router.
From S2P Require Import ActorRun EndpointProps RetryOnce WireSafety SoundState SoundConn SoundSends SoundStreams SoundFrames SoundRun.

(** The random number generator fills the arrays it is given. *)
Class RandomTyped `{EndpointEnv} : Prop :=
  random_array q n : array_ok (Z.of_nat n) (ep_random q n).

(** ** The invariant *)

(** Nothing is claimed of what the applications write. *)
#[local] Existing Instance no_ledger.

Section invariant.
Context `{LM : Libm}.

Definition task_sound (top : Z) (t : Task) : Prop :=
  (∃ client, sound client top (task_actor t)) ∧ Forall message_sound (mailbox t).

Definition attempt_sound (at_ : Attempt) : Prop :=
  match at_ with
  | Arrived data _ => small data
  | Checked au _ => cid_ok (PacketHeader.scid (au_header au))
  end.

Record ep_sound (cfg : ZtConfig) (e : Endpoint) : Prop := {
  es_config : ep_config e = cfg;
  es_alpn : blob (ep_alpn e);
  es_key : array_ok 32 (ep_public_key e);
  es_tasks : Forall (task_sound (max_stream_window cfg)) (tasks e);
  es_attempts : Forall attempt_sound (attempts e);
}.

(** What the language's types say of the steps: the bytes of a datagram and the messages. *)
Definition step_sound (s : Step) : Prop :=
  match s with
  | Datagram _ data _ => bytes_ok data
  | Request _ m | Post _ m | CloseConnection _ m => message_sound m
  | SetAlpn alpn => bytes_ok alpn
  | _ => True
  end.
End invariant.

Section endpoint.
Context `{BC : BytesCrate} {BL : BytesLaws} `{HK : Hkdf} `{AE : Aead} {AL : AeadLaws} {AY : AeadTyped}.
Context `{CC : ChaCha20} {KT : KeystreamTotal} {KY : KeystreamTyped} `{LM : Libm} `{HM : Hmac}.
Context `{SH : Sha256} {SL : Sha256Laws} `{ED : Ed25519} {EL : Ed25519Laws} `{XD : X25519} {XL : X25519Laws}.
Context `{EE : EndpointEnv} {RT : RandomTyped}.
Context (cfg : ZtConfig) (Tc : config_typed cfg) (Vc : config_valid cfg).
Abbreviation top := (max_stream_window cfg).
Abbreviation safe m := (runs False (ep_sound cfg) m (λ _, True)).

(** *** Primitives *)

Lemma ep_sound_same e e' :
  (ep_config e', ep_alpn e', ep_public_key e') = (ep_config e, ep_alpn e, ep_public_key e) →
  tasks e' = tasks e → attempts e' = attempts e → ep_sound cfg e → ep_sound cfg e'.
Proof. intros [= E1 E2 E3] E4 E5 []. split; congruence. Qed.

Lemma ep_quiet f :
  (∀ e, (ep_config (f e), ep_alpn (f e), ep_public_key (f e)) = (ep_config e, ep_alpn e, ep_public_key e)
        ∧ tasks (f e) = tasks e ∧ attempts (f e) = attempts e) → safe (modify f).
Proof. intros H. apply runs_modify. intros e. destruct (H e) as (? & ? & ?). by apply ep_sound_same. Qed.

Lemma runs_ep_ask {A} (f : nat → A) (Q : A → Prop) : (∀ n, Q (f n)) → runs False (ep_sound cfg) (ep_ask f) Q.
Proof. intros H e Se. split; [by apply (ep_sound_same e)|apply H]. Qed.
Lemma runs_random n : runs False (ep_sound cfg) (random_bytes n) (array_ok (Z.of_nat n)).
Proof. apply runs_ep_ask. intros q. apply random_array. Qed.
Lemma runs_millis : runs False (ep_sound cfg) millis (λ _, True).
Proof. by apply runs_ep_ask. Qed.
Lemma runs_instant : runs False (ep_sound cfg) instant (λ _, True).
Proof. by apply runs_ep_ask. Qed.

(** A task is replaced by a sound one. *)
Lemma ep_sound_task i t e : task_sound top t → ep_sound cfg e → ep_sound cfg (e <| tasks ::= <[i := t]> |>).
Proof. intros Ht []. split; try done. by apply Forall_insert. Qed.
Lemma task_of i t e : ep_sound cfg e → tasks e !! i = Some t → task_sound top t.
Proof. intros [] Hi. by eapply Forall_lookup_1. Qed.

Lemma runs_try_post i m : message_sound m → safe (try_post i m).
Proof.
  intros Hm e Se. unfold try_post. destruct (tasks e !! i) as [t|] eqn:Hi; [|done]. destruct (_ && _); [|done].
  split; [|done]. apply ep_sound_task; [|done]. destruct (task_of _ _ _ Se Hi) as [Ha Hb]. split; [done|].
  by apply Forall_app_2, Forall_singleton.
Qed.
Lemma runs_spawn scid a : (∃ client, sound client top a) → safe (spawn scid a).
Proof.
  intros Ha e Se. split; [|done]. destruct Se. split; try done. apply Forall_app_2; [done|]. by apply Forall_singleton.
Qed.
Lemma runs_kill i : safe (kill i).
Proof.
  intros e Se. unfold kill. destruct (tasks e !! i) as [t|] eqn:Hi; [|done]. split; [|done].
  apply ep_sound_task; [|done]. exact (task_of _ _ _ Se Hi).
Qed.
Lemma runs_is_open i : safe (is_open i).
Proof. by intros e Se. Qed.
#[local] Hint Resolve runs_random runs_millis runs_instant runs_try_post runs_spawn runs_kill runs_is_open : runs.
#[local] Hint Extern 2 (runs _ (ep_sound _) (modify _) _) => apply ep_quiet; done : runs.

(** *** Routing *)

Lemma runs_on_cache r f : safe (on_cache r f).
Proof. by apply ep_quiet. Qed.
#[local] Hint Resolve runs_on_cache : runs.

Lemma runs_route_cached r d data from : small data → safe (route_cached r d data from).
Proof. intros Hd. assert (message_sound (ActorMessage.IncomingPacket data from)) by done. unfold route_cached. secure. Qed.

Lemma runs_arrived data from :
  small data → safe (modify (λ e, e <| attempts ::= λ l, l ++ [Arrived data from] |>)).
Proof. intros Hd. apply runs_modify. intros e []. split; try done. by apply Forall_app_2, Forall_singleton. Qed.
#[local] Hint Resolve runs_route_cached runs_arrived : runs.

Lemma received_small n (d : bytes) : bytes_ok d → n ≤ 65535 → small (take (Z.to_nat n) d).
Proof. intros B H. split; [by apply Forall_take|]. unfold len. rewrite length_take. lia. Qed.

Lemma runs_route r datagram from : bytes_ok datagram → safe (route r datagram from).
Proof.
  intros B. unfold route. apply runs_gets. intros e Se. cbv zeta. set (data := take _ datagram).
  assert (small data) as Hd by (apply received_small; [done|unfold recv_buf_size; lia]). clearbody data.
  assert (message_sound (ActorMessage.IncomingPacket data from)) by done.
  eapply runs_then; [apply runs_lift, dcid_fast_safe, Hd|]. intros dcid. unfold start_handshake. secure.
Qed.

(** *** Handshakes *)

Lemma unprotect_initial_safe data :
  bytes_ok data → yields False (unprotect_initial data) (λ d, bytes_ok d ∧ length d = length data).
Proof.
  intros B. unfold unprotect_initial. eapply yields_bind; [by apply pn_offset_safe|]. intros [off|] _; [|done].
  eapply yields_bind; [by apply dcid_fast_safe|]. intros [dcid|] _; [|done]. by apply remove_protection_safe.
Qed.

(** What the first packet of a client is opened to. *)
Definition opened (x : option (PacketHeader.t * bytes)) : Prop :=
  match x with None => True | Some (h, payload) => cid_ok (PacketHeader.scid h) ∧ small payload end.

Lemma open_initial_safe data : small data → yields False (open_initial data) opened.
Proof.
  intros [B L]. unfold open_initial. destruct (_ <? _); [done|]. eapply yields_bind; [by apply unprotect_initial_safe|].
  intros d (Bd & Ld). pose proof (decode_header_split d Bd) as D. unfold rwp in D.
  destruct (PacketHeader.decode d) as [[h|e|] p]; [|done|done]. destruct D as ([_ _ _ _ Hs _ _ _] & _ & Bp & b & _ & Es).
  assert (len p ≤ len data) as Lp by (rewrite Es in Ld; rewrite !length_app in Ld; unfold len; lia). clear Es. cbv zeta.
  destruct (_ || _); [done|]. destruct (negb _); [done|]. destruct (_ <? _); [done|]. set (ct := take _ p).
  assert (bytes_ok ct) as Bc by by apply Forall_take. pose proof (decrypt_safe (initial (PacketHeader.dcid h) false)
    (PacketHeader.packet_number h) (take (length d - length p) d) ct (drop (length p - 16) p) false Bc) as H.
  destruct (decrypt_in_place _ _ _ _ _ _) as [pt|e|]; [|done|done]. destruct H as [Bt Lt]. split; [done|]. split; [done|].
  unfold ct in Lt. rewrite length_take in Lt. unfold len in *. lia.
Qed.

Lemma read_initial_safe fuel r s :
  bytes_ok s → u_ok 63 (len s) → (length s ≤ fuel)%nat → yields False (read_initial fuel r s) (λ _, True).
Proof.
  revert r s. induction fuel as [|fuel IH]; intros r s B L F; cbn [read_initial]; destruct (Z.eqb_spec (len s) 0) as [|N]; try done.
  { unfold len in N. lia. }
  pose proof (decode_step s B L) as D. unfold rwp in D. destruct (Frame.decode s) as [[f|e|] s']; [|done|done].
  destruct D as (_ & _ & B' & L').
  assert (∀ r, yields False (read_initial fuel r s') (λ _, True)) as Hn.
  { intros r'. apply IH; [done|unfold u_ok in *; pose proof (len_nonneg s'); lia|unfold len in *; lia]. }
  destruct f; try apply Hn. unfold params_validate. destruct (_ || _); [done|]. cbn [mbind res_bind]. destruct (in_parameters r); [done|apply Hn].
Qed.

Lemma runs_send_to to d : safe (send_to to d).
Proof. unfold send_to. eapply runs_then; [by apply (runs_ep_ask _ (λ _, True))|intros x]. secure. Qed.
#[local] Hint Resolve runs_send_to : runs.
Lemma runs_send_retry to scid pn ck : safe (send_retry to scid pn ck).
Proof. unfold send_retry. destruct (encode_header_total (PacketHeader.mk PacketType.Retry true PROTOCOL_VERSION scid [] pn false 1) []) as [w ->].
  eapply runs_bind; [by apply (runs_lift _ _ _ (λ _, True))|intros ? _]. secure. Qed.

(** The checks keep the header. *)
Definition authentic (au : option Authentic) : Prop :=
  from_option (λ au, cid_ok (PacketHeader.scid (au_header au))) True au.

Lemma runs_check_client h hs ck remote t n :
  cid_ok (PacketHeader.scid h) → runs False (ep_sound cfg) (check_client h hs ck remote t n) authentic.
Proof.
  intros Hh. destruct hs as [[[[pk epk] th] sg] al]. unfold check_client.
  repeat match goal with
  | |- runs _ _ (ep_ask _ ≫= _) _ => eapply runs_bind; [by apply (runs_ep_ask _ (λ _, True))|intros ? _]
  | |- runs _ _ (mret _) authentic => by apply runs_ret
  | _ => runs_step
  end.
Qed.

Lemma runs_authenticate data from : small data → runs False (ep_sound cfg) (authenticate data from) authentic.
Proof.
  intros Hd. unfold authenticate. eapply runs_bind; [by apply runs_lift, open_initial_safe|].
  intros [[h payload]|] H; [|by apply runs_ret]. destruct H as (Hh & Bp & Lp).
  eapply runs_then; [apply runs_lift, read_initial_safe; [done|unfold u_ok; pose proof (len_nonneg payload); lia|done]|]. intros r.
  eapply (runs_then _ _ _ _ (λ _, True)); [apply runs_lift; by destruct (in_handshake r)|]. intros hs.
  eapply (runs_then _ _ _ _ (λ _, True)); [apply runs_lift; by destruct (in_parameters r)|]. intros remote.
  eapply runs_then; [apply runs_millis|]. intros t. do 2 (apply runs_gets; intros ? ?). cbv zeta.
  destruct (negb _); [|by apply runs_check_client]. eapply runs_then; [apply runs_send_retry|intros _; by apply runs_ret].
Qed.

(** *** Accepting a connection *)

Lemma protect_lenient_safe k pn K aad payload :
  wire K (aad ++ payload) → yields False (protect_lenient k pn aad payload) (λ w, len w ≤ K + 16).
Proof.
  intros [B L]. apply Forall_app in B as [Ba Bp]. rewrite len_app in L. unfold protect_lenient.
  eapply (yields_bind _ _ _ (λ w, bytes_ok w ∧ len w ≤ K + 16)).
  - unfold encrypt_in_place. destruct (aead_encrypt _ _ aad payload) as [[ct tag]|] eqn:E; cbn [ok_or yields].
    + destruct (aead_encrypt_typed _ _ _ _ _ _ E Bp) as [Bc Bt]. destruct (aead_lengths _ _ _ _ _ _ E) as [Lc Lt].
      rewrite !Forall_app, !len_app. unfold len in *. split; [done|lia].
    + rewrite !Forall_app, !len_app. split; [split_and!; [done|done|by repeat constructor]|]. change (len (zeros 16)) with 16. lia.
  - intros w [Bw Lw]. eapply yields_bind; [by apply pn_offset_safe|]. intros [off|] _; [|done].
    unfold ctx_apply_header_protection. pose proof (λ key, apply_protection_safe w (Z.to_nat off) key Bw) as H.
    match goal with |- context [apply_header_protection _ _ ?key] => specialize (H key) end.
    destruct (apply_header_protection _ _ _) as [w'|e|]; cbn [yields] in *; [|done|done]. unfold len in *. lia.
Qed.

Lemma handshake_bytes_safe e au scid public pn :
  ep_sound cfg e → cid_ok scid → cid_ok (PacketHeader.scid (au_header au)) → array_ok 32 public →
  yields False (handshake_bytes e au scid public pn) (λ w, len w < 2 ^ 63).
Proof.
  intros Se Hs Hc Hp. unfold handshake_bytes. cbv zeta. eapply yields_bind; [by apply encode_header_safe|]. intros buf W.
  set (h := sha256 _). set (sg := ed_sign _ h). set (tp := from_config _).
  assert (array_ok 32 h) as Hh by apply sha256_array. assert (array_ok 64 sg) as Hg by apply ed_sign_array.
  set (p := Frame.encode (Frame.Handshake _ _ _ _ _) []).
  assert (wire (0 + (2 ^ 60 + 4096)) p) as W1 by (apply wire_frame; [done|];
    exact (conj Hp (conj (es_key _ _ Se) (conj Hh (conj Hg (es_alpn _ _ Se)))))).
  assert (wire (0 + (2 ^ 60 + 4096) + (2 ^ 60 + 4096)) (Frame.encode (Frame.TransportParameters tp) p)) as W2 by by apply wire_frame.
  eapply yields_mono; [by apply protect_lenient_safe, (wire_app _ _ _ _ W W2)|]. cbn beta. lia.
Qed.

(** A value that is read from the endpoint. *)
Lemma runs_reads {A} (f : Endpoint → res A) (Q : A → Prop) :
  (∀ e, ep_sound cfg e → yields False (f e) Q) → runs False (ep_sound cfg) (λ e, (f e, e)) Q.
Proof. intros H e Se. split; [done|by apply H]. Qed.

Lemma runs_announce_client au from i scid public pn :
  cid_ok scid → cid_ok (PacketHeader.scid (au_header au)) → array_ok 32 public → safe (announce au from i scid public pn).
Proof.
  intros Hs Hc Hp. unfold announce. apply runs_gets. intros e Se. destruct (negb _); [secure|].
  eapply runs_then; [by apply ep_quiet|intros _]. eapply runs_bind; [apply runs_reads; intros e' Se'; by apply handshake_bytes_safe|].
  intros w Hw. assert (message_sound (ActorMessage.SetHandshakePacket w)) by done. secure.
Qed.

Lemma runs_guarded {A} scid (m : ep A) (Q : A → Prop) : runs False (ep_sound cfg) m Q → runs False (ep_sound cfg) (guarded scid m) Q.
Proof. intros H e Se. unfold guarded. destruct (H e Se) as [Se' Hr]. by destruct (m e) as [[]]. Qed.

Lemma array_cid n d : array_ok n d → n < 256 → cid_ok d.
Proof. intros [B L] ?. split; [done|lia]. Qed.

Lemma runs_fresh_scid n : runs False (ep_sound cfg) (fresh_scid n) cid_ok.
Proof.
  induction n as [|n IH]; cbn [fresh_scid]; [apply runs_fail|]. eapply runs_bind; [apply runs_random|]. intros scid Hs.
  apply runs_gets. intros e Se. case_bool_decide; [done|]. apply runs_ret. by eapply array_cid.
Qed.

Lemma runs_open_connection au from : cid_ok (PacketHeader.scid (au_header au)) → safe (open_connection au from).
Proof.
  intros Hc. unfold open_connection. eapply runs_then; [apply runs_random|]. intros secret. unfold generate_keypair. cbv zeta.
  eapply runs_bind; [apply runs_fresh_scid|]. intros scid Hs. eapply runs_then; [apply runs_instant|]. intros t.
  eapply (runs_bind _ _ _ _ (λ x, conn_sound false top x.2)).
  { apply runs_reads. intros e Se. rewrite (es_config _ _ Se). by apply accept_connection_sound. }
  intros [pn c] C. apply runs_gets. intros e Se. pose proof (es_config _ _ Se) as Ec.
  assert (sound false top (server_actor e c scid)) as Sc.
  { rewrite <- Ec in *. apply server_actor_sound; try done; by destruct Se. }
  eapply runs_then; [apply runs_spawn; by eexists|]. intros i. eapply runs_then; [by apply ep_quiet|]. intros _.
  apply runs_guarded, runs_announce_client; [done|done|apply x_public_array].
Qed.

Lemma runs_enroll au from : cid_ok (PacketHeader.scid (au_header au)) → safe (enroll_client au from).
Proof.
  intros Hc. unfold enroll_client. eapply (runs_then _ _ _ _ (λ _, True)).
  - intros e Se. unfold claim. destruct (au_hmac au); [|done]. case_match; [done|]. split; [by apply (ep_sound_same e)|done].
  - intros []; [by apply runs_open_connection|apply runs_skip].
Qed.

Lemma runs_connect to : safe (connect to).
Proof.
  unfold connect. eapply runs_bind; [apply runs_random|]. intros scid Hs. eapply runs_bind; [apply runs_random|]. intros dcid Hd.
  eapply runs_then; [apply runs_random|]. intros secret. apply runs_gets. intros e Se. pose proof (es_config _ _ Se) as Ec.
  assert (sound true top (client_actor e to scid dcid secret)) as Sc.
  { rewrite <- Ec in *. apply client_actor_sound; try done; [by destruct Se|by eapply array_cid..]. }
  eapply runs_then; [apply runs_spawn; by eexists|]. intros i. eapply runs_then; [by apply ep_quiet|]. intros _. by apply runs_ret.
Qed.

(** *** Tasks *)

Lemma step_attempt_sound j : preserves (ep_sound cfg) (step_attempt j).
Proof.
  assert (∀ e, ep_sound cfg e → ep_sound cfg (finish_attempt j e)) as Hf.
  { intros e []. split; try done. by apply Forall_delete. }
  intros e Se. unfold step_attempt. destruct (attempts e !! j) as [[data from|au from]|] eqn:Hj; [| |done].
  all: pose proof (Forall_lookup_1 _ _ _ _ (es_attempts _ _ Se) Hj) as Ha; cbn in Ha.
  - destruct (runs_authenticate data from Ha e Se) as [Se1 Hr]. destruct (authenticate data from e) as [[[au|]| |] e1]; cbn in *; [|by apply Hf..].
    destruct Se1. split; try done. by apply Forall_insert.
  - apply Hf. by apply runs_enroll.
Qed.

Context (envs : nat → Env) (Et : ∀ i, EnvTyped (H := envs i)).

(** A task that keeps its actor sound. *)
Lemma on_task_sound i m :
  (∀ client, preserves (sound client top) m) → preserves (ep_sound cfg) (on_task i m).
Proof.
  intros Hm e Se. unfold on_task. destruct (tasks e !! i) as [t|] eqn:Hi; [|done]. destruct (task_of _ _ _ Se Hi) as [[client Ha] Hb].
  specialize (Hm client _ Ha). destruct (m (task_actor t)) as [[[tm|]| |] a]; cbn [snd] in *;
    try (by apply ep_sound_task; [split; [by exists client|done]|]).
  eapply ep_sound_same; [..|apply (ep_sound_task i (t <| task_actor := a |> <| alive := false |>) e); [split; [by exists client|done]|done]]; done.
Qed.

Lemma start_task_sound i client :
  preserves (sound client top) (tm ← start (EV := envs i); mret (Some tm) : act (option Timers)).
Proof. eapply runs_preserves, runs_then; [apply (runs_start (ET := Et i))|]. intros tm. by apply (runs_ret _ _ _ (λ _, True)). Qed.
Lemma round_task_sound i ev tm client :
  event_sound ev → preserves (sound client top) ('(tm, _) ← round (EV := envs i) ev tm; mret tm : act (option Timers)).
Proof. intros He. eapply runs_preserves, runs_then; [apply (runs_round (ET := Et i)); [done|apply elsewhere_none]|]. intros [tm' r]. by apply (runs_ret _ _ _ (λ _, True)). Qed.

Lemma step_task_sound i ev : preserves (ep_sound cfg) (step_task envs i ev).
Proof.
  intros e Se. unfold step_task. destruct (tasks e !! i) as [t|] eqn:Hi; [|done]. destruct (negb _); [done|].
  destruct (task_timers t) as [tm|]; [|by apply on_task_sound; [apply start_task_sound|]].
  destruct ev as [ev|].
  - destruct ev; [done|by apply on_task_sound; [intros client; by apply round_task_sound|]..].
  - destruct (mailbox t) as [|m l] eqn:Hl; [done|]. destruct (task_of _ _ _ Se Hi) as [Ha Hb]. rewrite Hl in Hb. apply Forall_cons in Hb as [Hm Hb].
    apply on_task_sound; [intros client; by apply round_task_sound|]. by apply ep_sound_task.
Qed.

(** *** The application *)

Lemma runs_post i m : message_sound m → safe (post i m).
Proof. intros Hm. unfold post. secure. Qed.
#[local] Hint Resolve runs_post : runs.
Lemma runs_unroute cid : safe (unroute cid).
Proof. intros e Se. split; [by apply (ep_sound_same e)|done]. Qed.
#[local] Hint Resolve runs_unroute : runs.
Lemma runs_request cid m : message_sound m → safe (request (A := unit) cid m ActorFailed None).
Proof.
  intros Hm. unfold request. secure. eapply (runs_then _ _ _ _ (λ _, True)); [by apply runs_lift|intros ?]. secure.
Qed.
Lemma runs_close cid : safe (ep_close cid).
Proof. assert (message_sound ActorMessage.Close) by done. unfold ep_close. secure. Qed.
Lemma runs_close_code cid code reason : blob reason → safe (ep_close_with_error cid code reason).
Proof. intros Hb. assert (message_sound (ActorMessage.CloseWithError code reason)) by done. unfold ep_close_with_error. secure. Qed.

(** Taking something out of a channel of the actor. *)
Lemma runs_handle_recv {A} h (g : Actor → list A) set :
  (∀ l a, actor_facts (set l a) = actor_facts a ∧ conn_facts (conn (set l a)) = conn_facts (conn a)) → safe (handle_recv h g set).
Proof.
  intros H e Se. unfold handle_recv. destruct (tasks e !! handle_task h) as [t|] eqn:Hi; [|done].
  destruct (g (task_actor t)) as [|x l]; [destruct (alive t); [done|by destruct (termination_error _)]|]. split; [|done].
  destruct (task_of _ _ _ Se Hi) as [[client Ha] Hb]. apply ep_sound_task; [|done]. split; [|done]. exists client.
  destruct (H l (task_actor t)). by apply (sound_view client top (task_actor t)).
Qed.
Lemma runs_or_end {A} (m : ep (poll (option A))) : safe m → safe (or_end m).
Proof. intros H. unfold or_end. secure. Qed.

Lemma forget_sound {A} (m : ep A) : safe m → preserves (ep_sound cfg) (forget m).
Proof. intros H e Se. by destruct (H e Se). Qed.

Lemma serve_sound s : step_sound s → preserves (ep_sound cfg) (serve envs s).
Proof.
  destruct s as [r data from|j|i ev|cid m|i m|cid m| |h|h|to|scid i|alpn|v]; cbn [serve step_sound]; intros Hs.
  - by apply forget_sound, runs_route.
  - apply step_attempt_sound.
  - apply step_task_sound.
  - destruct (is_request m); [|apply preserves_skip]. by apply forget_sound, runs_request.
  - destruct (is_request m); [|apply preserves_skip]. by apply forget_sound, runs_post.
  - destruct m; apply forget_sound; try apply runs_close. by apply runs_close_code.
  - apply forget_sound. intros e Se. unfold accept. destruct (accept_queue e); [done|]. split; [by apply (ep_sound_same e)|done].
  - by apply forget_sound, runs_or_end, runs_handle_recv.
  - by apply forget_sound, runs_or_end, runs_handle_recv.
  - apply forget_sound, runs_connect.
  - apply forget_sound. unfold connected. secure.
  - unfold set_alpn. destruct (_ || _) eqn:E; [apply preserves_skip|]. intros e []. split; try done. split; [done|].
    apply orb_false_iff in E as [_ E%Z.ltb_ge]. change (len alpn < 2 ^ 60). unfold u_max in E. lia.
  - intros e. by apply ep_sound_same.
Qed.

Lemma serve_all_sound ss e : Forall step_sound ss → ep_sound cfg e → ep_sound cfg (serve_all envs ss e).
Proof. intros Hs. revert e. induction Hs as [|s ss H Hs IH]; intros e Se; [done|]. apply IH. by apply (serve_sound s). Qed.
End endpoint.

(** ** The theorem *)

Lemma no_panic {S A} (I : S → Prop) (m : stm S A) (Q : A → Prop) a : runs False I m Q → I a → (m a).1 ≠ Panic.
Proof. intros H Ia E. destruct (H a Ia) as [_ Hr]. by rewrite E in Hr. Qed.


(** ** A Retry packet to a server *)

#[local] Existing Instances bytes_model CryptoFacts.hkdf_model CryptoFacts.aead_model chacha20_model libm_model hmac_model.
#[local] Existing Instances sha256_model ed25519_model x25519_model retry_env.
#[local] Existing Instances bytes_model_laws CryptoFacts.aead_model_laws aead_model_typed chacha20_model_total chacha20_model_typed.
#[local] Existing Instances sha256_model_laws ed25519_model_laws x25519_model_laws.

#[local] Instance retry_env_typed : RandomTyped.
Proof. intros q n. apply be_bytes_array. Qed.

(** Clocks that stop after a second. *)
Definition stopped_env : Env := {|
  clock n := Z.of_nat (Nat.min n 1000) * 1000000;
  socket_send _ _ _ := None;
  random_token _ := [1; 2; 3; 4; 5; 6; 7; 8];
  channel_ready _ := true;
|}.
Lemma stopped_env_typed : EnvTyped (H := stopped_env).
Proof. split; [|intros; closed]. intros n. cbn. lia. Qed.

(** The server accepts a client, and its actor starts. *)
Definition accepting : list Step :=
  [Datagram 0 retry_initial sample_addr; HandshakeTask 0; HandshakeTask 0; ActorTask 0 None].
Definition accepted : option Task := tasks (serve_all (λ _, stopped_env) accepting sample_endpoint) !! 0%nat.

(** A Retry packet, with the connection id of the server's end. *)
Definition stray_retry : bytes := [176; 0; 0; 0; 2; 8; 0; 0; 0; 0; 0; 0; 0; 4; 0; 5; 1; 2; 3].

Lemma stray_retry_crashes : from_option (λ t, crashes stray_retry (task_actor t)) false accepted = true.
Proof. vm_compute. reflexivity. Qed.

