(* ===== verification/OwnStreams.v ===== *)
(** * Writing to one's own streams

    The sending side of a stream the actor opened: its id was never used before, and what is queued or in flight
    for it are pieces of what the application wrote, at their offsets. *)

From stdpp Require Import strings.
From S2P Require Import Prelude Errors Effects Buf Config StreamType Frames FrameFacts FrameProps Packet PacketFacts.
From S2P Require Import PacketNumber HeaderProtection Bitmap ReplayWindow AckTracker Unacked StreamBuffer BufferFacts BufferProps Cookie KeyDerivation CryptoContext CryptoFacts.
From S2P Require Import Float Congestion Termination Connection AckHandling ConnFrame Actor ActFacts PacketSender Retransmit HandshakeHandler.
From S2P Require Import IncomingHandler EventLoop StreamView Endpoint ServerHandshake Router ActorRun WireSafety.
From S2P Require Import SoundState SoundConn SoundSends Reliability StreamDelivery SoundStreams SoundFrames SoundRun.

(** ** The ids of an actor's own streams

    A stream with an id of the actor's own parity was opened by it, so that its id is below the next one. *)

Section opened.
Context `{BC : BytesCrate} `{HK : Hkdf} `{AE : Aead} `{CC : ChaCha20} `{LM : Libm} `{EV : Env}.
Context `{SH : Sha256} `{ED : Ed25519} `{XD : X25519}.

Definition id_opened (a : Actor) (id : Z) (_ : StreamState) : Prop :=
  id mod 2 = (if on_client a then 1 else 0) ∨ id < next_stream_id a.
Definition ids_opened (a : Actor) : Prop := map_Forall (id_opened a) (streams (conn a)).

#[local] Instance ids_opened_view : StreamView ids_opened.
Proof.
  intros a a' [= Es _ Ec En _] M id s' Hs'. unfold id_opened. rewrite Ec, En.
  assert (unsignalled (streams (conn a')) !! id = unsignalled (streams (conn a)) !! id) as E by (by rewrite Es).
  unfold unsignalled in E. rewrite !lookup_fmap, Hs' in E. destruct (streams (conn a) !! id) as [s|] eqn:Hs; [|done]. by apply (M id s).
Qed.
#[local] Hint Resolve ids_opened_view : preserves.

Lemma opened_streams f : (∀ m id, is_Some (f m !! id) → is_Some (m !! id)) → preserves ids_opened (on_conn (λ c, c <| streams ::= f |>)).
Proof.
  intros H a M id s Hs. change (f (streams (conn a)) !! id = Some s) in Hs.
  destruct (H (streams (conn a)) id) as [s0 H0]; [by eexists|]. exact (M id s0 H0).
Qed.
Lemma opened_on_stream id f : preserves ids_opened (on_stream id f).
Proof. apply opened_streams. intros m j. by rewrite lookup_alter_is_Some. Qed.
Lemma opened_delete id : preserves ids_opened (on_conn (λ c, c <| streams ::= delete id |>)).
Proof. apply opened_streams. intros m j [s [_ Hs]%lookup_delete_Some]. by eexists. Qed.
#[local] Hint Resolve opened_on_stream opened_delete : preserves.

Lemma opened_deliver_loop fuel s : preserves ids_opened (deliver_loop fuel s).
Proof. revert s. induction fuel as [|fuel IH]; intros s; cbn [deliver_loop]; unfold try_channel; quiet. Qed.
#[local] Hint Resolve opened_deliver_loop : preserves.
Lemma opened_forward id n : preserves ids_opened (forward_stream_data id n).
Proof. unfold forward_stream_data, scale_up, autotune, now. quiet. Qed.
#[local] Hint Resolve opened_forward : preserves.
Lemma opened_receive id o d ty : preserves ids_opened (receive_stream_data id o d ty).
Proof. unfold receive_stream_data, flush_if_due, count_ack. quiet. Qed.

Lemma opened_open_peer id ty : preserves ids_opened (open_peer_stream id ty).
Proof.
  unfold open_peer_stream. apply preserves_gets_bind. intros a M. cbv zeta. destruct (negb _) eqn:Ep; [by apply (quiet_close_with ids_opened)|].
  apply negb_false_iff, Z.eqb_eq in Ep. do 2 erewrite act_bind_ok by reflexivity.
  destruct (_ <=? _); [done|]. do 3 erewrite act_bind_ok by reflexivity.
  apply (leads_bind_post (eq (a <| questions ::= S |>))); [intros ? <-| |done].
  - apply (map_Forall_insert_2 (id_opened a)); [by left|exact M].
  - intros x. unfold try_channel. quiet.
Qed.
#[local] Hint Resolve opened_receive opened_open_peer : preserves.

Lemma opened_peer_closed r : preserves ids_opened (peer_closed r).
Proof.
  intros a M id s Hs.
  change ((signal_window_opened <$> ((λ s, s <| stream_termination ::= termination_set r |>) <$> streams (conn a))) !! id = Some s) in Hs.
  rewrite !lookup_fmap in Hs. destruct (streams (conn a) !! id) as [s0|] eqn:H0; [|done]. exact (M id s0 H0).
Qed.
#[local] Hint Resolve opened_peer_closed : preserves.

Lemma opened_handle_frame f from : preserves ids_opened (handle_frame f from).
Proof.
  unfold_handle_frame. destruct f; unfold handle_stream, handle_stream_close, handle_reset_stream, flush_if_due, count_ack, try_channel; quiet.
Qed.

Lemma opened_outgoing id data : preserves ids_opened (process_outgoing_data id data).
Proof.
  intros a M. destruct (outgoing_cases id data a) as [[e ->]|(s & Hs & ->)]; [exact M|].
  apply (map_Forall_insert_2 (id_opened a)); [exact (M id s Hs)|exact M].
Qed.

Lemma opened_on_open ty tm : preserves ids_opened (on_open_stream ty tm).
Proof.
  intros a M. unfold on_open_stream. destruct (bool_decide _); [done|]. do 2 erewrite act_bind_ok by reflexivity.
  destruct (_ <=? _).
  { match goal with |- ids_opened (?m a).2 => assert (preserves ids_opened m) as P by quiet; by apply P end. }
  erewrite act_bind_ok by reflexivity. unfold checked_add. destruct (_ <? _); [|done].
  do 4 erewrite act_bind_ok by reflexivity. intros id s.
  intros [[<- _]|[_ Hs]]%(lookup_insert_Some (streams (conn a))); [right; change (next_stream_id a < next_stream_id a + 2); lia|].
  destruct (M id s Hs) as [|Hlt]; [by left|right]. change (id < next_stream_id a + 2). lia.
Qed.

Lemma opened_on_idle : preserves ids_opened on_idle.
Proof.
  intros a M. change (map_Forall (id_opened a) (streams (if bool_decide (state (conn a) = Closing)
    then conn a else (conn a) <| termination ::= termination_set TerminationReason.IdleTimeout |> <| streams ::= fmap (λ s, s <| stream_termination ::= termination_set TerminationReason.IdleTimeout |>) |>))).
  case_bool_decide; [exact M|]. intros id s Hs. cbn in Hs. rewrite lookup_fmap in Hs.
  destruct (streams (conn a) !! id) as [s0|] eqn:H0; [|done]. exact (M id s0 H0).
Qed.

Lemma opened_turn ev tm : preserves ids_opened (turn ev tm).
Proof.
  apply quiet_turn; [apply ids_opened_view|apply opened_handle_frame|apply opened_forward|apply opened_outgoing|apply opened_on_open
    |apply opened_delete|apply opened_on_idle].
Qed.
Lemma opened_start : preserves ids_opened start.
Proof. unfold start, first_timers, send_initial_packet, now. quiet. Qed.
End opened.

(** ** What the application writes *)

(** What a turn of the loop accepts for the stream [id]. *)
Definition accepts (id : Z) (ev : Event) `{LM : Libm} (a : Actor) : bytes :=
  match ev with
  | Message (ActorMessage.OutgoingData j data) =>
      if bool_decide (j = id) && is_ok (process_outgoing_data j data a).1 then data else []
  | _ => []
  end.

Section writing.
Context `{BC : BytesCrate} {BL : BytesLaws} `{HK : Hkdf} `{AE : Aead} {AL : AeadLaws} {AY : AeadTyped}.
Context `{CC : ChaCha20} {KT : KeystreamTotal} {KY : KeystreamTyped} `{LM : Libm} `{EV : Env} {ET : EnvTyped}.
Context `{SH : Sha256} {SL : Sha256Laws} `{ED : Ed25519} {EL : Ed25519Laws} `{XD : X25519}.
Context (client : bool) (top : Z).

(** A write does not depend on the rest of the actor. *)
Lemma outgoing_conn id data a a' :
  conn a' = conn a → (process_outgoing_data id data a').1 = (process_outgoing_data id data a).1.
Proof. intros E. unfold process_outgoing_data. rewrite E. by repeat case_match. Qed.

Lemma opened_own (l : Ledger) a id w :
  sound (LG := l) client top a → ids_opened a → l = Some (id, w) → is_Some (streams (conn a) !! id) → id < next_stream_id a.
Proof.
  intros Sa O Hl [s Hs]. destruct (so_ledger _ _ _ Sa id w Hl) as [Hi _]. destruct (O id s Hs) as [Hp|]; [|done].
  rewrite (so_client _ _ _ Sa) in Hp. rewrite Hi in Hp. by destruct client.
Qed.

Lemma turn_writes id w data tm a :
  let ev := Message (ActorMessage.OutgoingData id data) in
  sound (LG := Some (id, w)) client top a → ids_opened a → blob data →
  sound (LG := Some (id, w ++ accepts id ev a)) client top (turn ev tm a).2.
Proof.
  intros ev Sa O Hb. set (l' := Some (id, w ++ accepts id ev a) : Ledger). unfold turn.
  apply (leads_bind_post (eq a)); [intros ? <-|intros [[flow tm'] reply]|done].
  - cbn [on_event ev]. do 2 erewrite act_bind_ok by reflexivity. cbn [on_message]. erewrite act_bind_ok by reflexivity.
    set (a1 := _ <| last_active_stream_id := id |>).
    assert (sound (LG := Some (id, w)) client top a1) as S1 by (by apply (sound_view client top a)).
    apply (leads_bind_post (eq a1)); [intros ? <-|intros result|done].
    + pose proof (sound_outgoing client top id data a1 S1 Hb) as H. cbv zeta in H.
      specialize (H (λ w' Hl Hs, opened_own (Some (id, w)) a id w' Sa O Hl Hs)).
      assert (accepts id ev a = if is_ok (process_outgoing_data id data a1).1 then data else []) as Ea.
      { unfold accepts, ev. by rewrite bool_decide_true, (outgoing_conn id data a a1). }
      unfold l', attempt. rewrite Ea. clear Ea l'. destruct (process_outgoing_data id data a1) as [[[]|e|] a2]; cbn [fst snd is_ok andb] in *.
      * unfold record in H. by rewrite decide_True in H.
      * by rewrite app_nil_r.
      * by rewrite app_nil_r.
    + apply runs_preserves with (P := True) (Q := λ _, True), runs_paced.
  - destruct flow; [|apply preserves_ret..].
    apply runs_preserves with (P := True) (Q := λ _, True).
    eapply runs_then; [apply runs_after_event|]. intros tm''. by apply runs_ret.
Qed.

Lemma turn_ledger id w ev tm a :
  sound (LG := Some (id, w)) client top a → ids_opened a → event_sound ev →
  sound (LG := Some (id, w ++ accepts id ev a)) client top (turn ev tm a).2.
Proof.
  intros Sa O He.
  assert ((∃ data, ev = Message (ActorMessage.OutgoingData id data)) ∨ accepts id ev a = [] ∧ writes_elsewhere (H := Some (id, w)) ev)
    as [[data ->]|[-> Hw]].
  { destruct ev as [[]| | | | | | |]; try by right. destruct (decide (stream_id = id)) as [->|Hj]; [left; by eexists|right].
    cbn. rewrite bool_decide_false by done. split; [done|]. intros w' [= E _]. by destruct Hj. }
  - by apply turn_writes.
  - rewrite app_nil_r. by apply runs_turn.
Qed.
End writing.
