(* ===== verification/EndToEnd.v ===== *)
(** * Streams from end to end

    Two connection actors and a network that loses, repeats and reorders: what the application
    at one end writes to a stream it opened is what the application at the other end gets.
    The sending side keeps a ledger of the writes it accepted ([SoundState], [OwnStreams]), the
    receiving side delivers the prefix of whatever its peer's stream is ([StreamDelivery]);
    the two meet here. *)

From stdpp Require Import strings relations.
From S2P Require Import Prelude Errors Effects Buf Config StreamType Frames FrameFacts FrameProps Packet PacketFacts.
From S2P Require Import PacketNumber HeaderProtection Bitmap ReplayWindow AckTracker Unacked StreamBuffer BufferFacts BufferProps Cookie KeyDerivation CryptoContext CryptoFacts.
From S2P Require Import Float Congestion Termination Connection AckHandling ConnFrame Actor ActFacts PacketSender Retransmit HandshakeHandler.
From S2P Require Import IncomingHandler EventLoop StreamView Endpoint ServerHandshake Router ActorRun EndpointProps RetryOnce WireSafety.
From S2P Require Import SoundState SoundConn SoundSends Reliability StreamDelivery SoundStreams SoundFrames SoundRun SoundEndpoint OwnStreams.

(** ** What a packet delivers *)

Section packets.
Context `{BC : BytesCrate} `{HK : Hkdf} `{AE : Aead} `{CC : ChaCha20}.

(** The frames of a payload, up to one that cannot be read. *)
Fixpoint frames_of (fuel : nat) (s : bytes) : list Frame.t :=
  match fuel with
  | O => []
  | S fuel => if len s =? 0 then [] else match Frame.decode s with (Ok f, s) => f :: frames_of fuel s | _ => [] end
  end.

(** What [decrypt_payload] returns, for the keys of the connection. *)
Definition decrypted (h : PacketHeader.t) (choice : KeyChoice) (aad payload : bytes) (c : ZtConnection) : option bytes :=
  let tag := drop (length payload - 16) payload in
  let payload := take (length payload - 16) payload in
  let pn := PacketHeader.packet_number h in
  match crypto c with
  | Some k =>
      match choice with
      | NextKey => match trial_decrypt_and_rotate k pn aad payload tag with Ok (pt, _) => Some pt | _ => None end
      | PrevKey => match decrypt_in_place k pn aad payload tag true with Ok pt => Some pt | _ => None end
      | CurrentKey => match decrypt_in_place k pn aad payload tag false with Ok pt => Some pt | _ => None end
      end
  | None => None
  end.

(** What the keys of a connection open a datagram to. *)
Definition opened (data : bytes) (c : ZtConnection) : option bytes :=
  let short := match data with b :: _ => Z.land b 0x80 =? 0 | [] => false end in
  match (data ← unprotect data short c; split_packet data) with
  | Ok (h, aad, payload) =>
      let highest := default 0 (highest_processed (replay_window c)) in
      let h := h <| PacketHeader.packet_number ::= λ pn, expand_pn pn (PacketHeader.pn_len h) highest |> in
      decrypted h (choose_key h short highest c) aad payload c
  | _ => None
  end.

Definition frames_in (data : bytes) (c : ZtConnection) : list Frame.t :=
  from_option (λ pt, frames_of (length pt) pt) [] (opened data c).

Context `{LM : Libm} `{EV : Env} `{SH : Sha256} `{ED : Ed25519} `{XD : X25519}.
Context (I : Actor → Prop) {V : StreamView I} (ok : Frame.t → Prop).
Context (Hf : ∀ f from, ok f → preserves I (handle_frame f from)).

Lemma frames_kept fuel s from : Forall ok (frames_of fuel s) → preserves I (handle_frames fuel s from).
Proof.
  revert s. induction fuel as [|fuel IH]; intros s; cbn [frames_of handle_frames]; destruct (len s =? 0); intros F; [walk..|].
  destruct (Frame.decode s) as [[f|e|] s']; [|walk..]. apply Forall_cons in F as [F1 F2].
  apply preserves_bind; [by apply Hf|]. intros _. by apply IH.
Qed.

(** What follows a successful decryption. *)
Lemma plaintext_kept h pt from :
  Forall ok (frames_of (length pt) pt) →
  preserves I (modify (λ a, if bool_decide (state (conn a) = Handshaking) && negb (on_client a)
                            then a <| conn ::= λ c, c <| state := Active |> |> else a);;
    check_path from;;
    t ← now;
    on_conn (conn_mark_processed (PacketHeader.packet_number h) t);;
    handle_frames (length pt) pt from).
Proof.
  intros F. pose proof (frames_kept _ _ from F). pose proof (quiet_check_path I from). pose proof (quiet_mark_processed I).
  unfold now. quiet. intros a Ia. destruct (_ && _); by quietly.
Qed.

Lemma receive_kept h choice aad payload from a :
  Forall ok (from_option (λ pt, frames_of (length pt) pt) [] (decrypted h choice aad payload (conn a))) → I a →
  I (receive_protected h choice aad payload from a).2.
Proof.
  unfold decrypted. intros F Ia. unfold receive_protected. destruct (crypto (conn a)) as [k|] eqn:Ek.
  2: { rewrite (act_bind_err _ _ _ Unauthorized a); [exact Ia|]. unfold get_crypto. by rewrite Ek. }
  rewrite (act_bind_ok _ _ _ k a) by (unfold get_crypto; by rewrite Ek). destruct (_ <? _); [done|]. cbv zeta in F |- *.
  set (tag := drop _ payload) in *. set (ct := take _ payload) in *. unfold decrypt_payload. cbv zeta.
  destruct choice.
  3: destruct (trial_decrypt_and_rotate k (PacketHeader.packet_number h) aad ct tag) as [[pt k']|e|].
  1: destruct (decrypt_in_place k (PacketHeader.packet_number h) aad ct tag false) as [pt|e|].
  4: destruct (decrypt_in_place k (PacketHeader.packet_number h) aad ct tag true) as [pt|e|].
  all: try exact Ia.
  all: erewrite act_bind_ok by reflexivity; apply (plaintext_kept h pt from F); by quietly.
Qed.

(** A predicate on streams that the frames in a packet keep is kept by the packet. *)
Lemma packet_kept data from a : Forall ok (frames_in data (conn a)) → I a → I (process_incoming_packet data from a).2.
Proof.
  unfold frames_in, opened. intros F Ia. unfold process_incoming_packet. erewrite act_bind_ok by reflexivity.
  set (a1 := a <| conn ::= λ c, c <| bytes_received ::= λ n, wrap 64 (n + len data) |> |>).
  assert (I a1) as I1 by (by quietly). cbv zeta. set (short := match data with b :: _ => _ | [] => false end) in *.
  erewrite act_bind_ok by reflexivity. cbv beta. change (unprotect data short (conn a1)) with (unprotect data short (conn a)).
  destruct (unprotect data short (conn a)) as [d|e|]; [|done|done]. erewrite act_bind_ok by reflexivity. cbn [mbind res_bind] in F.
  destruct (split_packet d) as [[[h aad] payload]|e|]; [|done|done]. erewrite act_bind_ok by reflexivity. cbv beta iota.
  erewrite act_bind_ok by reflexivity. destruct (is_initial h && _).
  { case_match; [|done]. revert I1. apply preserves_bind; [by apply preserves_attempt, quiet_sendmsg|intros ?; walk]. }
  unfold dispatch_packet. do 2 erewrite act_bind_ok by reflexivity. cbv beta. destruct (conn_is_replay _ _); [done|]. cbv zeta.
  destruct (PacketHeader.p_type _); [done| | | | |]; revert I1.
  - apply preserves_when. intros _. by apply quiet_handshake_response.
  - intros I1. destruct (_ || _); [|done]. by apply receive_kept.
  - intros I1. destruct (_ || _); [|done]. by apply receive_kept.
  - intros I1. destruct (_ || _); [|done]. by apply receive_kept.
  - apply preserves_when. intros _. by apply quiet_send_initial.
Qed.

Lemma packet_turn_kept data from tm a :
  Forall ok (frames_in data (conn a)) → I a → I (turn (Message (ActorMessage.IncomingPacket data from)) tm a).2.
Proof.
  intros F Ia. unfold turn. apply (leads_bind_post (eq a)); [intros ? <-|intros [[flow tm'] reply]|done].
  - cbn [on_event]. do 2 erewrite act_bind_ok by reflexivity. cbn [on_message]. unfold on_packet. set (a1 := a <| questions ::= S |>).
    apply (leads_bind_post (eq a1)); [intros ? <-|intros result|done].
    + assert (I (process_incoming_packet data from a1).2) as H by (apply packet_kept; [exact F|by quietly]).
      unfold attempt. by destruct (process_incoming_packet data from a1) as [[]].
    + unfold paced, reset_pacing, now. quiet.
  - unfold after_event, update_rto_timer, now. quiet.
Qed.
End packets.

(** ** Two ends and a network *)

(** The actor that writes, the one that reads, what was accepted for the stream, and what the
    network has taken of the first: it may deliver it at any time, any number of times, or never. *)
Record World := mkWorld { near : Actor; far : Actor; written : bytes; carried : list UnackedPayload.t }.

Section world.
Context `{BC : BytesCrate} {BL : BytesLaws} `{HK : Hkdf} `{AE : Aead} {AL : AeadLaws} {AY : AeadTyped}.
Context `{CC : ChaCha20} {KT : KeystreamTotal} {KY : KeystreamTyped} `{LM : Libm}.
Context `{SH : Sha256} {SL : Sha256Laws} `{ED : Ed25519} {EL : Ed25519Laws} `{XD : X25519} {XL : X25519Laws}.
Context (near_env : Env) {ET : EnvTyped (H := near_env)} (far_env : Env) (id : Z).

(** A frame of something the network has, or one without data of the stream. *)
Definition from_near (w : World) (f : Frame.t) : Prop :=
  (∃ p n, p ∈ carried w ∧ payload_frame p n = Ok f)
  ∨ match f with Frame.Stream j _ _ _ => j ≠ id | _ => True end.

(** What happens in it.  The first end handles any event, packets of any contents included; the
    network takes what that end has queued or in flight; the second end handles such frames, datagrams
    that its keys open to nothing else, and its other events. *)
Inductive step : World → World → Prop :=
  | near_turns w ev tm :
      event_sound ev →
      step w (mkWorld (turn (EV := near_env) ev tm (near w)).2 (far w) (written w ++ accepts id ev (near w)) (carried w))
  | network_takes w p :
      live p (conn (near w)) → step w (mkWorld (near w) (far w) (written w) (p :: carried w))
  | far_handles w f from :
      from_near w f → step w (mkWorld (near w) (handle_frame (EV := far_env) f from (far w)).2 (written w) (carried w))
  | far_turns w ev tm :
      match ev with
      | Message (ActorMessage.IncomingPacket data _) => Forall (from_near w) (frames_in data (conn (far w)))
      | _ => True
      end →
      step w (mkWorld (near w) (turn (EV := far_env) ev tm (far w)).2 (written w) (carried w)).

(** A connection's actor when its task starts, on a client and on a server. *)
Inductive fresh_end (e : Endpoint) : bool → Actor → Prop :=
  | fresh_client to scid dcid secret :
      cid_ok scid → cid_ok dcid → fresh_end e true (client_actor e to scid dcid secret)
  | fresh_server au from scid shared t pn c :
      cid_ok scid → cid_ok (PacketHeader.scid (au_header au)) →
      accept_connection (ep_config e) (ep_psk e) au from scid shared t = Ok (pn, c) →
      fresh_end e false (server_actor e c scid).

Context (client : bool) (top : Z).

(** *** The writing end *)

Definition near_ok (w : World) : Prop :=
  sound (LG := Some (id, written w)) client top (near w) ∧ ids_opened (near w)
  ∧ Forall (payload_sound (H := Some (id, written w)) client) (carried w).

Lemma live_sound {l : Ledger} p c : conn_sound client top c → live p c → payload_sound client p.
Proof.
  intros C [(pn & up & Hg & <-)|Hq].
  - pose proof (cs_unacked _ _ _ C) as F. unfold Window.get in Hg. destruct (pn <? _); [done|].
    destruct (deque _ !! _) as [[up'|]|] eqn:E; [|done..]. injection Hg as ->. by apply (Forall_lookup_1 _ _ _ _ F E).
  - unfold queued in Hq. apply list_elem_of_fmap in Hq as (x & -> & Hx). pose proof (cs_queue _ _ _ C) as F.
    rewrite Forall_forall in F. by apply F.
Qed.

Lemma near_step w w' : step w w' → near_ok w → near_ok w'.
Proof.
  intros [w0 ev tm He|w0 p Hp|w0 f from _|w0 ev tm _] (Sa & O & F); try done.
  - split_and!; cbn.
    + by apply turn_ledger.
    + by apply opened_turn.
    + eapply Forall_impl; [exact F|]. intros p Hp. apply (payload_record client _ id (accepts id ev (near w0))) in Hp.
      unfold record in Hp. by rewrite decide_True in Hp.
  - split_and!; [done|done|]. constructor; [|done]. eapply live_sound; [apply Sa|done].
Qed.

(** *** The reading end *)

(** The byte at an offset of what was written. *)
Definition byte_at (w : bytes) (i : Z) : Z := default 0 (w !! Z.to_nat i).

Lemma slice_piece pre data post : stream_slice (byte_at (pre ++ data ++ post)) (len pre) (len pre + len data) = data.
Proof.
  apply list_eq. intros i. pose proof (len_nonneg pre). destruct (decide (i < length data)%nat) as [Hi|Hi].
  - rewrite stream_slice_lookup by (unfold len; lia). unfold byte_at.
    replace (Z.to_nat (len pre + Z.of_nat i)) with (length pre + i)%nat by (unfold len; lia).
    rewrite lookup_app_r, lookup_app_l by lia. replace (length pre + i - length pre)%nat with i by lia.
    destruct (lookup_lt_is_Some_2 data i Hi) as [x ->]. done.
  - rewrite (lookup_ge_None_2 data) by lia. apply lookup_ge_None_2.
    pose proof (len_stream_slice (byte_at (pre ++ data ++ post)) (len pre) (len pre + len data)). unfold len in *. lia.
Qed.

Context (total : bytes) (maxcap : Z) (Hcap : 0 < maxcap) (Hmax : len total + maxcap < 2 ^ 63).

Definition far_ok (w : World) : Prop := delivering (λ _, byte_at total) (len total) maxcap (λ j, j = id) (far w).

Lemma payload_honest w p n f :
  w `prefix_of` total → payload_sound (H := Some (id, w)) client p → payload_frame p n = Ok f →
  honest (λ _, byte_at total) (len total) (λ j, j = id) f.
Proof.
  intros [more ->] Hp Hf. destruct p; cbn in Hf; try done; injection Hf as <-; try done. intros ->.
  destruct Hp as [_ Hp]. destruct (Hp w eq_refl) as (pre & post & -> & ->).
  rewrite <- !(assoc_L (++)), !len_app in *. pose proof (len_nonneg pre). pose proof (len_nonneg data).
  pose proof (len_nonneg post). pose proof (len_nonneg more).
  replace (wrap 64 (len pre)) with (len pre) by (unfold wrap; symmetry; apply Z.mod_small; lia).
  split_and!; [lia|lia|]. by rewrite slice_piece.
Qed.

Lemma near_honest w f :
  written w `prefix_of` total → near_ok w → from_near w f → honest (λ _, byte_at total) (len total) (λ j, j = id) f.
Proof.
  intros Hw (_ & _ & F) [(p & n & Hp & Hf)|Hf]; [|by destruct f]. rewrite Forall_forall in F.
  eapply payload_honest; [exact Hw|by apply F|done].
Qed.

Lemma far_step w w' : step w w' → written w `prefix_of` total → near_ok w → far_ok w → far_ok w'.
Proof.
  intros S Hw N D. destruct S as [w0 ev tm _|w0 p _|w0 f from Hf|w0 ev tm He]; [done|done|..].
  - apply del_handle_frame; [exact Hmax|tc_solve|apply len_nonneg|by eapply near_honest|done].
  - assert ((∃ data from, ev = Message (ActorMessage.IncomingPacket data from))
      ∨ ∀ data from, ev ≠ Message (ActorMessage.IncomingPacket data from)) as [(data & from & ->)|Hn].
    { destruct ev as [[]| | | | | | |]; [left; by eexists _, _|by right..]. }
    + eapply packet_turn_kept; [apply delivering_view| |eapply Forall_impl; [exact He|intros f; by apply near_honest]|done].
      intros f from'. apply del_handle_frame; [exact Hmax|tc_solve|apply len_nonneg].
    + by apply del_turn; [exact Hmax|tc_solve|apply len_nonneg|..].
Qed.

(** What is written stays written. *)
Lemma step_written w w' : step w w' → written w `prefix_of` written w'.
Proof. intros []; cbn; [by apply prefix_app_r|done..]. Qed.

Lemma world_ok w w' :
  rtc step w w' → near_ok w → far_ok w → written w' `prefix_of` total → near_ok w' ∧ far_ok w'.
Proof.
  intros R N D. revert w' R. apply (rtc_ind_r (λ w', written w' `prefix_of` total → near_ok w' ∧ far_ok w')); [done|].
  intros w1 w2 _ S IH Hw. assert (written w1 `prefix_of` total) as Hw1 by (by etrans; [apply step_written|]).
  destruct (IH Hw1) as [N1 D1]. split; [by eapply near_step|by apply (far_step w1)].
Qed.
End world.

Section starts.
Context `{BC : BytesCrate} {BL : BytesLaws} `{HK : Hkdf} `{AE : Aead} {AL : AeadLaws} {AY : AeadTyped}.
Context `{CC : ChaCha20} {KT : KeystreamTotal} {KY : KeystreamTyped} `{LM : Libm} `{EV : Env} {ET : EnvTyped}.
Context `{SH : Sha256} {SL : Sha256Laws} `{ED : Ed25519} {EL : Ed25519Laws} `{XD : X25519} {XL : X25519Laws} `{LG : Ledger}.

(** What an endpoint was bound with. *)
Definition bound_well (e : Endpoint) : Prop :=
  config_typed (ep_config e) ∧ config_valid (ep_config e) ∧ blob (ep_alpn e) ∧ array_ok 32 (ep_public_key e).

Lemma fresh_end_sound e client a :
  bound_well e → fresh_end e client a → blank client →
  sound client (max_stream_window (ep_config e)) a ∧ streams (conn a) = ∅.
Proof.
  intros (T & V & Al & Hk) [to scid dcid secret Hs Hd|au from scid shared t pn c Hs Hd E] B.
  - split; [by apply client_actor_sound|done].
  - pose proof (accept_connection_sound (ep_config e) (ep_psk e) au from scid shared t V Hs Hd) as C. rewrite E in C.
    split; [by apply server_actor_sound|]. unfold accept_connection in E. cbv zeta in E. injection E as _ <-.
    match goal with |- context [conn_mark_processed ?p ?t ?c] => change (streams (conn_mark_processed p t c) = ∅) end.
    unfold conn_mark_processed. by case_match.
Qed.

(** The stream's ledger is empty when the task of the connection has started. *)
Lemma start_sound e client a :
  bound_well e → fresh_end e client a → blank client →
  sound client (max_stream_window (ep_config e)) (start a).2 ∧ ids_opened (start a).2.
Proof.
  intros B F L. destruct (fresh_end_sound e client a B F L) as [Sa Es]. split; [by apply runs_start|].
  apply opened_start. unfold ids_opened. rewrite Es. done.
Qed.
End starts.

(** ** The theorem *)


(** A client opens a stream and writes to it; the network delivers the data twice. *)

#[local] Existing Instances bytes_model CryptoFacts.hkdf_model CryptoFacts.aead_model chacha20_model libm_model.
#[local] Existing Instances sha256_model ed25519_model x25519_model stopped_env_typed.
#[local] Existing Instances bytes_model_laws CryptoFacts.aead_model_laws aead_model_typed chacha20_model_total chacha20_model_typed.
#[local] Existing Instances sha256_model_laws ed25519_model_laws x25519_model_laws.

Definition idle_timers : Timers := mkTimers 0 0 0 0 0 0.
Definition sample_client : Actor := client_actor sample_endpoint sample_addr [1; 2] [3; 4] (zeros 32).
Definition sample_data : UnackedPayload.t := UnackedPayload.Stream 2 Bidirectional 0 [104; 105].

Definition after_near (ev : Event) (w : World) : World :=
  mkWorld (turn (EV := stopped_env) ev idle_timers (near w)).2 (far w) (written w ++ accepts 2 ev (near w)) (carried w).
Definition after_far (f : Frame.t) (w : World) : World :=
  mkWorld (near w) (handle_frame (EV := env_model) f sample_addr (far w)).2 (written w) (carried w).

Definition beginning : World := mkWorld (start (EV := stopped_env) sample_client).2 (sample_end false) [] [].
Definition wrote_hi : World :=
  after_near (Message (ActorMessage.OutgoingData 2 [104; 105])) (after_near (Message (ActorMessage.OpenStream Bidirectional)) beginning).
Definition took_hi : World := mkWorld (near wrote_hi) (far wrote_hi) (written wrote_hi) (sample_data :: carried wrote_hi).
(** The data as a frame, and as a datagram of an established connection. *)
Definition frame_hi : Frame.t := Frame.Stream 2 Bidirectional 0 [104; 105].
Definition datagram_hi : bytes :=
  from_option snd [] (last (outbox (send_payload_with_retries (EV := stopped_env) sample_data 0 (sample_end true)).2)).
Definition got_hi : World := after_far frame_hi took_hi.
Definition got_again : World :=
  mkWorld (near got_hi) (turn (EV := env_model) (Message (ActorMessage.IncomingPacket datagram_hi sample_addr)) idle_timers (far got_hi)).2
    (written got_hi) (carried got_hi).

Lemma hi_queued : (unpaced_queue (conn (near wrote_hi))).*1 = [sample_data].
Proof. vm_compute. reflexivity. Qed.
Lemma hi_carried w : sample_data ∈ carried w → from_near 2 w frame_hi.
Proof. intros H. left. by exists sample_data, 0. Qed.
Lemma hi_frames : frames_in datagram_hi (conn (far got_hi)) = [frame_hi].
Proof. vm_compute. reflexivity. Qed.

Lemma exchange_steps : rtc (step stopped_env env_model 2) beginning got_again.
Proof.
  eapply rtc_l; [apply (near_turns stopped_env env_model 2 beginning (Message (ActorMessage.OpenStream Bidirectional)) idle_timers); exact I|].
  eapply rtc_l; [refine (near_turns stopped_env env_model 2 _ (Message (ActorMessage.OutgoingData 2 [104; 105])) idle_timers _); split; closed|].
  eapply rtc_l; [refine (network_takes stopped_env env_model 2 wrote_hi sample_data _)|].
  { right. unfold queued. rewrite hi_queued. by left. }
  eapply rtc_l; [refine (far_handles stopped_env env_model 2 took_hi frame_hi sample_addr _); apply hi_carried; by left|].
  eapply rtc_l; [refine (far_turns stopped_env env_model 2 got_hi (Message (ActorMessage.IncomingPacket datagram_hi sample_addr)) idle_timers _)|].
  { rewrite hi_frames. apply Forall_singleton, hi_carried. by left. }
  apply rtc_refl.
Qed.

