(* ===== verification/SocketProps.v ===== *)
(** * Binding an endpoint and receiving on its sockets

    A successful bind has started one router per core.  A router handles every datagram it
    receives, in order, as steps of the endpoint, until its task returns; an idle router returns on any
    error. *)

From stdpp Require Import strings.
From S2P Require Import Prelude Errors Effects Buf Config StreamType Frames FrameFacts Packet PacketFacts HeaderProtection Unacked Cookie.
From S2P Require Import KeyDerivation CryptoContext Float Congestion Connection Termination Actor ActFacts StreamHandle PacketSender.
From S2P Require Import Retransmit HandshakeHandler IncomingHandler EventLoop Endpoint ServerHandshake Router Sockets.
From S2P Require Import ActorRun EndpointProps RetryOnce WireSafety SoundState SoundFrames SoundEndpoint.

(** ** Binding *)

Section binding.
Context `{ED : Ed25519} `{SE : SystemEnv}.

(** Everything but the start of a router leaves the routers alone. *)
Abbreviation calm R m := (preserves (λ l, routers l = R) m).

Lemma routers_app l l' : routers (l ++ l') = routers l ++ routers l'.
Proof. apply omap_app. Qed.
Lemma calm_call R c : (∀ i, c ≠ StartRouter i) → calm R (sys_call c).
Proof. intros Hc l E. cbn. rewrite routers_app, E. destruct c; try apply app_nil_r. by destruct (Hc i). Qed.
#[local] Hint Extern 1 (preserves _ (sys_call _)) => apply calm_call; discriminate : preserves.

Lemma calm_buffer R c : (∀ n i, c n ≠ StartRouter i) → calm R (set_buffer c).
Proof. intros Hc. assert (∀ n, calm R (sys_call (c n))) by (intros; by apply calm_call). unfold set_buffer. walk. Qed.
#[local] Hint Extern 1 (preserves _ (set_buffer _)) => apply calm_buffer; discriminate : preserves.
Lemma calm_set_up R i addr : calm R (set_up_socket i addr).
Proof. unfold set_up_socket. walk. Qed.
#[local] Hint Resolve calm_set_up : preserves.
Lemma calm_main R addr : calm R (open_main_socket addr).
Proof. unfold open_main_socket, actual_addr. walk. Qed.

(** A run that starts the routers [n] in order: all of them when it succeeds, and not all when it fails. *)
Definition starts {A} (n : list nat) (l : list Syscall) (x : res A * list Syscall) : Prop :=
  ∃ k, routers x.2 = routers l ++ take k n ∧ match x.1 with Ok _ => k = length n | _ => (k < length n)%nat end.

Lemma starts_calm {A B} n (m : stm (list Syscall) A) (f : A → stm (list Syscall) B) l :
  (∀ R, calm R m) → n ≠ [] → (∀ x l', starts n l' (f x l')) → starts n l ((m ≫= f) l).
Proof.
  intros Hm Hn Hf. specialize (Hm (routers l) l eq_refl). unfold mbind, act_bind. destruct (m l) as [[x|e|] l']; cbn [snd] in Hm.
  - destruct (Hf x l') as (k & E & H). exists k. by rewrite E, Hm.
  - exists 0%nat. rewrite app_nil_r. split; [done|]. destruct n; [done|cbn; lia].
  - exists 0%nat. rewrite app_nil_r. split; [done|]. destruct n; [done|cbn; lia].
Qed.
Lemma starts_one i l : starts [i] l (modify (λ l, l ++ [StartRouter i]) l).
Proof. exists 1%nat. cbn. by rewrite routers_app. Qed.
Lemma starts_app {A B} n n' (m : stm (list Syscall) A) (f : A → stm (list Syscall) B) l :
  starts n l (m l) → (∀ x l', starts n' l' (f x l')) → starts (n ++ n') l ((m ≫= f) l).
Proof.
  intros (k & E & H) Hf. unfold mbind, act_bind. destruct (m l) as [[x|e|] l']; cbn [fst snd] in *.
  - destruct (Hf x l') as (k' & E' & H'). exists (length n + k')%nat. rewrite E', E, H, firstn_all, take_app_add, app_assoc.
    split; [done|]. rewrite length_app. destruct (f x l') as [[y|e|] l2]; cbn [fst snd] in *; lia.
  - exists k. rewrite take_app_le by lia. rewrite length_app. split; [done|cbn; lia].
  - exists k. rewrite take_app_le by lia. rewrite length_app. split; [done|cbn; lia].
Qed.

Ltac starts_walk := repeat (apply starts_calm; [intros R; solve [walk]|done|intros ? ?]).

Lemma starts_task v6 actual i l : starts [i] l (open_task_socket v6 actual i l).
Proof. unfold open_task_socket. starts_walk. apply starts_one. Qed.

Lemma starts_tasks v6 actual is_ l : starts is_ l (open_task_sockets v6 actual is_ l).
Proof.
  revert l. induction is_ as [|i is_ IH]; intros l; cbn [open_task_sockets].
  - exists 0%nat. by rewrite app_nil_r.
  - apply (starts_app [i] is_); [apply starts_task|done].
Qed.

Lemma starts_bind_address addr cores sk ck cfg l :
  starts (seq 0 (Nat.max 1 cores)) l (bind_address addr cores sk ck cfg l).
Proof.
  replace (seq 0 (Nat.max 1 cores)) with ([0%nat] ++ seq 1 (cores - 1)) by (by destruct cores as [|[|n]]; cbn; rewrite ?Nat.sub_0_r).
  unfold bind_address. pose proof calm_main. starts_walk. apply starts_app; [apply starts_one|intros _ l''].
  rewrite <- (app_nil_r (seq 1 (cores - 1))) at 1. apply starts_app; [apply starts_tasks|]. intros _ l3. exists 0%nat. by rewrite app_nil_r.
Qed.

Lemma bind_address_endpoint addr cores sk ck cfg l e l' :
  bind_address addr cores sk ck cfg l = (Ok e, l') → bind_with_zt_config cores sk ck cfg = Ok e.
Proof.
  unfold bind_address, bind_with_zt_config. intros H. apply bind_Ok_inv in H as (u & l1 & H1 & H).
  destruct (config_validate cfg) as [[]|?|]; [|done..].
  repeat (apply bind_Ok_inv in H as (? & ? & _ & H)). cbn in H. by injection H as <- _.
Qed.
End binding.

(** ** Receiving *)

(** The state of the loop after some turns. *)
Fixpoint router_after (s : RouterState) (ts : list Turn) : option RouterState :=
  match ts with
  | [] => Some s
  | Others _ :: ts => router_after s ts
  | Receives x :: ts => match router_next s x with Some s => router_after s ts | None => None end
  end.

(** The steps of the endpoint the turns are, up to the end of the task. *)
Fixpoint router_steps (r : nat) (s : RouterState) (ts : list Turn) : list Step :=
  match ts with
  | [] => []
  | Others st :: ts => st :: router_steps r s ts
  | Receives x :: ts =>
      match x with inl (data, from) => [Datagram r data from] | inr _ => [] end
      ++ match router_next s x with Some s => router_steps r s ts | None => [] end
  end.

Definition turn_sound (t : Turn) : Prop :=
  match t with
  | Receives (inl (data, _)) => bytes_ok data
  | Receives (inr _) => True
  | Others st => step_sound st
  end.

(** Errors that end the task: any while it waits, otherwise all but two. *)
Definition fatal (s : RouterState) (kind : IoErrorKind) : Prop :=
  waiting s = true ∨ kind ≠ WouldBlock ∧ kind ≠ ConnectionReset.

Lemma router_next_ends s x : router_next s x = None ↔ ∃ kind, x = inr kind ∧ fatal s kind.
Proof.
  unfold fatal. destruct x as [d|kind]; cbn.
  - split; [done|]. by intros (? & ? & _).
  - destruct (waiting s); [split; [|done]; intros _; eauto|]. split.
    + intros H. exists kind. split; [done|]. right. by destruct kind.
    + intros (? & [= <-] & [?|[? ?]]); [done|]. by destruct kind.
Qed.

Lemma router_ends s ts :
  router_after s ts = None ↔
  ∃ ts1 s' kind ts2, ts = ts1 ++ Receives (inr kind) :: ts2 ∧ router_after s ts1 = Some s' ∧ fatal s' kind.
Proof.
  split.
  - revert s. induction ts as [|[x|st] ts IH]; intros s; cbn [router_after]; [done|..].
    + destruct (router_next s x) as [s'|] eqn:E.
      * intros (ts1 & s1 & kind & ts2 & -> & H & F)%IH. exists (Receives x :: ts1), s1, kind, ts2. cbn. by rewrite E.
      * intros _. apply router_next_ends in E as (kind & -> & F). by exists [], s, kind, ts.
    + intros (ts1 & s1 & kind & ts2 & -> & H & F)%IH. by exists (Others st :: ts1), s1, kind, ts2.
  - intros (ts1 & s' & kind & ts2 & -> & H & F). revert s H. induction ts1 as [|[x|st] ts1 IH]; intros s; cbn [router_after app].
    + intros [= ->]. by rewrite (proj2 (router_next_ends s' (inr kind))) by eauto.
    + destruct (router_next s x); [apply IH|done].
    + apply IH.
Qed.

Section receiving.
Context `{BC : BytesCrate} {BL : BytesLaws} `{HK : Hkdf} `{AE : Aead} {AL : AeadLaws} {AY : AeadTyped}.
Context `{CC : ChaCha20} {KT : KeystreamTotal} {KY : KeystreamTyped} `{LM : Libm} `{HM : Hmac}.
Context `{SH : Sha256} {SL : Sha256Laws} `{ED : Ed25519} {EL : Ed25519Laws} `{XD : X25519} {XL : X25519Laws}.
Context `{EE : EndpointEnv} {RT : RandomTyped} (envs : nat → Env).

(** A computation that always returns a value. *)
Definition total {A} (m : ep A) : Prop := ∀ e, ∃ x, (m e).1 = Ok x.

Lemma total_bind {A B} (m : ep A) (f : A → ep B) : total m → (∀ x, total (f x)) → total (m ≫= f).
Proof. intros Hm Hf e. destruct (Hm e) as [x E]. unfold mbind, act_bind. destruct (m e) as [r e']. cbn in E. subst r. apply Hf. Qed.
Lemma total_gets {A} (f : Endpoint → A) : total (gets f).
Proof. intros e. by eexists. Qed.
Lemma total_ret {A} (x : A) : total (mret x).
Proof. intros e. by eexists. Qed.
Lemma total_modify f : total (modify f).
Proof. intros e. by eexists. Qed.
Lemma total_post i m : total (try_post i m).
Proof. intros e. unfold try_post. destruct (tasks e !! i); [destruct (_ && _)|]; by eexists. Qed.
Create HintDb total.
#[local] Hint Resolve total_gets total_ret total_modify total_post : total.

Ltac total_walk :=
  repeat match goal with
  | |- total (_ ≫= _) => apply total_bind; [|intros ?]
  | |- total (act_when ?b _) => destruct b; cbn [act_when]
  | |- total (match ?x with _ => _ end) => destruct x
  | |- total skip => apply total_ret
  | |- _ => solve [eauto with total nocore]
  end.

Lemma at_index_no_error d i e : at_index d i ≠ Err e.
Proof. unfold at_index. by destruct (_ && _). Qed.
Lemma slice_no_error d i j e : slice d i j ≠ Err e.
Proof. unfold slice. by destruct (_ && _). Qed.
Lemma dcid_fast_no_error d e : extract_dcid_fast d ≠ Err e.
Proof.
  unfold extract_dcid_fast. destruct (len d =? 0); [done|].
  assert (∀ i j, Some <$> slice d i j ≠ Err e) as Hs.
  { intros i j. pose proof (slice_no_error d i j e). by destruct (slice d i j); [|intros [= ->]|]. }
  pose proof (λ i, at_index_no_error d i e) as Hi.
  destruct (at_index d 0) as [b|e'|] eqn:E0; cbn [mbind res_bind]; [|by intros [= ->]; apply (Hi 0)|done].
  destruct (negb _); (destruct (len d <? _); [done|]).
  - destruct (at_index d 5) as [n|e'|] eqn:E5; cbn [mbind res_bind]; [|by intros [= ->]; apply (Hi 5)|done]. by destruct (_ <? _).
  - destruct (at_index d 1) as [n|e'|] eqn:E1; cbn [mbind res_bind]; [|by intros [= ->]; apply (Hi 1)|done]. by destruct (_ <? _).
Qed.
Lemma dcid_fast_ok d : bytes_ok d → ∃ x, extract_dcid_fast d = Ok x.
Proof.
  intros B. pose proof (dcid_fast_safe d B) as H. destruct (extract_dcid_fast d) as [x|e|] eqn:E; [eauto| |done].
  by destruct (dcid_fast_no_error d e).
Qed.

Lemma route_total r d from : bytes_ok d → total (route r d from).
Proof.
  intros B. unfold route. apply total_bind; [apply total_gets|]. intros size. cbv zeta.
  destruct (dcid_fast_ok (take (Z.to_nat size) d)) as [x ->]; [by apply Forall_take|].
  apply (total_bind (lift (Ok x))); [intros e; by eexists|]. intros dcid. unfold route_cached, start_handshake, is_open, on_cache. total_walk.
Qed.

Lemma serve_total s : total (serve envs s).
Proof.
  intros e. exists tt. destruct s; cbn [serve]; try reflexivity.
  - unfold step_attempt. destruct (attempts e !! j) as [[]|]; [|done..]. by destruct (authenticate _ _ e) as [[[]| |] ?].
  - unfold step_task, on_task. repeat case_match; reflexivity.
  - by destruct (is_request m).
  - by destruct (is_request m).
  - by destruct m.
  - unfold set_alpn. by destruct (_ || _).
Qed.

Lemma total_result (m : ep unit) e : total m → m e = (Ok tt, (m e).2).
Proof. intros H. destruct (H e) as [[] E]. by rewrite <- E, <- surjective_pairing. Qed.

(** The loop is a run of the endpoint. *)
Lemma router_loop_serves r s ts e :
  Forall turn_sound ts →
  router_loop envs r s ts e = (Ok (router_after s ts), serve_all envs (router_steps r s ts) e).
Proof.
  intros H. revert s e. induction H as [|[x|st] ts Ht _ IH]; intros s e; cbn [router_loop router_after router_steps]; [done|..].
  - destruct x as [[d from]|kind]; cbn [app].
    + rewrite (act_bind_ok _ _ _ tt (route r d from e).2) by (by apply total_result, route_total).
      destruct (router_next s _); [|done]. apply IH.
    + erewrite act_bind_ok by reflexivity. destruct (router_next s _); [|done]. apply IH.
  - rewrite (act_bind_ok _ _ _ tt (serve envs st e).2) by (by apply total_result, serve_total). apply IH.
Qed.
End receiving.

(** ** The theorem *)

(** C20: Binding and receiving.  A successful bind yields the endpoint of a valid configuration, with one
    router started for each of its caches; a failed one has started fewer routers, and those keep running.
    However the other tasks interleave, a router hands every datagram it receives to the endpoint, once
    and in order, until its task returns; and the task returns exactly at an error while it waits
    for a batch to begin, be it harmless or not, or at an error other than [WouldBlock] and [ConnectionReset]. *)
Theorem bound_endpoint_serves `{BC : BytesCrate} {BL : BytesLaws} `{HK : Hkdf} `{AE : Aead} `{CC : ChaCha20}
    `{LM : Libm} `{HM : Hmac} `{SH : Sha256} `{ED : Ed25519} `{XD : X25519} `{EE : EndpointEnv} `{SE : SystemEnv} (envs : nat → Env)
    (addr : string) (cores : nat) (sk ck : bytes) (cfg : ZtConfig) (l : list Syscall) (ss : list Step) (r : nat) (ts : list Turn) :
  Forall turn_sound ts →
  match bind_address addr cores sk ck cfg l with
  | (Ok e0, l') =>
      bind_with_zt_config cores sk ck cfg = Ok e0 ∧ routers l' = routers l ++ seq 0 (length (caches e0))
      ∧ let e := serve_all envs ss e0 in
        router_loop envs r new_batch ts e = (Ok (router_after new_batch ts), serve_all envs (router_steps r new_batch ts) e)
        ∧ (router_after new_batch ts = None ↔
             ∃ ts1 s kind ts2, ts = ts1 ++ Receives (inr kind) :: ts2 ∧ router_after new_batch ts1 = Some s ∧ fatal s kind)
  | (_, l') => ∃ k, (k < Nat.max 1 cores)%nat ∧ routers l' = routers l ++ seq 0 k
  end.
Proof.
  intros Ht. destruct (starts_bind_address addr cores sk ck cfg l) as (k & E & H). rewrite length_seq, take_seq in *.
  destruct (bind_address _ _ _ _ _ l) as [[e0|err|] l'] eqn:Eb; cbn [fst snd] in *.
  - pose proof (bind_address_endpoint _ _ _ _ _ _ _ _ Eb) as Hb. split; [done|]. split.
    + rewrite E. unfold bind_with_zt_config in Hb. destruct (config_validate cfg); [|done..]. injection Hb as <-.
      cbn [caches new_endpoint]. rewrite length_replicate. do 2 f_equal. lia.
    + split; [by apply router_loop_serves|apply router_ends].
  - exists k. split; [done|]. rewrite E. do 2 f_equal. lia.
  - exists k. split; [done|]. rewrite E. do 2 f_equal. lia.
Qed.

(** ** Two cases *)

(** A system on which every call succeeds, but for the given one. *)
Definition system_model (broken : Syscall → bool) : SystemEnv := {|
  parse_addr _ := inl sample_addr;
  sys_error _ c := if broken c then Some (PermissionDenied, EmptyString) else None;
  sys_addr _ _ := Some sample_addr;
|}.

(** A router that has handled a datagram ignores [ConnectionReset], and returns on it once it waits. *)
Definition idle_turns : list Turn :=
  [Receives (inl ([64; 0], sample_addr)); Receives (inr ConnectionReset); Receives (inr WouldBlock); Receives (inr WouldBlock);
   Others Accept; Receives (inr ConnectionReset); Receives (inl ([64; 0], sample_addr))].

#[local] Existing Instances bytes_model CryptoFacts.hkdf_model CryptoFacts.aead_model chacha20_model libm_model hmac_model.
#[local] Existing Instances sha256_model ed25519_model x25519_model endpoint_env_model bytes_model_laws.

Lemma bound_endpoint_serves_witness :
  ∃ e0 l', bind_address (SE := system_model (λ _, false)) EmptyString 2 [7] [9] config_default [] = (Ok e0, l')
    ∧ routers l' = [0; 1]%nat ∧ ∃ e, router_loop (λ _, stopped_env) 0 new_batch idle_turns e0 = (Ok None, e).
Proof.
  pose proof (bound_endpoint_serves (SE := system_model (λ _, false)) (λ _, stopped_env) EmptyString 2 [7] [9] config_default [] [] 0 idle_turns) as H.
  destruct (bind_address _ _ _ _ _ _) as [[e0|err|] l'] eqn:E; [|discriminate E..]. exists e0, l'. split; [reflexivity|].
  destruct H as (Hb & Hr & Hl & _); [closed|]. split; [|by eexists].
  rewrite Hr. by injection Hb as <-.
Defined.

(** A bind that fails at the second socket leaves the first router running. *)
Lemma failed_bind_leaves_router :
  let x := bind_address (SE := system_model (λ c, match c with SetReusePort (S _) => true | _ => false end))
             EmptyString 2 [7] [9] config_default [] in
  x.1 = Err (Io PermissionDenied EmptyString) ∧ routers x.2 = [0%nat].
Proof. split; vm_compute; reflexivity. Qed.
