(* ===== verification/Loops.v ===== *)
(** * The loops of the actor terminate

    The model runs the actor's loops with fuel.  The fuel the definitions give is enough: more
    of it changes nothing, so the case of exhausted fuel is never reached. *)

From stdpp Require Import strings.
From S2P Require Import Prelude Errors Effects Buf Config StreamType Frames FrameFacts FrameSafety FrameProps Packet HeaderProtection.
From S2P Require Import Unacked StreamBuffer RangeFacts BufferFacts BufferProps Cookie KeyDerivation CryptoContext Float Congestion.
From S2P Require Import Connection Actor ActFacts PacketSender Retransmit HandshakeHandler IncomingHandler ActorRun Reliability LossRecovery.

Section loops.
Context `{BC : BytesCrate} `{HK : Hkdf} `{AE : Aead} `{CC : ChaCha20} `{LM : Libm} `{EV : Env}.
Context `{SH : Sha256} `{ED : Ed25519} `{XD : X25519}.

Abbreviation ordered := (kept (λ _, True)).

(** Two continuations that agree where the first computation ends. *)
Lemma bind_agree {A B} (m : act A) (f g : A → act B) a :
  (∀ x a', m a = (Ok x, a') → f x a' = g x a') → (m ≫= f) a = (m ≫= g) a.
Proof. intros H. unfold mbind, act_bind. destruct (m a) as [[x|e|] a']; [by apply H|done|done]. Qed.

(** A turn of the pacing loop shortens the queue. *)
Lemma turn_agree q r (next next' : act (option Z)) f failed n a :
  ordered a → head (unpaced_queue (conn a)) = Some (q, r) → (length (unpaced_queue (conn a)) ≤ S n)%nat →
  (∀ c, packet_view (f c) = packet_view c) →
  (∀ a, ordered a → (length (unpaced_queue (conn a)) ≤ n)%nat → next a = next' a) →
  (x ← attempt (send_payload_with_retries q r);
   match x with Err e => failed e | _ => pop_sent (UnackedPayload.payload_len q);; on_conn f;; next end) a
  = (x ← attempt (send_payload_with_retries q r);
     match x with Err e => failed e | _ => pop_sent (UnackedPayload.payload_len q);; on_conn f;; next' end) a.
Proof.
  intros K Hd Hn Hf Hx. apply bind_agree. intros x a' E.
  pose proof (kept_send (λ _, True) q r a K) as K'. pose proof (send_keeps_queue q r a K) as Eq.
  unfold attempt in E. destruct (send_payload_with_retries q r a) as [y a1]. cbn [snd] in K', Eq.
  assert (a' = a1) as -> by (by destruct y; injection E as _ <-).
  assert (∀ a2 : Actor, packet_view (conn a2) = (unacked_packets (conn a1), tail (unpaced_queue (conn a1)),
    next_packet_number (conn a1)) → next a2 = next' a2) as Hx'.
  { intros a2 [= V1 V2 V3]. apply Hx.
    - destruct K' as [W _]. split; [|done]. unfold window_ok, window_below. by rewrite V1, V3.
    - rewrite V2, Eq. destruct (unpaced_queue (conn a)); cbn in *; [done|lia]. }
  destruct x; [|done|]; erewrite !act_bind_ok by reflexivity; apply Hx'; apply Hf.
Qed.

Lemma pacing_fuel rate n k a :
  ordered a → (length (unpaced_queue (conn a)) ≤ n)%nat → pacing_loop (n + k) rate a = pacing_loop n rate a.
Proof.
  revert a. induction n as [|n IH]; intros a K Hn.
  - destruct (unpaced_queue (conn a)) as [|x l] eqn:Q; [|cbn in Hn; lia].
    destruct k; cbn [pacing_loop Nat.add]; erewrite !act_bind_ok by reflexivity; by rewrite Q.
  - cbn [pacing_loop Nat.add]. erewrite !act_bind_ok by reflexivity.
    destruct (head (unpaced_queue (conn a))) as [[q r]|] eqn:Hd; [|done]. erewrite !act_bind_ok by reflexivity.
    destruct (f_ge _ _); [by apply (turn_agree _ _ _ _ _ _ n)|].
    destruct (f_lt _ _); [by apply (turn_agree _ _ _ _ _ _ n)|done].
Qed.
End loops.
