(* ===== verification/Testing.v ===== *)
(** * Support for tests (src/src/simulation.rs, [fuzzing] in src/src/lib.rs)

    With the feature [testing] an endpoint loses and delays packets on purpose: the profile of
    these faults, and what becomes of a packet under it ([sendmsg_vectored] in packet_sender.rs).
    And the entry point of the fuzz targets. *)

From stdpp Require Import strings.
From S2P Require Import Prelude Errors Buf Frames FrameFacts FrameSafety FrameProps.

(** ** Network faults *)

(** [struct SimulationConfig]. *)
Record SimulationConfig := mkSimulationConfig {
  seed : Z;
  loss_rate_pct : Z;
  reorder_rate_pct : Z;
  reorder_delay_ms : Z;
  drop_every_n : Z;
  blackhole_mtu : Z;
  burst_period : Z;
  burst_length : Z;
}.

(** [SimulationConfig::new]. *)
Definition new_simulation (loss_rate_pct reorder_rate_pct reorder_delay_ms : Z) : SimulationConfig :=
  mkSimulationConfig 0x0005eed7e77a (Z.min loss_rate_pct 100) (Z.min reorder_rate_pct 100) reorder_delay_ms 0 0 0 0.

(** The builder methods. *)
Definition with_seed (s : Z) (c : SimulationConfig) : SimulationConfig :=
  mkSimulationConfig s (loss_rate_pct c) (reorder_rate_pct c) (reorder_delay_ms c) (drop_every_n c) (blackhole_mtu c)
    (burst_period c) (burst_length c).
Definition with_periodic_drop (every_n : Z) (c : SimulationConfig) : SimulationConfig :=
  mkSimulationConfig (seed c) (loss_rate_pct c) (reorder_rate_pct c) (reorder_delay_ms c) every_n (blackhole_mtu c)
    (burst_period c) (burst_length c).
Definition with_blackhole_mtu (mtu : Z) (c : SimulationConfig) : SimulationConfig :=
  mkSimulationConfig (seed c) (loss_rate_pct c) (reorder_rate_pct c) (reorder_delay_ms c) (drop_every_n c) mtu
    (burst_period c) (burst_length c).
Definition with_burst_loss (period length : Z) (c : SimulationConfig) : SimulationConfig :=
  mkSimulationConfig (seed c) (loss_rate_pct c) (reorder_rate_pct c) (reorder_delay_ms c) (drop_every_n c) (blackhole_mtu c)
    period (Z.min length period).

(** The three faults that depend on the number and the length of the packet only. *)
Definition periodic_drop (c : SimulationConfig) (sequence : Z) : bool :=
  (0 <? drop_every_n c) && (sequence mod drop_every_n c =? 0).
Definition burst_drop (c : SimulationConfig) (sequence : Z) : bool :=
  (0 <? burst_period c) && (sequence mod burst_period c <? burst_length c).
Definition mtu_drop (c : SimulationConfig) (total_len : Z) : bool :=
  (0 <? blackhole_mtu c) && (blackhole_mtu c <? total_len).

(** What becomes of a packet of an active connection. *)
Inductive Fate := Goes | Lost | Delayed (ms : Z).

(** The [sequence]-th packet, given the numbers [simulation_rng] draws for it. *)
Definition fate (c : SimulationConfig) (sequence total_len loss_roll reorder_roll : Z) : Fate :=
  if periodic_drop c sequence || burst_drop c sequence || mtu_drop c total_len then Lost
  else if (0 <? loss_rate_pct c) && (loss_roll <? loss_rate_pct c) then Lost
  else if (0 <? reorder_rate_pct c) && (0 <? reorder_delay_ms c) && (reorder_roll <? reorder_rate_pct c)
  then Delayed (reorder_delay_ms c)
  else Goes.

(** The number of the packets [first .. first + n - 1] that a burst drops. *)
Definition burst_losses (c : SimulationConfig) (first : Z) (n : nat) : Z :=
  len (filter (λ sequence, burst_drop c sequence = true) (seqZ first (Z.of_nat n))).

(** ** Fuzzing *)

Section fuzzing.
Context `{BC : BytesCrate}.

(** [decode_frames]: the loop stops at an error, and when a frame took no byte. *)
Fixpoint fuzz_loop (fuel : nat) (s : bytes) : res unit :=
  if len s =? 0 then Ok tt
  else match fuel with
  | O => Panic
  | S fuel =>
      match Frame.decode s with
      | (Ok _, s') => if len s <=? len s' then Ok tt else fuzz_loop fuel s'
      | (Err _, _) => Ok tt
      | (Panic, _) => Panic
      end
  end.
Definition decode_frames (data : bytes) : res unit := fuzz_loop (length data) data.
End fuzzing.

(** ** What they do *)

Lemma burst_periodic c i : burst_drop c (i + burst_period c) = burst_drop c i.
Proof.
  unfold burst_drop. destruct (Z.ltb_spec 0 (burst_period c)); [|done].
  replace (i + burst_period c) with (i + 1 * burst_period c) by lia. by rewrite Z_mod_plus_full.
Qed.

(** Moving the window by one packet loses one packet and gains one of the same kind. *)
Lemma burst_losses_shift c i : 0 < burst_period c →
  burst_losses c (i + 1) (Z.to_nat (burst_period c)) = burst_losses c i (Z.to_nat (burst_period c)).
Proof.
  intros Hp. unfold burst_losses. rewrite Z2Nat.id by lia. set (p := burst_period c) in *.
  replace p with (Z.succ (p - 1)) at 2 by lia. rewrite (seqZ_cons i) by lia. replace (Z.pred (Z.succ (p - 1))) with (p - 1) by lia.
  replace p with ((p - 1) + 1) at 1 by lia. rewrite seqZ_app by lia. rewrite (seqZ_cons _ 1), (seqZ_nil _ (Z.pred 1)) by lia.
  rewrite filter_app, len_app, filter_cons, filter_cons, filter_nil.
  replace (i + 1 + (p - 1)) with (i + p) by lia. unfold p. rewrite burst_periodic. rewrite Z.add_1_r.
  destruct (decide (burst_drop c i = true)); rewrite ?len_cons; change (len (@nil Z)) with 0; lia.
Qed.

(** Any [period] packets in a row lose exactly [length] of them, wherever they begin. *)
Lemma burst_loss_exact c period length first :
  0 < period → 0 ≤ length →
  burst_losses (with_burst_loss period length c) first (Z.to_nat period) = Z.min length period.
Proof.
  intros Hp Hl. set (c' := with_burst_loss period length c). transitivity (burst_losses c' 0 (Z.to_nat period)).
  - revert first. apply (Z.bi_induction (λ i, burst_losses c' i (Z.to_nat period) = burst_losses c' 0 (Z.to_nat period))); [by intros ?? ->|done|].
    intros i. rewrite <- Z.add_1_r. by rewrite (burst_losses_shift c' i Hp : burst_losses c' (i + 1) (Z.to_nat period) = _).
  - unfold burst_losses. rewrite Z2Nat.id by lia. set (l := Z.min length period).
    replace period with (l + (period - l)) by lia. rewrite seqZ_app, filter_app, len_app by lia.
    rewrite (filter_all _ (seqZ 0 l)), (filter_none _ (seqZ (0 + l) (period - l))).
    + unfold len. rewrite length_seqZ. cbn. lia.
    + apply Forall_seqZ. intros i Hi. unfold burst_drop. cbn. rewrite Z.mod_small by lia. fold l. lia.
    + apply Forall_seqZ. intros i Hi. unfold burst_drop. cbn. rewrite Z.mod_small by lia. fold l. lia.
Qed.

(** The first packet of a connection has number 1, so that its first period lacks the packet
    a burst begins with: a burst of one packet spares the first packet. *)
Lemma first_burst_spares c : burst_drop (with_burst_loss 10 1 c) 1 = false ∧ burst_drop (with_burst_loss 10 1 c) 10 = true.
Proof. done. Qed.

(** The profile without faults lets every packet go. *)
Lemma no_faults sequence total_len r r' : fate (new_simulation 0 0 0) sequence total_len r r' = Goes.
Proof. done. Qed.

(** The fuzz loop returns on every input: no decoder panics, and each frame takes at least a byte. *)
Lemma decode_frames_returns `{BL : BytesLaws} data : bytes_ok data → u_ok 63 (len data) → decode_frames data = Ok tt.
Proof.
  unfold decode_frames. intros B U. assert (∀ n s, (length s ≤ n)%nat → bytes_ok s → u_ok 63 (len s) → fuzz_loop n s = Ok tt) as Loop.
  { induction n as [|n IH]; intros s Hn Bs Us.
    - by destruct s; [|cbn in Hn; lia].
    - cbn [fuzz_loop]. destruct (len s =? 0); [done|]. pose proof (decode_step s Bs Us) as D. unfold rspec, rwp in D.
      destruct (Frame.decode s) as [[f|e|] s']; [|done|by destruct D]. destruct D as (_ & _ & Bs' & Ls').
      destruct (_ <=? _); [done|]. apply IH; [unfold len in Ls'; lia|done|]. pose proof (len_nonneg s'). unfold u_ok in *. lia. }
  by apply Loop.
Qed.
