(* ===== verification/UnitTests.v ===== *)
(** * The unit tests of the repository

    The modules [tests] of src/src, run on the definitions: a test is a computation that panics when an
    assertion fails, and passes when it returns.  Tests of the cryptography are parameterised by it, and
    run with toy primitives. *)

From stdpp Require Import strings.
From S2P Require Import Prelude Errors Effects Buf Config StreamType Frames FrameFacts FrameProps Packet PacketNumber HeaderProtection.
From S2P Require Import Bitmap ReplayWindow AckTracker Unacked StreamBuffer Cookie KeyDerivation CryptoContext CryptoFacts Float Congestion.
From S2P Require Import Termination Connection AckHandling Actor PacketSender Retransmit HandshakeHandler IncomingHandler.
From S2P Require Import Endpoint ActorRun.

(** ** Assertions *)

Definition assert (b : bool) : res unit := if b then Ok tt else Panic.
Definition assert_eq {A} `{EqDecision A} (x y : A) : res unit := assert (bool_decide (x = y)).
Definition assert_ne {A} `{EqDecision A} (x y : A) : res unit := assert (bool_decide (x ≠ y)).
(** [unwrap] of a [Result] and of an [Option]. *)
Definition unwrap {A} (r : res A) : res A := match r with Ok x => Ok x | _ => Panic end.
Definition unwrap_some {A} (o : option A) : res A := match o with Some x => Ok x | None => Panic end.
Definition is_err {A} (r : res A) : bool := match r with Err _ => true | _ => false end.
Definition is_none {A} (o : option A) : bool := match o with None => true | Some _ => false end.

(** [for x in l { .. }]. *)
Fixpoint for_each {A} (l : list A) (body : A → res unit) : res unit :=
  match l with [] => Ok tt | x :: l => _ ← body x; for_each l body end.

(** ** packet_number.rs *)

Definition truncate_expand_roundtrip : res unit :=
  for_each [(0, 0); (1, 0); (255, 0); (256, 0); (1000, 900); (2 ^ 32 - 1, 2 ^ 32 - 1 - 100);
            (u_max 64 / 2, u_max 64 / 2 - 1)] (λ '(pn, largest_acked),
    let '(truncated, n) := truncate_pn pn largest_acked in
    assert_eq (expand_pn truncated n largest_acked) pn).

Definition expand_pn_out_of_order : res unit := assert_eq (expand_pn 98 1 99) 98.
Definition expand_pn_wraparound_u8 : res unit := assert_eq (expand_pn 0 1 254) 256.

(** [for i in 1..100_000]: [n] turns from [i]. *)
Fixpoint fuzz_loop (n : nat) (i largest_acked : Z) : res unit :=
  match n with
  | O => Ok tt
  | S n =>
      let step := i mod 250 in
      let pn := largest_acked + step in
      let '(truncated, k) := truncate_pn pn largest_acked in
      let expanded := expand_pn truncated k largest_acked in
      _ ← assert_eq expanded pn;
      fuzz_loop n (i + 1) (if i mod 10 =? 0 then pn else largest_acked)
  end.
Definition fuzz_packet_numbers : res unit := fuzz_loop (Z.to_nat 99999) 1 0.

(** ** routing.rs *)

Definition extract_dcid_short_header : res unit :=
  dcid ← extract_dcid_fast [0x02; 3; 1; 2; 3; 0xAA; 0xBB];
  dcid ← unwrap_some dcid;
  assert_eq dcid [1; 2; 3].
Definition extract_dcid_long_header : res unit :=
  dcid ← extract_dcid_fast [0x80; 0; 0; 0; 1; 4; 9; 8; 7; 6; 2; 1; 2];
  dcid ← unwrap_some dcid;
  assert_eq dcid [9; 8; 7; 6].
Definition extract_dcid_empty_or_truncated : res unit :=
  for_each [[]; [0x80; 0; 0; 0; 1]; [0x02]; [0x80; 0; 0; 0; 1; 5; 1; 2; 3; 4]] (λ data,
    dcid ← extract_dcid_fast data;
    assert (is_none dcid)).

(** ** replay_window.rs *)

Definition replay_window_no_replay_initially : res unit :=
  let w := new_window in
  _ ← assert (negb (is_replay 0 w));
  assert (negb (is_replay 100 w)).
Definition replay_window_detects_replay : res unit := assert (is_replay 5 (mark_processed 5 new_window)).
Definition replay_window_too_old_is_replay : res unit := assert (is_replay 0 (mark_processed 3000 new_window)).
Definition replay_window_future_is_not_replay : res unit := assert (negb (is_replay 6 (mark_processed 5 new_window))).

(** ** ack_tracker.rs *)

Definition marked (pns : list Z) : Window := foldl (λ t pn, ack_mark_processed pn t) ack_new pns.

Definition ack_tracker_sequential : res unit := assert_eq (get_ack_ranges (marked (seqZ 0 10))) [(0, 9)].
Definition ack_tracker_with_gap : res unit :=
  let ranges := get_ack_ranges (marked [0; 1; 2; 5; 6; 7]) in
  _ ← assert_eq (len ranges) 2;
  _ ← assert (bool_decide ((5, 7) ∈ ranges));
  assert (bool_decide ((0, 2) ∈ ranges)).
Definition ack_tracker_out_of_order : res unit :=
  let ranges := get_ack_ranges (marked [10; 5; 8]) in
  _ ← assert (bool_decide ((10, 10) ∈ ranges));
  _ ← assert (bool_decide ((8, 8) ∈ ranges));
  assert (bool_decide ((5, 5) ∈ ranges)).
Definition ack_tracker_duplicate_ignored : res unit := assert_eq (get_ack_ranges (marked [5; 5])) [(5, 5)].
Definition ack_tracker_window_overflow_resets : res unit := assert_eq (get_ack_ranges (marked [0; 3000])) [(3000, 3000)].

(** ** unacked_window.rs *)

Definition make_packet : UnackedPacket :=
  mkUnackedPacket (UnackedPayload.Stream 0 Bidirectional 0 (str "x")) 0 0 false 1.

Definition insert_remove_shifts_base_forward : res unit :=
  let w := Window.insert 12 make_packet (Window.insert 11 make_packet (Window.insert 10 make_packet Window.new)) in
  let '(removed, w) := Window.remove 10 w in
  _ ← assert (negb (is_none removed));
  assert_eq (Window.keys w) [11; 12].
Definition insert_with_gap_preserves_keys : res unit :=
  let w := Window.insert 7 make_packet (Window.insert 5 make_packet Window.new) in
  _ ← assert_eq (Window.keys w) [5; 7];
  let '(removed, w) := Window.remove 5 w in
  _ ← assert (negb (is_none removed));
  assert_eq (Window.keys w) [7].
Definition remove_missing_keeps_len : res unit :=
  let '(removed, w) := Window.remove 0 (Window.insert 1 make_packet Window.new) in
  _ ← assert (is_none removed);
  assert_eq (Window.length_of w) 1.
Definition duplicate_insert_does_not_grow_len : res unit :=
  assert_eq (Window.length_of (Window.insert 3 make_packet (Window.insert 3 make_packet Window.new))) 1.

(** ** stream_buffer.rs *)

(** [buf.write(..).unwrap()] and [buf.read_contiguous().unwrap()]. *)
Definition write_some (offset : Z) (data : bytes) (b : StreamReceiveBuffer) : res (Z * StreamReceiveBuffer) :=
  '(added, b) ← write offset data b;
  added ← unwrap_some added;
  Ok (added, b).
Definition read_some (b : StreamReceiveBuffer) : res (bytes * StreamReceiveBuffer) :=
  '(chunk, b) ← read_contiguous b;
  chunk ← unwrap_some chunk;
  Ok (chunk, b).
Definition read_none (b : StreamReceiveBuffer) : res unit :=
  '(chunk, _) ← read_contiguous b;
  assert (is_none chunk).

Definition write_and_read_sequential : res unit :=
  '(_, b) ← write_some 0 (str "hello") (new_buffer 4096);
  '(chunk, b) ← read_some b;
  _ ← assert_eq chunk (str "hello");
  read_none b.
Definition out_of_order_delivery : res unit :=
  '(_, b) ← write_some 5 (str "world") (new_buffer 4096);
  _ ← read_none b;
  '(_, b) ← write_some 0 (str "hello") b;
  '(chunk, b) ← read_some b;
  _ ← assert_eq chunk (str "helloworld");
  read_none b.
Definition duplicate_write_handled : res unit :=
  '(added1, b) ← write_some 0 (str "hello") (new_buffer 4096);
  '(added2, b) ← write_some 0 (str "hello") b;
  _ ← assert_eq added1 5;
  _ ← assert_eq added2 0;
  '(chunk, _) ← read_some b;
  assert_eq chunk (str "hello").
Definition overlapping_write : res unit :=
  '(_, b) ← write_some 0 (str "hello world") (new_buffer 4096);
  '(_, b) ← write_some 6 (str "WORLD!!") b;
  '(chunk, _) ← read_some b;
  assert_eq (len chunk) 13.
Definition circular_wrap_around : res unit :=
  '(_, b) ← write_some 0 (str "0123456789abcdef") (new_buffer 16);
  '(_, b) ← read_contiguous b;
  '(_, b) ← write_some 16 (str "NEW_DATA") b;
  '(chunk, _) ← read_some b;
  assert_eq chunk (str "NEW_DATA").
Definition window_overflow_returns_none : res unit :=
  '(result, _) ← write 0 (zeros 101) (new_buffer 100);
  assert (is_none result).
Definition buffered_ranges_merge_correctly : res unit :=
  '(added1, b) ← write_some 0 (str "12345") (new_buffer 4096);
  '(added2, b) ← write_some 10 (str "abcde") b;
  _ ← assert_eq added1 5;
  _ ← assert_eq added2 5;
  '(_, b) ← read_contiguous b;
  '(added3, b) ← write_some 5 (str "67890") b;
  _ ← assert_eq added3 5;
  '(chunk, _) ← read_some b;
  assert_eq (len chunk) 10.
Definition test_resize : res unit :=
  '(_, b) ← write_some 0 (str "0123456789abcdef") (new_buffer 16);
  '(chunk1, b) ← read_some b;
  _ ← assert_eq chunk1 (str "0123456789abcdef");
  '(_, b) ← write_some 16 (str "1234") b;
  b ← resize 32 b;
  '(_, b) ← write_some 20 (str "5678") b;
  '(chunk2, _) ← read_some b;
  assert_eq chunk2 (str "12345678").

(** ** config.rs *)

Definition default_configuration_is_valid : res unit := unwrap (config_validate config_default).
#[local] Instance upd_cfg_initial_max_data : Upd cfg_initial_max_data := ltac:(derive_upd cfg_initial_max_data).
Definition rejects_wire_incompatible_limits : res unit :=
  assert (is_err (config_validate (config_default <| cfg_initial_max_data := u_max 32 + 1 |>))).

(** ** cookie.rs *)

Section cookie_tests.
Context `{HM : Hmac}.

Definition make_addr : SocketAddr := mkSocketAddr (V4 [127; 0; 0; 1]) 8080.
Definition test_key : bytes := replicate 32 1.

Definition cookie_verify_valid : res unit :=
  let scid := str "client_scid" in
  let now := 1000 in
  let cookie := make_retry_cookie test_key make_addr scid now in
  assert (verify_retry_cookie test_key make_addr scid cookie now 5000).
Definition cookie_verify_expired : res unit :=
  let scid := str "client_scid" in
  let cookie := make_retry_cookie test_key make_addr scid 1000 in
  assert (negb (verify_retry_cookie test_key make_addr scid cookie 6001 5000)).
Definition cookie_verify_wrong_ip : res unit :=
  let addr2 := mkSocketAddr (V4 [192; 168; 1; 1]) 8080 in
  let scid := str "client_scid" in
  let cookie := make_retry_cookie test_key make_addr scid 1000 in
  assert (negb (verify_retry_cookie test_key addr2 scid cookie 1000 5000)).
Definition cookie_verify_wrong_scid : res unit :=
  let cookie := make_retry_cookie test_key make_addr (str "scid_A") 1000 in
  assert (negb (verify_retry_cookie test_key make_addr (str "scid_B") cookie 1000 5000)).
Definition cookie_wrong_length_rejected : res unit :=
  _ ← assert (negb (verify_retry_cookie test_key make_addr (str "scid") (str "too_short") 1000 5000));
  assert (negb (verify_retry_cookie test_key make_addr (str "scid") (zeros 50) 1000 5000)).
Definition cookie_timing_boundary : res unit :=
  let cookie := make_retry_cookie test_key make_addr (str "s") 1000 in
  _ ← assert (verify_retry_cookie test_key make_addr (str "s") cookie 6000 5000);
  assert (negb (verify_retry_cookie test_key make_addr (str "s") cookie 6001 5000)).
End cookie_tests.

(** ** key_derivation.rs *)

Section key_tests.
Context `{HK : Hkdf}.

Definition derive_master_secret_symmetric : res unit :=
  let shared := replicate 32 42 in
  let client_secret := derive_master_secret shared (str "client01") (str "server01") None true in
  let server_secret := derive_master_secret shared (str "server01") (str "client01") None false in
  assert_eq client_secret server_secret.
Definition derive_master_secret_psk_changes_result : res unit :=
  let shared := replicate 32 1 in
  let no_psk := derive_master_secret shared (str "abc") (str "xyz") None true in
  let with_psk := derive_master_secret shared (str "abc") (str "xyz") (Some (replicate 32 99)) true in
  assert_ne no_psk with_psk.
Definition epoch_keys_client_server_differ : res unit :=
  let client_keys := derive_epoch_keys (replicate 32 7) 0 true in
  let server_keys := derive_epoch_keys (replicate 32 7) 0 false in
  _ ← assert_eq (ek_tx_key client_keys) (ek_rx_key server_keys);
  assert_eq (ek_rx_key client_keys) (ek_tx_key server_keys).
Definition hp_keys_client_server_differ : res unit :=
  let '(c_tx, c_rx) := derive_hp_keys (replicate 32 7) true in
  let '(s_tx, s_rx) := derive_hp_keys (replicate 32 7) false in
  _ ← assert_eq c_tx s_rx;
  assert_eq c_rx s_tx.
Definition epoch_suffix_produces_different_keys : res unit :=
  let epoch0 := derive_epoch_keys (replicate 32 3) 0 true in
  let epoch1 := derive_epoch_keys (replicate 32 3) 1 true in
  assert_ne (ek_tx_key epoch0) (ek_tx_key epoch1).
(** [ratchet_secret] overwrites its argument. *)
Definition ratchet_in_place (secret : bytes) : bytes * bytes := (ratchet_secret secret, zeroize secret).
Definition ratchet_produces_different_secret : res unit :=
  let original := replicate 32 5 in
  let '(next, secret) := ratchet_in_place original in
  _ ← assert_ne original next;
  assert_eq secret (zeros 32).
Definition ratchet_is_deterministic : res unit :=
  let '(r1, _) := ratchet_in_place (replicate 32 9) in
  let '(r2, _) := ratchet_in_place (replicate 32 9) in
  assert_eq r1 r2.
End key_tests.

(** ** context.rs *)

Section context_tests.
Context `{HK : Hkdf} `{AE : Aead} `{CC : ChaCha20} `{XD : X25519} (client_random server_random : bytes).

Definition make_context_pair : CryptoContext * CryptoContext :=
  let '(secret, public) := generate_keypair client_random in
  let '(server_secret, server_public) := generate_keypair server_random in
  let client_shared := compute_shared_secret secret server_public in
  let server_shared := compute_shared_secret server_secret public in
  (from_shared_secret client_shared (str "client01") (str "server01") None true,
   from_shared_secret server_shared (str "server01") (str "client01") None false).

Definition encrypt_decrypt_roundtrip : res unit :=
  let '(client, server) := make_context_pair in
  let aad := str "header bytes" in
  let plaintext := str "secret message" in
  '(payload, tag) ← unwrap (encrypt_in_place client 0 aad plaintext);
  _ ← assert_ne payload plaintext;
  payload ← unwrap (decrypt_in_place server 0 aad payload tag false);
  assert_eq payload plaintext.
Definition different_pn_produces_different_ciphertext : res unit :=
  let '(client, _) := make_context_pair in
  let aad := str "aad" in
  '(p1, _) ← unwrap (encrypt_in_place client 0 aad (zeros 32));
  '(p2, _) ← unwrap (encrypt_in_place client 1 aad (zeros 32));
  assert_ne p1 p2.
Definition wrong_aad_fails_decryption : res unit :=
  let '(client, server) := make_context_pair in
  '(payload, tag) ← unwrap (encrypt_in_place client 0 (str "correct_aad") (str "data"));
  assert (is_err (decrypt_in_place server 0 (str "wrong_aad") payload tag false)).
Definition tampered_payload_fails_decryption : res unit :=
  let '(client, server) := make_context_pair in
  let aad := str "aad" in
  '(payload, tag) ← unwrap (encrypt_in_place client 0 aad (str "hello"));
  let payload := alter (λ b, Z.lxor b 0xFF) 0%nat payload in
  assert (is_err (decrypt_in_place server 0 aad payload tag false)).
Definition one_epoch_fallback_works : res unit :=
  let '(client, server) := make_context_pair in
  let aad := str "aad" in
  '(payload, tag) ← unwrap (encrypt_in_place client 0 aad (str "old epoch data"));
  let server := rotate_keys server in
  _ ← unwrap (decrypt_in_place server 0 aad payload tag true);
  Ok tt.
Definition initial_context_symmetric : res unit :=
  let dcid := str "test_dcid_01" in
  let client_ctx := initial dcid true in
  let server_ctx := initial dcid false in
  let aad := str "initial header" in
  '(payload, tag) ← unwrap (encrypt_in_place client_ctx 0 aad (str "handshake data"));
  _ ← unwrap (decrypt_in_place server_ctx 0 aad payload tag false);
  Ok tt.
End context_tests.

(** ** header_protection.rs *)

Section header_tests.
Context `{CC : ChaCha20}.

Definition make_test_packet : bytes := 0x08 :: zeros 29.
Definition too_short : bytes := 0x08 :: zeros 9.

Definition header_protection_roundtrip : res unit :=
  let hp_key := replicate 32 0xAB in
  let pn_offset := 2%nat in
  let original := make_test_packet in
  packet ← unwrap (apply_header_protection original pn_offset hp_key);
  _ ← assert_ne (packet !! 0%nat) (original !! 0%nat);
  _ ← assert_ne (packet !! pn_offset) (original !! pn_offset);
  packet ← unwrap (remove_header_protection packet pn_offset hp_key);
  assert_eq packet original.
Definition apply_hp_short_packet_errors : res unit := assert (is_err (apply_header_protection too_short 2 (zeros 32))).
Definition remove_hp_short_packet_errors : res unit := assert (is_err (remove_header_protection too_short 2 (zeros 32))).
Definition long_header_mask_bits : res unit :=
  let original := 0x80 :: replicate 29 0xAA in
  packet ← unwrap (apply_header_protection original 6 (replicate 32 0xFF));
  first ← unwrap_some (packet !! 0%nat);
  assert_eq (Z.land first 0xF0) (Z.land 0x80 0xF0).
End header_tests.

(** ** frame.rs *)

#[local] Instance TransportParameters_eq_dec : EqDecision TransportParameters.
Proof. solve_decision. Defined.
#[local] Instance Frame_eq_dec : EqDecision Frame.t.
Proof. solve_decision. Defined.

Section frame_tests.
Context `{BC : BytesCrate}.

Definition roundtrip (frame : Frame.t) : res Frame.t := unwrap (Frame.decode (Frame.encode frame [])).1.
Definition survives_roundtrip (f : Frame.t) : res unit := g ← roundtrip f; assert_eq g f.
Definition decode_fails (buf : bytes) : res unit := assert (is_err (Frame.decode buf).1).

Definition stream_frame_roundtrip : res unit := survives_roundtrip (Frame.Stream 42 Bidirectional 1000 (str "hello world")).
Definition transport_parameters_roundtrip : res unit :=
  let parameters := mkTransportParameters 17 65535 262144 1400 30000 in
  _ ← survives_roundtrip (Frame.TransportParameters parameters);
  assert_eq (len (transcript_bytes parameters)) 36.
Definition all_stream_directions_roundtrip_and_invalid_direction_is_rejected : res unit :=
  _ ← for_each [Bidirectional; UnidirectionalOut; UnidirectionalIn] (λ stream_type,
        survives_roundtrip (Frame.Stream 7 stream_type (u_max 32 + 9) (str "direction")));
  decode_fails (put_u8 (put_u64 (put_u8 (put_u32 (put_u8 [] 0x01) 1) 0xff) 0) 0).
Definition invalid_transport_parameters_are_rejected : res unit :=
  _ ← unwrap (params_validate (mkTransportParameters 1 1 1 1 1));
  for_each [mkTransportParameters 0 1 1 1 1; mkTransportParameters 1 0 1 1 1; mkTransportParameters 1 1 0 1 1;
            mkTransportParameters 1 1 1 0 1; mkTransportParameters 1 1 1 1 0] (λ invalid,
    assert (is_err (params_validate invalid))).

(** The generator of the corpus: one byte, and [n] of them. *)
Definition xorshift (state : Z) : Z :=
  let state := Z.lxor state (wrap 64 (Z.shiftl state 13)) in
  let state := Z.lxor state (Z.shiftr state 7) in
  Z.lxor state (wrap 64 (Z.shiftl state 17)).
Fixpoint fuzz_input (n : nat) (state : Z) : bytes * Z :=
  match n with
  | O => ([], state)
  | S n => let state := xorshift state in let '(l, s) := fuzz_input n state in (wrap 8 state :: l, s)
  end.
(** [for case in 0..20_000]: [n] cases from [case]. *)
Fixpoint fuzz_cases (n : nat) (case state : Z) : res unit :=
  match n with
  | O => Ok tt
  | S n =>
      let '(input, state) := fuzz_input (Z.to_nat (case mod 257)) state in
      let original_len := len input in
      let '(r, rest) := Frame.decode input in
      _ ← assert (negb (match r with Panic => true | _ => false end));
      _ ← (if 0 <? original_len then assert (len rest <? original_len) else Ok tt);
      fuzz_cases n (case + 1) state
  end.
Definition decoder_fuzz_corpus_never_panics_or_stalls : res unit := fuzz_cases (Z.to_nat 20000) 0 0xd1cebaadf00d.

Definition ack_frame_roundtrip_with_ranges : res unit :=
  survives_roundtrip (Frame.Ack 500 65536 250 [(400, 450); (480, 499)]).
Definition ack_frame_rejects_invalid_range : res unit :=
  decode_fails (put_u64 (put_u64 (put_u8 (put_u8 (put_u32 (put_u64 (put_u8 [] 0x02) 100) 65536) 0) 1) 50) 10).
Definition decode_truncated_stream_frame_errors : res unit := decode_fails (put_u32 (put_u8 [] 0x01) 1).
Definition ack_range_count_limit : res unit :=
  let buf := put_u8 (put_u8 (put_u32 (put_u64 (put_u8 [] 0x02) 200) 65536) 0) 129 in
  decode_fails (foldl (λ buf i, put_u64 (put_u64 buf (i * 2)) (i * 2 + 1)) buf (seqZ 0 129)).
Definition new_frames_roundtrip : res unit :=
  _ ← survives_roundtrip (Frame.Crypto 100 (str "hello"));
  _ ← survives_roundtrip (Frame.MaxStreams 10);
  _ ← survives_roundtrip (Frame.StreamsBlocked 5);
  survives_roundtrip (Frame.Handshake (replicate 32 1) (replicate 32 2) (replicate 32 3) (replicate 64 4) (str "zetta")).
Definition ping_frame_roundtrip : res unit := survives_roundtrip Frame.Ping.
Definition reset_stream_frame_roundtrip : res unit := survives_roundtrip (Frame.ResetStream 42 0x100 65536).
Definition stop_sending_frame_roundtrip : res unit := survives_roundtrip (Frame.StopSending 7 0x0A).
Definition data_blocked_frame_roundtrip : res unit := survives_roundtrip (Frame.DataBlocked 1048576).
Definition stream_data_blocked_frame_roundtrip : res unit := survives_roundtrip (Frame.StreamDataBlocked 3 65536).
Definition connection_close_v2_roundtrip : res unit := survives_roundtrip (Frame.ConnectionCloseV2 0x01 (str "idle timeout")).
Definition connection_close_v2_empty_reason_roundtrip : res unit := survives_roundtrip (Frame.ConnectionCloseV2 0 []).
End frame_tests.

(** ** connection.rs *)

Section connection_tests.
Context `{LM : Libm}.

Definition connection : ZtConnection :=
  new_with_config (mkSocketAddr (V4 [127; 0; 0; 1]) 4433) (replicate 8 1) (replicate 8 2) config_default.

Definition pmtud_binary_search_bounds_follow_probe_results : res unit :=
  let c := record_mtu_probe_failure 5100 connection in
  _ ← assert_eq (mtu_max c) 5099;
  let c := record_mtu_probe_success 3149 c in
  _ ← assert_eq (mtu c) 3149;
  _ ← assert_eq (mtu_min c) 3149;
  _ ← assert_eq (mtu_probe_failures c) 1;
  assert_eq (mtu_probe_successes c) 1.
Definition pmtud_blackhole_rolls_back_and_restarts_search_below_failed_mtu : res unit :=
  let c := record_mtu_probe_success 4096 connection in
  let '(recovered, c) := recover_mtu_blackhole c in
  _ ← assert recovered;
  _ ← assert_eq (mtu c) 1200;
  _ ← assert_eq (mtu_min c) 1200;
  _ ← assert_eq (mtu_max c) 4095;
  _ ← assert_eq (mtu_blackhole_recoveries c) 1;
  let '(recovered, c) := recover_mtu_blackhole c in
  assert (negb recovered).
End connection_tests.

(** ** handshake.rs *)

Definition test_handshake_replay_protection `{Ed25519} (cores : nat) (signing_key cookie_key : bytes) (elapsed : Z) : res unit :=
  endpoint ← unwrap (bind_with_zt_config cores signing_key cookie_key config_default);
  let dummy_hmac := 0xFF :: zeros 31 in
  let current_time := current_time_millis elapsed in
  let endpoint := endpoint <| replay_filter ::= <[dummy_hmac := current_time]> |> in
  assert (bool_decide (is_Some (replay_filter endpoint !! dummy_hmac))).

(** ** incoming_handler.rs *)

Section handler_tests.
Context `{BC : BytesCrate} `{HK : Hkdf} `{AE : Aead} `{CC : ChaCha20} `{LM : Libm} `{EV : Env}.
Context `{SH : Sha256} `{ED : Ed25519} `{XD : X25519} (random signing_key : bytes).

Definition original_addr : SocketAddr := mkSocketAddr (V4 [127; 0; 0; 1]) 12345.
Definition migrated_addr : SocketAddr := mkSocketAddr (V4 [127; 0; 0; 1]) 54321.

(** The actor both tests make. *)
Definition test_actor (conn : ZtConnection) : Actor :=
  let '(ephemeral_secret, ephemeral_public) := generate_keypair random in
  new_actor config_default (cfg_alpn config_default) conn ephemeral_public (Some ephemeral_secret) (Some signing_key)
    (ed_public signing_key) None None false [1; 2; 3; 4] false.

Definition test_incoming_handler_path_validation : res unit :=
  let dcid := [5; 6; 7; 8] in
  let conn := (new_connection original_addr [1; 2; 3; 4] dcid) <| crypto := Some (initial dcid false) |> in
  let actor := (test_actor conn) <| Actor.conn ::= λ c, c <| state := Active |> |> in
  let challenge_token := replicate 8 0xAA in
  let '(r, actor) := handle_frame (Frame.PathChallenge challenge_token) migrated_addr actor in
  _ ← unwrap r;
  let actor := actor <| pending_validation_addr := Some migrated_addr |> <| path_validation_token := Some challenge_token |> in
  let '(r, actor) := handle_frame (Frame.PathResponse challenge_token) migrated_addr actor in
  _ ← unwrap r;
  _ ← assert_eq (addr (Actor.conn actor)) migrated_addr;
  _ ← assert_eq (pending_validation_addr actor) None;
  assert_eq (path_validation_token actor) None.

Definition test_incoming_handler_max_streams_limit_update : res unit :=
  let actor := test_actor (new_connection original_addr [1; 2; 3; 4] [5; 6; 7; 8]) in
  _ ← assert_eq (peer_max_streams (Actor.conn actor)) 100;
  let '(r, actor) := handle_frame (Frame.MaxStreams 150) original_addr actor in
  _ ← unwrap r;
  _ ← assert_eq (peer_max_streams (Actor.conn actor)) 150;
  let '(r, actor) := handle_frame (Frame.MaxStreams 80) original_addr actor in
  _ ← unwrap r;
  assert_eq (peer_max_streams (Actor.conn actor)) 150.
End handler_tests.

(** ** All of them *)

(** The tests that need no cryptography, nor the loops of the two fuzzing tests. *)
Definition plain_tests `{BC : BytesCrate} `{LM : Libm} : list (res unit) :=
  [truncate_expand_roundtrip; expand_pn_out_of_order; expand_pn_wraparound_u8;
   extract_dcid_short_header; extract_dcid_long_header; extract_dcid_empty_or_truncated;
   replay_window_no_replay_initially; replay_window_detects_replay; replay_window_too_old_is_replay;
   replay_window_future_is_not_replay;
   ack_tracker_sequential; ack_tracker_with_gap; ack_tracker_out_of_order; ack_tracker_duplicate_ignored;
   ack_tracker_window_overflow_resets;
   insert_remove_shifts_base_forward; insert_with_gap_preserves_keys; remove_missing_keeps_len;
   duplicate_insert_does_not_grow_len;
   write_and_read_sequential; out_of_order_delivery; duplicate_write_handled; overlapping_write; circular_wrap_around;
   window_overflow_returns_none; buffered_ranges_merge_correctly; test_resize;
   default_configuration_is_valid; rejects_wire_incompatible_limits;
   stream_frame_roundtrip; transport_parameters_roundtrip;
   all_stream_directions_roundtrip_and_invalid_direction_is_rejected; invalid_transport_parameters_are_rejected;
   ack_frame_roundtrip_with_ranges; ack_frame_rejects_invalid_range; decode_truncated_stream_frame_errors;
   ack_range_count_limit; new_frames_roundtrip; ping_frame_roundtrip; reset_stream_frame_roundtrip;
   stop_sending_frame_roundtrip; data_blocked_frame_roundtrip; stream_data_blocked_frame_roundtrip;
   connection_close_v2_roundtrip; connection_close_v2_empty_reason_roundtrip;
   pmtud_binary_search_bounds_follow_probe_results; pmtud_blackhole_rolls_back_and_restarts_search_below_failed_mtu].

(** The tests of the cryptography and of the actor. *)
Definition crypto_tests `{BC : BytesCrate} `{HK : Hkdf} `{AE : Aead} `{CC : ChaCha20} `{LM : Libm} `{EV : Env} `{HM : Hmac}
    `{SH : Sha256} `{ED : Ed25519} `{XD : X25519} : list (res unit) :=
  let secret := replicate 32 3 in
  let other := replicate 32 5 in
  [cookie_verify_valid; cookie_verify_expired; cookie_verify_wrong_ip; cookie_verify_wrong_scid;
   cookie_wrong_length_rejected; cookie_timing_boundary;
   derive_master_secret_symmetric; derive_master_secret_psk_changes_result; epoch_keys_client_server_differ;
   hp_keys_client_server_differ; epoch_suffix_produces_different_keys; ratchet_produces_different_secret;
   ratchet_is_deterministic;
   encrypt_decrypt_roundtrip secret other; different_pn_produces_different_ciphertext secret other;
   wrong_aad_fails_decryption secret other; tampered_payload_fails_decryption secret other;
   one_epoch_fallback_works secret other; initial_context_symmetric;
   header_protection_roundtrip; apply_hp_short_packet_errors; remove_hp_short_packet_errors; long_header_mask_bits;
   test_handshake_replay_protection 4 secret other 77;
   test_incoming_handler_path_validation secret other; test_incoming_handler_max_streams_limit_update secret other].

(** Toy primitives whose results differ where the tests expect it. *)
Definition toy_mix (l : bytes) : Z := foldl (λ a b, (a * 31 + b) mod 65521) 7 l.
Definition toy_hkdf : Hkdf := {|
  hkdf_extract salt ikm := replicate 32 (wrap 8 (toy_mix (default [] salt ++ ikm)));
  hkdf_expand prk info n := replicate n (wrap 8 (toy_mix (prk ++ info)));
|}.
Definition toy_xor (key nonce data : bytes) : bytes := Z.lxor (toy_mix (key ++ nonce) mod 255 + 1) <$> data.
Definition toy_aead : Aead := {|
  aead_encrypt key nonce aad pt :=
    let ct := toy_xor key nonce pt in Some (ct, replicate 16 (wrap 8 (toy_mix (key ++ nonce ++ aad ++ ct))));
  aead_decrypt key nonce aad ct tag :=
    if decide (tag = replicate 16 (wrap 8 (toy_mix (key ++ nonce ++ aad ++ ct)))) then Some (toy_xor key nonce ct) else None;
|}.
Definition toy_hmac : Hmac := {| hmac_sha256 key msg := replicate 32 (wrap 8 (toy_mix (key ++ msg))) |}.

Definition passes (t : res unit) : bool := match t with Ok _ => true | _ => false end.

Lemma plain_tests_pass : forallb passes (plain_tests (BC := bytes_model) (LM := libm_model)) = true.
Proof. vm_compute. reflexivity. Qed.
Lemma crypto_tests_pass :
  forallb passes (crypto_tests (BC := bytes_model) (HK := toy_hkdf) (AE := toy_aead) (CC := chacha20_model) (LM := libm_model)
    (EV := env_model) (HM := toy_hmac) (SH := sha256_model) (ED := ed25519_model) (XD := x25519_model)) = true.
Proof. vm_compute. reflexivity. Qed.

(** The loop of [fuzz_packet_numbers], of any length: the number is rebuilt when the receiver knows the one it was cut against. *)
Lemma fuzz_loop_passes n i largest_acked :
  0 ≤ i → 0 ≤ largest_acked → largest_acked + 250 * Z.of_nat n < 2 ^ 63 → fuzz_loop n i largest_acked = Ok tt.
Proof.
  revert i largest_acked. induction n as [|n IH]; intros i la Hi Hl Hn; [done|]. cbn [fuzz_loop].
  pose proof (Z.mod_pos_bound i 250 ltac:(lia)). destruct (truncate_pn (la + i mod 250) la) as [t k] eqn:E.
  assert (u_ok 64 (la + i mod 250) ∧ u_ok 64 la) as [Hp Hq] by (unfold u_ok; lia).
  destruct (truncate_pn_spec _ _ _ _ Hp Hl ltac:(lia) E) as (Hk & -> & Hw). rewrite expand_pn_spec; [|done..|].
  - unfold assert_eq. rewrite bool_decide_true by done. cbn. apply IH; [lia|destruct (_ =? _); lia|destruct (_ =? _); lia].
  - change (in_window (la + i mod 250) k la). unfold in_window, sat_add, u_max. set (W := 256 ^ k) in *.
    assert (256 ≤ W) by (change 256 with (256 ^ 1); apply Z.pow_le_mono_r; lia).
    pose proof (Z.div_mod W 2 ltac:(lia)). pose proof (Z.mod_pos_bound W 2 ltac:(lia)). lia.
Qed.
Lemma fuzz_packet_numbers_passes : fuzz_packet_numbers = Ok tt.
Proof. apply fuzz_loop_passes; [done|done|]. rewrite Z2Nat.id by done. done. Qed.

(** *** The decoder's corpus, whole

    A reader that does not panic leaves no more bytes than it found, also when it fails. *)

Section corpus.
Import Frame.
Context `{BC : BytesCrate} {BL : BytesLaws}.

Definition shrinks {A} (P : A → Prop) (m : reader A) : Prop := ∀ s, bytes_ok s →
  match m s with
  | (Ok a, s') => P a ∧ bytes_ok s' ∧ len s' ≤ len s
  | (Err _, s') => len s' ≤ len s
  | (Panic, _) => True
  end.

Lemma shrinks_bind {A B} (P : A → Prop) (Q : B → Prop) (m : reader A) (f : A → reader B) :
  shrinks P m → (∀ a, P a → shrinks Q (f a)) → shrinks Q (m ≫= f).
Proof.
  intros Hm Hf s Hs. specialize (Hm s Hs). unfold mbind, reader_bind. destruct (m s) as [[a|e|] s']; [|done..].
  destruct Hm as (Ha & Hs' & Hl). specialize (Hf a Ha s' Hs'). destruct (f a s') as [[b|e|] s'']; [|lia|done].
  destruct Hf as (? & ? & ?). split_and!; [done|done|lia].
Qed.
Lemma shrinks_ret {A} (P : A → Prop) a : P a → shrinks P (mret a).
Proof. intros Ha s Hs. split_and!; [done|done|lia]. Qed.
Lemma shrinks_throw {A} (P : A → Prop) e : shrinks P (throw e).
Proof. intros s Hs. cbn. lia. Qed.
Lemma shrinks_require n msg : shrinks (λ _, True) (require n msg).
Proof. intros s Hs. unfold require. destruct (_ <? _); [lia|]. split_and!; [done|done|lia]. Qed.
Lemma shrinks_peek : shrinks (λ b, 0 ≤ b) peek.
Proof. intros [|b s] Hs; [done|]. inversion Hs as [|? ? Hb]; subst. split_and!; [apply Hb|done|lia]. Qed.
Lemma shrinks_reads {A} (P : A → Prop) n (f : bytes → A) m :
  reads n f m → (∀ x, bytes_ok x → P (f x)) → shrinks P m.
Proof.
  intros [Hok Hp] HP s Hs. destruct (decide (n ≤ len s)) as [Hn|Hn].
  - rewrite Hok by done. split_and!; [by apply HP, Forall_take|by apply Forall_drop|]. rewrite len_drop. pose proof (len_nonneg s). lia.
  - specialize (Hp s ltac:(lia)). destruct (m s) as [r s']. cbn in Hp. by subst.
Qed.
Lemma shrinks_uint n m : reads n be_val m → shrinks (λ v, 0 ≤ v) m.
Proof. intros H. apply (shrinks_reads _ n be_val); [done|]. intros x Hx. apply be_val_bound, Hx. Qed.
Lemma shrinks_copy n : 0 ≤ n → shrinks (λ _, True) (copy_to_bytes n).
Proof. intros H. by apply (shrinks_reads _ n id); [apply copy_to_bytes_law|]. Qed.
Lemma shrinks_advance n : 0 ≤ n → shrinks (λ _, True) (advance n).
Proof. intros H. by apply (shrinks_reads _ n (λ _, tt)); [apply advance_law|]. Qed.
Lemma shrinks_take n msg : 0 ≤ n → shrinks (λ _, True) (take_bytes n msg).
Proof. intros H. eapply shrinks_bind; [apply shrinks_require|]. intros _ _. by apply shrinks_copy. Qed.
Lemma shrinks_chunk n : shrinks (λ _, True) (chunk_prefix n).
Proof. intros s Hs. unfold chunk_prefix. destruct (_ <? _); [done|]. split_and!; [done|done|lia]. Qed.
End corpus.

Create HintDb shrinks.
#[local] Hint Resolve shrinks_require shrinks_peek shrinks_advance shrinks_copy shrinks_take shrinks_chunk shrinks_throw : shrinks.
#[local] Hint Extern 1 (shrinks _ get_u8) => exact (shrinks_uint 1 _ get_u8_law) : shrinks.
#[local] Hint Extern 1 (shrinks _ get_u16) => exact (shrinks_uint 2 _ get_u16_law) : shrinks.
#[local] Hint Extern 1 (shrinks _ get_u32) => exact (shrinks_uint 4 _ get_u32_law) : shrinks.
#[local] Hint Extern 1 (shrinks _ get_u64) => exact (shrinks_uint 8 _ get_u64_law) : shrinks.

(** One step of a reader. *)
Ltac shrink :=
  cbv beta zeta;
  lazymatch goal with
  | |- shrinks _ (_ ≫= _) => eapply shrinks_bind; [shrink|intros ? ?; shrink]
  | |- shrinks _ (mret _) => apply shrinks_ret; try done
  | |- shrinks ?P (if ?b then _ else _) => try (is_evar P; instantiate (1 := λ _, True)); destruct b; shrink
  | |- shrinks ?P (match ?o with Some _ => _ | None => _ end) => try (is_evar P; instantiate (1 := λ _, True)); destruct o; shrink
  | |- _ => eauto with shrinks lia
  end.

Section decoder.
Import Frame.
Context `{BC : BytesCrate} {BL : BytesLaws}.

Lemma shrinks_varint : shrinks (λ v, 0 ≤ v) get_varint.
Proof. unfold get_varint. shrink; [apply Z.land_nonneg; lia..|done]. Qed.
#[local] Hint Resolve shrinks_varint : shrinks.

Lemma shrinks_zeros fuel n : shrinks (λ _, True) (skip_zeros fuel n).
Proof.
  revert n. induction fuel as [|fuel IH]; intros n s Hs; [done|]. cbn [skip_zeros].
  destruct (_ && _); [|split_and!; [done|done|lia]].
  assert (shrinks (λ _, True) (advance 1;; skip_zeros fuel (n + 1))) as H by shrink. exact (H s Hs).
Qed.
Lemma shrinks_ranges n acc : shrinks (λ _, True) (get_ranges n acc).
Proof. revert acc. induction n as [|n IH]; intros acc; cbn [get_ranges]; shrink. Qed.
#[local] Hint Resolve shrinks_zeros shrinks_ranges : shrinks.

Lemma shrinks_padding : shrinks (λ _, True) decode_padding.
Proof.
  intros s Hs. assert (shrinks (λ _, True) (k ← skip_zeros (S (length s)) 1; mret (Padding k))) as H by shrink. exact (H s Hs).
Qed.
Lemma shrinks_body ty : shrinks (λ _, True) (decode_body ty).
Proof.
  unfold decode_body. destruct ty as [|p|]; [apply shrinks_padding|do 5 (try destruct p)|shrink];
    try (unfold decode_stream, decode_ack, decode_handshake, decode_cookie, decode_stream_close, decode_max_stream_data,
      decode_max_data, decode_datagram, decode_path_challenge, decode_path_response, decode_crypto, decode_max_streams,
      decode_streams_blocked, decode_reset_stream, decode_stop_sending, decode_data_blocked, decode_stream_data_blocked,
      decode_connection_close_v2, decode_transport_parameters; shrink).
Qed.

(** The decoder takes the type of the frame at least, also where it fails. *)
Lemma decode_consumes s r s' : bytes_ok s → u_ok 63 (len s) → 0 < len s → decode s = (r, s') → r ≠ Panic ∧ len s' < len s.
Proof.
  intros Hs Hl H0 E. pose proof (decode_total s Hs Hl) as T. rewrite E in T. split; [by destruct r|].
  unfold decode in E. unfold mbind at 1, reader_bind at 1 in E. rewrite require_ok in E by lia.
  unfold mbind, reader_bind in E. destruct get_u8_law as [G _]. rewrite G in E by lia.
  pose proof (shrinks_body (be_val (take (Z.to_nat 1) s)) (drop (Z.to_nat 1) s) ltac:(by apply Forall_drop)) as B.
  rewrite E, len_drop in B. destruct r as [f|e|]; [destruct B as (_ & _ & B); lia|lia|done].
Qed.

Lemma fuzz_input_ok n state : bytes_ok (fuzz_input n state).1 ∧ len (fuzz_input n state).1 = Z.of_nat n.
Proof.
  revert state. induction n as [|n IH]; intros state; [done|]. cbn [fuzz_input]. destruct (IH (xorshift state)) as [B L].
  destruct (fuzz_input n (xorshift state)) as [l s']. cbn [fst] in *. split; [constructor; [|done]|rewrite len_cons; lia].
  unfold wrap. by apply Z.mod_pos_bound.
Qed.

Lemma fuzz_cases_pass n case state : fuzz_cases n case state = Ok tt.
Proof.
  revert case state. induction n as [|n IH]; intros case state; [done|]. cbn [fuzz_cases].
  pose proof (Z.mod_pos_bound case 257 ltac:(lia)).
  destruct (fuzz_input_ok (Z.to_nat (case mod 257)) state) as [B L]. destruct (fuzz_input _ state) as [input state']. cbn [fst] in *.
  assert (u_ok 63 (len input)) as U by (unfold u_ok; lia). destruct (decode input) as [r rest] eqn:E.
  assert (negb (match r with Panic => true | _ => false end) = true) as ->.
  { pose proof (decode_total input B U) as T. rewrite E in T. by destruct r. }
  cbn [assert mbind res_bind]. destruct (Z.ltb_spec 0 (len input)) as [H0|H0]; [|apply IH].
  destruct (decode_consumes _ _ _ B U H0 E) as [_ Hlt]. replace (len rest <? len input) with true by lia. apply IH.
Qed.

(** The test passes over its whole corpus. *)
Lemma decoder_fuzz_corpus_passes : decoder_fuzz_corpus_never_panics_or_stalls = Ok tt.
Proof. apply fuzz_cases_pass. Qed.
End decoder.
